(* ===== verification/_CoqProject ===== *)
-Q . S2P
Prelude.v
IdSequence.v
Buffer.v
Types.v
Wakeups.v
Env.v
Frames.v
Registry.v
ChannelStatus.v
Messages.v
Acknowledgements.v
Consumers.v
Connection.v
Setup.v
Channel.v
Generated.v
Channels.v
Heartbeat.v
SocketState.v
IoLoop.v
Socket.v
Publishing.v
Supervisor.v
InternalRPC.v
Recovery.v
Handles.v
Cancelling.v
Opening.v
Closing.v
Outage.v
Handshake.v
AuthFailure.v
Auth.v
Connecting.v
Invariant.v
LoopSafety.v
System.v
