(* ===== verification/Prelude.v ===== *)
(** * Lapin, an AMQP 0-9-1 client: verification library

    Lapin (src/src) is an asynchronous client library.  An application holds handles
    ([Connection], [Channel], [Consumer], ackers, publisher confirms); behind them run one
    thread, the io loop, which owns the socket, one dispatcher of internal commands, and the
    futures the dispatcher hands to the async runtime.  They share the queues of frames to
    send, the replies expected from the server, and the status of the connection and of
    every channel.

    ** The parts and how they interact

    - A call of the application (generated/channel.rs, channel.rs) checks the status of the
      channel, queues a method frame, registers the reply it expects and waits for a promise.
    - The io loop (io_loop.rs, buffer.rs, parsing.rs, socket_state.rs) serializes queued frames into
      a ring buffer, writes it to the socket and tells the waiters of the frames written; it reads
      bytes into another ring buffer, parses frames and dispatches them to their channel.
    - A channel receives a method: it takes the expected reply, updates its registry, consumers,
      confirms or receiver of content, and completes the promise; or it queues an internal command.
    - The dispatcher (internal_rpc.rs) runs the commands: acknowledgements, closing, recovery,
      heartbeats, the futures other parts spawn.
    - When the connection is lost, the channels are put aside with their topology, the thread
      reconnects with a backoff, and the recovery future opens the channels again and replays
      their exchanges, queues, bindings and consumers.

    ** How the model corresponds to the code

    Stateful code is in the monad [M S A] of Env.v: a function of the state [S] of the component and of
    the store [Env].  [Env] holds what the code shares through [Arc]: promises, kill switches,
    error holders, notifiers, the consumers behind their handles, the queue of internal
    commands, events and wake-ups; references are numbers handed out in order.  Errors are values
    ([res A]), panics are [None] ([option]) or [Panic] in the io loop.  Every lock of the code
    protects one critical section, which is one operation here; an [async] method is its part
    up to the wait, then what it does when the promise it waits for is completed.  Words are [Z] with the
    wrap-around of their width written out where the code can reach it; a [HashMap] is a [gmap], and
    where the code iterates over one, the order is any order (class [HashOrder]).

    - Prelude.v: results, slices, the automation shared by the files.
    - IdSequence.v: id_sequence.rs.   Buffer.v: buffer.rs and parsing.rs.
    - Types.v: error.rs, queue.rs, the records and enumerations of the other files; the types and constants of
      the amq-protocol crate are the classes [AmqpTypes] and [AmqpProtocol].
    - Wakeups.v: listener.rs and the polls of promise.rs, notifier.rs and consumer.rs, as tasks and producers
      that interleave; the event-listener crate is the class [EventListener], what a future
      waits for the class [Cell].
    - Env.v: promise.rs, killswitch.rs, error_holder.rs, notifier.rs, events.rs, and the methods of
      [InternalRPCHandle] (internal_rpc.rs), the [rpc_] functions.
    - Frames.v: frames.rs.   Registry.v: registry.rs, topology.rs and the requests of
      [Channel::start_recovery], with a [Broker] that serves or refuses them as AMQP has it.
    - ChannelStatus.v: channel_receiver_state.rs, channel_recovery_context.rs, channel_status.rs.
    - Messages.v: message.rs, acker.rs, basic_get_delivery.rs.
    - Acknowledgements.v: acknowledgement.rs, returned_messages.rs, publisher_confirm.rs.
    - Consumers.v: consumer.rs, consumers.rs.   Connection.v: configuration.rs, connection_status.rs,
      connection_closer.rs.
    - Setup.v: connection_properties.rs and [Configuration::new]; the backoff builder of the backon crate is
      the class [SetupTypes].
    - Channel.v: channel.rs; authentication, the settings and the closer of the connection are the class
      [ConnectionHandle]; the drop of a connection in the handshake is [drop_connection_].   Generated.v: generated/channel.rs.   Channels.v: channels.rs.
    - Heartbeat.v: heartbeat.rs, secret_update.rs.   SocketState.v: socket_state.rs.
    - IoLoop.v: one turn of io_loop.rs; the socket and the codec are the classes [Transport] and
      [FrameCodec].   Socket.v: its loops composed with the requests of a channel, from the call over the
      socket to the answer.   Publishing.v: the same for publishes and their confirms.   Supervisor.v:
      the thread of io_loop.rs around them.
    - InternalRPC.v: internal_rpc.rs and the futures it runs.
    - Recovery.v, Outage.v: the recovery of the channels and its failure, composed from the
      dispatcher, the channels and the answers of the server.
    - Handles.v: channel_closer.rs, consumer_canceler.rs and the requests of a
      [Connection] (connection.rs); closing a channel, from the drop of its handle to its removal.
      Opening.v: opening a channel, from the request to the answer, and the ids of closed channels.
      Closing.v: closing a connection.   Cancelling.v: dropping a consumer.
    - Handshake.v: [Connection::connector] and [Connection::start] (connection.rs) composed with the
      channel, the dispatcher and the io loop.   AuthFailure.v: the handshake when the provider of
      the authentication fails.
    - Auth.v: auth.rs, and the task of secret_update.rs composed with a provider, the dispatcher and
      the server; the mechanisms and credentials of the amq-protocol crate are the class [Sasl].
    - Connecting.v: connection_builder.rs, runtime.rs, thread.rs and the ways to connect and [run] of
      connection.rs, from a chain of builder calls to what the server gets; the URI, the TLS
      configuration and the runtimes are the class [Crates].
    - Invariant.v: the invariant of the channels under any sequence of what can happen to them.
      LoopSafety.v: the io loop neither panics nor spins.   System.v: the io thread one step
      at a time, in any interleaving with the application, the dispatcher and the futures.

    ** What the theorems show

    - Refinement and equivalence: the ring buffer is a bounded queue ([ring_refines_queue]); writing
      is sending the queued frames in order, whatever the sizes of the writes ([written_frames]);
      reading in pieces is handling the frames one by one ([input_in_pieces]); confirms follow
      the verdicts of the server ([confirms_refine]); the stream of a consumer is a queue,
      whatever the tasks that poll it ([stream_is_fifo]).
    - Round trip: requests go over the socket and come back with their own answers
      ([calls_over_socket]), publishes with the verdicts on them ([confirms_over_socket]).
    - Functional behaviour end to end: a delivery reaches its consumer ([message_delivered]), calls get
      their own answers ([pipelined_calls], [call_sends]), settlements reach the wire
      ([settlement_sent]), a connection is opened as configured ([configured_client_connects], [backoff_chosen],
      [handshake_opens]) and closes when asked and
      when dropped ([connection_closes], [dropped_connection_closes]), a recovery restores
      the topology ([recovery_restores], [recovery_completes]), ids are free ([create_free_id]), channels
      open and close ([created_channel_opens], [dropped_channel_closes]), dropped consumers are cancelled
      ([dropped_consumer_cancels]), refreshed tokens reach the server ([tokens_reach_server]).
    - Invariants, types and safety: the whole client keeps its invariant, and its io thread goes on, in every interleaving
      ([system_safe], [client_invariant]; that it goes on needs a well-behaved socket, frames that fit and
      buffers that can grow); the io thread panics only where a buffer grows
      ([thread_panics_only_growing]); words keep their widths ([words_keep_width]); publishes are not interleaved
      ([wire_publishes_contiguous]); a delivery is settled once ([settled_at_most_once]); no
      serialized frame is forgotten ([session_end]).
    - Errors, liveness, termination, bounds: a turn of the io loop ends ([turn_ends]); no wake-up is lost
      ([no_lost_wakeup]); a willing socket gets
      everything that is queued ([queue_written]); a lost connection tells whoever waits on the
      queues ([connection_error_fails_all], [drop_pending_completes]; [open_in_flight_untold] is the one it forgets); reconnections are bounded
      ([attempts_bounded]); protocol violations are refused ([unexpected_answer],
      [content_refused], [large_frame_refused]); heartbeats keep their pace
      ([heartbeat_pace], [missing_heartbeat]); frames fit the negotiated size ([body_frames_fit]).
    - Behaviours that are not what the code means to do, each with the states that lead there:
      [closed_id_refused], [drop_race_fails_connection], [dropped_while_recovering_stays],
      [broken_write_never_recovers], [abandoned_recovery_hangs], [auth_failure_hangs],
      [announced_before_topology], [lost_settlement_hangs], [paused_flow_stalls],
      [reset_leaves_waiter], [recovery_doubles_bindings], [grow_contents], [rollback_write].

    ** Fuel and bounds

    Loops that are not structural have fuel.  That it is enough is proved for [clear_steps_loop],
    [chunks_], [create_loop], [serialize_loop] and [handle_frames_loop], whose callers pass the
    bound.  The loops that write to and read from the socket take their fuel as an argument: a turn of
    the io loop has enough of it from some number on, with the same outcome ([turn_ends]), and a turn per byte is enough to write
    ([queue_written]); [session] and [start] of Supervisor.v take the
    list of what happens around them, and their results tell when the list ended first.

    ** Not modelled

    Name resolution, TCP, TLS and the async runtimes (other crates; connection.rs and runtime.rs only
    call them); the drop of a [Connection] that a cancelled open-ok reply or a shut down queue still held, except in
    the handshake steps (the connection is then closing, in error or reconnecting, where its closer does
    nothing); wrappers on a lock (shared.rs) and re-exports (lib.rs); tracing, [Debug] and [Display]; the closing of the
    stream at the end of the thread; what a delegate of a consumer does.
    Memory ordering is not modelled either: the code shares state through locks, and
    through one flag it stores with release and loads with acquire (notifier.rs).

    ** What could follow

    What is modelled covers the code of the client; the step relation of System.v is the place for liveness under
    fair schedules, such as that every call is answered in the end, for which the parts are
    [turn_ends], [queue_written], [no_lost_wakeup] and the end to end theorems. *)
From stdpp Require Export base numbers list gmap strings pretty.
From Stdlib Require Export Lia ZArith.

(** * Results

    Rust's [Result<T, E>]. *)
Inductive result (E A : Type) : Type :=
| Ok (a : A)
| Err (e : E).
Arguments Ok {E A} a.
Arguments Err {E A} e.

#[export] Instance result_eq_dec `{EqDecision E, EqDecision A} : EqDecision (result E A).
Proof. solve_decision. Defined.

Definition is_ok {E A} (r : result E A) : bool :=
  match r with Ok _ => true | Err _ => false end.

(** * Operations that can panic

    [option] stands for code that may panic: [None] is the panic (an index out of
    bounds, a length mismatch, an arithmetic overflow of a checked build). *)
Declare Scope lapin_scope.
Delimit Scope lapin_scope with lapin.
Open Scope lapin_scope.

Notation "'let?' x := e 'in' k" :=
  (match e with Some x => k | None => None end)
  (at level 200, x pattern, e at level 200, k at level 200,
   format "'[v' 'let?'  x  :=  e  'in' '//' k ']'") : lapin_scope.

(** [a - b] on an unsigned machine word, panicking on underflow. *)
Definition usub (a b : nat) : option nat :=
  if decide (b ≤ a) then Some (a - b) else None.

(** [&l[a..b]]. *)
Definition slice {A} (l : list A) (a b : nat) : option (list A) :=
  if decide (a ≤ b ∧ b ≤ length l) then Some (take (b - a) (drop a l)) else None.

(** [dst.copy_from_slice(src)]: panics unless both have the same length. *)
Definition copy_from_slice {A} (dst src : list A) : option (list A) :=
  if decide (length dst = length src) then Some src else None.

(** * Tactics *)

(** Split a goal on the booleans and decisions it branches on. *)
Ltac split_ifs :=
  repeat match goal with
  | |- context [if decide ?P then _ else _] => destruct (decide P)
  | |- context [if ?b then _ else _] => destruct b eqn:?
  end.

(** Clean up boolean hypotheses so that [lia] sees them. *)
Ltac bool_hyps :=
  repeat match goal with
  | H : andb _ _ = true |- _ => apply andb_prop in H as [? ?]
  | H : andb _ _ = false |- _ => apply andb_false_iff in H
  | H : orb _ _ = false |- _ => apply orb_false_elim in H as [? ?]
  | H : negb _ = true |- _ => apply negb_true_iff in H
  | H : negb _ = false |- _ => apply negb_false_iff in H
  end.

Create HintDb lapin.

(** * Generic lemmas on lists and arithmetic *)

Lemma usub_Some a b : b ≤ a → usub a b = Some (a - b).
Proof. intros. unfold usub. by rewrite decide_True. Qed.

Lemma slice_Some {A} (l : list A) a b :
  a ≤ b → b ≤ length l → slice l a b = Some (take (b - a) (drop a l)).
Proof. intros. unfold slice. by rewrite decide_True. Qed.

Lemma slice_inv {A} (l : list A) a b s :
  slice l a b = Some s →
  a ≤ b ∧ b ≤ length l ∧ s = take (b - a) (drop a l).
Proof. unfold slice. intros H. case_decide; [|done]. injection H as <-. tauto. Qed.

Lemma mod_add_cases a b c :
  a < c → b ≤ c → c ≠ 0 →
  ((a + b) `mod` c = a + b ∧ a + b < c) ∨ ((a + b) `mod` c = a + b - c ∧ c ≤ a + b).
Proof.
  intros Ha Hb Hc. destruct (decide (a + b < c)).
  - left. split; [apply Nat.mod_small|]; lia.
  - right. split; [|lia]. symmetry. apply (Nat.mod_unique _ _ 1); lia.
Qed.

#[export] Hint Resolve usub_Some slice_Some : lapin.

Lemma lookup_inserts_if {A} (l k : list A) i j :
  list_inserts i k l !! j =
  if decide (i ≤ j < i + length k ∧ j < length l) then k !! (j - i) else l !! j.
Proof.
  destruct (decide (j < length l)).
  - case_decide; [by apply list_lookup_inserts; lia|].
    destruct (decide (j < i)); [by rewrite list_lookup_inserts_lt|].
    by rewrite list_lookup_inserts_ge by lia.
  - rewrite decide_False by lia.
    rewrite !lookup_ge_None_2 by (rewrite ?length_inserts; lia). done.
Qed.

Lemma lookup_take_if {A} (l : list A) n i :
  take n l !! i = if decide (i < n) then l !! i else None.
Proof. case_decide; [by apply lookup_take_lt|]. by apply lookup_take_ge; lia. Qed.

Lemma lookup_app_if {A} (l1 l2 : list A) i :
  (l1 ++ l2) !! i = if decide (i < length l1) then l1 !! i else l2 !! (i - length l1).
Proof. case_decide; [by apply lookup_app_l|]. by apply lookup_app_r; lia. Qed.

Lemma omap_ext_in {A B} (f g : A → option B) (l : list A) :
  (∀ x, x ∈ l → f x = g x) → omap f l = omap g l.
Proof.
  induction l as [|x l IH]; intros H; [done|]. unfold omap in *. simpl.
  rewrite H by left. rewrite IH; [done|]. intros y Hy. apply H. by right.
Qed.

Lemma tail_drop1 {A} (l : list A) : tail l = drop 1 l.
Proof. by destruct l. Qed.

(** Two lists of the same length that agree on their common positions are equal. *)
Lemma list_eq_length {A} (l k : list A) :
  length l = length k → (∀ i, i < length l → l !! i = k !! i) → l = k.
Proof.
  intros Hlen H. apply list_eq. intros i. destruct (decide (i < length l)); [by apply H|].
  rewrite !lookup_ge_None_2 by lia. done.
Qed.

(** * Hash maps

    A [HashMap] is a finite map whose iteration order is arbitrary: iteration goes
    through an unspecified permutation of the entries. *)
Class HashOrder (K : Type) `{Countable K} : Type := {
  hash_order : ∀ {V : Type}, gmap K V → list (K * V);
  hash_order_perm : ∀ {V : Type} (m : gmap K V), hash_order m ≡ₚ map_to_list m;
}.

(** One such order, to evaluate the model on concrete inputs. *)
Definition canonical_order (K : Type) `{Countable K} : HashOrder K :=
  {| hash_order := λ V m, map_to_list m; hash_order_perm := λ V m, reflexivity _ |}.

Lemma hash_order_elem `{HashOrder K} {V} (m : gmap K V) k v :
  (k, v) ∈ hash_order m ↔ m !! k = Some v.
Proof. rewrite hash_order_perm. apply elem_of_map_to_list. Qed.

Lemma hash_order_empty `{HashOrder K} {V} : hash_order (∅ : gmap K V) = [].
Proof. apply Permutation_nil_r. rewrite hash_order_perm. by rewrite map_to_list_empty. Qed.

Lemma hash_order_NoDup `{HashOrder K} {V} (m : gmap K V) : NoDup (hash_order m).*1.
Proof. rewrite hash_order_perm. apply NoDup_fst_map_to_list. Qed.
