(* ===== verification/IdSequence.v ===== *)
(** Identifier sequences (src/id_sequence.rs): the generator behind channel ids
    ([IdSequence<u16>]) and publisher-confirm delivery tags ([IdSequence<u64>]). *)
From S2P Require Import Prelude.
Open Scope Z_scope.

Module IdSequence.

(** [IdSequence<T>] for an unsigned [T]; the constants [zero] and [one] of the
    struct are the literals [0] and [1]. *)
Record t : Type := mk {
  allow_zero : bool;
  max : option Z;
  id : Z;
}.

(** [T: AddAssign] at width [w]: the sum wraps modulo [2^w]. *)
Definition add_assign (w : Z) (a b : Z) : Z := (a + b) `mod` 2 ^ w.

Definition new (allow_zero : bool) : t := mk allow_zero None 0.

Definition first (s : t) : Z := if allow_zero s then 0 else 1.

Definition current (s : t) : option Z :=
  if id s <=? first s then max s else Some (id s - 1).

Definition set_max (s : t) (m : Z) : t :=
  mk (allow_zero s) (if m =? 0 then None else Some m) (id s).

(** The sequence after the zero-skipping prologue of [next]. *)
Definition skip_zero (w : Z) (s : t) : t :=
  if negb (allow_zero s) && (id s =? 0)
  then mk (allow_zero s) (max s) (add_assign w (id s) 1)
  else s.

Definition next (w : Z) (s : t) : Z * t :=
  let s := skip_zero w s in
  let i := id s in
  if bool_decide (max s = Some i)
  then (i, mk (allow_zero s) (max s) 0)
  else (i, mk (allow_zero s) (max s) (add_assign w i 1)).

(** The ids handed out by [n] successive calls, with the final sequence. *)
Fixpoint next_n (w : Z) (n : nat) (s : t) : list Z * t :=
  match n with
  | O => ([], s)
  | S n => let (i, s') := next w s in
           let (l, s'') := next_n w n s' in (i :: l, s'')
  end.

(** ** Invariants *)

(** The position of the id the next call returns, counted from [0]. *)
Definition cursor (s : t) : Z := if id s =? 0 then 0 else id s - 1.

Lemma add_assign_small w a b : 0 <= a + b < 2 ^ w → add_assign w a b = a + b.
Proof. intros. by apply Z.mod_small. Qed.

(** One step of a bounded sequence that does not allow zero. *)
Lemma next_bounded w m s :
  allow_zero s = false → 0 < m < 2 ^ w → max s = Some m → 0 <= id s <= m →
  ∃ s', next w s = (1 + cursor s, s') ∧
        allow_zero s' = false ∧ max s' = Some m ∧ 0 <= id s' <= m ∧
        cursor s' = (cursor s + 1) `mod` m.
Proof.
  intros Haz Hm Hmax Hid. destruct s as [az mx i]; simpl in *; subst az mx.
  unfold next, skip_zero, cursor; simpl.
  destruct (Z.eqb_spec i 0) as [->|Hi]; simpl.
  - rewrite add_assign_small by lia. simpl.
    case_bool_decide as E; simpl.
    + simplify_eq. eexists; split_and!; eauto; simpl; lia.
    + assert (m ≠ 0 + 1) by congruence.
      rewrite add_assign_small by lia.
      eexists; split_and!; eauto; simpl; try lia. by rewrite Z.mod_small by lia.
  - case_bool_decide as E; simpl.
    + simplify_eq. replace (1 + (i - 1)) with i by lia. replace (i - 1 + 1) with i by lia.
      eexists; split_and!; eauto; simpl; try lia. by rewrite Z.mod_same by lia.
    + assert (m ≠ i) by congruence.
      rewrite add_assign_small by lia.
      replace (1 + (i - 1)) with i by lia.
      eexists; split_and!; eauto; simpl; try lia.
      destruct (Z.eqb_spec (i + 1) 0); [lia|]. rewrite Z.mod_small; lia.
Qed.

Lemma next_n_bounded w m n s :
  allow_zero s = false → 0 < m < 2 ^ w → max s = Some m → 0 <= id s <= m →
  fst (next_n w n s) = (λ k : nat, 1 + (cursor s + Z.of_nat k) `mod` m) <$> seq 0 n.
Proof.
  intros Haz Hm Hmax. revert s Haz Hmax.
  induction n as [|n IH]; intros s Haz Hmax Hid; [done|]; cbn [next_n].
  destruct (next_bounded w m s) as (s' & E & ? & ? & ? & Hc); [done..|].
  rewrite E. destruct (next_n w n s') as [l s''] eqn:En.
  specialize (IH s'). rewrite En in IH. simpl in *.
  rewrite IH by done.
  assert (0 <= cursor s < m).
  { unfold cursor. destruct (Z.eqb_spec (id s) 0); lia. }
  f_equal; [rewrite Z.mod_small; lia|].
  rewrite <- fmap_S_seq, <- list_fmap_compose.
  apply list_fmap_ext. intros _ k _. simpl.
  rewrite Hc, Zplus_mod_idemp_l. do 2 f_equal. lia.
Qed.

(** Bounded cycling.  Starting from a fresh sequence that forbids zero, after
    [set_max m] the successive ids are [1, 2, .., m, 1, 2, ..]: every id is
    in [1 .. m], never [0], and the machine-width increments never wrap. *)
Theorem next_cycles w m n :
  0 < m < 2 ^ w →
  fst (next_n w n (set_max (new false) m)) = (λ k : nat, 1 + Z.of_nat k `mod` m) <$> seq 0 n.
Proof.
  intros Hm. rewrite (next_n_bounded w m); simpl; try done; try lia.
  destruct (Z.eqb_spec m 0); [lia|done].
Qed.

Lemma next_cycles_witness :
  0 < 255 < 2 ^ 8 ∧
  fst (next_n 8 256 (set_max (new false) 255)) = (λ k : nat, 1 + Z.of_nat k `mod` 255) <$> seq 0 256.
Proof. split; [lia|]. apply (next_cycles 8 255 256). lia. Defined.

(** The state of an unbounded, non-zero sequence after [i] calls. *)
Definition after (i : Z) : t := mk false None (if i =? 0 then 0 else i + 1).

Lemma next_after w i :
  0 <= i → i + 2 < 2 ^ w → next w (after i) = (i + 1, after (i + 1)).
Proof.
  intros Hi Hw. unfold next, skip_zero, after; simpl.
  destruct (Z.eqb_spec i 0) as [->|]; simpl.
  - rewrite !add_assign_small by (rewrite ?add_assign_small; lia). done.
  - destruct (Z.eqb_spec (i + 1) 0); [lia|]; simpl. by rewrite add_assign_small by lia.
Qed.

Lemma current_after i : 0 <= i → current (after i) = if i =? 0 then None else Some i.
Proof.
  intros. unfold current, after, first; simpl. destruct (Z.eqb_spec i 0); [done|].
  destruct (Z.leb_spec (i + 1) 1); [lia|]. f_equal; lia.
Qed.

Lemma next_n_after w n i :
  0 <= i → i + Z.of_nat n + 1 < 2 ^ w →
  next_n w n (after i) = ((λ k : nat, i + 1 + Z.of_nat k) <$> seq 0 n, after (i + Z.of_nat n)).
Proof.
  revert i. induction n as [|n IH]; intros i Hi Hw; cbn [next_n].
  - f_equal. f_equal. lia.
  - rewrite next_after, IH by lia. f_equal; [|f_equal; lia].
    cbn [seq]. rewrite fmap_cons. f_equal; [lia|].
    rewrite <- fmap_S_seq, <- list_fmap_compose. apply list_fmap_ext. intros _ k _. simpl. lia.
Qed.

(** Without a bound the tags are [1, 2, 3, ..] and [current] is the last
    tag handed out ([None] before the first one), as long as the counter has
    not reached the top of its width. *)
Theorem tags_count_up w n :
  Z.of_nat n + 1 < 2 ^ w →
  fst (next_n w n (new false)) = (λ k : nat, 1 + Z.of_nat k) <$> seq 0 n ∧
  current (snd (next_n w n (new false))) = if Z.of_nat n =? 0 then None else Some (Z.of_nat n).
Proof.
  intros Hn. change (new false) with (after 0). rewrite next_n_after by lia. simpl.
  split; [done|]. by rewrite current_after by lia.
Qed.

Lemma tags_count_up_witness :
  Z.of_nat 3 + 1 < 2 ^ 64 ∧
  fst (next_n 64 3 (new false)) = [1; 2; 3] ∧ current (snd (next_n 64 3 (new false))) = Some 3.
Proof. split; [lia|]. apply (tags_count_up 64 3). lia. Defined.

End IdSequence.
