(* ===== verification/Buffer.v ===== *)
(** The ring buffer between the socket and the frame codec (src/buffer.rs) and
    the two-slice view the parser works on (src/parsing.rs). *)
From S2P Require Import Prelude.

Notation byte := Corelib.Init.Byte.byte.

(** ** The parser's input (src/parsing.rs) *)

Module Parsing.

(** A slice of the buffer's memory: its start address (counted from the start of
    the memory) and its bytes. *)
Record Slice : Type := mkSlice { addr : nat; bytes : list byte }.

(** [&s[a..b]]. *)
Definition subslice (s : Slice) (a b : nat) : option Slice :=
  let? d := slice (bytes s) a b in Some (mkSlice (addr s + a) d).

Definition slen (s : Slice) : nat := length (bytes s).

(** [ParsingContext]: the two slices seen as one input. *)
Record Ctx : Type := mkCtx { buf0 : Slice; buf1 : Slice }.

(** [From<&[u8]>]: the second slice is the empty tail of the first. *)
Definition of_slice (s : Slice) : option Ctx :=
  let? tail := subslice s (slen s) (slen s) in Some (mkCtx s tail).

Definition as_ptr (c : Ctx) : nat := addr (buf0 c).

(** [iter]: the bytes of both slices, chained. *)
Definition iter (c : Ctx) : list byte := bytes (buf0 c) ++ bytes (buf1 c).

Definition input_len (c : Ctx) : nat := slen (buf0 c) + slen (buf1 c).

Definition take_ (c : Ctx) (count : nat) : option Ctx :=
  if decide (count < slen (buf0 c))
  then let? s := subslice (buf0 c) 0 count in of_slice s
  else let needed := count - slen (buf0 c) in
       let? s := subslice (buf1 c) 0 needed in Some (mkCtx (buf0 c) s).

Definition take_from (c : Ctx) (index : nat) : option Ctx :=
  if decide (index < slen (buf0 c))
  then let? s := subslice (buf0 c) index (slen (buf0 c)) in Some (mkCtx s (buf1 c))
  else let needed := index - slen (buf0 c) in
       let? s := subslice (buf1 c) needed (slen (buf1 c)) in of_slice s.

Definition take_split (c : Ctx) (index : nat) : option (Ctx * Ctx) :=
  if decide (index < slen (buf0 c))
  then let? rest := subslice (buf0 c) index (slen (buf0 c)) in
       let? head := subslice (buf0 c) 0 index in
       let? head := of_slice head in
       Some (mkCtx rest (buf1 c), head)
  else let needed := index - slen (buf0 c) in
       let? rest := subslice (buf1 c) needed (slen (buf1 c)) in
       let? rest := of_slice rest in
       let? head := subslice (buf1 c) 0 needed in
       Some (rest, mkCtx (buf0 c) head).

(** [position]: the index of the first byte satisfying the predicate. *)
Fixpoint find_index (p : byte → bool) (l : list byte) : option nat :=
  match l with
  | [] => None
  | x :: l => if p x then Some 0 else S <$> find_index p l
  end.

Definition position (c : Ctx) (p : byte → bool) : option nat := find_index p (iter c).

(** [slice_index]: [Err] carries the number of missing bytes. *)
Definition slice_index (c : Ctx) (count : nat) : result nat nat :=
  if decide (count ≤ input_len c) then Ok count else Err (count - input_len c).

Inductive CompareResult := CmpOk | CmpIncomplete | CmpError.

Definition compare (c : Ctx) (buf : list byte) : CompareResult :=
  if existsb (λ '(a, b), negb (Byte.eqb a b)) (zip (iter c) buf) then CmpError
  else if decide (length buf ≤ input_len c) then CmpOk
  else CmpIncomplete.

(** ** The parser sees one contiguous input *)

Lemma length_iter c : length (iter c) = input_len c.
Proof. apply length_app. Qed.

Lemma subslice_Some s a b : a ≤ b → b ≤ slen s →
  subslice s a b = Some (mkSlice (addr s + a) (take (b - a) (drop a (bytes s)))).
Proof. intros. unfold subslice. by rewrite slice_Some. Qed.

Lemma of_slice_iter s : ∃ c, of_slice s = Some c ∧ iter c = bytes s ∧ as_ptr c = addr s.
Proof.
  unfold of_slice. rewrite subslice_Some by done. eexists; split; [done|].
  unfold iter, as_ptr, slen; simpl. by rewrite Nat.sub_diag, take_0, app_nil_r.
Qed.

Lemma take_spec c n : n ≤ input_len c → ∃ c', take_ c n = Some c' ∧ iter c' = take n (iter c).
Proof.
  unfold input_len, take_, iter. intros Hn. case_decide.
  - rewrite subslice_Some by lia.
    destruct (of_slice_iter (mkSlice (addr (buf0 c) + 0) (take (n - 0) (drop 0 (bytes (buf0 c))))))
      as (c' & -> & E & _).
    exists c'; split; [done|]. unfold iter in E. rewrite E. simpl.
    rewrite drop_0, Nat.sub_0_r, take_app_le; [done|]. unfold slen in *; lia.
  - rewrite subslice_Some by lia. eexists; split; [done|]. simpl.
    rewrite drop_0, Nat.sub_0_r. unfold slen in *.
    by rewrite take_app, (take_ge (bytes (buf0 c))) by lia.
Qed.

Lemma take_from_spec c n : n ≤ input_len c →
  ∃ c', take_from c n = Some c' ∧ iter c' = drop n (iter c) ∧
        as_ptr c' = (if decide (n < slen (buf0 c)) then addr (buf0 c) + n
                     else addr (buf1 c) + (n - slen (buf0 c))).
Proof.
  unfold input_len, take_from, iter. intros Hn. case_decide.
  - rewrite subslice_Some by lia. eexists; split; [done|]. simpl. unfold slen in *.
    rewrite drop_app_le by lia. rewrite (take_ge (drop _ _)) by (rewrite length_drop; lia). done.
  - rewrite subslice_Some by lia.
    destruct (of_slice_iter (mkSlice (addr (buf1 c) + (n - slen (buf0 c)))
      (take (slen (buf1 c) - (n - slen (buf0 c))) (drop (n - slen (buf0 c)) (bytes (buf1 c))))))
      as (c' & -> & E & Hp).
    exists c'; split; [done|]. split; [|done]. unfold iter in E. rewrite E. simpl. unfold slen in *.
    rewrite take_ge by (rewrite length_drop; lia). rewrite drop_app_ge by lia. done.
Qed.

Lemma take_split_spec c n : n ≤ input_len c →
  ∃ rest head, take_split c n = Some (rest, head) ∧
    take_from c n = Some rest ∧ take_ c n = Some head.
Proof.
  intros Hn. destruct (take_spec c n Hn) as (h & Hh & _).
  destruct (take_from_spec c n Hn) as (r & Hr & _).
  exists r, h. split; [|done]. revert Hh Hr. unfold take_split, take_, take_from.
  case_decide; rewrite !subslice_Some by (unfold input_len in Hn; lia).
  - intros -> [= <-]. done.
  - by intros [= <-] ->.
Qed.

End Parsing.

Module Buffer.

Record t : Type := mk {
  memory : list byte;
  capacity : nat;
  position : nat;
  bend : nat;                    (* the field [end] *)
  avail : nat;                   (* the field [available_data] *)
}.

Record Checkpoint : Type := mkCheckpoint {
  cp_end : nat;
  backwards : bool;
}.

Definition with_capacity (cap : nat) : t := mk (replicate cap Byte.x00) cap 0 0 0.

Definition reset (b : t) : t := mk (memory b) (capacity b) 0 0 0.

Definition checkpoint (b : t) : Checkpoint := mkCheckpoint (bend b) true.

Definition rollback (b : t) (cp : Checkpoint) : option t :=
  if decide (cp_end cp = bend b) then Some b else
  let? data :=
    (if backwards cp then
       if decide (cp_end cp < bend b)
       then usub (avail b) (bend b - cp_end cp)
       else let? back := usub (capacity b) (cp_end cp) in usub (avail b) (bend b + back)
     else if decide (cp_end cp < bend b)
     then let? fwd := usub (capacity b) (bend b) in Some (avail b + (fwd + cp_end cp))
     else Some (avail b + (cp_end cp - bend b))) in
  Some (mk (memory b) (capacity b) (position b) (cp_end cp) data).

(** [v.copy_within(src..src_end, 0)]. *)
Definition copy_within0 (l : list byte) (src src_end : nat) : option (list byte) :=
  let? s := slice l src src_end in Some (s ++ drop (length s) l).

Definition grow (b : t) (new_size : nat) : option (bool * t) :=
  if decide (new_size ≤ capacity b) then Some (false, b) else
  let old_capacity := capacity b in
  let growth := new_size - old_capacity in
  let mem := resize new_size Byte.x00 (memory b) in
  if decide (bend b ≤ position b ∧ 0 < avail b) then
    let old := take old_capacity mem in
    let new := drop old_capacity mem in
    if decide (bend b < growth) then
      let? src := slice old 0 (bend b) in
      let? new := copy_from_slice new src in
      Some (true, mk (old ++ new) new_size (position b) (bend b + old_capacity) (avail b))
    else
      let? src := slice old 0 growth in
      let? new := copy_from_slice new src in
      let? mem := copy_within0 (old ++ new) growth (bend b) in
      Some (true, mk mem new_size (position b) (bend b - growth) (avail b))
  else Some (true, mk mem new_size (position b) (bend b) (avail b)).

Definition available_data (b : t) : nat := avail b.

Definition available_space (b : t) : option nat := usub (capacity b) (avail b).

(** [a % b], panicking on a zero divisor. *)
Definition urem (a b : nat) : option nat := if decide (b = 0) then None else Some (a `mod` b).

Definition consume (b : t) (count : nat) : option (nat * t) :=
  let cnt := count `min` available_data b in
  let? pos := urem (position b + cnt) (capacity b) in
  let? data := usub (avail b) cnt in
  Some (cnt, mk (memory b) (capacity b) pos (bend b) data).

Definition fill (b : t) (count : nat) : option (nat * t) :=
  let? space := available_space b in
  let cnt := count `min` space in
  let? e := urem (bend b + cnt) (capacity b) in
  Some (cnt, mk (memory b) (capacity b) (position b) e (avail b + cnt)).

(** The slices [poll_write_to] offers to the socket, in order ([poll_write] with
    one slice, [poll_write_vectored] with two); the empty list is the early
    [Ready(Ok(0))]. *)
Definition write_slices (b : t) : option (list (list byte)) :=
  if decide (available_data b = 0) then Some []
  else if decide (position b < bend b)
  then let? s := slice (memory b) (position b) (bend b) in Some [s]
  else let? s1 := slice (memory b) (position b) (length (memory b)) in
       let? s2 := slice (memory b) 0 (bend b) in Some [s1; s2].

(** The regions [(offset, length)] of the memory that [poll_read_from] hands to
    the socket, in the order the reader fills them. *)
Definition read_regions (b : t) : option (list (nat * nat)) :=
  let? space := available_space b in
  if decide (space = 0) then Some []
  else if decide (position b ≤ bend b)
  then let? n1 := usub (length (memory b)) (bend b) in
       Some [(bend b, n1); (0, position b)]
  else let? n := usub (position b) (bend b) in Some [(bend b, n)].

(** A reader that stores [data] into the regions, in order; what does not fit in
    the regions is not read. *)
Fixpoint store_regions (mem : list byte) (regions : list (nat * nat)) (data : list byte)
  : list byte * nat :=
  match regions with
  | [] => (mem, 0)
  | (off, n) :: rest =>
    let now := take n data in
    let (mem', k) := store_regions (list_inserts off now mem) rest (drop n data) in
    (mem', length now + k)
  end.

(** [poll_read_from] on a reader that delivers the bytes [data] (as many as fit),
    followed by the [fill] of the byte count it reports, as in
    [IoLoop::read_from_stream]. *)
Definition read_fill (b : t) (data : list byte) : option (nat * t) :=
  let? regions := read_regions b in
  let (mem, k) := store_regions (memory b) regions data in
  let? (_, b') := fill (mk mem (capacity b) (position b) (bend b) (avail b)) k in
  Some (k, b').

(** [space.write(data)] through [&mut [u8]] at [[off .. off + n]] of the memory. *)
Definition slice_write (mem : list byte) (off n : nat) (data : list byte) : nat * list byte :=
  let amt := n `min` length data in (amt, list_inserts off (take amt data) mem).

(** [io::Write::write]. *)
Definition write (b : t) (data : list byte) : option (nat * t) :=
  let? space := available_space b in
  let? (amt, mem) :=
    (if decide (space = 0) then Some (0, memory b)
     else if decide (position b ≤ bend b) then
       let? room := usub (length (memory b)) (bend b) in
       let (amt, mem) := slice_write (memory b) (bend b) room data in
       let? upto := usub (capacity b) (bend b) in
       if decide (amt = upto) then
         let (amt2, mem) := slice_write mem 0 (position b) (drop amt data) in
         Some (amt + amt2, mem)
       else Some (amt, mem)
     else let? room := usub (position b) (bend b) in
          Some (slice_write (memory b) (bend b) room data)) in
  let? (_, b') := fill (mk mem (capacity b) (position b) (bend b) (avail b)) amt in
  Some (amt, b').

(** The pointer of [&self.memory[a..]] is [a]. *)
Definition offset (b : t) (buf : Parsing.Ctx) : option nat :=
  let? dataptr := (if decide (position b ≤ length (memory b)) then Some (position b) else None) in
  let bufptr := Parsing.as_ptr buf in
  if decide (dataptr < bufptr) then usub bufptr dataptr
  else let startptr := 0 in
       let? x := usub (bufptr + capacity b) (position b) in usub x startptr.

(** A slice of the memory, with its address. *)
Definition mem_slice (b : t) (from to : nat) : option Parsing.Slice :=
  let? d := slice (memory b) from to in Some (Parsing.mkSlice from d).

Definition parsing_context (b : t) : option Parsing.Ctx :=
  if decide (available_data b = 0)
  then let? s := mem_slice b (bend b) (bend b) in Parsing.of_slice s
  else if decide (position b < bend b)
  then let? s := mem_slice b (position b) (bend b) in Parsing.of_slice s
  else let? s0 := mem_slice b (position b) (length (memory b)) in
       let? s1 := mem_slice b 0 (bend b) in
       Some (Parsing.mkCtx s0 s1).

Inductive GenError := BufferTooSmall (missing : nat) | GenOther.

(** [BackToTheBuffer::reserve_write_use]: leave room for [reserved] bytes, run
    [generator], come back to fill the room with [before], then return to the end
    of what was generated. *)
Definition reserve_write_use {Tmp : Type} (s : t) (reserved : nat)
    (generator : t → option (result GenError (t * Tmp)))
    (before : t → Tmp → option (result GenError t)) : option (result GenError t) :=
  let? space := available_space s in
  if decide (space < reserved) then Some (Err (BufferTooSmall (reserved - space))) else
  let start := checkpoint s in
  let? (_, s) := fill s reserved in
  let? g := generator s in
  match g with
  | Err e => Some (Err e)
  | Ok (s, tmp) =>
    let e := mkCheckpoint (cp_end (checkpoint s)) false in
    let? s := rollback s start in
    let? r := before s tmp in
    match r with
    | Err e => Some (Err e)
    | Ok s => let? s := rollback s e in Some (Ok s)
    end
  end.

(** ** The queue a buffer stands for *)

(** All the cells of the ring, in the order they are read. *)
Definition cells (b : t) : list byte := drop (position b) (memory b) ++ take (position b) (memory b).

(** The pending bytes, oldest first. *)
Definition contents (b : t) : list byte := take (avail b) (cells b).

Record wf (b : t) : Prop := {
  wf_memory : length (memory b) = capacity b;
  wf_position : position b < capacity b;
  wf_avail : avail b ≤ capacity b;
  wf_end : bend b = (position b + avail b) `mod` capacity b;
}.

(** The end pointer, case by case. *)
Lemma wf_end_cases b : wf b →
  (bend b = position b + avail b ∧ position b + avail b < capacity b) ∨
  (bend b = position b + avail b - capacity b ∧ capacity b ≤ position b + avail b).
Proof.
  intros [? ? ? E]. rewrite E.
  destruct (mod_add_cases (position b) (avail b) (capacity b)); lia.
Qed.

Lemma length_cells b : wf b → length (cells b) = capacity b.
Proof. intros [? ? ? _]. unfold cells. rewrite length_app, length_drop, length_take. lia. Qed.

Lemma length_contents b : wf b → length (contents b) = avail b.
Proof.
  intros Hwf. unfold contents. rewrite length_take, length_cells by done.
  apply wf_avail in Hwf. lia.
Qed.

(** Where cell [i] lives. *)
Definition index (b : t) (i : nat) : nat :=
  if decide (position b + i < capacity b) then position b + i else position b + i - capacity b.

Lemma cells_lookup b i : wf b → i < capacity b → cells b !! i = memory b !! index b i.
Proof.
  intros [? ? ? _] Hi. unfold cells, index.
  rewrite lookup_app_if, length_drop.
  case_decide; case_decide; try lia.
  - by rewrite lookup_drop.
  - rewrite lookup_take_lt by lia. f_equal. lia.
Qed.

Lemma with_capacity_wf cap : 0 < cap → wf (with_capacity cap).
Proof.
  intros. split; simpl; rewrite ?length_replicate; try lia. by rewrite Nat.mod_small.
Qed.

Lemma reset_wf b : wf b → wf (reset b).
Proof. intros [? ? ? ?]. split; simpl; try lia. by rewrite Nat.mod_small by lia. Qed.

Lemma reset_contents b : contents (reset b) = [].
Proof. done. Qed.

Lemma fill_eq b k : wf b →
  fill b k = Some (k `min` (capacity b - avail b),
    mk (memory b) (capacity b) (position b)
       ((bend b + k `min` (capacity b - avail b)) `mod` capacity b)
       (avail b + k `min` (capacity b - avail b))).
Proof.
  intros [? ? ? ?]. unfold fill, available_space, urem.
  rewrite usub_Some, decide_False by lia. done.
Qed.

(** What a writer must have done for the filled buffer to hold the new bytes: the
    cells after the end hold [data], the others are untouched. *)
Lemma fill_stored b mem data :
  wf b → length data ≤ capacity b - avail b → length mem = capacity b →
  (∀ i, i < capacity b → mem !! index b i = list_inserts (avail b) data (cells b) !! i) →
  ∃ b', fill (mk mem (capacity b) (position b) (bend b) (avail b)) (length data) =
          Some (length data, b') ∧ wf b' ∧ capacity b' = capacity b ∧ position b' = position b ∧
        avail b' = avail b + length data ∧ cells b' = list_inserts (avail b) data (cells b).
Proof.
  intros Hwf Hroom Hmem Hcells. pose proof Hwf as [HL HP HA HE].
  assert (wf (mk mem (capacity b) (position b) (bend b) (avail b))) as Hwf1 by done.
  rewrite fill_eq by done. cbn [capacity avail position bend memory].
  replace (length data `min` (capacity b - avail b)) with (length data) by lia.
  eexists; split; [done|].
  assert (wf (mk mem (capacity b) (position b)
            ((bend b + length data) `mod` capacity b) (avail b + length data))) as Hwf2.
  { split; simpl; try lia. rewrite HE, Nat.Div0.add_mod_idemp_l. f_equal; lia. }
  split_and!; [done..|].
  apply list_eq_length.
  { by rewrite length_inserts, !length_cells. }
  intros i Hi. rewrite length_cells in Hi by done. cbn [capacity] in Hi.
  rewrite cells_lookup by done. by apply Hcells.
Qed.

Lemma contents_inserts b b' data :
  wf b → length data ≤ capacity b - avail b → avail b' = avail b + length data →
  cells b' = list_inserts (avail b) data (cells b) → contents b' = contents b ++ data.
Proof.
  intros Hwf Hroom Ha Hc. pose proof (wf_avail b Hwf). unfold contents. rewrite Ha, Hc.
  pose proof (length_cells b Hwf) as HL.
  apply list_eq_length.
  { rewrite length_app, !length_take, length_inserts. lia. }
  intros i Hi. rewrite length_take, length_inserts in Hi.
  rewrite lookup_take_lt, lookup_inserts_if, lookup_app_if, length_take by lia.
  repeat case_decide; try lia.
  - f_equal. lia.
  - by rewrite lookup_take_lt by lia.
Qed.

Lemma consume_eq b n : wf b →
  consume b n = Some (n `min` avail b,
    mk (memory b) (capacity b) ((position b + n `min` avail b) `mod` capacity b)
       (bend b) (avail b - n `min` avail b)).
Proof.
  intros [? ? ? ?]. unfold consume, available_data, urem.
  rewrite decide_False, usub_Some by lia. done.
Qed.

Lemma consume_spec b n : wf b →
  ∃ b', consume b n = Some (n `min` avail b, b') ∧ wf b' ∧ capacity b' = capacity b ∧
        contents b' = drop n (contents b).
Proof.
  intros Hwf. pose proof Hwf as [HL HP HA HE]. rewrite consume_eq by done.
  eexists; split; [done|].
  set (m := n `min` avail b).
  assert (wf (mk (memory b) (capacity b) ((position b + m) `mod` capacity b) (bend b) (avail b - m)))
    as Hwf'.
  { split; simpl; try done.
    - apply Nat.mod_upper_bound. lia.
    - lia.
    - rewrite Nat.Div0.add_mod_idemp_l, HE. f_equal. lia. }
  split_and!; [done|done|]. apply list_eq_length.
  { rewrite length_drop, !length_contents by done. simpl. lia. }
  intros i Hi. rewrite length_contents in Hi by done. cbn [avail] in Hi.
  assert (m = n) as Hm by lia. unfold contents. rewrite lookup_drop, !lookup_take_lt by (simpl; lia).
  rewrite !cells_lookup by (done || simpl; lia). unfold index. cbn [memory position capacity].
  destruct (mod_add_cases (position b) m (capacity b)) as [[-> ?]|[-> ?]]; try lia;
    f_equal; repeat case_decide; lia.
Qed.

(** Storing [n1] bytes after the end and [n2] more at the start of the memory: the
    shape every writer into the ring has. *)
Definition ring_store (b : t) (data : list byte) (n1 n2 : nat) : list byte :=
  list_inserts 0 (take n2 (drop n1 data)) (list_inserts (bend b) (take n1 data) (memory b)).

Lemma ring_store_lookup_old b data n1 n2 j :
  ¬ (bend b ≤ j < bend b + n1) → n2 ≤ j → ring_store b data n1 n2 !! j = memory b !! j.
Proof.
  intros H1 H2. unfold ring_store. rewrite lookup_inserts_if, decide_False.
  2:{ rewrite length_take. lia. }
  rewrite lookup_inserts_if, decide_False; [done|]. rewrite length_take. lia.
Qed.

Lemma ring_store_lookup_tail b data n1 n2 k :
  n1 ≤ length data → n2 ≤ bend b → k < n1 → bend b + k < length (memory b) →
  ring_store b data n1 n2 !! (bend b + k) = data !! k.
Proof.
  intros. unfold ring_store. rewrite lookup_inserts_if, decide_False.
  2:{ rewrite length_take. lia. }
  rewrite lookup_inserts_if, decide_True by (rewrite length_take; lia).
  rewrite lookup_take_lt by lia. f_equal. lia.
Qed.

Lemma ring_store_lookup_head b data n1 n2 k :
  n1 + n2 ≤ length data → n2 ≤ length (memory b) → k < n2 →
  ring_store b data n1 n2 !! k = data !! (n1 + k).
Proof.
  intros. unfold ring_store. rewrite lookup_inserts_if, decide_True.
  2:{ rewrite length_take, length_drop, length_inserts. lia. }
  rewrite lookup_take_lt, lookup_drop by lia. f_equal. lia.
Qed.

Lemma ring_store_fill b data n1 n2 :
  wf b → n1 + n2 ≤ capacity b - avail b → n1 + n2 ≤ length data →
  bend b + n1 ≤ capacity b → (n2 = 0 ∨ bend b + n1 = capacity b ∧ position b ≤ bend b) →
  ∃ b', fill (mk (ring_store b data n1 n2) (capacity b) (position b) (bend b) (avail b)) (n1 + n2) =
          Some (n1 + n2, b') ∧ wf b' ∧ capacity b' = capacity b ∧ position b' = position b ∧
        avail b' = avail b + (n1 + n2) ∧
        cells b' = list_inserts (avail b) (take (n1 + n2) data) (cells b).
Proof.
  intros Hwf Hroom Hdata He Hsplit. pose proof Hwf as [HL HP HA _].
  pose proof (wf_end_cases b Hwf) as Hend. pose proof (length_cells b Hwf) as HC.
  assert (Hlen : length (take (n1 + n2) data) = n1 + n2) by (rewrite length_take; lia).
  pose proof (fill_stored b (ring_store b data n1 n2) (take (n1 + n2) data)) as F.
  rewrite Hlen in F. apply F; auto.
  { unfold ring_store. by rewrite !length_inserts. }
  intros i Hi. rewrite lookup_inserts_if, Hlen, HC. clear F.
  destruct (decide (avail b ≤ i < avail b + (n1 + n2) ∧ i < capacity b)) as [Hin|Hout].
  - rewrite lookup_take_lt by lia. destruct (decide (i - avail b < n1)).
    + rewrite <- (ring_store_lookup_tail b data n1 n2 (i - avail b)) by lia.
      f_equal. unfold index. case_decide; lia.
    + pose proof (ring_store_lookup_head b data n1 n2 (i - avail b - n1)) as Hh.
      replace (n1 + (i - avail b - n1)) with (i - avail b) in Hh by lia.
      rewrite <- Hh by lia. f_equal. unfold index. case_decide; lia.
  - rewrite cells_lookup by done. apply ring_store_lookup_old; unfold index; case_decide; lia.
Qed.

Lemma take_ge_min {A} (l : list A) n : take n l = take (length l `min` n) l.
Proof.
  destruct (decide (length l ≤ n)); [|f_equal; lia].
  rewrite !take_ge by lia. done.
Qed.

Lemma write_spec b data : wf b →
  ∃ b', write b data = Some (length data `min` (capacity b - avail b), b') ∧ wf b' ∧
        capacity b' = capacity b ∧ position b' = position b ∧
        avail b' = avail b + length data `min` (capacity b - avail b) ∧
        cells b' = list_inserts (avail b) (take (capacity b - avail b) data) (cells b).
Proof.
  intros Hwf. pose proof Hwf as [HL HP HA _].
  pose proof (wf_end_cases b Hwf) as Hend.
  rewrite (take_ge_min data). set (amt := length data `min` (capacity b - avail b)).
  set (n1 := amt `min` (capacity b - bend b)).
  destruct (ring_store_fill b data n1 (amt - n1)) as (b' & Hf & ? & ? & ? & ? & ?); try lia; [done|].
  replace (n1 + (amt - n1)) with amt in * by lia.
  exists b'. split_and!; try done.
  unfold write, available_space. rewrite usub_Some by lia.
  enough (E : (if decide (capacity b - avail b = 0) then Some (0, memory b)
     else if decide (position b ≤ bend b) then
       let? room := usub (length (memory b)) (bend b) in
       let (amt, mem) := slice_write (memory b) (bend b) room data in
       let? upto := usub (capacity b) (bend b) in
       if decide (amt = upto) then
         let (amt2, mem) := slice_write mem 0 (position b) (drop amt data) in
         Some (amt + amt2, mem)
       else Some (amt, mem)
     else let? room := usub (position b) (bend b) in
          Some (slice_write (memory b) (bend b) room data)) =
     Some (amt, ring_store b data n1 (amt - n1))).
  { rewrite E, Hf. done. }
  unfold slice_write, ring_store. rewrite HL.
  destruct (decide (capacity b - avail b = 0)) as [Hz|Hnz].
  { replace (amt - n1) with 0 by lia. replace n1 with 0 by lia.
    replace amt with 0 by lia. done. }
  destruct (decide (position b ≤ bend b)) as [Hpe|Hpe].
  - rewrite !usub_Some by lia.
    replace ((capacity b - bend b) `min` length data) with n1 by lia.
    rewrite length_drop. destruct (decide (n1 = capacity b - bend b)).
    + replace (position b `min` (length data - n1)) with (amt - n1) by lia.
      do 2 f_equal. lia.
    + replace (amt - n1) with 0 by lia. simpl. do 2 f_equal. lia.
  - rewrite usub_Some by lia. replace ((position b - bend b) `min` length data) with n1 by lia.
    replace (amt - n1) with 0 by lia. simpl. do 2 f_equal. lia.
Qed.

Lemma read_fill_spec b data : wf b →
  ∃ b', read_fill b data = Some (length data `min` (capacity b - avail b), b') ∧ wf b' ∧
        capacity b' = capacity b ∧ position b' = position b ∧
        avail b' = avail b + length data `min` (capacity b - avail b) ∧
        cells b' = list_inserts (avail b) (take (capacity b - avail b) data) (cells b).
Proof.
  intros Hwf. pose proof Hwf as [HL HP HA _].
  pose proof (wf_end_cases b Hwf) as Hend.
  rewrite (take_ge_min data). set (amt := length data `min` (capacity b - avail b)).
  set (n1 := amt `min` (capacity b - bend b)).
  destruct (ring_store_fill b data n1 (amt - n1)) as (b' & Hf & ? & ? & ? & ? & ?); try lia; [done|].
  replace (n1 + (amt - n1)) with amt in * by lia.
  exists b'. split_and!; try done.
  unfold read_fill, read_regions, available_space. rewrite usub_Some by lia.
  unfold ring_store in Hf.
  destruct (decide (capacity b - avail b = 0)) as [Hz|Hnz].
  { simpl. replace (amt - n1) with 0 in Hf by lia. replace n1 with 0 in Hf by lia.
    replace amt with 0 in * by lia. simpl in Hf. by rewrite Hf. }
  destruct (decide (position b ≤ bend b)) as [Hpe|Hpe].
  - rewrite HL, usub_Some by lia. cbn [store_regions].
    rewrite (take_ge_min data (capacity b - bend b)).
    rewrite (take_ge_min _ (position b)), length_drop.
    replace (length data `min` (capacity b - bend b)) with n1 by lia.
    replace ((length data - (capacity b - bend b)) `min` position b) with (amt - n1) by lia.
    replace (take (amt - n1) (drop (capacity b - bend b) data))
      with (take (amt - n1) (drop n1 data)).
    2:{ destruct (decide (amt - n1 = 0)) as [->|]; [done|]. do 2 f_equal. lia. }
    rewrite !length_take, length_drop, Nat.add_0_r.
    replace (n1 `min` length data + (amt - n1) `min` (length data - n1)) with amt by lia.
    by rewrite Hf.
  - rewrite usub_Some by lia. cbn [store_regions].
    rewrite (take_ge_min data (position b - bend b)).
    replace (length data `min` (position b - bend b)) with n1 by lia.
    replace (amt - n1) with 0 in Hf by lia. simpl in Hf.
    rewrite length_take, Nat.add_0_r. replace (n1 `min` length data) with amt by lia.
    by rewrite Hf.
Qed.

Lemma appended_contents b b' data :
  wf b → avail b' = avail b + length data `min` (capacity b - avail b) →
  cells b' = list_inserts (avail b) (take (capacity b - avail b) data) (cells b) →
  contents b' = contents b ++ take (capacity b - avail b) data.
Proof.
  intros Hwf Ha Hc. apply contents_inserts; auto; rewrite length_take; lia.
Qed.

Lemma write_slices_spec b : wf b →
  ∃ ss, write_slices b = Some ss ∧ concat ss = contents b.
Proof.
  intros Hwf. pose proof Hwf as [HL HP HA _]. pose proof (wf_end_cases b Hwf) as Hend.
  unfold write_slices, available_data, contents, cells.
  destruct (decide (avail b = 0)) as [->|]; [eexists; split; [done|]; by rewrite take_0|].
  destruct (decide (position b < bend b)).
  - rewrite slice_Some by lia. eexists; split; [done|]. simpl. rewrite app_nil_r.
    rewrite take_app_le by (rewrite length_drop; lia). f_equal. lia.
  - rewrite !slice_Some by lia. eexists; split; [done|]. simpl. rewrite app_nil_r, Nat.sub_0_r.
    rewrite take_app, length_drop, HL.
    rewrite !(take_ge (drop (position b) (memory b))) by (rewrite length_drop; lia).
    f_equal. rewrite take_take. f_equal. lia.
Qed.

(** *** Parsing *)

Lemma parsing_context_spec b : wf b →
  ∃ c, parsing_context b = Some c ∧ Parsing.iter c = contents b.
Proof.
  intros Hwf. pose proof Hwf as [HL HP HA _]. pose proof (wf_end_cases b Hwf) as Hend.
  unfold parsing_context, mem_slice, available_data, contents, cells.
  destruct (decide (avail b = 0)) as [E|].
  { rewrite slice_Some by lia.
    destruct (Parsing.of_slice_iter (Parsing.mkSlice (bend b)
      (take (bend b - bend b) (drop (bend b) (memory b))))) as (c & -> & Hc & _).
    exists c. split; [done|]. by rewrite Hc, E, Nat.sub_diag, !take_0. }
  destruct (decide (position b < bend b)).
  - rewrite slice_Some by lia.
    destruct (Parsing.of_slice_iter (Parsing.mkSlice (position b)
      (take (bend b - position b) (drop (position b) (memory b))))) as (c & -> & Hc & _).
    exists c. split; [done|]. rewrite Hc. simpl.
    rewrite take_app_le by (rewrite length_drop; lia). f_equal. lia.
  - rewrite !slice_Some by lia. eexists; split; [done|]. unfold Parsing.iter; simpl.
    rewrite Nat.sub_0_r, take_app, length_drop, HL.
    rewrite !(take_ge (drop (position b) (memory b))) by (rewrite length_drop; lia).
    f_equal. rewrite take_take. f_equal. lia.
Qed.

(** The addresses the parser's input spans. *)
Lemma parsing_context_addr b c : wf b → avail b ≠ 0 → parsing_context b = Some c →
  Parsing.addr (Parsing.buf0 c) = position b ∧
  (position b + avail b < capacity b ∧ Parsing.slen (Parsing.buf0 c) = avail b ∧
     Parsing.addr (Parsing.buf1 c) = position b + avail b ∨
   capacity b ≤ position b + avail b ∧ Parsing.slen (Parsing.buf0 c) = capacity b - position b ∧
     Parsing.addr (Parsing.buf1 c) = 0).
Proof.
  intros Hwf Hne. pose proof Hwf as [HL HP HA _]. pose proof (wf_end_cases b Hwf) as Hend.
  unfold parsing_context, mem_slice, available_data, Parsing.of_slice, Parsing.slen.
  rewrite decide_False by done. destruct (decide (position b < bend b)).
  - rewrite slice_Some by lia. rewrite Parsing.subslice_Some by done. intros [= <-]; simpl.
    split; [done|]. left. rewrite length_take, length_drop. lia.
  - rewrite !slice_Some by lia. intros [= <-]; simpl.
    split; [done|]. right. rewrite length_take, length_drop. lia.
Qed.

(** *** Moving the end pointer *)

(** [b] with its end moved so that [a] bytes are pending. *)
Definition with_avail (b : t) (a : nat) : t :=
  mk (memory b) (capacity b) (position b) ((position b + a) `mod` capacity b) a.

Lemma with_avail_wf b a : wf b → a ≤ capacity b → wf (with_avail b a).
Proof. by intros [? ? ? ?]. Qed.

Lemma with_avail_cells b a : cells (with_avail b a) = cells b.
Proof. done. Qed.

Lemma with_avail_self b : wf b → with_avail b (avail b) = b.
Proof. intros Hwf. unfold with_avail. rewrite <- (wf_end b Hwf). by destruct b. Qed.

Lemma rollback_back b a : wf b → a ≤ avail b → avail b - a < capacity b →
  rollback b (mkCheckpoint ((position b + a) `mod` capacity b) true) = Some (with_avail b a).
Proof.
  intros Hwf Ha Hlt. pose proof Hwf as [HL HP HA _]. pose proof (wf_end_cases b Hwf) as Hend.
  unfold rollback; simpl.
  pose proof (mod_add_cases (position b) a (capacity b)) as Hm.
  assert (∃ e, e = (position b + a) `mod` capacity b) as [e He] by eauto. rewrite <- He in *.
  destruct (decide (e = bend b)) as [E|].
  { assert (a = avail b) as -> by lia. by rewrite with_avail_self. }
  unfold with_avail. rewrite <- He. destruct (decide (e < bend b)).
  - rewrite usub_Some by lia. do 2 f_equal. lia.
  - rewrite usub_Some by lia. rewrite usub_Some by lia. do 2 f_equal. lia.
Qed.

Lemma rollback_forward b a : wf b → avail b ≤ a → a ≤ capacity b → a - avail b < capacity b →
  rollback b (mkCheckpoint ((position b + a) `mod` capacity b) false) = Some (with_avail b a).
Proof.
  intros Hwf Ha Hac Hlt. pose proof Hwf as [HL HP HA _]. pose proof (wf_end_cases b Hwf) as Hend.
  unfold rollback; simpl.
  pose proof (mod_add_cases (position b) a (capacity b)) as Hm.
  assert (∃ e, e = (position b + a) `mod` capacity b) as [e He] by eauto. rewrite <- He in *.
  destruct (decide (e = bend b)) as [E|].
  { assert (a = avail b) as -> by lia. by rewrite with_avail_self. }
  unfold with_avail. rewrite <- He. destruct (decide (e < bend b)).
  - rewrite usub_Some by lia. do 2 f_equal. lia.
  - do 2 f_equal. lia.
Qed.

(** [s'] is [s] with [ext] appended. *)
Definition appends (s s' : t) (ext : list byte) : Prop :=
  wf s' ∧ capacity s' = capacity s ∧ position s' = position s ∧ contents s' = contents s ++ ext.

Lemma appends_avail s s' ext : wf s → appends s s' ext → avail s' = avail s + length ext.
Proof.
  intros Hwf (Hwf' & _ & _ & E). apply (f_equal length) in E.
  by rewrite length_app, !length_contents in E.
Qed.

Lemma write_appends b data b' n : wf b → write b data = Some (n, b') →
  appends b b' (take (capacity b - avail b) data).
Proof.
  intros Hwf E. destruct (write_spec b data Hwf) as (b'' & E' & ? & ? & ? & ? & ?).
  rewrite E in E'. simplify_eq. split_and!; auto. by apply appended_contents.
Qed.

Lemma rollback_appended s s' ext : wf s → appends s s' ext → length ext < capacity s →
  ∃ s'', rollback s' (checkpoint s) = Some s'' ∧ wf s'' ∧ contents s'' = contents s ∧
         avail s'' = avail s ∧ position s'' = position s ∧ capacity s'' = capacity s.
Proof.
  intros Hwf Happ Hlt. pose proof (appends_avail _ _ _ Hwf Happ) as Ha.
  destruct Happ as (Hwf' & Hc & Hp & E). pose proof (wf_avail _ Hwf).
  exists (with_avail s' (avail s)).
  split_and!; try done.
  - unfold checkpoint. rewrite (wf_end s Hwf), <- Hp, <- Hc. apply rollback_back; [done|lia..].
  - apply with_avail_wf; [done|lia].
  - unfold contents at 1. simpl. rewrite with_avail_cells.
    transitivity (take (avail s) (contents s')).
    + unfold contents. rewrite take_take. f_equal. lia.
    + rewrite E, take_app_le, take_ge by (rewrite length_contents; done). done.
Qed.

(** *** Growing *)

(** The data wraps around the end of the memory. *)
Definition wrapped (b : t) : Prop := bend b ≤ position b ∧ 0 < avail b.
#[global] Instance wrapped_dec b : Decision (wrapped b) := _.

Lemma grow_unwrapped b n : wf b → capacity b < n → ¬ wrapped b →
  ∃ b', grow b n = Some (true, b') ∧ wf b' ∧ capacity b' = n ∧ contents b' = contents b.
Proof.
  intros Hwf Hn Hw. pose proof Hwf as [HL HP HA _]. pose proof (wf_end_cases b Hwf) as Hend.
  unfold grow, wrapped in *. rewrite decide_False, decide_False by lia.
  eexists; split; [done|]. split_and!; [|done|].
  - split; simpl; rewrite ?length_resize; try lia. rewrite Nat.mod_small; lia.
  - unfold contents, cells; simpl. rewrite resize_ge by lia.
    destruct (decide (avail b = 0)) as [->|]; [done|].
    rewrite drop_app_le by lia. rewrite <- app_assoc.
    rewrite !take_app_le by (rewrite length_drop; lia). done.
Qed.

Lemma grow_wrapped_panics b n : wf b → capacity b < n → wrapped b → bend b < n - capacity b →
  grow b n = None.
Proof.
  intros Hwf Hn Hw Hlt. pose proof Hwf as [HL HP HA _]. pose proof (wf_end_cases b Hwf) as Hend.
  unfold grow. rewrite decide_False, decide_True, decide_True by (done || lia).
  rewrite slice_Some by (rewrite ?length_take, ?length_resize; lia).
  unfold copy_from_slice. rewrite decide_False; [done|].
  rewrite length_drop, !length_take, length_drop, length_take, length_resize. lia.
Qed.

Lemma grow_wrapped b n : wf b → capacity b < n → wrapped b → n - capacity b ≤ bend b →
  ∃ b', grow b n = Some (true, b') ∧ wf b' ∧ capacity b' = n ∧ contents b' = contents b.
Proof.
  intros Hwf Hn Hw Hge. pose proof Hwf as [HL HP HA _]. pose proof (wf_end_cases b Hwf) as Hend.
  unfold grow, copy_within0, copy_from_slice. rewrite decide_False, decide_True, decide_False by (done || lia).
  set (g := n - capacity b).
  assert (take (capacity b) (resize n Byte.x00 (memory b)) = memory b) as ->.
  { rewrite resize_ge, take_app_le, take_ge by lia. done. }
  rewrite slice_Some, Nat.sub_0_r, drop_0 by lia.
  rewrite decide_True by (rewrite length_drop, length_resize, length_take; lia).
  rewrite slice_Some by (rewrite ?length_app, ?length_take; lia).
  eexists; split; [done|].
  assert (Hlen : length (take (bend b - g) (drop g (memory b ++ take g (memory b)))) = bend b - g)
    by (rewrite length_take, length_drop, length_app, length_take; lia).
  assert (wf (mk (take (bend b - g) (drop g (memory b ++ take g (memory b))) ++
     drop (length (take (bend b - g) (drop g (memory b ++ take g (memory b)))))
       (memory b ++ take g (memory b))) n (position b) (bend b - g) (avail b))) as Hwf'.
  { split; simpl; try lia.
    - rewrite length_app, Hlen, length_drop, length_app, length_take. lia.
    - unfold wrapped in Hw. apply (Nat.mod_unique _ _ 1); lia. }
  split_and!; [done|done|]. unfold wrapped in Hw.
  apply list_eq_length; [by rewrite !length_contents|].
  intros i Hi. rewrite length_contents in Hi by done. simpl in Hi.
  unfold contents. rewrite !lookup_take_lt by (simpl; lia).
  rewrite !cells_lookup by (done || simpl; lia). unfold index. cbn [memory position capacity].
  rewrite lookup_app_if, Hlen, lookup_take_if, !lookup_drop, !lookup_app_if, !lookup_take_if.
  repeat case_decide; try lia; f_equal; lia.
Qed.

(** *** Room for a length prefix *)

Lemma reserve_write_use_spec {Tmp} s reserved generator before (enc : Tmp → list byte) s1 s2 tmp ext k :
  wf s → reserved ≤ capacity s - avail s →
  fill s reserved = Some (k, s1) →
  generator s1 = Some (Ok (s2, tmp)) → appends s1 s2 ext →
  (∀ s', before s' tmp = let? (n, s'') := write s' (enc tmp) in
     Some (if decide (n = length (enc tmp)) then Ok s'' else Err GenOther)) →
  length (enc tmp) = reserved → reserved + length ext < capacity s →
  ∃ s', reserve_write_use s reserved generator before = Some (Ok s') ∧
        appends s s' (enc tmp ++ ext).
Proof.
  intros Hwf Hroom Hfill Hgen Happ Hbef Henc Hlt. pose proof Hwf as [HL HP HA _].
  rewrite fill_eq in Hfill by done. rewrite Nat.min_l in Hfill by lia. simplify_eq Hfill. intros <- <-.
  rewrite (wf_end s Hwf), Nat.Div0.add_mod_idemp_l, <- Nat.add_assoc in Hgen, Happ.
  change (mk _ _ _ _ _) with (with_avail s (avail s + reserved)) in Hgen, Happ.
  assert (Hwf1 : wf (with_avail s (avail s + reserved))) by (apply with_avail_wf; [done|lia]).
  pose proof (appends_avail _ _ _ Hwf1 Happ) as Ha2. simpl in Ha2.
  destruct Happ as (Hwf2 & Hc2 & Hp2 & E2). simpl in Hc2, Hp2.
  unfold reserve_write_use, available_space. rewrite usub_Some, decide_False by lia.
  rewrite fill_eq, Nat.min_l by (done || lia).
  rewrite (wf_end s Hwf), Nat.Div0.add_mod_idemp_l, <- Nat.add_assoc.
  change (mk (memory s) _ _ _ _) with (with_avail s (avail s + reserved)). rewrite Hgen.
  unfold checkpoint. rewrite (wf_end s Hwf). simpl.
  pose proof (wf_avail _ Hwf2) as HA2.
  rewrite <- Hp2, <- Hc2, rollback_back by (done || lia).
  rewrite Hbef.
  assert (Hwf3 : wf (with_avail s2 (avail s))) by (apply with_avail_wf; [done|lia]).
  destruct (write_spec (with_avail s2 (avail s)) (enc tmp) Hwf3) as (s4 & -> & Hwf4 & Hc4 & Hp4 & Ha4 & Hcells).
  simpl in *. rewrite Nat.min_l in * by lia. rewrite decide_True by done.
  rewrite take_ge in Hcells by lia.
  rewrite (wf_end s2 Hwf2), <- Hp4, <- Hc4.
  rewrite rollback_forward by (done || lia).
  eexists; split; [done|]. split_and!; simpl; try congruence; [apply with_avail_wf; [done|lia]|].
  unfold contents at 1. simpl. rewrite with_avail_cells, Hcells, with_avail_cells.
  assert (Hsplit : cells s2 = contents s ++ (take reserved (drop (avail s) (cells s)) ++ ext)
                              ++ drop (avail s2) (cells s2)).
  { rewrite <- (take_drop (avail s2) (cells s2)) at 1. change (take (avail s2) (cells s2)) with (contents s2).
    rewrite E2. unfold contents at 1. simpl. rewrite with_avail_cells, <- take_take_drop, <- !app_assoc. done. }
  rewrite Hsplit.
  pose proof (length_contents s Hwf) as Hlc.
  replace (avail s) with (length (contents s) + 0) at 1 by lia. rewrite list_inserts_app_r.
  rewrite <- !app_assoc, list_inserts_0_r.
  2:{ rewrite length_take, length_drop, length_cells; [lia|done]. }
  rewrite !app_assoc, take_app_le by (rewrite !length_app; lia).
  rewrite take_ge by (rewrite !length_app; lia). done.
Qed.

(** ** Refinement of a bounded byte queue *)

Inductive Op :=
| OWrite (data : list byte)   (* the codec writes *)
| OTry (data : list byte)     (* a write that is rolled back to the checkpoint taken before it *)
| ORead (data : list byte)    (* the socket delivers, then [fill] *)
| OConsume (n : nat)          (* bytes sent or parsed *)
| OSend                       (* what is offered to the socket *)
| OParse                      (* what is offered to the parser *)
| OReset
| OGrow (n : nat).

Inductive Obs := Count (n : nat) | Bytes (l : list byte) | Grew (b : bool) | NoObs.

Definition step_ring (b : t) (o : Op) : option (Obs * t) :=
  match o with
  | OWrite d => let? (n, b') := write b d in Some (Count n, b')
  | OTry d => let? (n, b') := write b d in let? b' := rollback b' (checkpoint b) in Some (Count n, b')
  | ORead d => let? (n, b') := read_fill b d in Some (Count n, b')
  | OConsume n => let? (k, b') := consume b n in Some (Count k, b')
  | OSend => let? ss := write_slices b in Some (Bytes (concat ss), b)
  | OParse => let? c := parsing_context b in Some (Bytes (Parsing.iter c), b)
  | OReset => Some (NoObs, reset b)
  | OGrow n => let? (g, b') := grow b n in Some (Grew g, b')
  end.

(** The specification: a queue and the number of bytes it can hold.  A write that is rolled back leaves
    the queue as it was, unless it filled an empty queue. *)
Definition step_queue (st : nat * list byte) (o : Op) : Obs * (nat * list byte) :=
  let (cap, q) := st in
  match o with
  | OWrite d | ORead d => (Count (length d `min` (cap - length q)), (cap, q ++ take (cap - length q) d))
  | OTry d =>
    let n := length d `min` (cap - length q) in
    (Count n, (cap, if decide (n = cap) then q ++ take (cap - length q) d else q))
  | OConsume n => (Count (n `min` length q), (cap, drop n q))
  | OSend | OParse => (Bytes q, (cap, q))
  | OReset => (NoObs, (cap, []))
  | OGrow n => (Grew (bool_decide (cap < n)), (cap `max` n, q))
  end.

Fixpoint run_ring (b : t) (os : list Op) : option (list Obs * t) :=
  match os with
  | [] => Some ([], b)
  | o :: os => let? (x, b) := step_ring b o in
               let? (xs, b) := run_ring b os in Some (x :: xs, b)
  end.

Fixpoint run_queue (st : nat * list byte) (os : list Op) : list Obs * (nat * list byte) :=
  match os with
  | [] => ([], st)
  | o :: os => let (x, st) := step_queue st o in
               let (xs, st) := run_queue st os in (x :: xs, st)
  end.

(** Where [grow] panics ([grow_contents]). *)
Definition grow_panics (b : t) (n : nat) : Prop := capacity b < n ∧ wrapped b ∧ bend b < n - capacity b.

Lemma rollback_written b data n b' : wf b → write b data = Some (n, b') →
  ∃ b'', rollback b' (checkpoint b) = Some b'' ∧ wf b'' ∧ capacity b'' = capacity b ∧
         contents b'' = if decide (n = capacity b) then contents b' else contents b.
Proof.
  intros Hwf E. pose proof (write_appends _ _ _ _ Hwf E) as Happ.
  pose proof (appends_avail _ _ _ Hwf Happ) as Ha. pose proof (wf_avail _ Hwf). pose proof (wf_position _ Hwf).
  destruct (write_spec b data Hwf) as (b2 & E' & Hwf' & Hc & Hp & _). rewrite E in E'. simplify_eq.
  rewrite length_take in Ha.
  case_decide as Hfull.
  - exists b2. split_and!; try done. unfold rollback, checkpoint. simpl.
    assert (avail b = 0) as Hz by lia. assert (avail b2 = capacity b) as Hf by lia.
    rewrite decide_True; [done|]. rewrite (wf_end b Hwf), (wf_end b2 Hwf'), Hp, Hc, Hz, Hf.
    rewrite Nat.add_0_r. replace (position b + capacity b) with (position b + 1 * capacity b) by lia.
    by rewrite Nat.Div0.mod_add.
  - destruct (rollback_appended b b2 _ Hwf Happ) as (b3 & ? & ? & ? & _ & _ & ?); [rewrite length_take; lia|].
    by exists b3.
Qed.

Lemma grow_cases b n : wf b →
  (grow_panics b n ∧ grow b n = None) ∨
  (¬ grow_panics b n ∧ ∃ b', grow b n = Some (bool_decide (capacity b < n), b') ∧ wf b' ∧ capacity b' = capacity b `max` n ∧ contents b' = contents b).
Proof.
  intros Hwf. unfold grow_panics. destruct (decide (capacity b < n)) as [Hn|Hn].
  - rewrite bool_decide_true by done. destruct (decide (wrapped b)) as [Hw|Hw].
    + destruct (decide (bend b < n - capacity b)).
      * left. split; [done|]. by apply grow_wrapped_panics.
      * right. split; [tauto|]. rewrite Nat.max_r by lia. apply grow_wrapped; [done..|lia].
    + right. split; [tauto|]. rewrite Nat.max_r by lia. by apply grow_unwrapped.
  - right. split; [tauto|]. exists b. rewrite bool_decide_false, Nat.max_l by lia. split_and!; try done.
    unfold grow. by rewrite decide_True by lia.
Qed.

Lemma step_ring_refines b o : wf b → (∀ n, o = OGrow n → ¬ grow_panics b n) →
  ∃ b', step_ring b o = Some ((step_queue (capacity b, contents b) o).1, b') ∧ wf b' ∧
        (capacity b', contents b') = (step_queue (capacity b, contents b) o).2.
Proof.
  intros Hwf Hg. pose proof (length_contents b Hwf) as HL. destruct o as [d|d|d|n| | | |n]; simpl; rewrite ?HL.
  - destruct (write_spec b d Hwf) as (b' & -> & ? & ? & ? & ? & ?). eexists; split_and!; eauto.
    f_equal; [done|]. by apply appended_contents.
  - destruct (write_spec b d Hwf) as (b1 & E & ? & Hc & ? & ? & ?). rewrite E. simpl.
    destruct (rollback_written b d _ b1 Hwf E) as (b2 & -> & ? & ? & E2). simpl. eexists; split_and!; eauto.
    f_equal; [done|]. rewrite E2. case_decide; [|done]. by apply appended_contents.
  - destruct (read_fill_spec b d Hwf) as (b' & -> & ? & ? & ? & ? & ?). eexists; split_and!; eauto.
    f_equal; [done|]. by apply appended_contents.
  - destruct (consume_spec b n Hwf) as (b' & -> & ? & ? & ?). eexists; split_and!; eauto. by f_equal.
  - destruct (write_slices_spec b Hwf) as (ss & -> & E). rewrite E. eexists; split_and!; eauto.
  - destruct (parsing_context_spec b Hwf) as (c & -> & E). rewrite E. eexists; split_and!; eauto.
  - eexists; split_and!; eauto using reset_wf.
  - destruct (grow_cases b n Hwf) as [[Hp _]|(_ & b' & -> & ? & ? & ?)]; [by destruct (Hg n)|]. eexists; split_and!; eauto. by f_equal.
Qed.

(** The ring keeps up with the queue until a [grow] panics. *)
Lemma run_ring_refines os b : wf b →
  (∃ b', run_ring b os = Some ((run_queue (capacity b, contents b) os).1, b') ∧ wf b' ∧
         (capacity b', contents b') = (run_queue (capacity b, contents b) os).2) ∨
  (run_ring b os = None ∧ ∃ os1 n os2 b1, os = os1 ++ OGrow n :: os2 ∧
     run_ring b os1 = Some ((run_queue (capacity b, contents b) os1).1, b1) ∧ grow_panics b1 n).
Proof.
  revert b. induction os as [|o os IH]; intros b Hwf; [left; by eexists|].
  assert ((∃ n, o = OGrow n ∧ grow_panics b n) ∨ ∀ n, o = OGrow n → ¬ grow_panics b n) as [(n & -> & Hp)|Hg].
  { destruct o as [| | | | | | |n]; try (by right). destruct (grow_cases b n Hwf) as [[? _]|[? _]]; [left; eauto|right].
    by intros ? [= <-]. }
  { right. destruct (grow_cases b n Hwf) as [[_ E]|[Hn _]]; [|done]. simpl. rewrite E. split; [done|].
    by exists [], n, os, b. }
  cbn [run_ring run_queue]. destruct (step_ring_refines b o Hwf Hg) as (b1 & Es & Hwf1 & E). rewrite Es.
  destruct (step_queue (capacity b, contents b) o) as [x st] eqn:Eq; cbn [fst snd] in *.
  destruct (IH b1 Hwf1) as [(b2 & -> & ? & ?)|(-> & os1 & n & os2 & b2 & -> & E1 & Hp)]; rewrite E in *.
  - left. destruct (run_queue st os); cbn [fst snd] in *. eauto.
  - right. split; [done|]. exists (o :: os1), n, os2, b2. split_and!; [done| |done].
    cbn [run_ring run_queue]. rewrite Es, Eq, E1. by destruct (run_queue st os1).
Qed.

(** C8: the ring buffer is a bounded FIFO queue.  Any sequence of writes, writes that are rolled back, socket
    reads, consumptions, resets, growths and observations on a fresh buffer returns exactly what the
    specification queue returns: writes take as many bytes as fit, a rolled back write leaves nothing
    behind (unless it filled an empty buffer), growing changes only the capacity, and both the socket and the parser are offered
    all the pending bytes in order, whatever the wrap-around.  The only way to panic is a [grow] of a
    buffer whose pending bytes wrap around with a wrapped part shorter than the growth, and up to
    there everything was returned as by the queue. *)
Theorem ring_refines_queue cap os : 0 < cap →
  (∃ b', run_ring (with_capacity cap) os = Some ((run_queue (cap, []) os).1, b') ∧
         (capacity b', contents b') = (run_queue (cap, []) os).2) ∨
  (run_ring (with_capacity cap) os = None ∧ ∃ os1 n os2 b1, os = os1 ++ OGrow n :: os2 ∧
     run_ring (with_capacity cap) os1 = Some ((run_queue (cap, []) os1).1, b1) ∧
     capacity b1 < n ∧ wrapped b1 ∧ bend b1 < n - capacity b1).
Proof.
  intros Hcap. destruct (run_ring_refines os (with_capacity cap)) as [(b' & E & _ & C)|H]; [by apply with_capacity_wf|left|right].
  - eauto.
  - exact H.
Qed.

(** A four-byte ring that wraps around, grows, and takes a write back. *)
Definition sample_ops : list Op :=
  [OWrite [Byte.x01; Byte.x02; Byte.x03]; OConsume 2;
   ORead [Byte.x04; Byte.x05; Byte.x06; Byte.x07]; OParse; OGrow 6; OTry [Byte.x08; Byte.x09]; OSend].

Lemma ring_refines_queue_witness : ∃ b',
  run_ring (with_capacity 4) sample_ops =
    Some ([Count 3; Count 2; Count 3; Bytes [Byte.x03; Byte.x04; Byte.x05; Byte.x06]; Grew true; Count 2;
           Bytes [Byte.x03; Byte.x04; Byte.x05; Byte.x06]], b') ∧
  (capacity b', contents b') = (6, [Byte.x03; Byte.x04; Byte.x05; Byte.x06]).
Proof.
  destruct (ring_refines_queue 4 sample_ops) as [H|[H _]]; [lia|exact H|]. vm_compute in H. discriminate H.
Defined.

Lemma offset_after b n c rest :
  wf b → 0 < n ≤ avail b → parsing_context b = Some c → Parsing.take_from c n = Some rest →
  offset b rest = Some n ∧ Parsing.iter rest = drop n (contents b).
Proof.
  intros Hwf Hn Hc Hr. pose proof Hwf as [HL HP HA _].
  destruct (parsing_context_spec b Hwf) as (c' & Hc' & Hi). rewrite Hc in Hc'. simplify_eq.
  assert (Hlen : n ≤ Parsing.input_len c') by (rewrite <- Parsing.length_iter, Hi, length_contents; [lia|done]).
  destruct (Parsing.take_from_spec c' n Hlen) as (r & Hr' & Hir & Hp). rewrite Hr in Hr'. simplify_eq.
  split; [|congruence].
  destruct (parsing_context_addr b c') as (H0 & Hcase); [done|lia|done|].
  unfold offset. rewrite decide_True, Hp by lia.
  destruct Hcase as [(? & Hs & H1)|(? & Hs & H1)]; rewrite Hs, H0, H1;
    repeat case_decide; try lia; rewrite !usub_Some by lia; f_equal; lia.
Qed.

(** [offset] recovers how much the parser consumed.  When the parser has
    taken [n] bytes off the input it was given, the address arithmetic of
    [offset] yields [n], whether or not the input wraps, including when the
    remaining input starts exactly at the start of the memory. *)
Theorem offset_consumed b n c rest :
  wf b → 0 < n ≤ avail b → parsing_context b = Some c → Parsing.take_from c n = Some rest →
  offset b rest = Some n ∧ Parsing.iter rest = drop n (contents b).
Proof. apply offset_after. Qed.

(** A full ring of four bytes whose data starts at cell 3. *)
Definition wrapped_sample : t := mk [Byte.x02; Byte.x03; Byte.x04; Byte.x01] 4 3 3 4.

Lemma wrapped_sample_wf : wf wrapped_sample.
Proof. split; simpl; lia || reflexivity. Qed.

Lemma offset_consumed_witness : ∃ c rest,
  parsing_context wrapped_sample = Some c ∧ Parsing.take_from c 1 = Some rest ∧
  offset wrapped_sample rest = Some 1 ∧ Parsing.iter rest = [Byte.x02; Byte.x03; Byte.x04].
Proof.
  eexists _, _. split; [reflexivity|]. split; [reflexivity|].
  eapply (offset_consumed wrapped_sample 1 _ _ wrapped_sample_wf); [simpl; lia|reflexivity..].
Defined.

(** C39: growing keeps the pending bytes, or panics.  [grow] to a larger size keeps
    the contents whenever it returns; it panics (in [copy_from_slice], whose two
    slices then differ in length) exactly when the data wraps and the wrapped
    part is shorter than the growth. *)
Theorem grow_contents b n : wf b → capacity b < n →
  if decide (wrapped b ∧ bend b < n - capacity b) then grow b n = None
  else ∃ b', grow b n = Some (true, b') ∧ wf b' ∧ capacity b' = n ∧ contents b' = contents b.
Proof.
  intros Hwf Hn. case_decide as H.
  - by apply grow_wrapped_panics; destruct H.
  - destruct (decide (wrapped b)) as [Hw|]; [|by apply grow_unwrapped].
    apply grow_wrapped; auto. destruct (decide (bend b < n - capacity b)); [tauto|lia].
Qed.

Lemma grow_contents_witness :
  grow wrapped_sample 8 = None ∧
  ∃ b', grow wrapped_sample 6 = Some (true, b') ∧ wf b' ∧ capacity b' = 6 ∧
        contents b' = [Byte.x01; Byte.x02; Byte.x03; Byte.x04].
Proof.
  split.
  - apply (grow_contents wrapped_sample 8 wrapped_sample_wf). simpl; lia.
  - apply (grow_contents wrapped_sample 6 wrapped_sample_wf). simpl; lia.
Defined.

(** C38: rolling back a failed write.  Returning to the checkpoint taken before
    a write drops exactly what was written, except when the write filled an
    empty buffer completely: the end pointer is then back where it started, the
    rollback does nothing and the bytes stay pending. *)
Theorem rollback_write b data n b' :
  wf b → write b data = Some (n, b') →
  ∃ b'', rollback b' (checkpoint b) = Some b'' ∧ wf b'' ∧
         contents b'' = if decide (n = capacity b) then contents b' else contents b.
Proof. intros Hwf E. destruct (rollback_written b data n b' Hwf E) as (b'' & ? & ? & _ & ?). eauto. Qed.

Lemma rollback_write_witness : ∃ b', write (with_capacity 2) [Byte.x01; Byte.x02] = Some (2, b') ∧
  ∃ b'', rollback b' (checkpoint (with_capacity 2)) = Some b'' ∧ wf b'' ∧
         contents b'' = [Byte.x01; Byte.x02].
Proof.
  eexists; split; [reflexivity|].
  apply (rollback_write (with_capacity 2) [Byte.x01; Byte.x02] 2); [apply with_capacity_wf; lia|reflexivity].
Defined.

(** A length prefix written after the fact.  [reserve_write_use] leaves room for
    the prefix, lets the generator append its bytes, and comes back to write the
    prefix: the buffer ends up with the old contents, the prefix and the generated
    bytes in this order, even when any of the three parts wraps around. *)
Theorem reserve_write_use_prefix {Tmp} s reserved generator before (enc : Tmp → list byte) s1 s2 tmp ext k :
  wf s → reserved ≤ capacity s - avail s →
  fill s reserved = Some (k, s1) →
  generator s1 = Some (Ok (s2, tmp)) → appends s1 s2 ext →
  (∀ s', before s' tmp = let? (n, s'') := write s' (enc tmp) in
     Some (if decide (n = length (enc tmp)) then Ok s'' else Err GenOther)) →
  length (enc tmp) = reserved → reserved + length ext < capacity s →
  ∃ s', reserve_write_use s reserved generator before = Some (Ok s') ∧ wf s' ∧
        contents s' = contents s ++ enc tmp ++ ext.
Proof.
  intros Hwf Hr Hf Hg Ha Hb He Hl.
  destruct (reserve_write_use_spec s reserved generator before enc s1 s2 tmp ext k)
    as (s' & ? & ? & _ & _ & ?); eauto.
Qed.

(** A generator of two bytes, a one-byte prefix, on a ring whose end is about to wrap. *)
Definition prefix_sample : t := mk [Byte.x00; Byte.x00; Byte.x00; Byte.x07; Byte.x00] 5 3 4 1.
Definition gen_sample (s : t) : option (result GenError (t * byte)) :=
  let? (n, s') := write s [Byte.x0a; Byte.x0b] in Some (Ok (s', Byte.x02)).
Definition before_sample (s : t) (len : byte) : option (result GenError t) :=
  let? (n, s') := write s [len] in Some (if decide (n = length [len]) then Ok s' else Err GenOther).

Lemma reserve_write_use_prefix_witness :
  ∃ s', reserve_write_use prefix_sample 1 gen_sample before_sample = Some (Ok s') ∧ wf s' ∧
        contents s' = [Byte.x07; Byte.x02; Byte.x0a; Byte.x0b].
Proof.
  apply (reserve_write_use_prefix prefix_sample 1 gen_sample before_sample (λ x : byte, [x])
    (mk [Byte.x00; Byte.x00; Byte.x00; Byte.x07; Byte.x00] 5 3 0 2)
    (mk [Byte.x0a; Byte.x0b; Byte.x00; Byte.x07; Byte.x00] 5 3 2 4) Byte.x02 [Byte.x0a; Byte.x0b] 1);
    try reflexivity; try (simpl; lia).
  - split; simpl; lia || reflexivity.
  - split_and!; [|reflexivity..]. split; simpl; lia || reflexivity.
Defined.

End Buffer.
