(* ===== verification/Types.v ===== *)
(** The data of the client: AMQP methods and frames as the code builds and matches
    them, errors (src/error.rs), lifecycle states (src/channel_status.rs,
    src/connection_status.rs, src/consumer_status.rs), messages (src/message.rs,
    src/acker.rs), replies (src/generated/channel.rs), internal commands
    (src/internal_rpc.rs) and events (src/events.rs). *)
From S2P Require Import Prelude.
From S2P Require Import Buffer.
Open Scope Z_scope.

(** ** Machine integers and identifiers *)

Notation ChannelId := Z (only parsing).      (* u16 *)
Notation Identifier := Z (only parsing).     (* u16 *)
Notation ReplyCode := Z (only parsing).      (* u16 *)
Notation Heartbeat := Z (only parsing).      (* u16 *)
Notation FrameSize := Z (only parsing).      (* u32 *)
Notation MessageCount := Z (only parsing).   (* u32 *)
Notation DeliveryTag := Z (only parsing).    (* u64 *)
Notation PayloadSize := Z (only parsing).    (* u64 *)
Notation ShortString := string (only parsing).
Notation LongString := string (only parsing).

Definition u16_max : Z := 2 ^ 16 - 1.
Definition u32_max : Z := 2 ^ 32 - 1.

(** References into the shared store: every [Arc] cell the code shares. *)
Notation Resolver := nat (only parsing).     (* PromiseResolver<T>: the promise's cell *)
Notation KillSwitch := nat (only parsing).   (* Arc<AtomicBool> *)
Notation ErrorHolder := nat (only parsing).  (* Arc<OnceLock<Error>> *)
Notation Notifier := nat (only parsing).     (* Arc<AtomicBool> of a notifier *)
Notation ConsumerRef := nat (only parsing).  (* Arc<Mutex<consumer::Inner>> and its status *)
Notation ConnectionRef := nat (only parsing).

(** ** The AMQP types library

    [FieldTable], [AMQPValue] and [BasicProperties] belong to the amq-protocol crate; the
    client copies and compares them, takes their defaults and announces itself in a table it
    inserts values into.  A table is a map: [insert] replaces the value of its key. *)
Class AmqpTypes : Type := {
  FieldTable : Type;
  FieldTable_eq :: EqDecision FieldTable;
  FieldTable_default : FieldTable;
  AMQPValue : Type;
  LongStringValue : LongString → AMQPValue;
  BooleanValue : bool → AMQPValue;
  FieldTableValue : FieldTable → AMQPValue;
  table_insert : ShortString → AMQPValue → FieldTable → FieldTable;
  table_lookup : ShortString → FieldTable → option AMQPValue;
  table_lookup_insert k k' v t :
    table_lookup k (table_insert k' v t) = if decide (k = k') then Some v else table_lookup k t;
  BasicProperties : Type;
  BasicProperties_eq :: EqDecision BasicProperties;
  BasicProperties_default : BasicProperties;
}.

(** ** Options (src/generated/channel.rs, module [options]) *)

Record BasicConsumeOptions := mkBasicConsumeOptions {
  bco_no_local : bool; bco_no_ack : bool; bco_exclusive : bool; bco_nowait : bool }.
Record ExchangeDeclareOptions := mkExchangeDeclareOptions {
  edo_passive : bool; edo_durable : bool; edo_auto_delete : bool; edo_internal : bool; edo_nowait : bool }.
Record QueueDeclareOptions := mkQueueDeclareOptions {
  qdo_passive : bool; qdo_durable : bool; qdo_exclusive : bool; qdo_auto_delete : bool; qdo_nowait : bool }.

#[export] Instance BasicConsumeOptions_eq : EqDecision BasicConsumeOptions.
Proof. solve_decision. Defined.
#[export] Instance ExchangeDeclareOptions_eq : EqDecision ExchangeDeclareOptions.
Proof. solve_decision. Defined.
#[export] Instance QueueDeclareOptions_eq : EqDecision QueueDeclareOptions.
Proof. solve_decision. Defined.

Definition ExchangeDeclareOptions_default := mkExchangeDeclareOptions false false false false false.
Definition QueueDeclareOptions_default := mkQueueDeclareOptions false false false false false.

(** [QueueDeclareOptions::durable], [exclusive], [auto_delete] and [passive] (src/queue.rs). *)
Definition queue_durable : QueueDeclareOptions := mkQueueDeclareOptions false true false false false.
Definition queue_exclusive : QueueDeclareOptions := mkQueueDeclareOptions false false true false false.
Definition queue_auto_delete (o : QueueDeclareOptions) : QueueDeclareOptions :=
  mkQueueDeclareOptions (qdo_passive o) (qdo_durable o) (qdo_exclusive o) true (qdo_nowait o).
Definition queue_passive (o : QueueDeclareOptions) : QueueDeclareOptions :=
  mkQueueDeclareOptions true (qdo_durable o) (qdo_exclusive o) (qdo_auto_delete o) (qdo_nowait o).

(** ** Exchange kinds (src/exchange.rs) *)

Inductive ExchangeKind := Custom (s : string) | Direct | Fanout | Headers | Topic.

#[export] Instance ExchangeKind_eq : EqDecision ExchangeKind.
Proof. solve_decision. Defined.

Definition ExchangeKind_default : ExchangeKind := Direct.

Definition kind_str (k : ExchangeKind) : string :=
  match k with
  | Custom c => c
  | Direct => "direct"
  | Fanout => "fanout"
  | Headers => "headers"
  | Topic => "topic"
  end.

(** ** Lifecycle states *)

Inductive ChannelState :=
| ChInitial | ChReconnecting | ChConnected | ChClosing | ChClosed | ChError.

Inductive ConnectionState :=
| CoInitial | CoConnecting | CoConnected | CoClosing | CoClosed | CoReconnecting | CoError.

Inductive ConsumerState := Active | ActiveWithDelegate | Canceling | Canceled.

#[export] Instance ChannelState_eq : EqDecision ChannelState.
Proof. solve_decision. Defined.
#[export] Instance ConnectionState_eq : EqDecision ConnectionState.
Proof. solve_decision. Defined.
#[export] Instance ConsumerState_eq : EqDecision ConsumerState.
Proof. solve_decision. Defined.

Definition is_active (s : ConsumerState) : bool :=
  match s with Active | ActiveWithDelegate => true | _ => false end.

(** ** Errors *)

Inductive AMQPSoftError := PRECONDITIONFAILED | OtherSoft (id : Z).
Inductive AMQPHardError := FRAMEERROR | CHANNELERROR | UNEXPECTEDFRAME | COMMANDINVALID | OtherHard (id : Z).
Inductive AMQPErrorKind := Soft (e : AMQPSoftError) | Hard (e : AMQPHardError).

Record AMQPError := mkAMQPError { amqp_kind : AMQPErrorKind; amqp_message : string }.

#[export] Instance AMQPSoftError_eq : EqDecision AMQPSoftError.
Proof. solve_decision. Defined.
#[export] Instance AMQPHardError_eq : EqDecision AMQPHardError.
Proof. solve_decision. Defined.
#[export] Instance AMQPErrorKind_eq : EqDecision AMQPErrorKind.
Proof. solve_decision. Defined.
#[export] Instance AMQPError_eq : EqDecision AMQPError.
Proof. solve_decision. Defined.

Inductive IoErrorKind := WouldBlock | Interrupted | ConnectionAborted | OtherIo (code : Z).

#[export] Instance IoErrorKind_eq : EqDecision IoErrorKind.
Proof. solve_decision. Defined.

Inductive ErrorKind :=
| ChannelsLimitReached
| InvalidProtocolVersion (version : Z * Z * Z)
| InvalidChannel (id : ChannelId)
| InvalidChannelState (st : ChannelState) (context : string)
| InvalidConnectionState (st : ConnectionState)
| IOError (e : IoErrorKind)
| RuntimeShutdownError (e : IoErrorKind)
| ParsingError
| ProtocolError (e : AMQPError)
| SerialisationError
| AuthProviderError (e : string)
| FutureCompleted
| NoDefaultRuntime
| MissingHeartbeatError.

Record Error := mkError { kind : ErrorKind; notifier : option Notifier }.

#[export] Instance ErrorKind_eq : EqDecision ErrorKind.
Proof. solve_decision. Defined.
#[export] Instance Error_eq : EqDecision Error.
Proof. solve_decision. Defined.

(** [From<ErrorKind>]. *)
Definition error_from (k : ErrorKind) : Error := mkError k None.

Definition with_notifier (e : Error) (n : option Notifier) : Error := mkError (kind e) n.

Definition wouldblock (e : Error) : bool :=
  match kind e with IOError WouldBlock => true | _ => false end.
Definition interrupted (e : Error) : bool :=
  match kind e with IOError Interrupted => true | _ => false end.
Definition is_runtime_shutdown_error (e : Error) : bool :=
  match kind e with RuntimeShutdownError _ => true | _ => false end.
Definition is_io_error (e : Error) : bool :=
  match kind e with IOError _ => true | _ => is_runtime_shutdown_error e end.
Definition is_amqp_error (e : Error) : bool :=
  match kind e with ProtocolError _ => true | _ => false end.
Definition is_amqp_soft_error (e : Error) : bool :=
  match kind e with ProtocolError (mkAMQPError (Soft _) _) => true | _ => false end.
Definition is_amqp_hard_error (e : Error) : bool :=
  match kind e with ProtocolError (mkAMQPError (Hard _) _) => true | _ => false end.

Definition can_be_recovered (e : Error) : bool :=
  match kind e with
  | ChannelsLimitReached => false
  | InvalidProtocolVersion _ => false
  | InvalidChannel _ => true
  | InvalidChannelState _ _ => true
  | InvalidConnectionState _ => true
  | IOError _ => true
  | RuntimeShutdownError _ => false
  | ParsingError => false
  | ProtocolError _ => true
  | SerialisationError => false
  | AuthProviderError _ => false
  | FutureCompleted => false
  | NoDefaultRuntime => false
  | MissingHeartbeatError => true
  end.

(** [RecoveryConfig::can_recover] (src/configuration.rs). *)
Definition can_recover (auto_recover : bool) (e : Error) : bool := auto_recover && can_be_recovered e.

Definition res (A : Type) : Type := result Error A.

Section Data.
Context `{AT : AmqpTypes}.

(** ** Messages *)

(** [Acker]: [rpc] tells whether an internal RPC handle is attached. *)
Record Acker := mkAcker {
  ack_channel_id : ChannelId;
  ack_delivery_tag : DeliveryTag;
  ack_rpc : bool;
  ack_error : option ErrorHolder;
  ack_killswitch : KillSwitch;
  ack_channel_killswitch : KillSwitch;
}.

Record Delivery := mkDelivery {
  delivery_tag : DeliveryTag;
  exchange : ShortString;
  routing_key : ShortString;
  redelivered : bool;
  properties : BasicProperties;
  data : list byte;
  acker : Acker;
}.

(** [Ok(Some d)], [Ok(None)] (the consumer got canceled) or an error. *)
Definition DeliveryResult : Type := res (option Delivery).

Record BasicGetMessage := mkBasicGetMessage { bgm_delivery : Delivery; bgm_message_count : MessageCount }.

Record BasicReturnMessage := mkBasicReturnMessage {
  brm_delivery : Delivery; brm_reply_code : ReplyCode; brm_reply_text : ShortString }.

Inductive Confirmation :=
| Ack (m : option BasicReturnMessage)
| Nack (m : option BasicReturnMessage)
| NotRequested.

Definition set_properties (d : Delivery) (p : BasicProperties) : Delivery :=
  mkDelivery (delivery_tag d) (exchange d) (routing_key d) (redelivered d) p (data d) (acker d).

Definition receive_content (d : Delivery) (payload : list byte) : Delivery :=
  mkDelivery (delivery_tag d) (exchange d) (routing_key d) (redelivered d) (properties d)
    (data d ++ payload) (acker d).

Definition take_message (c : Confirmation) : option BasicReturnMessage :=
  match c with Ack m | Nack m => m | NotRequested => None end.
Definition is_ack (c : Confirmation) : bool := match c with Ack _ => true | _ => false end.
Definition is_nack (c : Confirmation) : bool := match c with Nack _ => true | _ => false end.

(** ** Methods and frames *)

Inductive AMQPClass :=
(* basic *)
| BasicQos (prefetch_count : Z) (global : bool)
| BasicQosOk
| BasicConsume (queue consumer_tag : ShortString) (o : BasicConsumeOptions) (arguments : FieldTable)
| BasicConsumeOk (consumer_tag : ShortString)
| BasicCancel (consumer_tag : ShortString) (nowait : bool)
| BasicCancelOk (consumer_tag : ShortString)
| BasicPublish (exchange routing_key : ShortString) (mandatory immediate : bool)
| BasicReturn (reply_code : ReplyCode) (reply_text exchange routing_key : ShortString)
| BasicDeliver (consumer_tag : ShortString) (delivery_tag : DeliveryTag) (redelivered : bool)
    (exchange routing_key : ShortString)
| BasicGet (queue : ShortString) (no_ack : bool)
| BasicGetOk (delivery_tag : DeliveryTag) (redelivered : bool) (exchange routing_key : ShortString)
    (message_count : MessageCount)
| BasicGetEmpty
| BasicAck (delivery_tag : DeliveryTag) (multiple : bool)
| BasicReject (delivery_tag : DeliveryTag) (requeue : bool)
| BasicRecoverAsync (requeue : bool)
| BasicRecover (requeue : bool)
| BasicRecoverOk
| BasicNack (delivery_tag : DeliveryTag) (multiple requeue : bool)
(* connection *)
| ConnectionStart (mechanisms locales : LongString)
| ConnectionStartOk (client_properties : FieldTable) (mechanism : ShortString) (response : LongString)
    (locale : ShortString)
| ConnectionSecure (challenge : LongString)
| ConnectionSecureOk (response : LongString)
| ConnectionTune (channel_max : ChannelId) (frame_max : FrameSize) (heartbeat : Heartbeat)
| ConnectionTuneOk (channel_max : ChannelId) (frame_max : FrameSize) (heartbeat : Heartbeat)
| ConnectionOpen (virtual_host : ShortString)
| ConnectionOpenOk
| ConnectionClose (reply_code : ReplyCode) (reply_text : ShortString) (class_id method_id : Identifier)
| ConnectionCloseOk
| ConnectionBlocked (reason : ShortString)
| ConnectionUnblocked
| ConnectionUpdateSecret (new_secret : LongString) (reason : ShortString)
| ConnectionUpdateSecretOk
(* channel *)
| ChannelOpen
| ChannelOpenOk
| ChannelFlow (active : bool)
| ChannelFlowOk (active : bool)
| ChannelClose (reply_code : ReplyCode) (reply_text : ShortString) (class_id method_id : Identifier)
| ChannelCloseOk
(* access *)
| AccessRequest (realm : ShortString) (exclusive passive active write read : bool)
| AccessRequestOk
(* exchange *)
| ExchangeDeclare (exchange kind : ShortString) (o : ExchangeDeclareOptions) (arguments : FieldTable)
| ExchangeDeclareOk
| ExchangeDelete (exchange : ShortString) (if_unused nowait : bool)
| ExchangeDeleteOk
| ExchangeBind (destination source routing_key : ShortString) (nowait : bool) (arguments : FieldTable)
| ExchangeBindOk
| ExchangeUnbind (destination source routing_key : ShortString) (nowait : bool) (arguments : FieldTable)
| ExchangeUnbindOk
(* queue *)
| QueueDeclare (queue : ShortString) (o : QueueDeclareOptions) (arguments : FieldTable)
| QueueDeclareOk (queue : ShortString) (message_count consumer_count : MessageCount)
| QueueBind (queue exchange routing_key : ShortString) (nowait : bool) (arguments : FieldTable)
| QueueBindOk
| QueuePurge (queue : ShortString) (nowait : bool)
| QueuePurgeOk (message_count : MessageCount)
| QueueDelete (queue : ShortString) (if_unused if_empty nowait : bool)
| QueueDeleteOk (message_count : MessageCount)
| QueueUnbind (queue exchange routing_key : ShortString) (arguments : FieldTable)
| QueueUnbindOk
(* tx, confirm *)
| TxSelect | TxSelectOk | TxCommit | TxCommitOk | TxRollback | TxRollbackOk
| ConfirmSelect (nowait : bool)
| ConfirmSelectOk.

Record AMQPContentHeader := mkContentHeader {
  ch_class_id : Identifier; ch_body_size : PayloadSize; ch_properties : BasicProperties }.

Inductive AMQPFrame :=
| ProtocolHeader (version : Z * Z * Z)
| Method (channel : ChannelId) (m : AMQPClass)
| Header (channel : ChannelId) (h : AMQPContentHeader)
| Body (channel : ChannelId) (payload : list byte)
| HeartbeatFrame
| InvalidHeartbeat (channel : ChannelId).

(** [AMQPFrame::channel_id]: zero for the frames that carry no channel. *)
Definition frame_channel (f : AMQPFrame) : ChannelId :=
  match f with
  | Method c _ | Header c _ | Body c _ | InvalidHeartbeat c => c
  | ProtocolHeader _ | HeartbeatFrame => 0
  end.

(** [AMQPFrame::is_header]. *)
Definition is_header (f : AMQPFrame) : bool := match f with Header _ _ => true | _ => false end.

Definition is_protocol_header (f : AMQPFrame) : bool :=
  match f with ProtocolHeader _ => true | _ => false end.

(** ** Replies the client waits for *)

(** [ConnectionStep] (src/connection_step.rs). *)
Inductive ConnectionStep :=
| StepProtocolHeader (resolver : Resolver) (c : ConnectionRef)
| StepStartOk (resolver : Resolver) (c : ConnectionRef)
| StepSecureOk (resolver : Resolver) (c : ConnectionRef).

Definition into_connection_resolver (s : ConnectionStep) : Resolver :=
  match s with StepProtocolHeader r _ | StepStartOk r _ | StepSecureOk r _ => r end.
Definition step_connection (s : ConnectionStep) : ConnectionRef :=
  match s with StepProtocolHeader _ c | StepStartOk _ c | StepSecureOk _ c => c end.

Inductive Reply :=
| RConnectionStep (s : ConnectionStep)
| RBasicQosOk (r : Resolver)
| RBasicConsumeOk (r : Resolver) (closer : bool) (queue : ShortString) (o : BasicConsumeOptions)
    (arguments : FieldTable) (original : option ConsumerRef)
| RBasicCancelOk (r : Resolver)
| RBasicGetOk (r : Resolver)
| RBasicRecoverOk (r : Resolver)
| RConnectionOpenOk (r : Resolver) (c : ConnectionRef) (conn_resolver : Resolver)
| RConnectionCloseOk (r : Resolver)
| RConnectionUpdateSecretOk (r : Resolver)
| RChannelOpenOk (r : Resolver) (channel : ChannelId)
| RChannelFlowOk (r : Resolver)
| RChannelCloseOk (r : Resolver)
| RAccessRequestOk (r : Resolver)
| RExchangeDeclareOk (r : Resolver) (exchange : ShortString) (k : ExchangeKind)
    (o : ExchangeDeclareOptions) (arguments : FieldTable)
| RExchangeDeleteOk (r : Resolver) (exchange : ShortString)
| RExchangeBindOk (r : Resolver) (destination source routing_key : ShortString) (arguments : FieldTable)
| RExchangeUnbindOk (r : Resolver) (destination source routing_key : ShortString) (arguments : FieldTable)
| RQueueDeclareOk (r : Resolver) (o : QueueDeclareOptions) (arguments : FieldTable)
| RQueueBindOk (r : Resolver) (queue exchange routing_key : ShortString) (arguments : FieldTable)
| RQueuePurgeOk (r : Resolver)
| RQueueDeleteOk (r : Resolver) (queue : ShortString)
| RQueueUnbindOk (r : Resolver) (queue exchange routing_key : ShortString) (arguments : FieldTable)
| RTxSelectOk (r : Resolver)
| RTxCommitOk (r : Resolver)
| RTxRollbackOk (r : Resolver)
| RConfirmSelectOk (r : Resolver).

(** [ExpectedReply]: the reply and the cancelable attached to it. *)
Record ExpectedReply := mkExpectedReply { er_reply : Reply; er_cancel : Resolver }.

(** ** Futures handed to the executor

    The asynchronous blocks the code spawns, by the code they run. *)
Inductive Task :=
| TChannelFlowOk (ch : ChannelId) (active : bool)
| TChannelCloseOk (ch : ChannelId) (error : option Error)
| TBasicCancelOk (ch : ChannelId) (consumer_tag : ShortString)
| TChannelClose (ch : ChannelId) (code : ReplyCode) (text : ShortString) (class_id method_id : Identifier)
| TConnectionStartOk (client_properties : FieldTable) (mechanism : ShortString) (response : LongString)
    (locale : ShortString) (resolver : Resolver) (c : ConnectionRef)
| TConnectionSecureOk (response : LongString) (resolver : Resolver) (c : ConnectionRef)
| TConnectionTuneOk (vhost : ShortString) (resolver : Resolver) (c : ConnectionRef)
| TNewDelivery (c : ConsumerRef) (d : DeliveryResult)
| TDropPrefetched (c : ConsumerRef).

(** ** Internal commands (src/internal_rpc.rs) *)

Inductive InternalCommand :=
| CBasicAck (ch : ChannelId) (tag : DeliveryTag) (multiple : bool) (r : Resolver) (e : option ErrorHolder)
| CBasicNack (ch : ChannelId) (tag : DeliveryTag) (multiple requeue : bool) (r : Resolver) (e : option ErrorHolder)
| CBasicReject (ch : ChannelId) (tag : DeliveryTag) (requeue : bool) (r : Resolver) (e : option ErrorHolder)
| CCancelConsumer (ch : ChannelId) (consumer_tag : ShortString) (c : ConsumerRef)
| CCloseChannel (ch : ChannelId) (code : ReplyCode) (text : ShortString)
| CCloseConnection (code : ReplyCode) (text : ShortString) (class_id method_id : Identifier) (r : option Resolver)
| CCreateChannel (r : Resolver)
| CDeregisterConsumer (ch : ChannelId) (consumer_tag : ShortString)
| CFinishConnectionShutdown
| CInitConnectionRecovery (e : Error)
| CInitConnectionShutdown (e : Error) (r : option Resolver)
| CRemoveChannel (ch : ChannelId) (e : Error)
| CSendConnectionCloseOk (e : Error)
| CSendHeartbeat
| CSetChannelStatus (ch : ChannelId) (k : KillSwitch)
| CSetConnectionClosing
| CSetConnectionClosed (e : Error)
| CSetConnectionError (e : Error)
| CSpawn (t : Task)
| CStartChannelsRecovery
| CStartHeartbeat (millis : Z)
| CUpdateSecret (secret : LongString) (reason : ShortString) (r : Resolver).

(** ** Events (src/events.rs) *)

Inductive Event :=
| EvConnected
| EvConnectionBlocked (reason : string)
| EvConnectionUnblocked
| EvSendFlow (active : bool)
| EvError (e : Error).

(** ** Values promises resolve to *)

(** A queue as the server declared it (src/queue.rs). *)
Record Queue := mkQueue { queue_name : ShortString; queue_message_count : MessageCount; queue_consumer_count : MessageCount }.

Inductive PVal :=
| VUnit
| VConfirmation (c : Confirmation)
| VChannel (ch : ChannelId)
| VConsumer (c : ConsumerRef)
| VGet (m : option BasicGetMessage)
| VBool (b : bool)
| VQueue (q : Queue)
| VCount (n : MessageCount)
| VConnection (c : ConnectionRef).

(** ** Consumers (src/consumer.rs, src/consumer_status.rs)

    [c_deliveries] is the channel between [deliveries_in] and [deliveries_out];
    [c_delegate] tells whether a delegate is installed. *)
Record Consumer := mkConsumer {
  c_tag : ShortString;
  c_current_message : option Delivery;
  c_deliveries : list DeliveryResult;
  c_state : ConsumerState;
  c_delegate : bool;
  c_queue : ShortString;
  c_options : BasicConsumeOptions;
  c_arguments : FieldTable;
  c_error : ErrorHolder;
}.

(** ** The AMQP method table

    Class and method numbers and the mapping of close codes to errors are the
    amq-protocol crate's; the client reads them through this interface. *)
Class AmqpProtocol : Type := {
  get_amqp_class_id : AMQPClass → Identifier;
  get_amqp_method_id : AMQPClass → Identifier;
  get_id : AMQPErrorKind → ReplyCode;
  amqp_error_of_close : ReplyCode → ShortString → option AMQPError;
  FRAME_MIN_SIZE : FrameSize;
  FRAME_MIN_SIZE_range : 8 < FRAME_MIN_SIZE ≤ u32_max;
}.

End Data.

(** A concrete instance of the types library, to evaluate the model: tables and
    properties as numbers. *)
Definition alist_lookup (k : string) (t : list (string * string)) : option string :=
  snd <$> List.find (λ x, bool_decide (k = x.1)) t.

Lemma alist_lookup_cons k k' v t : alist_lookup k ((k', v) :: t) = if decide (k = k') then Some v else alist_lookup k t.
Proof. unfold alist_lookup. simpl. case_bool_decide; by case_decide. Qed.

Definition number_types : AmqpTypes :=
  {| FieldTable := list (string * string); FieldTable_eq := _; FieldTable_default := [];
     AMQPValue := string; LongStringValue s := s; BooleanValue b := if b then "t" else "f";
     FieldTableValue t := String.concat ";" ((λ x, x.1 +:+ "=" +:+ x.2) <$> t);
     table_insert k v t := (k, v) :: t; table_lookup := alist_lookup; table_lookup_insert := alist_lookup_cons;
     BasicProperties := nat; BasicProperties_eq := _; BasicProperties_default := 0%nat |}.

Section NumberProtocol.
#[local] Existing Instance number_types.

Definition class_number (m : AMQPClass) : Identifier :=
  match m with
  | ConnectionStart _ _ | ConnectionStartOk _ _ _ _ | ConnectionSecure _ | ConnectionSecureOk _
  | ConnectionTune _ _ _ | ConnectionTuneOk _ _ _ | ConnectionOpen _ | ConnectionOpenOk
  | ConnectionClose _ _ _ _ | ConnectionCloseOk | ConnectionBlocked _ | ConnectionUnblocked
  | ConnectionUpdateSecret _ _ | ConnectionUpdateSecretOk => 10
  | ChannelOpen | ChannelOpenOk | ChannelFlow _ | ChannelFlowOk _ | ChannelClose _ _ _ _ | ChannelCloseOk => 20
  | AccessRequest _ _ _ _ _ _ | AccessRequestOk => 30
  | ExchangeDeclare _ _ _ _ | ExchangeDeclareOk | ExchangeDelete _ _ _ | ExchangeDeleteOk
  | ExchangeBind _ _ _ _ _ | ExchangeBindOk | ExchangeUnbind _ _ _ _ _ | ExchangeUnbindOk => 40
  | QueueDeclare _ _ _ | QueueDeclareOk _ _ _ | QueueBind _ _ _ _ _ | QueueBindOk | QueuePurge _ _
  | QueuePurgeOk _ | QueueDelete _ _ _ _ | QueueDeleteOk _ | QueueUnbind _ _ _ _ | QueueUnbindOk => 50
  | TxSelect | TxSelectOk | TxCommit | TxCommitOk | TxRollback | TxRollbackOk => 90
  | ConfirmSelect _ | ConfirmSelectOk => 85
  | _ => 60
  end.

Definition error_number (k : AMQPErrorKind) : ReplyCode :=
  match k with
  | Soft PRECONDITIONFAILED => 406
  | Hard FRAMEERROR => 501
  | Hard COMMANDINVALID => 503
  | Hard CHANNELERROR => 504
  | Hard UNEXPECTEDFRAME => 505
  | Soft (OtherSoft i) | Hard (OtherHard i) => i
  end.

Definition error_of_number (code : ReplyCode) (text : ShortString) : option AMQPError :=
  if code =? 406 then Some (mkAMQPError (Soft PRECONDITIONFAILED) text)
  else if code =? 504 then Some (mkAMQPError (Hard CHANNELERROR) text)
  else if code =? 320 then Some (mkAMQPError (Hard (OtherHard 320)) text)
  else None.

Program Definition number_protocol : AmqpProtocol :=
  {| get_amqp_class_id := class_number; get_amqp_method_id := λ _, 10; get_id := error_number;
     amqp_error_of_close := error_of_number; FRAME_MIN_SIZE := 4096 |}.
Next Obligation. unfold u32_max. lia. Qed.

End NumberProtocol.
