(* ===== verification/Wakeups.v ===== *)
(** Futures and their wake-ups: [Listener] (src/listener.rs) and the futures built on it, [Promise]
    (src/promise.rs), [Notifier] (src/notifier.rs) and the stream of a [Consumer]
    (src/consumer.rs).  Tasks that poll and threads that produce run interleaved, one atomic
    operation at a time: a critical section of a lock, an atomic load or store, an operation of the
    [Event] of the event-listener crate (class [EventListener]). *)
From S2P Require Import Prelude.
From S2P Require Import Buffer.
From S2P Require Import Types.

(** ** The event-listener crate *)

Notation TaskId := nat (only parsing).

(** A listener that was never polled, one that waits with the waker of a task, a notified one. *)
Inductive ListenerStatus := Fresh | Waiting (w : TaskId) | Notified.

Definition notified_by (st : option ListenerStatus) : option ListenerStatus :=
  match st with Some _ => Some Notified | None => None end.

(** What the end of a listener may do to another one: leave it or, when the one that ends was
    notified, notify it and wake the task that waits. *)
Definition may_notify (ended st st' : option ListenerStatus) (woken : list TaskId) : Prop :=
  st' = st ∨ (ended = Some Notified ∧ st' = notified_by st ∧ ∀ w, st = Some (Waiting w) → w ∈ woken).

(** [Event] as documented: [listen] registers a listener; [notify] with [usize::MAX] notifies all of
    them and wakes those that wait; polling a notified listener ends it, polling another keeps the
    waker; dropping a listener forgets it, and may pass its notification on. *)
Class EventListener := {
  Event_ : Type;
  ListenerId : Type;
  listener_eq_dec :: EqDecision ListenerId;
  event_new : Event_;
  listen : Event_ → ListenerId * Event_;
  notify_all_ : Event_ → list TaskId * Event_;
  poll_listener : ListenerId → TaskId → Event_ → bool * Event_;
  drop_listener : ListenerId → Event_ → list TaskId * Event_;
  status_of : Event_ → ListenerId → option ListenerStatus;
  event_new_spec : ∀ l, status_of event_new l = None;
  listen_spec : ∀ ev l ev', listen ev = (l, ev') → status_of ev l = None ∧ status_of ev' l = Some Fresh ∧
    ∀ l', l' ≠ l → status_of ev' l' = status_of ev l';
  notify_spec : ∀ ev ws ev', notify_all_ ev = (ws, ev') →
    (∀ l, status_of ev' l = notified_by (status_of ev l)) ∧ ∀ l w, status_of ev l = Some (Waiting w) → w ∈ ws;
  poll_spec : ∀ ev l w b ev', poll_listener l w ev = (b, ev') → is_Some (status_of ev l) →
    (b = true ↔ status_of ev l = Some Notified) ∧
    status_of ev' l = (if b then None else Some (Waiting w)) ∧ ∀ l', l' ≠ l → status_of ev' l' = status_of ev l';
  drop_spec : ∀ ev l ws ev', drop_listener l ev = (ws, ev') → status_of ev' l = None ∧
    ∀ l', l' ≠ l → may_notify (status_of ev l) (status_of ev l') (status_of ev' l') ws;
}.

(** ** What a future waits for *)

(** [take] is the check of the guarded condition; [put] what a producer does before it notifies ([None]: nothing, and
    no notification); [drain] what others may take away; [on_ready] the result of a future that does not check
    again when its listener is notified. *)
Class Cell (R A P : Type) := {
  take_ : R → option A * R;
  put_ : P → R → option R;
  drain : R → R;
  on_ready : option A;
  take_none : ∀ r r', take_ r = (None, r') → r' = r;
  drain_none : ∀ r, (take_ r).1 = None → (take_ (drain r)).1 = None;
}.

Definition empty_cell `{Cell R A P} (r : R) : Prop := (take_ r).1 = None.

Module Wakeups.
Section Wakeups.
Context `{EL : EventListener} {R A P : Type} `{CE : !Cell R A P}.

(** Where a task is in its [poll]; it sleeps when [poll] returned [Pending]. *)
Inductive Pc := Start | ToArm | Armed | Took (a : A) | Checked | Asleep | Finished (a : A).

(** A task with its own clone of the [Listener]: [pending]. *)
Record Task_ := mkTask { pc : Pc; pending : option ListenerId }.

(** [inflight] producers are between [put] and [notify]; [woken] tasks are to be polled by the executor. *)
Record t := mk { cell : R; event : Event_; tasks : gmap TaskId Task_; inflight : nat; woken : gset TaskId }.

Definition set_task (i : TaskId) (x : Task_) (s : t) : t := mk (cell s) (event s) (<[i := x]> (tasks s)) (inflight s) (woken s).
Definition set_event (ev : Event_) (s : t) : t := mk (cell s) ev (tasks s) (inflight s) (woken s).
Definition set_cell (r : R) (s : t) : t := mk r (event s) (tasks s) (inflight s) (woken s).
Definition wake_tasks (ws : list TaskId) (s : t) : t := mk (cell s) (event s) (tasks s) (inflight s) (list_to_set ws ∪ woken s).

(** ** [Listener] *)

Definition arm (pending : option ListenerId) (ev : Event_) : ListenerId * Event_ :=
  match pending with Some l => (l, ev) | None => listen ev end.

Definition disarm (pending : option ListenerId) (ev : Event_) : list TaskId * Event_ :=
  match pending with Some l => drop_listener l ev | None => ([], ev) end.

(** [None] is the panic of [poll] before [arm]. *)
Definition poll (pending : option ListenerId) (i : TaskId) (ev : Event_) : option (bool * Event_) :=
  match pending with Some l => Some (poll_listener l i ev) | None => None end.

(** ** The steps *)

(** One atomic operation of the [poll] of the task [i]; [None] when it cannot move, or panics. *)
Definition run_task (i : TaskId) (s : t) : option t :=
  x ← tasks s !! i;
  match pc x with
  | Start =>
    match on_ready with
    | None => let '(l, ev) := arm (pending x) (event s) in Some (set_task i (mkTask Armed (Some l)) (set_event ev s))
    | Some _ =>
      let '(a, r) := take_ (cell s) in
      Some (set_task i (mkTask (match a with Some a => Finished a | None => ToArm end) (pending x)) (set_cell r s))
    end
  | ToArm => let '(l, ev) := arm (pending x) (event s) in Some (set_task i (mkTask Armed (Some l)) (set_event ev s))
  | Armed =>
    let '(a, r) := take_ (cell s) in
    Some (set_task i (mkTask (match a, on_ready with
                              | Some a, None => Took a
                              | Some a, Some _ => Finished a
                              | None, _ => Checked
                              end) (pending x)) (set_cell r s))
  | Took a =>
    let '(ws, ev) := disarm (pending x) (event s) in
    Some (wake_tasks ws (set_task i (mkTask (Finished a) None) (set_event ev s)))
  | Checked =>
    '(b, ev) ← poll (pending x) i (event s);
    Some (set_task i (if b : bool then mkTask (match on_ready with None => Start | Some a => Finished a end) None
                      else mkTask Asleep (pending x)) (set_event ev s))
  | Asleep | Finished _ => None
  end.

Inductive Action :=
| Poll_ (i : TaskId)
| Run (i : TaskId)
| Put (p : P)
| Notify
| Drain
| Spawn (i : TaskId)
| Drop (i : TaskId).

(** The executor polls a sleeping task, woken or not, and a finished stream can be polled again; tasks
    are added and dropped at any time. *)
Definition act (a : Action) (s : t) : option t :=
  match a with
  | Poll_ i =>
    x ← tasks s !! i;
    match pc x with
    | Asleep | Finished _ =>
      Some (mk (cell s) (event s) (<[i := mkTask Start (pending x)]> (tasks s)) (inflight s) (woken s ∖ {[ i ]}))
    | _ => None
    end
  | Run i => run_task i s
  | Put p => r ← put_ p (cell s); Some (mk r (event s) (tasks s) (S (inflight s)) (woken s))
  | Notify =>
    match inflight s with
    | O => None
    | S n => let '(ws, ev) := notify_all_ (event s) in Some (mk (cell s) ev (tasks s) n (list_to_set ws ∪ woken s))
    end
  | Drain => Some (set_cell (drain (cell s)) s)
  | Spawn i => match tasks s !! i with None => Some (set_task i (mkTask Start None) s) | Some _ => None end
  | Drop i =>
    x ← tasks s !! i;
    let '(ws, ev) := disarm (pending x) (event s) in
    Some (mk (cell s) ev (delete i (tasks s)) (inflight s) (list_to_set ws ∪ woken s))
  end.

Definition step (s s' : t) : Prop := ∃ a, act a s = Some s'.

Definition init (r : R) : t := mk r event_new ∅ 0 ∅.

Definition reachable (r : R) (s : t) : Prop := rtc step (init r) s.

(** A schedule. *)
Fixpoint acts (l : list Action) (s : t) : option t :=
  match l with [] => Some s | a :: l => s ← act a s; acts l s end.

Lemma acts_steps l : ∀ s s', acts l s = Some s' → rtc step s s'.
Proof.
  induction l as [|a l IH]; intros s s' H; simpl in H; [by simplify_eq|].
  destruct (act a s) as [s1|] eqn:E; [|done]. eapply rtc_l; [by exists a|by apply IH].
Qed.

(** ** The invariant *)

Definition armed (p : Pc) : bool := match p with Armed | Took _ | Checked | Asleep => true | _ => false end.

(** What holds of a task [i] in a state whose event, producers and woken tasks are given. *)
Record task_ok (ev : Event_) (full quiet : Prop) (i : TaskId) (wk : Prop) (x : Task_) : Prop := mkOk {
  ok_registered : ∀ l, pending x = Some l → is_Some (status_of ev l);
  ok_own : ∀ l w, pending x = Some l → status_of ev l = Some (Waiting w) → w = i;
  ok_armed : armed (pc x) = true → is_Some (pending x);
  ok_asleep : ∀ l, pc x = Asleep → pending x = Some l → status_of ev l = Some (Waiting i) ∨ (status_of ev l = Some Notified ∧ wk);
  ok_checked : ∀ l, pc x = Checked ∨ pc x = Asleep → pending x = Some l → full → quiet → status_of ev l = Some Notified;
}.

Record inv (s : t) : Prop := mkInv {
  inv_tasks : ∀ i x, tasks s !! i = Some x → task_ok (event s) (¬ empty_cell (cell s)) (inflight s = O) i (i ∈ woken s) x;
  inv_distinct : ∀ i j x y l, tasks s !! i = Some x → tasks s !! j = Some y → pending x = Some l → pending y = Some l → i = j;
}.

(** The listeners of a task that does not move are left as they are, or notified. *)
Definition kept (ev ev' : Event_) (woken : gset TaskId) (l : ListenerId) : Prop :=
  status_of ev' l = status_of ev l ∨
  (status_of ev' l = notified_by (status_of ev l) ∧ ∀ w, status_of ev l = Some (Waiting w) → w ∈ woken).

Lemma task_ok_kept ev ev' (full full' quiet quiet' : Prop) i (wk wk' : Prop) woken x :
  task_ok ev full quiet i wk x → (∀ l, pending x = Some l → kept ev ev' woken l) →
  (full' → quiet' → full ∧ quiet) → (i ∈ woken → wk') → (pc x = Asleep → wk → wk') →
  task_ok ev' full' quiet' i wk' x.
Proof.
  intros [H1 H2 H3 H4 H5] HK HF Hw Hs. split; [..|].
  - intros l E. destruct (HK l E) as [->|[-> _]]; [eauto|]. destruct (H1 l E) as [? ->]. by eexists.
  - intros l w E Hl. destruct (HK l E) as [Eq|[Eq _]]; rewrite Eq in Hl; [eauto|]. destruct (H1 l E) as [? E']. by rewrite E' in Hl.
  - done.
  - intros l Hp E. destruct (H4 l Hp E) as [A1|[A1 A2]], (HK l E) as [Eq|[Eq Hwk]]; rewrite Eq, ?A1; simpl; eauto.
  - intros l Hp E Hf Hq. destruct (HF Hf Hq). specialize (H5 l Hp E). destruct (HK l E) as [->|[-> _]]; [tauto|].
    destruct (H1 l E) as [? ->]. done.
Qed.

(** The task [i] becomes [x'], the others keep theirs. *)
Lemma inv_update s i x' r' ev' n' wk ws : inv s →
  (∀ l, status_of (event s) l ≠ None → pending x' ≠ Some l → (∀ x, tasks s !! i = Some x → pending x ≠ Some l) → kept (event s) ev' ws l) →
  (∀ l, pending x' = Some l → (∃ x, tasks s !! i = Some x ∧ pending x = Some l) ∨ status_of (event s) l = None) →
  (¬ empty_cell r' → n' = O → ¬ empty_cell (cell s) ∧ inflight s = O) → woken s ∖ {[ i ]} ⊆ wk → ws ⊆ wk →
  task_ok ev' (¬ empty_cell r') (n' = O) i (i ∈ wk) x' →
  inv (mk r' ev' (<[i := x']> (tasks s)) n' wk).
Proof.
  intros [HT HD] HK HF HE Hw Hws Hx. assert (∀ j y l, j ≠ i → tasks s !! j = Some y → pending y = Some l →
    pending x' ≠ Some l ∧ ∀ x, tasks s !! i = Some x → pending x ≠ Some l) as HN.
  { intros j y l Hj Ey El. split; [|intros x Ex Ep; naive_solver].
    intros Ep. destruct (HF l Ep) as [(x & Ex & Exl)|Hn]; [naive_solver|].
    destruct (ok_registered _ _ _ _ _ _ (HT j y Ey) l El) as [? ?]. congruence. }
  split; simpl.
  - intros j y [[<- <-]|[Hj Ey]]%lookup_insert_Some; [done|]. eapply (task_ok_kept _ _ _ _ _ _ _ _ _ ws); [by apply (HT j y)|..]; [|done|set_solver..].
    intros l El. destruct (HN j y l) as [? ?]; [done..|]. apply HK; [|done..].
    destruct (ok_registered _ _ _ _ _ _ (HT j y Ey) l El) as [? ->]. done.
  - intros j k y z l [[<- <-]|[Hj Ey]]%lookup_insert_Some [[<- <-]|[Hk Ez]]%lookup_insert_Some Ey' Ez'; [done|..|by eapply HD].
    + destruct (HN k z l) as [? ?]; done.
    + destruct (HN j y l) as [? ?]; done.
Qed.

(** No task moves. *)
Lemma inv_others s r' ev' n' wk ws : inv s → (∀ l, kept (event s) ev' ws l) →
  (¬ empty_cell r' → n' = O → ¬ empty_cell (cell s) ∧ inflight s = O) → woken s ⊆ wk → ws ⊆ wk →
  inv (mk r' ev' (tasks s) n' wk).
Proof.
  intros [HT HD] HK HE Hw Hws. split; simpl; [|done]. intros j y Ey.
  eapply (task_ok_kept _ _ _ _ _ _ _ _ _ ws); [by apply (HT j y)|..]; [|done|set_solver..]. eauto.
Qed.

Lemma inv_delete s i : inv s → inv (mk (cell s) (event s) (delete i (tasks s)) (inflight s) (woken s)).
Proof. intros [HT HD]. split; simpl; intros *; rewrite ?lookup_delete_Some; naive_solver. Qed.

Lemma kept_refl ev ws l : kept ev ev ws l.
Proof. by left. Qed.

Lemma take_full r a r' : take_ r = (a, r') → ¬ empty_cell r' → ¬ empty_cell r.
Proof. intros E H H'. unfold empty_cell in *. rewrite E in H'. simpl in H'. subst a. by rewrite (take_none _ _ E), E in H. Qed.

(** A task whose listener stays and which is neither checked nor asleep. *)
Lemma task_ok_pc ev full quiet full' quiet' i wk wk' x p : task_ok ev full quiet i wk x →
  (armed p = true → is_Some (pending x)) → p ≠ Checked → p ≠ Asleep → task_ok ev full' quiet' i wk' (mkTask p (pending x)).
Proof. intros [H1 H2 H3 H4 H5] Hp Hc Ha. split; simpl; eauto; naive_solver. Qed.

Lemma task_ok_idle ev full quiet i wk p : armed p = false → task_ok ev full quiet i wk (mkTask p None).
Proof. intros Hp. split; simpl; intros; try done. by rewrite Hp in *. Qed.

Lemma arm_inv s i x : inv s → tasks s !! i = Some x → inv (let '(l, ev) := arm (pending x) (event s) in set_task i (mkTask Armed (Some l)) (set_event ev s)).
Proof.
  intros HI Ex. pose proof (inv_tasks _ HI i x Ex) as Hx. unfold arm. destruct (pending x) as [l|] eqn:Ep.
  - apply (inv_update s _ _ _ _ _ _ ∅); [done|..]; [intros; apply kept_refl| |done|set_solver..|]; [naive_solver|].
    rewrite <- Ep. eapply task_ok_pc; [done|naive_solver..].
  - destruct (listen (event s)) as [l ev] eqn:El. apply listen_spec in El as (En & Ef & Ek).
    apply (inv_update s _ _ _ _ _ _ ∅); [done|..]; simpl; [|naive_solver|done|set_solver..|].
    + intros l' Hl' _ _. left. apply Ek. intros ->. done.
    + split; simpl; naive_solver.
Qed.

Lemma take_inv s i x a r p : inv s → tasks s !! i = Some x → take_ (cell s) = (a, r) →
  (armed p = true → is_Some (pending x)) → p ≠ Asleep → (p = Checked → a = None) → inv (set_task i (mkTask p (pending x)) (set_cell r s)).
Proof.
  intros HI Ex Et Hp Ha Hc. pose proof (inv_tasks _ HI i x Ex) as Hx.
  apply (inv_update s _ _ _ _ _ _ ∅); [done|..]; simpl; [intros; apply kept_refl|naive_solver| |set_solver..|].
  - intros Hr Hn. split; [by eapply take_full|done].
  - destruct Hx as [H1 H2 H3 H4 H5]. split; simpl; [done..|by intros l ?|].
    intros l [Ec|?] El Hf _; [|done]. destruct Hf. unfold empty_cell. rewrite (Hc Ec) in Et. by rewrite (take_none _ _ Et), Et.
Qed.

Lemma kept_drop ev l ws ev' l' (wk : gset TaskId) : drop_listener l ev = (ws, ev') → l' ≠ l → list_to_set ws ⊆ wk → kept ev ev' wk l'.
Proof.
  intros (_ & H)%drop_spec Hl Hw. destruct (H l' Hl) as [?|(_ & ? & Hws)]; [by left|right]. split; [done|].
  intros w Ew. apply Hw, elem_of_list_to_set, Hws, Ew.
Qed.

Lemma disarm_inv s i x p ws ev : inv s → tasks s !! i = Some x → disarm (pending x) (event s) = (ws, ev) → armed p = false →
  inv (wake_tasks ws (set_task i (mkTask p None) (set_event ev s))).
Proof.
  intros HI Ex Ed Hp. apply (inv_update s _ _ _ _ _ _ (list_to_set ws)); [done|..]; simpl; [|naive_solver|naive_solver|set_solver..|].
  - intros l _ _ Hl. specialize (Hl x Ex). unfold disarm in Ed. destruct (pending x) as [l'|]; simplify_eq; [|apply kept_refl].
    eapply kept_drop; [done|congruence|done].
  - by apply task_ok_idle.
Qed.

Lemma poll_inv s i x b ev p : inv s → tasks s !! i = Some x → pc x = Checked → poll (pending x) i (event s) = Some (b, ev) → armed p = false →
  inv (set_task i (if b : bool then mkTask p None else mkTask Asleep (pending x)) (set_event ev s)).
Proof.
  intros HI Ex Ec Epo Hp. pose proof (inv_tasks _ HI i x Ex) as Hx. unfold poll in Epo. destruct (pending x) as [l|] eqn:Ep; [|done].
  injection Epo as Epo. apply poll_spec in Epo as (Hb & Hl & Hk); [|by eapply ok_registered].
  apply (inv_update s _ _ _ _ _ _ ∅); [done|..]; simpl; [|destruct b; simpl; naive_solver|done|set_solver..|].
  - intros l' _ _ Hl'. left. apply Hk. intros ->. by apply (Hl' x).
  - destruct b; [by apply task_ok_idle|]. split; simpl; [intros l' [= <-]; by eexists|intros l' w [= <-]; congruence|by eexists|intros l' _ [= <-]; by left|].
    intros l' _ [= <-] Hf Hq. assert (false = true); [apply Hb, (ok_checked _ _ _ _ _ _ Hx); eauto|done].
Qed.

Lemma run_task_inv i s s' : inv s → run_task i s = Some s' → inv s'.
Proof.
  intros HI H. unfold run_task in H. destruct (tasks s !! i) as [x|] eqn:Ex; simpl in H; [|done].
  pose proof (inv_tasks _ HI i x Ex) as Hx. pose proof (ok_armed _ _ _ _ _ _ Hx) as Hp.
  destruct (pc x) eqn:Ec; simpl in Hp.
  - destruct on_ready.
    + destruct (take_ (cell s)) as [a0 r] eqn:Et. simplify_eq. eapply take_inv; [done|done|done|..]; by destruct a0.
    + pose proof (arm_inv s i x HI Ex) as Ha. destruct (arm _ _). by simplify_eq.
  - pose proof (arm_inv s i x HI Ex) as Ha. destruct (arm _ _). by simplify_eq.
  - destruct (take_ (cell s)) as [a0 r] eqn:Et. simplify_eq. eapply take_inv; [done|done|done|..]; destruct a0, on_ready; auto; done.
  - destruct (disarm _ _) as [ws ev] eqn:Ed. simplify_eq. by eapply disarm_inv.
  - destruct (poll _ _ _) as [[b ev]|] eqn:Epo; [|done]. simpl in H. simplify_eq. eapply poll_inv; [done..|]. by destruct on_ready.
  - done.
  - done.
Qed.

Lemma act_inv a s s' : inv s → act a s = Some s' → inv s'.
Proof.
  intros HI H. destruct a; simpl in H.
  - destruct (tasks s !! i) as [x|] eqn:Ex; simpl in H; [|done]. pose proof (inv_tasks _ HI i x Ex) as Hx.
    assert (s' = mk (cell s) (event s) (<[i := mkTask Start (pending x)]> (tasks s)) (inflight s) (woken s ∖ {[ i ]})) as ->
      by (destruct (pc x); congruence).
    apply (inv_update s _ _ _ _ _ _ ∅); [done|..]; simpl; [intros; apply kept_refl|naive_solver|done|set_solver..|]. by eapply task_ok_pc.
  - by eapply run_task_inv.
  - destruct (put_ p (cell s)) as [r|]; simpl in H; simplify_eq.
    apply (inv_others s _ _ _ _ ∅); [done|intros; apply kept_refl|done|set_solver..].
  - destruct (inflight s) as [|n] eqn:En; [done|]. destruct (notify_all_ (event s)) as [ws ev] eqn:E. simplify_eq.
    apply notify_spec in E as [E1 E2]. destruct HI as [HT HD]. split; simpl; [|done]. intros i x Ex. destruct (HT i x Ex) as [H1 H2 H3 H4 H5].
    assert (∀ l, pending x = Some l → status_of ev l = Some Notified) as HN.
    { intros l El. rewrite E1. by destruct (H1 l El) as [? ->]. }
    split; [intros l El; rewrite (HN l El); eauto|intros l w El; by rewrite (HN l El)|done| |intros l _ El _ _; auto].
    intros l Ha El. right. split; [auto|]. destruct (H4 l Ha El) as [Hw|[_ ?]]; [|set_solver].
    apply elem_of_union_l, elem_of_list_to_set, (E2 l), Hw.
  - simplify_eq. apply (inv_others s _ _ _ _ ∅); [done|intros; apply kept_refl| |set_solver..].
    intros Hr Hn. split; [|done]. intros He. by apply Hr, drain_none.
  - destruct (tasks s !! i) as [x|] eqn:Ex; simplify_eq.
    apply (inv_update s _ _ _ _ _ _ ∅); [done|..]; simpl; [intros; apply kept_refl|naive_solver|done|set_solver..|]. by apply task_ok_idle.
  - destruct (tasks s !! i) as [x|] eqn:Ex; simpl in H; [|done]. destruct (disarm _ _) as [ws ev] eqn:Ed. simplify_eq.
    pose proof (inv_delete _ i (disarm_inv s i x Start ws ev HI Ex Ed eq_refl)) as Hd. simpl in Hd. by rewrite delete_insert_eq in Hd.
Qed.

Lemma reachable_inv r s : reachable r s → inv s.
Proof.
  intros H. refine (rtc_ind_r inv (init r) _ _ s H); clear s H.
  - by split; intros.
  - intros s1 s2 _ [a Ha] HI. by eapply act_inv.
Qed.

(** A task that runs alone. *)
Fixpoint run_alone (n : nat) (i : TaskId) (s : t) : option t :=
  match n with O => Some s | S n => s ← run_task i s; run_alone n i s end.

(** Every reachable state: a task in the middle of [poll] can go on, so [Listener::poll] finds the listener [arm] registered. *)
Theorem poll_never_panics r s i x : reachable r s → tasks s !! i = Some x → is_Some (run_task i s) ∨ pc x = Asleep ∨ ∃ a, pc x = Finished a.
Proof.
  intros Hr%reachable_inv Ex. pose proof (ok_armed _ _ _ _ _ _ (inv_tasks _ Hr i x Ex)) as Hp. unfold run_task. rewrite Ex. simpl.
  destruct (pc x) eqn:Ec; simpl in Hp; [left..|eauto|eauto].
  - destruct on_ready; [destruct (take_ _)|destruct (arm _ _)]; eauto.
  - destruct (arm _ _); eauto.
  - destruct (take_ _); eauto.
  - destruct (disarm _ _); eauto.
  - destruct Hp as [l ->]; [done|]. simpl. destruct (poll_listener _ _ _). eauto.
Qed.

(** A task that starts to poll with its listener, when there is something. *)
Lemma run_start s i l a r : tasks s !! i = Some (mkTask Start (Some l)) → take_ (cell s) = (Some a, r) →
  ∃ s', run_alone (match on_ready with None => 3%nat | Some _ => 1%nat end) i s = Some s' ∧ pc <$> tasks s' !! i = Some (Finished a).
Proof.
  intros Ei Et. destruct (on_ready) eqn:Eo; cbn [run_alone].
  - unfold run_task. rewrite Ei. simpl. rewrite Eo, Et. simpl. eexists. split; [done|]. simpl. by rewrite lookup_insert_eq.
  - assert (run_task i s = Some (set_task i (mkTask Armed (Some l)) (set_event (event s) s))) as ->
      by (unfold run_task; rewrite Ei; simpl; by rewrite Eo).
    set (s1 := set_task _ _ _). simpl.
    assert (run_task i s1 = Some (set_task i (mkTask (Took a) (Some l)) (set_cell r s1))) as ->
      by (unfold run_task; simpl; rewrite lookup_insert_eq; simpl; by rewrite Et, Eo).
    set (s2 := set_task _ _ _). simpl. unfold run_task. simpl. rewrite lookup_insert_eq. simpl.
    destruct (drop_listener _ _). simpl. eexists. split; [done|]. simpl. by rewrite lookup_insert_eq.
Qed.

(** C14: no wake-up is lost: once no producer is between its change and its notification, a sleeping task
    for which there is something has been woken; and its next poll returns it. *)
Theorem no_lost_wakeup r s i x a : reachable r s → tasks s !! i = Some x → pc x = Asleep →
  (take_ (cell s)).1 = Some a → inflight s = O →
  i ∈ woken s ∧ ∃ s1 n s', act (Poll_ i) s = Some s1 ∧ run_alone n i s1 = Some s' ∧ pc <$> tasks s' !! i = Some (Finished a).
Proof.
  intros Hr%reachable_inv Ex Ec Ha Hq. pose proof (inv_tasks _ Hr i x Ex) as Hx. destruct (ok_armed _ _ _ _ _ _ Hx) as [l El]; [by rewrite Ec|].
  assert (status_of (event s) l = Some Notified) as Hs.
  { apply (ok_checked _ _ _ _ _ _ Hx l); [auto|done| |done]. unfold empty_cell. by rewrite Ha. }
  split; [destruct (ok_asleep _ _ _ _ _ _ Hx l Ec El) as [?|[_ ?]]; [congruence|done]|].
  destruct (take_ (cell s)) as [a' r'] eqn:Et. simpl in Ha. subst a'. simpl. rewrite Ex. simpl. rewrite Ec. simpl.
  eexists. exists (match on_ready with None => 3%nat | Some _ => 1%nat end).
  set (s0 := mk (cell s) (event s) (<[i := mkTask Start (pending x)]> (tasks s)) (inflight s) (woken s ∖ {[ i ]})).
  assert (tasks s0 !! i = Some (mkTask Start (Some l))) as E0 by (simpl; by rewrite lookup_insert_eq, El).
  destruct (run_start s0 i l a r' E0 Et) as (s' & H1 & H2). eauto.
Qed.

End Wakeups.
End Wakeups.

(** * The cells *)

(** [Shared] of a promise: [set] keeps a result that was not taken, [take] takes it; [try_wait] too. *)
#[export] Instance promise_cell {T} : Cell (option T) T T.
Proof.
  refine {| take_ d := (d, None); put_ v d := match d with None => Some (Some v) | Some _ => None end; drain _ := None; on_ready := None |}.
  - intros r r' H. by simplify_eq.
  - done.
Defined.

(** The deliveries of a consumer that are not yet received: [dispatch] of a delivery appends it, or hands it to the delegate
    ([None]); [next_delivery] takes the first; [drop_prefetched_messages] and [set_delegate] take them all. *)
#[export] Instance stream_cell {T} : Cell (list T) T (option T).
Proof.
  refine {| take_ ds := (head ds, tail ds); put_ d ds := Some (ds ++ option_list d); drain _ := []; on_ready := None |}.
  - intros [|d ds] r' H; by simplify_eq.
  - done.
Defined.

(** [done] of a notifier. *)
#[export] Instance notifier_cell : Cell bool unit unit.
Proof.
  refine {| take_ b := (if b : bool then Some tt else None, b); put_ _ _ := Some true; drain b := b; on_ready := Some tt |}.
  - intros r r' H. by simplify_eq.
  - done.
Defined.

Module Streams.
Section Streams.
Context `{EL : EventListener} {T : Type}.
Import Wakeups.

Definition State : Type := Wakeups.t (R := list T) (A := T).
Definition Act : Type := Action (P := option T).

(** What an action takes from the stream, with the task that takes it; what the poll of a task returns
    ([Poll::Ready]); what is dispatched to the stream. *)
Definition taken (a : Act) (s : State) : list (TaskId * T) :=
  match a with
  | Run i => match tasks s !! i with
             | Some x => match pc x with Armed => pair i <$> option_list (take_ (cell s)).1 | _ => [] end
             | None => []
             end
  | _ => []
  end.
Definition returned (a : Act) (s : State) : list (TaskId * T) :=
  match a with
  | Run i => match act a s ≫= λ s', tasks s' !! i with
             | Some x => match pc x with Finished v => [(i, v)] | _ => [] end
             | None => []
             end
  | _ => []
  end.
Definition given (a : Act) (s : State) : list T := match a with Put d => option_list d | _ => [] end.

Fixpoint trace {B} (f : Act → State → list B) (l : list Act) (s : State) : list B :=
  match l with
  | [] => []
  | a :: l => f a s ++ match act a s with Some s' => trace f l s' | None => [] end
  end.

(** The part of the task [i], and what its poll has taken but not yet returned. *)
Definition by_task (i : TaskId) (l : list (TaskId * T)) : list T :=
  omap (λ x, if decide (x.1 = i) then Some x.2 else None) l.
Definition held (i : TaskId) (s : State) : list T :=
  match tasks s !! i with Some x => match pc x with Took v => [v] | _ => [] end | None => [] end.

Lemma taken_given a s s' : act a s = Some s' → a ≠ Drain → (taken a s).*2 ++ cell s' = cell s ++ given a s.
Proof.
  intros H Ha. destruct a; simpl in H |- *; rewrite ?app_nil_r; [| |by simplify_eq| | |..]; try done.
  - destruct (tasks s !! i) as [x|]; simpl in H; [|done]. destruct (pc x); by simplify_eq.
  - unfold run_task in H. destruct (tasks s !! i) as [x|]; simpl in H; [|done]. destruct (pc x).
    + destruct (arm _ _). by simplify_eq.
    + destruct (arm _ _). by simplify_eq.
    + simplify_eq. by destruct (cell s).
    + destruct (disarm _ _). by simplify_eq.
    + destruct (poll _ _ _) as [[??]|]; by simplify_eq/=.
    + done.
    + done.
  - destruct (inflight s); [done|]. destruct (notify_all_ _). by simplify_eq.
  - destruct (tasks s !! i); by simplify_eq.
  - destruct (tasks s !! i) as [x|]; simpl in H; [|done]. destruct (disarm _ _). by simplify_eq.
Qed.

Lemma by_task_app i l k : by_task i (l ++ k) = by_task i l ++ by_task i k.
Proof. apply omap_app. Qed.

Lemma by_task_cons i x l : by_task i (x :: l) = (if decide (x.1 = i) then [x.2] else []) ++ by_task i l.
Proof. unfold by_task. simpl. by case_decide. Qed.

Lemma by_task_self i (l : list T) : by_task i (pair i <$> l) = l.
Proof. induction l as [|v l IH]; [done|]. rewrite fmap_cons, by_task_cons, decide_True, IH by done. done. Qed.

Lemma by_task_other i j (l : list T) : j ≠ i → by_task i (pair j <$> l) = [].
Proof. intros Hn. induction l as [|v l IH]; [done|]. rewrite fmap_cons, by_task_cons, decide_False, IH by done. done. Qed.

Lemma held_insert i x (s : State) c ev n wk : held i (mk c ev (<[i := x]> (tasks s)) n wk) = match pc x with Took v => [v] | _ => [] end.
Proof. unfold held. simpl. by rewrite lookup_insert_eq. Qed.

Lemma held_insert_ne i j x (s : State) c ev n wk : i ≠ j → held i (mk c ev (<[j := x]> (tasks s)) n wk) = held i s.
Proof. intros Hn. unfold held. simpl. by rewrite lookup_insert_ne. Qed.

(** A step of a task changes that task only, and what it takes it holds until it returns it. *)
Lemma run_returns i j s s' : run_task j s = Some s' →
  held i s ++ by_task i (taken (Run j) s) = by_task i (returned (Run j) s) ++ held i s'.
Proof.
  intros H. unfold returned. cbn [act]. rewrite H. cbn [mbind option_bind]. unfold taken.
  unfold run_task in H. destruct (tasks s !! j) as [x|] eqn:Ex; cbn [mbind option_bind] in H; [|done].
  assert (Hheld : held j s = match pc x with Took v => [v] | _ => [] end) by (unfold held; by rewrite Ex).
  assert (Hnew : ∃ c ev wk y, s' = mk c ev (<[j := y]> (tasks s)) (inflight s) wk ∧
    (match pc x with Took v => [v] | _ => [] end) ++
      (match pc x with Armed => option_list (take_ (cell s)).1 | _ => [] end) =
    (match pc y with Finished v => [v] | _ => [] end) ++ (match pc y with Took v => [v] | _ => [] end)).
  { destruct (pc x) as [| | |v| | |v]; cbn in H.
    - destruct (arm _ _). simplify_eq. eexists _, _, _, _. by split; [reflexivity|].
    - destruct (arm _ _). simplify_eq. eexists _, _, _, _. by split; [reflexivity|].
    - simplify_eq. eexists _, _, _, _. split; [reflexivity|]. cbn. by destruct (head (cell s)).
    - destruct (disarm _ _). simplify_eq. eexists _, _, _, _. by split; [reflexivity|].
    - destruct (poll _ _ _) as [[b ev]|]; cbn in H; simplify_eq. eexists _, _, _, _. split; [reflexivity|]. by destruct b.
    - done.
    - done. }
  destruct Hnew as (c & ev & wk & y & -> & E). cbn [tasks]. rewrite lookup_insert_eq.
  destruct (decide (i = j)) as [->|Hn].
  - assert (E1 : by_task j (match pc x with Armed => pair j <$> option_list (take_ (cell s)).1 | _ => [] end) =
      match pc x with Armed => option_list (take_ (cell s)).1 | _ => [] end) by (destruct (pc x); try done; apply by_task_self).
    assert (E2 : by_task j (match pc y with Finished v => [(j, v)] | _ => [] end) = match pc y with Finished v => [v] | _ => [] end)
      by (destruct (pc y); try done; by apply (by_task_self j [_])).
    by rewrite held_insert, Hheld, E1, E2.
  - rewrite held_insert_ne by done.
    assert (E1 : by_task i (match pc x with Armed => pair j <$> option_list (take_ (cell s)).1 | _ => [] end) = [])
      by (destruct (pc x); try done; by apply by_task_other).
    assert (E2 : by_task i (match pc y with Finished v => [(j, v)] | _ => [] end) = [])
      by (destruct (pc y); try done; by apply (by_task_other i j [_])).
    by rewrite E1, E2, app_nil_r.
Qed.

(** Every action, as long as the task is not dropped. *)
Lemma act_returns i a s s' : act a s = Some s' → a ≠ Drop i →
  held i s ++ by_task i (taken a s) = by_task i (returned a s) ++ held i s'.
Proof.
  intros H Ha. destruct a as [j|j|p| | |j|j]; [|by apply run_returns|..]; cbn [taken returned]; rewrite app_nil_r; cbn [by_task omap list_omap app]; simpl in H.
  - destruct (tasks s !! j) as [x|] eqn:Ex; simpl in H; [|done].
    assert (E : held j s = []) by (unfold held; rewrite Ex; by destruct (pc x)).
    destruct (pc x); simplify_eq; (destruct (decide (i = j)) as [->|]; [by rewrite held_insert|by rewrite held_insert_ne]).
  - by simplify_eq.
  - destruct (inflight s); [done|]. destruct (notify_all_ _). by simplify_eq.
  - by simplify_eq.
  - destruct (tasks s !! j) eqn:Ex; simplify_eq. unfold set_task. destruct (decide (i = j)) as [->|].
    + rewrite held_insert. unfold held. by rewrite Ex.
    + by rewrite held_insert_ne.
  - destruct (tasks s !! j) as [x|]; simpl in H; [|done]. destruct (disarm _ _). simplify_eq.
    unfold held. simpl. rewrite lookup_delete_ne by congruence. done.
Qed.

(** A dropped task loses at most what its poll had taken. *)
Lemma drop_returns i s s' : act (Drop i : Act) s = Some s' → held i s' = [].
Proof.
  simpl. destruct (tasks s !! i) as [x|]; simpl; [|done]. destruct (disarm _ _). intros H. simplify_eq.
  unfold held. simpl. by rewrite lookup_delete_eq.
Qed.

Lemma taken_trace l : ∀ s s', acts l s = Some s' →
  sublist ((trace taken l s).*2 ++ cell s') (cell s ++ trace given l s) ∧
  (Drain ∉ l → (trace taken l s).*2 ++ cell s' = cell s ++ trace given l s).
Proof.
  induction l as [|a l IH]; intros s s' H; simpl in H |- *; [simplify_eq; by rewrite app_nil_r|].
  destruct (act a s) as [s1|] eqn:E; [|done]. simpl in H. destruct (IH s1 s' H) as [IH1 IH2]. rewrite fmap_app, <- (assoc_L (++)).
  assert (a = Drain ∨ a ≠ Drain) as [->|Ha] by (destruct a; by auto).
  - simpl in E |- *. simplify_eq. split; [|set_solver]. by apply sublist_inserts_l.
  - rewrite !(assoc_L (++)), <- (taken_given a s s1 E Ha), <- !(assoc_L (++)). split; [by apply sublist_app|].
    intros Hn. f_equal. apply IH2. set_solver.
Qed.

Lemma returned_trace i l : ∀ s s', acts l s = Some s' →
  sublist (by_task i (trace returned l s) ++ held i s') (held i s ++ by_task i (trace taken l s)) ∧
  (Drop i ∉ l → by_task i (trace returned l s) ++ held i s' = held i s ++ by_task i (trace taken l s)).
Proof.
  induction l as [|a l IH]; intros s s' H; simpl in H |- *; [simplify_eq; by rewrite app_nil_r|].
  destruct (act a s) as [s1|] eqn:E; [|done]. simpl in H. destruct (IH s1 s' H) as [IH1 IH2]. rewrite !by_task_app, <- (assoc_L (++)).
  assert (a = Drop i ∨ a ≠ Drop i) as [->|Ha].
  { destruct a as [| | | | | |j]; try (by right). destruct (decide (j = i)) as [->|]; [by left|right; congruence]. }
  - split; [|set_solver]. cbn [taken returned by_task omap list_omap app]. rewrite (drop_returns i s s1 E) in IH1.
    by apply sublist_inserts_l.
  - rewrite (assoc_L (++) (held i s)), (act_returns i a s s1 E Ha), <- (assoc_L (++)).
    split; [by apply sublist_app|]. intros Hn. f_equal. apply IH2. set_solver.
Qed.

(** When [i] is the only task that runs, its part is everything. *)
Lemma one_task i (f : Act → State → list (TaskId * T)) l : (∀ a s, (∀ j, a = Run j → j = i) → Forall (λ x, x.1 = i) (f a s)) →
  (∀ j, Run j ∈ l → j = i) → ∀ s, (trace f l s).*2 = by_task i (trace f l s).
Proof.
  intros Hf Hone. assert (Hall : ∀ s, Forall (λ x, x.1 = i) (trace f l s)).
  { induction l as [|a l IH]; intros s; simpl; [constructor|]. apply Forall_app. split.
    - apply Hf. intros j ->. apply Hone. by left.
    - destruct (act a s); [|constructor]. apply IH. intros j Hj. apply Hone. by right. }
  intros s. specialize (Hall s). induction Hall as [|[j v] k Hj _ IH]; [done|]. simpl in Hj. subst.
  rewrite fmap_cons, by_task_cons, decide_True, IH by done. done.
Qed.

Lemma alone_taken i a s : (∀ j, a = Run j → j = i) → Forall (λ x, x.1 = i) (taken a s).
Proof.
  intros Ha. destruct a as [|j| | | | |]; try constructor. simpl. destruct (tasks s !! j) as [x|]; [|constructor].
  destruct (pc x); try constructor. apply Forall_fmap, Forall_true. intros v. simpl. by apply Ha.
Qed.

Lemma alone_returned i a s : (∀ j, a = Run j → j = i) → Forall (λ x, x.1 = i) (returned a s).
Proof.
  intros Ha. destruct a as [|j| | | | |]; try constructor. cbn [returned]. destruct (_ ≫= _) as [x|]; [|constructor].
  destruct (pc x); repeat constructor. by apply Ha.
Qed.

(** C15: the stream of a consumer is a queue, and its polls return what they take from it.  Whatever the tasks that
    poll it and the interleaving: what the polls took and what is left are, in order, what was there and what was
    dispatched, or a part of it when buffered deliveries are dropped; and each task is returned exactly what its
    polls took, in order, up to the one value a poll under way may hold; only a task dropped in the middle of a
    poll loses that value.  So when only one task polls and nothing is dropped, what its polls return, what the
    one under way holds and what is left are, in order, what was dispatched. *)
Theorem stream_is_fifo l : ∀ s s', acts l s = Some s' →
  sublist ((trace taken l s).*2 ++ cell s') (cell s ++ trace given l s) ∧
  (Drain ∉ l → (trace taken l s).*2 ++ cell s' = cell s ++ trace given l s) ∧
  (∀ i, sublist (by_task i (trace returned l s) ++ held i s') (held i s ++ by_task i (trace taken l s)) ∧
        (Drop i ∉ l → by_task i (trace returned l s) ++ held i s' = held i s ++ by_task i (trace taken l s))) ∧
  (∀ i, Drain ∉ l → Drop i ∉ l → (∀ j, Run j ∈ l → j = i) →
     (trace returned l s).*2 ++ held i s' ++ cell s' = held i s ++ cell s ++ trace given l s).
Proof.
  intros s s' H. destruct (taken_trace l s s' H) as [H1 H2]. split_and!; [done..|intros i; by apply returned_trace|].
  intros i Hd Hx Hone. destruct (returned_trace i l s s' H) as [_ H3]. specialize (H2 Hd). specialize (H3 Hx).
  rewrite (one_task i taken l (alone_taken i) Hone) in H2.
  rewrite (one_task i returned l (alone_returned i) Hone), (assoc_L (++)), H3, <- (assoc_L (++)). by rewrite H2.
Qed.

End Streams.
End Streams.

(** * Notifiers *)

Module Notifiers.
Section Notifiers.
Context `{EL : EventListener}.
Import Wakeups.

Definition State : Type := Wakeups.t (R := bool) (A := unit).

(** Before the first [notify_all]. *)
Record quiet (s : State) : Prop := mkQuiet {
  quiet_flight : inflight s = O;
  quiet_event : ∀ l, status_of (event s) l ≠ Some Notified;
  quiet_tasks : ∀ i x, tasks s !! i = Some x → (∀ a, pc x ≠ Finished a) ∧ ∀ a, pc x ≠ Took a;
}.

Definition sound (s : State) : Prop := cell s = true ∨ quiet s.

Lemma quiet_task s i x ev : quiet s → (∀ l, status_of ev l ≠ Some Notified) → (∀ a, pc x ≠ Finished a) → (∀ a, pc x ≠ Took a) →
  quiet (set_task i x (set_event ev s)).
Proof.
  intros [H1 H2 H3] Hev Hf Ht. split; simpl; [done..|]. intros j y [[_ <-]|[_ Ey]]%lookup_insert_Some; eauto.
Qed.

Lemma arm_quiet (p : option ListenerId) ev : (∀ l, status_of ev l ≠ Some Notified) → ∀ l, status_of (arm p ev).2 l ≠ Some Notified.
Proof.
  intros H l. unfold arm. destruct p; [done|]. destruct (listen ev) as [l' ev'] eqn:E. apply listen_spec in E as (_ & Hl & Hk). simpl.
  destruct (decide (l = l')) as [->|]; [by rewrite Hl|by rewrite Hk].
Qed.

Lemma disarm_quiet (p : option ListenerId) ev : (∀ l, status_of ev l ≠ Some Notified) → ∀ l, status_of (disarm p ev).2 l ≠ Some Notified.
Proof.
  intros H l. unfold disarm. destruct p as [l'|]; [|done]. destruct (drop_listener l' ev) as [ws ev'] eqn:E. apply drop_spec in E as (Hl & Hk). simpl.
  destruct (decide (l = l')) as [->|Hn]; [by rewrite Hl|]. destruct (Hk l Hn) as [->|(Hno & _)]; [done|]. by apply H in Hno.
Qed.

Lemma run_sound i s s' : inv s → sound s → run_task i s = Some s' → sound s'.
Proof.
  intros HI HS H. unfold run_task in H. destruct (tasks s !! i) as [x|] eqn:Ex; simpl in H; [|done].
  destruct (cell s) eqn:Ecell.
  { left. destruct (pc x); repeat case_match; simpl in *; simplify_eq; try done.
    destruct (poll _ _ _) as [[b ev]|]; by simplify_eq/=. }
  right. destruct HS as [HS|HS]; [congruence|]. destruct (quiet_tasks _ HS i x Ex) as [Hf Ht].
  destruct (pc x) eqn:Ec; simpl in H.
  - simplify_eq. replace (set_cell false s) with (set_event (event s) s) by (destruct s; simpl in *; by subst). apply quiet_task; try done. apply HS.
  - pose proof (arm_quiet (pending x) (event s) (quiet_event _ HS)) as Hq. destruct (arm _ _) as [l ev]. simplify_eq. by apply quiet_task.
  - simplify_eq. replace (set_cell false s) with (set_event (event s) s) by (destruct s; simpl in *; by subst). apply quiet_task; try done. apply HS.
  - by destruct (Ht a).
  - destruct (pending x) as [l|] eqn:Ep; simpl in H; [|done]. destruct (poll_listener l i (event s)) as [b ev] eqn:Epo. simpl in H. simplify_eq.
    apply poll_spec in Epo as (Hb & Hl & Hk); [|by apply (ok_registered _ _ _ _ _ _ (inv_tasks _ HI i x Ex))].
    destruct b; [by destruct (quiet_event _ HS l); apply Hb|]. apply quiet_task; try done.
    intros l'. destruct (decide (l' = l)) as [->|Hn]; [by rewrite Hl|]. rewrite Hk by done. apply HS.
  - done.
  - done.
Qed.

Lemma act_sound a s s' : inv s → sound s → act a s = Some s' → sound s'.
Proof.
  intros HI HS H. destruct a; simpl in H.
  - destruct (tasks s !! i) as [x|] eqn:Ex; simpl in H; [|done].
    assert (s' = mk (cell s) (event s) (<[i := mkTask Start (pending x)]> (tasks s)) (inflight s) (woken s ∖ {[ i ]})) as ->
      by (destruct (pc x); congruence).
    destruct HS as [|[H1 H2 H3]]; [by left|right]. split; simpl; [done..|]. intros j y [[_ <-]|[_ Ey]]%lookup_insert_Some; [done|eauto].
  - by eapply run_sound.
  - simplify_eq. by left.
  - destruct (inflight s) eqn:En; [done|]. destruct (notify_all_ _). simplify_eq. left. simpl. destruct HS as [|[? _ _]]; [done|congruence].
  - simplify_eq. destruct HS as [|[H1 H2 H3]]; [by left|right]. by split.
  - destruct (tasks s !! i) as [x|] eqn:Ex; simplify_eq. destruct HS as [|[H1 H2 H3]]; [by left|right].
    split; simpl; [done..|]. intros j y [[_ <-]|[_ Ey]]%lookup_insert_Some; [done|eauto].
  - destruct (tasks s !! i) as [x|] eqn:Ex; simpl in H; [|done]. destruct (disarm _ _) as [ws ev] eqn:Ed. simplify_eq.
    destruct HS as [|[H1 H2 H3]]; [by left|right]. split; simpl; [done| |].
    + pose proof (disarm_quiet (pending x) (event s) H2) as Hq. by rewrite Ed in Hq.
    + intros j y [_ Ey]%lookup_delete_Some. eauto.
Qed.

(** A notifier is not early: in whatever way the tasks that wait for it and [notify_all] interleave, a clone of it that
    resolved, through its listener too, resolved after [notify_all] had set [done]. *)
Theorem notifier_not_early (s : State) i x : reachable false s → tasks s !! i = Some x → pc x = Finished () → cell s = true.
Proof.
  intros Hr Ex Ef. assert (inv s ∧ sound s) as [_ [?|Hq]].
  { refine (rtc_ind_r (λ s, inv s ∧ sound s) (init false) _ _ s Hr).
    - split; [by split; intros|]. right. split; simpl; [done|intros l; by rewrite event_new_spec|done].
    - intros s1 s2 _ [a Ha] [HI HS]. split; [by eapply act_inv|by eapply act_sound]. }
  - done.
  - by destruct (quiet_tasks _ Hq i x Ex) as [Hf _]; destruct (Hf ()).
Qed.

End Notifiers.
End Notifiers.

(** * An event *)

(** The listeners by number; a dropped one leaves a gap. *)
Definition event_waiters (ev : list (option ListenerStatus)) : list TaskId :=
  omap (λ st, match st with Some (Waiting w) => Some w | _ => None end) ev.

Definition list_status (ev : list (option ListenerStatus)) (l : nat) : option ListenerStatus := mjoin (ev !! l).

Lemma list_status_insert ev l st l' : is_Some (ev !! l) → list_status (<[l := st]> ev) l' = if decide (l' = l) then st else list_status ev l'.
Proof.
  intros Hl. unfold list_status. destruct (decide (l' = l)) as [->|]; [|by rewrite list_lookup_insert_ne].
  rewrite list_lookup_insert_eq; [done|]. by apply lookup_lt_is_Some.
Qed.

Definition list_event : EventListener.
Proof.
  refine {| Event_ := list (option ListenerStatus); ListenerId := nat; event_new := []; status_of := list_status;
    listen ev := (length ev, ev ++ [Some Fresh]);
    notify_all_ ev := (event_waiters ev, notified_by <$> ev);
    poll_listener l w ev := match ev !! l with Some (Some Notified) => (true, <[l := None]> ev) | _ => (false, <[l := Some (Waiting w)]> ev) end;
    drop_listener l ev := ([], <[l := None]> ev) |}.
  - done.
  - intros ev l ev' [= <- <-]. unfold list_status. rewrite lookup_ge_None_2, list_lookup_middle by done. split; [done|split; [done|]].
    intros l' Hl. rewrite lookup_app. destruct (ev !! l') eqn:E; [done|]. apply lookup_ge_None in E.
    rewrite list_lookup_singleton. by destruct (l' - length ev)%nat eqn:E'; [exfalso; lia|].
  - intros ev ws ev' [= <- <-]. split.
    + intros l. unfold list_status. rewrite list_lookup_fmap. by destruct (ev !! l).
    + intros l w Hl. apply list_elem_of_omap. exists (Some (Waiting w)). split; [|done]. apply list_elem_of_lookup. exists l.
      unfold list_status in Hl. by destruct (ev !! l); simpl in Hl; subst.
  - intros ev l w b ev' H [st Hst]. unfold list_status in Hst. destruct (ev !! l) as [o|] eqn:E; [|done]. simpl in Hst. subst o.
    assert (is_Some (ev !! l)) by (rewrite E; by eexists). unfold list_status at 1. rewrite E. simpl.
    destruct st; simplify_eq; rewrite list_status_insert, decide_True by done; (split; [naive_solver|split; [done|]]);
      intros l' Hl; rewrite list_status_insert by done; by rewrite decide_False.
  - intros ev l ws ev' [= <- <-]. destruct (ev !! l) eqn:E.
    + assert (is_Some (ev !! l)) by (rewrite E; by eexists). rewrite list_status_insert, decide_True by done. split; [done|].
      intros l' Hl. left. rewrite list_status_insert by done. by rewrite decide_False.
    + rewrite list_insert_ge by (by apply lookup_ge_None). split; [unfold list_status; by rewrite E|]. intros l' _. by left.
Defined.

Module WakeupsWitness.
Import Wakeups.
#[local] Existing Instance list_event.

(** A task polls an unresolved promise and sleeps; the promise is resolved. *)
Definition asleep_then_resolved : list (Action (P := nat)) := [Spawn 0; Run 0; Run 0; Run 0; Put 7; Notify]%nat.

Definition woken_state : t (R := option nat) (A := nat) := default (init None) (acts asleep_then_resolved (init None)).

Lemma no_lost_wakeup_witness : (0%nat ∈ woken woken_state) ∧ ∃ s1 n s', act (Poll_ 0%nat) woken_state = Some s1 ∧
  run_alone n 0%nat s1 = Some s' ∧ pc <$> tasks s' !! 0%nat = Some (Finished 7%nat).
Proof.
  apply (no_lost_wakeup None woken_state 0%nat (mkTask (EL := list_event) Asleep (Some 0%nat)) 7%nat); [|reflexivity..].
  apply (acts_steps asleep_then_resolved). vm_compute. reflexivity.
Defined.

Lemma poll_never_panics_witness : is_Some (run_task 0%nat woken_state) ∨ Asleep = Asleep (A := nat) ∨ ∃ a : nat, Asleep = Finished a.
Proof.
  apply (poll_never_panics None woken_state 0%nat (mkTask (EL := list_event) Asleep (Some 0%nat))); [|reflexivity].
  apply (acts_steps asleep_then_resolved). vm_compute. reflexivity.
Defined.

(** Two tasks poll a stream; the first one takes the delivery for which the second was woken. *)
Definition two_tasks : list (Action (P := option nat)) :=
  [Spawn 0; Spawn 1; Run 1; Run 1; Run 1; Put (Some 5); Run 0; Run 0; Notify; Put (Some 6); Poll_ 1; Run 1; Run 1; Notify]%nat.

(** One task polls the stream until it is empty, while two deliveries are dispatched. *)
Definition one_poller : list (Action (P := option nat)) :=
  [Spawn 0; Put (Some 5); Put (Some 6); Notify; Run 0; Run 0; Run 0; Poll_ 0; Run 0; Notify; Run 0]%nat.

(** Actions of different kinds are different. *)
Definition tag_ {P} (a : Action (P := P)) : nat :=
  match a with Poll_ _ => 0 | Run _ => 1 | Put _ => 2 | Notify => 3 | Drain => 4 | Spawn _ => 5 | Drop _ => 6 end.

Lemma stream_is_fifo_witness : ∃ s' s'', acts two_tasks (init []) = Some s' ∧
  (Streams.trace Streams.taken two_tasks (init [])).*2 ++ cell s' = [5; 6]%nat ∧
  acts one_poller (init []) = Some s'' ∧
  (Streams.trace Streams.returned one_poller (init [])).*2 ++ Streams.held 0%nat s'' ++ cell s'' = [5; 6]%nat ∧
  Streams.trace Streams.returned one_poller (init []) = [(0, 5)]%nat.
Proof.
  assert (Hnot : ∀ (x : Action (P := option nat)) l, bool_decide (Forall (λ y, tag_ y ≠ tag_ x) l) = true → x ∉ l).
  { intros x l H%bool_decide_eq_true Hin. by eapply Forall_forall in H; [apply H|exact Hin]. }
  exists (default (init []) (acts two_tasks (init []))), (default (init []) (acts one_poller (init []))).
  split; [vm_compute; reflexivity|].
  destruct (Streams.stream_is_fifo two_tasks (init []) (default (init []) (acts two_tasks (init [])))) as (_ & H & _); [vm_compute; reflexivity|].
  destruct (Streams.stream_is_fifo one_poller (init []) (default (init []) (acts one_poller (init [])))) as (_ & _ & _ & H'); [vm_compute; reflexivity|].
  split; [rewrite H; [vm_compute; reflexivity|by apply Hnot]|]. split; [vm_compute; reflexivity|].
  split; [|vm_compute; reflexivity]. rewrite (H' 0%nat); [vm_compute; reflexivity|by apply Hnot|by apply Hnot|].
  intros j Hj. unfold one_poller in Hj. set_unfold. naive_solver.
Defined.

(** A clone polled before and after [notify_all]. *)
Definition notified_run : list (Action (P := unit)) := [Spawn 0; Run 0; Run 0; Run 0; Run 0; Put tt; Notify; Poll_ 0; Run 0]%nat.

Definition notified_state : t (R := bool) (A := unit) := default (init false) (acts notified_run (init false)).

Lemma notifier_not_early_witness : cell notified_state = true.
Proof.
  apply (Notifiers.notifier_not_early notified_state 0%nat (mkTask (EL := list_event) (Finished tt) (Some 0%nat))); [|reflexivity..].
  apply (acts_steps notified_run). vm_compute. reflexivity.
Defined.

End WakeupsWitness.
