(* ===== verification/Env.v ===== *)
(** The shared store and the services every component talks to: promises
    (src/promise.rs), kill switches (src/killswitch.rs), error holders
    (src/error_holder.rs), notifiers (src/notifier.rs), the internal RPC queue
    (src/internal_rpc.rs, [InternalRPCHandle]) and the event channel
    (src/events.rs).  Components are written in the state monad [M S]: [S] is the
    component's own state, [Env] the store. *)
From S2P Require Import Prelude.
From S2P Require Import Buffer.
From S2P Require Import Types.
Open Scope Z_scope.

Section Env.
Context `{AT : AmqpTypes}.

(** The store.  [promises] holds the data of the completed promises nobody has
    taken yet; [killed] the kill switches that are set; [once] the error holders
    that are set; [notified] the notifiers that fired; [consumers] the consumers'
    shared state; [rpc] the internal commands in sending order; [events] the
    events sent to the listeners, [receivers] the receivers of that channel;
    [wakes] counts the wake-ups sent to the io loop. *)
Record Env := mkEnv {
  next_ref : nat;
  promises : gmap nat (res PVal);
  killed_set : gset nat;
  once : gmap nat Error;
  notified : gset nat;
  consumers : gmap nat Consumer;
  rpc : list InternalCommand;
  events : list Event;
  receivers : nat;
  wakes : nat;
}.

Definition env_empty : Env := mkEnv 0 ∅ ∅ ∅ ∅ ∅ [] [] 1 0.

(** ** The state monad *)

Definition M (S A : Type) : Type := S → Env → A * S * Env.

#[export] Instance M_ret S : MRet (M S) := λ A a s e, (a, s, e).
#[export] Instance M_bind S : MBind (M S) :=
  λ A B (k : A → M S B) (m : M S A) s e, let '(a, s', e') := m s e in k a s' e'.

Definition get {S} : M S S := λ s e, (s, s, e).
Definition put {S} (s : S) : M S unit := λ _ e, (tt, s, e).
Definition modify {S} (f : S → S) : M S unit := λ s e, (tt, f s, e).
Definition get_env {S} : M S Env := λ s e, (e, s, e).
Definition modify_env {S} (f : Env → Env) : M S unit := λ s e, (tt, s, f e).

(** Run a component's operation on a part of a larger state. *)
Definition zoom {S T A} (proj : S → T) (set : T → S → S) (m : M T A) : M S A :=
  λ s e, let '(a, t, e') := m (proj s) e in (a, set t s, e').

(** [for x in l { f(x) }]. *)
Fixpoint for_each {S A} (l : list A) (f : A → M S unit) : M S unit :=
  match l with
  | [] => mret tt
  | x :: l => f x;; for_each l f
  end.

(** A test on the state. *)
Definition if_ {S A} (b : M S bool) (x y : M S A) : M S A := b ≫= λ v : bool, if v then x else y.

(** The [?] operator. *)
Definition try_bind {S A B} (m : M S (res A)) (k : A → M S (res B)) : M S (res B) :=
  r ← m; match r with Ok a => k a | Err e => mret (Err e) end.

(** ** Setters *)

Definition set_next_ref x e := mkEnv x (promises e) (killed_set e) (once e) (notified e) (consumers e) (rpc e) (events e) (receivers e) (wakes e).
Definition set_promises x e := mkEnv (next_ref e) x (killed_set e) (once e) (notified e) (consumers e) (rpc e) (events e) (receivers e) (wakes e).
Definition set_killed x e := mkEnv (next_ref e) (promises e) x (once e) (notified e) (consumers e) (rpc e) (events e) (receivers e) (wakes e).
Definition set_once x e := mkEnv (next_ref e) (promises e) (killed_set e) x (notified e) (consumers e) (rpc e) (events e) (receivers e) (wakes e).
Definition set_notified x e := mkEnv (next_ref e) (promises e) (killed_set e) (once e) x (consumers e) (rpc e) (events e) (receivers e) (wakes e).
Definition set_consumers x e := mkEnv (next_ref e) (promises e) (killed_set e) (once e) (notified e) x (rpc e) (events e) (receivers e) (wakes e).
Definition set_rpc x e := mkEnv (next_ref e) (promises e) (killed_set e) (once e) (notified e) (consumers e) x (events e) (receivers e) (wakes e).
Definition set_events x e := mkEnv (next_ref e) (promises e) (killed_set e) (once e) (notified e) (consumers e) (rpc e) x (receivers e) (wakes e).
Definition set_wakes x e := mkEnv (next_ref e) (promises e) (killed_set e) (once e) (notified e) (consumers e) (rpc e) (events e) (receivers e) x.

(** A new cell of the store. *)
Definition fresh {S} : M S nat := λ s e, (next_ref e, s, set_next_ref (Datatypes.S (next_ref e)) e).

(** ** Promises *)

(** [Promise::new]: the promise and its resolver share the cell. *)
Definition promise_new {S} : M S Resolver := fresh.

(** [Shared::set]: the first completion wins. *)
Definition promise_set (p : Resolver) (r : res PVal) (e : Env) : Env :=
  match promises e !! p with
  | None => set_promises (<[p := r]> (promises e)) e
  | Some _ => e
  end.

(** [PromiseResolver::complete], [resolve], [reject] and [Cancelable::cancel]. *)
Definition complete {S} (p : Resolver) (r : res PVal) : M S unit := modify_env (promise_set p r).
Definition resolve {S} (p : Resolver) (v : PVal) : M S unit := complete p (Ok v).
Definition reject {S} (p : Resolver) (err : Error) : M S unit := complete p (Err err).

(** [Shared::take], used by [Promise::try_wait] and [Promise::poll]. *)
Definition try_wait {S} (p : Resolver) : M S (option (res PVal)) :=
  λ s e, (promises e !! p, s, set_promises (delete p (promises e)) e).

(** ** Kill switches *)

Definition killswitch_new {S} : M S KillSwitch := fresh.
Definition killed (k : KillSwitch) (e : Env) : bool := bool_decide (k ∈ killed_set e).
(** [KillSwitch::kill]: tells whether this call killed it. *)
Definition kill {S} (k : KillSwitch) : M S bool :=
  λ s e, (negb (killed k e), s, set_killed ({[k]} ∪ killed_set e) e).
Definition killswitch_reset {S} (k : KillSwitch) : M S unit :=
  modify_env (λ e, set_killed (killed_set e ∖ {[k]}) e).

(** ** Error holders: written at most once *)

Definition holder_set {S} (h : ErrorHolder) (err : Error) : M S (res unit) :=
  λ s e, match once e !! h with
         | None => (Ok tt, s, set_once (<[h := err]> (once e)) e)
         | Some _ => (Err err, s, e)
         end.
Definition holder_check (h : ErrorHolder) (e : Env) : res unit :=
  match once e !! h with Some err => Err err | None => Ok tt end.

(** ** Notifiers *)

Definition notify_all {S} (n : Notifier) : M S unit :=
  modify_env (λ e, set_notified ({[n]} ∪ notified e) e).
Definition notifier_ready (n : Notifier) (e : Env) : bool := bool_decide (n ∈ notified e).

(** ** The internal RPC handle *)

Definition wake {S} : M S unit := modify_env (λ e, set_wakes (Datatypes.S (wakes e)) e).
(** [InternalRPCHandle::send]: queue the command, then wake the io loop. *)
Definition rpc_send {S} (c : InternalCommand) : M S unit :=
  modify_env (λ e, set_rpc (rpc e ++ [c]) e);; wake.

(** Its methods. *)
Definition rpc_basic_ack {S} (ch : ChannelId) (tag : DeliveryTag) (multiple : bool) (r : Resolver) (err : option ErrorHolder) : M S unit :=
  rpc_send (CBasicAck ch tag multiple r err).
Definition rpc_basic_nack {S} (ch : ChannelId) (tag : DeliveryTag) (multiple requeue : bool) (r : Resolver) (err : option ErrorHolder) : M S unit :=
  rpc_send (CBasicNack ch tag multiple requeue r err).
Definition rpc_basic_reject {S} (ch : ChannelId) (tag : DeliveryTag) (requeue : bool) (r : Resolver) (err : option ErrorHolder) : M S unit :=
  rpc_send (CBasicReject ch tag requeue r err).
Definition rpc_cancel_consumer {S} (ch : ChannelId) (tag : ShortString) (c : ConsumerRef) : M S unit := rpc_send (CCancelConsumer ch tag c).
Definition rpc_close_channel {S} (ch : ChannelId) (code : ReplyCode) (text : ShortString) : M S unit := rpc_send (CCloseChannel ch code text).
Definition rpc_deregister_consumer {S} (ch : ChannelId) (tag : ShortString) : M S unit := rpc_send (CDeregisterConsumer ch tag).
Definition rpc_finish_connection_shutdown {S} : M S unit := rpc_send CFinishConnectionShutdown.
Definition rpc_init_connection_recovery {S} (err : Error) : M S unit := rpc_send (CInitConnectionRecovery err).
Definition rpc_remove_channel {S} (ch : ChannelId) (err : Error) : M S unit := rpc_send (CRemoveChannel ch err).
Definition rpc_send_connection_close_ok {S} (err : Error) : M S unit := rpc_send (CSendConnectionCloseOk err).
Definition rpc_send_heartbeat {S} : M S unit := rpc_send CSendHeartbeat.
Definition rpc_set_channel_status {S} (ch : ChannelId) (k : KillSwitch) : M S unit := rpc_send (CSetChannelStatus ch k).
Definition rpc_set_connection_closing {S} : M S unit := rpc_send CSetConnectionClosing.
Definition rpc_set_connection_closed {S} (err : Error) : M S unit := rpc_send (CSetConnectionClosed err).
Definition rpc_set_connection_error {S} (err : Error) : M S unit := rpc_send (CSetConnectionError err).
Definition spawn {S} (t : Task) : M S unit := rpc_send (CSpawn t).
Definition rpc_start_channels_recovery {S} : M S unit := rpc_send CStartChannelsRecovery.
(** The duration, in milliseconds. *)
Definition rpc_start_heartbeat {S} (heartbeat : Z) : M S unit := rpc_send (CStartHeartbeat heartbeat).
Definition rpc_close_connection {S} (code : ReplyCode) (text : ShortString) (class_id method_id : Identifier)
  : M S unit :=
  rpc_set_connection_closing;; rpc_send (CCloseConnection code text class_id method_id None).
Definition rpc_init_connection_shutdown {S} (err : Error) (r : option Resolver) : M S unit :=
  rpc_set_connection_closing;; rpc_send (CInitConnectionShutdown err r).
(** Those that the caller awaits: the promise that the dispatcher completes. *)
Definition rpc_close_connection_checked {S} (code : ReplyCode) (text : ShortString) (class_id method_id : Identifier)
  : M S Resolver :=
  rpc_set_connection_closing;;
  p ← promise_new;
  rpc_send (CCloseConnection code text class_id method_id (Some p));; mret p.
Definition rpc_create_channel {S} : M S Resolver := p ← promise_new; rpc_send (CCreateChannel p);; mret p.
Definition rpc_update_secret {S} (secret : LongString) (reason : ShortString) : M S Resolver :=
  p ← promise_new; rpc_send (CUpdateSecret secret reason p);; mret p.

(** ** Events: only sent when somebody besides the connection listens *)

Definition send_event {S} (ev : Event) : M S unit :=
  modify_env (λ e, if decide (1 < receivers e)%nat then set_events (events e ++ [ev]) e else e).

(** ** Lemmas *)

Lemma promise_set_lookup p r e q :
  promises (promise_set p r e) !! q =
  if decide (p = q) then Some (default r (promises e !! p)) else promises e !! q.
Proof.
  unfold promise_set. destruct (promises e !! p) eqn:E; case_decide; subst; simpl; try done.
  - by rewrite lookup_insert_eq.
  - by rewrite lookup_insert_ne.
Qed.

Lemma promise_set_next_ref p r e : next_ref (promise_set p r e) = next_ref e.
Proof. unfold promise_set. by destruct (promises e !! p). Qed.

(** Completing several promises, one after the other. *)
Definition promise_sets (l : list (Resolver * res PVal)) (e : Env) : Env :=
  foldl (λ e x, promise_set x.1 x.2 e) e l.

Lemma promise_sets_app l k e : promise_sets (l ++ k) e = promise_sets k (promise_sets l e).
Proof. apply foldl_app. Qed.

Lemma promise_sets_next_ref l e : next_ref (promise_sets l e) = next_ref e.
Proof.
  revert e. induction l as [|[p r] l IH]; intros e; simpl; [done|]. by rewrite IH, promise_set_next_ref.
Qed.

Lemma promise_sets_other l e p : p ∉ l.*1 → promises (promise_sets l e) !! p = promises e !! p.
Proof.
  revert e. induction l as [|[q r] l IH]; intros e; simpl; [done|].
  intros [Hq Hl]%not_elem_of_cons. rewrite IH by done. by rewrite promise_set_lookup, decide_False.
Qed.

(** Completing promises touches nothing but the promises. *)
Lemma promise_set_only p r e : promise_set p r e = set_promises (promises (promise_set p r e)) e.
Proof. unfold promise_set. destruct (promises e !! p); by destruct e. Qed.

Lemma promise_sets_only l e : promise_sets l e = set_promises (promises (promise_sets l e)) e.
Proof.
  revert e. induction l as [|[p r] l IH]; intros e; simpl; [by destruct e|].
  rewrite IH. simpl. by rewrite promise_set_only.
Qed.

(** Distinct promises that are not completed yet get what they are given. *)
Lemma promise_sets_lookup l e p r :
  NoDup l.*1 → (∀ q, q ∈ l.*1 → promises e !! q = None) → (p, r) ∈ l →
  promises (promise_sets l e) !! p = Some r.
Proof.
  revert e. induction l as [|[q r'] l IH]; intros e; simpl; [by intros _ _ ?%not_elem_of_nil|].
  intros [Hq Hnd]%NoDup_cons Hnone [[= -> ->]|Hin]%elem_of_cons.
  - rewrite promise_sets_other by done. rewrite promise_set_lookup, decide_True by done.
    by rewrite Hnone by left.
  - apply IH; [done| |done]. intros q' Hq'. rewrite promise_set_lookup, decide_False by (by intros ->).
    apply Hnone. by right.
Qed.

(** Cells come into use in order: nothing is recorded about a cell not yet allocated. *)
Record env_wf (e : Env) : Prop := {
  wf_killed : ∀ k, k ∈ killed_set e → (k < next_ref e)%nat;
  wf_notified : ∀ n, n ∈ notified e → (n < next_ref e)%nat;
  wf_promises : ∀ p r, promises e !! p = Some r → (p < next_ref e)%nat;
}.

Lemma env_empty_wf : env_wf env_empty.
Proof. split; simpl; set_solver. Qed.

(** *** Completed promises stay completed

    [done p] holds of a promise with data waiting in its cell. *)
Definition done (p : Resolver) (e : Env) : Prop := is_Some (promises e !! p).

Definition result_of {S A} (x : A * S * Env) : A := x.1.1.
Definition state_of {S A} (x : A * S * Env) : S := x.1.2.
Definition env_of {S A} (x : A * S * Env) : Env := x.2.

(** The store reached by [m] only has more completed promises. *)
Definition keeps_done {S A} (m : M S A) : Prop :=
  ∀ s e p r, promises e !! p = Some r → promises (env_of (m s e)) !! p = Some r.

Lemma keeps_done_ret {S A} (a : A) : keeps_done (mret a : M S A).
Proof. by intros s e p r. Qed.

Lemma keeps_done_bind {S A B} (m : M S A) (k : A → M S B) :
  keeps_done m → (∀ a, keeps_done (k a)) → keeps_done (m ≫= k).
Proof.
  intros Hm Hk s e p r Hp. unfold mbind, M_bind. specialize (Hm s e p r Hp).
  destruct (m s e) as [[a s'] e']. by apply Hk.
Qed.

Lemma keeps_done_env {S} (f : Env → Env) :
  (∀ e p r, promises e !! p = Some r → promises (f e) !! p = Some r) → keeps_done (modify_env f : M S unit).
Proof. intros Hf s e p r. apply Hf. Qed.

Lemma keeps_done_complete {S} p r : keeps_done (complete p r : M S unit).
Proof.
  apply keeps_done_env. intros e q r' Hq. rewrite promise_set_lookup. case_decide; [|done].
  subst. by rewrite Hq.
Qed.

Lemma keeps_done_modify {S} (f : S → S) : keeps_done (modify f).
Proof. by intros s e p r. Qed.

Lemma keeps_done_get {S} : keeps_done (get : M S S).
Proof. by intros s e p r. Qed.

Lemma keeps_done_put {S} (x : S) : keeps_done (put x).
Proof. by intros s e p r. Qed.

Lemma keeps_done_for_each {S A} (l : list A) (f : A → M S unit) :
  (∀ x, keeps_done (f x)) → keeps_done (for_each l f).
Proof.
  intros Hf. induction l as [|x l IH]; simpl; [apply keeps_done_ret|].
  apply keeps_done_bind; [apply Hf|done].
Qed.

Lemma keeps_done_rpc {S} c : keeps_done (rpc_send c : M S unit).
Proof. apply keeps_done_bind; [by apply keeps_done_env|]. intros _. by apply keeps_done_env. Qed.

(** A loop that completes [g x] at each element completes all of them. *)
Lemma for_each_done {S A} (l : list A) (f : A → M S unit) (g : A → Resolver) s e x :
  (∀ y, keeps_done (f y)) → (∀ y s e, done (g y) (env_of (f y s e))) →
  x ∈ l → done (g x) (env_of (for_each l f s e)).
Proof.
  intros Hk Hd Hx. revert s e. induction Hx as [x l|x y l Hx IH]; intros s e; simpl;
    unfold mbind, M_bind.
  - specialize (Hd x s e). destruct (f x s e) as [[? s'] e']. destruct Hd as [r Hr].
    exists r. by apply (keeps_done_for_each l f Hk).
  - destruct (f y s e) as [[? s'] e']. apply IH.
Qed.

(** A promise completed by a part of a program is completed by the whole. *)
Lemma bind_done_l {S A B} (m : M S A) (k : A → M S B) p s e :
  done p (env_of (m s e)) → (∀ a, keeps_done (k a)) → done p (env_of ((m ≫= k) s e)).
Proof.
  unfold mbind, M_bind. destruct (m s e) as [[a s'] e']. intros [r Hr] Hk.
  exists r. by apply Hk.
Qed.

Lemma bind_done_r {S A B} (m : M S A) (k : A → M S B) p s e :
  (∀ a s' e', done p (env_of (k a s' e'))) → done p (env_of ((m ≫= k) s e)).
Proof. unfold mbind, M_bind. destruct (m s e) as [[a s'] e']. auto. Qed.

Lemma complete_done {S} p r (s : S) e : done p (env_of (complete p r s e)).
Proof. unfold done, complete, env_of, modify_env; simpl. rewrite promise_set_lookup, decide_True; eauto. Qed.

(** *** Operations that only touch the store *)

Definition keeps_state {S A} (m : M S A) : Prop := ∀ s e, state_of (m s e) = s.

Lemma keeps_state_ret {S A} (a : A) : keeps_state (mret a : M S A).
Proof. by intros s e. Qed.

Lemma keeps_state_bind {S A B} (m : M S A) (k : A → M S B) :
  keeps_state m → (∀ a, keeps_state (k a)) → keeps_state (m ≫= k).
Proof.
  intros Hm Hk s e. unfold mbind, M_bind. specialize (Hm s e).
  destruct (m s e) as [[a s'] e']. unfold state_of in Hm. simpl in Hm. subst. apply Hk.
Qed.

Lemma keeps_state_env {S} f : keeps_state (modify_env f : M S unit).
Proof. by intros s e. Qed.

Lemma keeps_state_complete {S} p r : keeps_state (complete p r : M S unit).
Proof. by intros s e. Qed.

Lemma keeps_state_rpc {S} c : keeps_state (rpc_send c : M S unit).
Proof. by intros s e. Qed.

Lemma keeps_state_notify {S} n : keeps_state (notify_all n : M S unit).
Proof. by intros s e. Qed.

Lemma keeps_state_kill {S} k : keeps_state (kill k : M S bool).
Proof. by intros s e. Qed.

Lemma keeps_state_fresh {S} : keeps_state (fresh : M S nat).
Proof. by intros s e. Qed.

Lemma keeps_state_get {S} : keeps_state (get : M S S).
Proof. by intros s e. Qed.

Lemma keeps_state_for_each {S A} (l : list A) (f : A → M S unit) :
  (∀ x, keeps_state (f x)) → keeps_state (for_each l f).
Proof.
  intros Hf. induction l as [|x l IH]; simpl; [apply keeps_state_ret|].
  apply keeps_state_bind; [apply Hf|done].
Qed.

(** *** Operations that only complete promises *)

Definition promises_only {S A} (m : M S A) : Prop := ∀ s e, ∃ ps, env_of (m s e) = set_promises ps e.

Lemma promises_only_ret {S A} (a : A) : promises_only (mret a : M S A).
Proof. intros s e. exists (promises e). by destruct e. Qed.

Lemma promises_only_bind {S A B} (m : M S A) (k : A → M S B) :
  promises_only m → (∀ a, promises_only (k a)) → promises_only (m ≫= k).
Proof.
  intros Hm Hk s e. unfold mbind, M_bind. destruct (Hm s e) as [ps E].
  destruct (m s e) as [[a s'] e']. unfold env_of in E. simpl in E. subst.
  destruct (Hk a s' (set_promises ps e)) as [ps' ->]. by exists ps'.
Qed.

Lemma promises_only_complete {S} p r : promises_only (complete p r : M S unit).
Proof.
  intros s e. unfold complete, modify_env, env_of; simpl. unfold promise_set.
  destruct (promises e !! p); [exists (promises e); by destruct e|by eexists].
Qed.

Lemma promises_only_for_each {S A} (l : list A) (f : A → M S unit) :
  (∀ x, promises_only (f x)) → promises_only (for_each l f).
Proof.
  intros Hf. induction l as [|x l IH]; simpl; [apply promises_only_ret|].
  apply promises_only_bind; [apply Hf|done].
Qed.

Lemma promises_only_modify {S} (f : S → S) : promises_only (modify f).
Proof. intros s e. exists (promises e). by destruct e. Qed.

Lemma promises_only_get {S} : promises_only (get : M S S).
Proof. intros s e. exists (promises e). by destruct e. Qed.

(** Sequencing after such an operation. *)
Lemma bind_keeps_state {S A B} (m : M S A) (k : A → M S B) s e : keeps_state m →
  (m ≫= k) s e = k (result_of (m s e)) s (env_of (m s e)).
Proof.
  intros Hm. unfold mbind, M_bind. specialize (Hm s e). destruct (m s e) as [[a s'] e'].
  unfold state_of in Hm. simpl in Hm. by subst.
Qed.

Lemma bind_eq {S A B} (m : M S A) (k : A → M S B) a s e s' e' :
  m s e = (a, s', e') → (m ≫= k) s e = k a s' e'.
Proof. intros H. unfold mbind, M_bind. by rewrite H. Qed.

Lemma try_bind_ok {S A B} (m : M S (res A)) (k : A → M S (res B)) a s e s' e' :
  m s e = (Ok a, s', e') → try_bind m k s e = k a s' e'.
Proof. intros H. unfold try_bind. by rewrite (bind_eq _ _ _ _ _ _ _ H). Qed.

Lemma bind_get {S B} (k : S → M S B) s e : (get ≫= k) s e = k s s e.
Proof. done. Qed.

Lemma bind_get_env {S B} (k : Env → M S B) s e : (get_env ≫= k) s e = k e s e.
Proof. done. Qed.

Lemma bind_kill {S B} k (f : bool → M S B) s e :
  (kill k ≫= f) s e = f (negb (killed k e)) s (set_killed ({[k]} ∪ killed_set e) e).
Proof. done. Qed.

Lemma bind_assoc {S A B C} (m : M S A) (k : A → M S B) (h : B → M S C) s e :
  ((m ≫= k) ≫= h) s e = (m ≫= λ a, k a ≫= h) s e.
Proof. unfold mbind, M_bind. by destruct (m s e) as [[a s'] e']. Qed.

Lemma bind_modify {S B} (f : S → S) (k : unit → M S B) s e : (modify f ≫= k) s e = k tt (f s) e.
Proof. done. Qed.

End Env.

#[export] Hint Resolve keeps_state_ret keeps_state_bind keeps_state_env keeps_state_complete
  keeps_state_rpc keeps_state_for_each keeps_state_notify keeps_state_kill keeps_state_fresh
  keeps_state_get : keeps_state.

(** The methods of the internal RPC handle, down to [rpc_send]. *)
Ltac unfold_rpc :=
  unfold rpc_basic_ack, rpc_basic_nack, rpc_basic_reject, rpc_cancel_consumer, rpc_close_channel, rpc_deregister_consumer,
    rpc_finish_connection_shutdown, rpc_init_connection_recovery, rpc_remove_channel, rpc_send_connection_close_ok, rpc_send_heartbeat,
    rpc_set_channel_status, rpc_set_connection_closing, rpc_set_connection_closed, rpc_set_connection_error,
    rpc_start_channels_recovery, rpc_start_heartbeat, rpc_close_connection_checked, rpc_create_channel, rpc_update_secret in *.

Ltac keeps_state :=
  unfold_rpc;
  repeat match goal with
  | |- keeps_state (_ ≫= _) => apply keeps_state_bind; [|intros]
  | |- keeps_state (for_each _ _) => apply keeps_state_for_each; intros
  | |- keeps_state (match ?x with _ => _ end) => destruct x
  | |- keeps_state _ => solve [eauto with keeps_state]
  end.

#[export] Hint Resolve promises_only_ret promises_only_bind promises_only_complete
  promises_only_for_each promises_only_modify promises_only_get : promises_only.

Ltac promises_only :=
  unfold_rpc;
  repeat match goal with
  | |- promises_only (_ ≫= _) => apply promises_only_bind; [|intros]
  | |- promises_only (for_each _ _) => apply promises_only_for_each; intros
  | |- promises_only (match ?x with _ => _ end) => destruct x
  | |- promises_only _ => solve [eauto with promises_only]
  end.

#[export] Hint Resolve keeps_done_ret keeps_done_bind keeps_done_complete keeps_done_modify
  keeps_done_get keeps_done_put keeps_done_for_each keeps_done_rpc : keeps_done.

(** Chase the structure of a monadic program. *)
Ltac keeps_done :=
  unfold_rpc;
  repeat match goal with
  | |- keeps_done (_ ≫= _) => apply keeps_done_bind; [|intros]
  | |- keeps_done (for_each _ _) => apply keeps_done_for_each; intros
  | |- keeps_done (match ?x with _ => _ end) => destruct x
  | |- keeps_done _ => solve [eauto with keeps_done]
  end.

Notation "'let!' x := m 'in' k" := (try_bind m (λ x, k))
  (at level 200, x pattern, m at level 200, k at level 200,
   format "'[v' 'let!'  x  :=  m  'in' '//' k ']'") : lapin_scope.
