(* ===== verification/Frames.v ===== *)
(** The outgoing frame queues and the replies the client waits for (src/frames.rs). *)
From S2P Require Import Prelude.
From S2P Require Import Buffer.
From S2P Require Import Types.
From S2P Require Import Env.
Open Scope Z_scope.

Module Frames.
Section Frames.
Context `{AT : AmqpTypes} `{HO : !HashOrder Z}.

Record FrameSending := mkSending { canceler : option Resolver; resolver : option Resolver }.

Record FrameEntry := mkEntry { frame : AMQPFrame; sending : FrameSending }.

(** [Inner]. *)
Record t := mk {
  publish_frames : list FrameEntry;
  retry_frames : list FrameEntry;
  frames : list FrameEntry;
  low_prio_frames : list FrameEntry;
  expected_replies : gmap Z (list ExpectedReply);
  poison : option Error;
  channels_poison : gmap Z Error;
}.

Definition default : t := mk [] [] [] [] ∅ None ∅.

Definition set_publish x f := mk x (retry_frames f) (frames f) (low_prio_frames f) (expected_replies f) (poison f) (channels_poison f).
Definition set_retry x f := mk (publish_frames f) x (frames f) (low_prio_frames f) (expected_replies f) (poison f) (channels_poison f).
Definition set_frames x f := mk (publish_frames f) (retry_frames f) x (low_prio_frames f) (expected_replies f) (poison f) (channels_poison f).
Definition set_low_prio x f := mk (publish_frames f) (retry_frames f) (frames f) x (expected_replies f) (poison f) (channels_poison f).
Definition set_expected x f := mk (publish_frames f) (retry_frames f) (frames f) (low_prio_frames f) x (poison f) (channels_poison f).
Definition set_poison x f := mk (publish_frames f) (retry_frames f) (frames f) (low_prio_frames f) (expected_replies f) x (channels_poison f).
Definition set_channels_poison x f := mk (publish_frames f) (retry_frames f) (frames f) (low_prio_frames f) (expected_replies f) (poison f) x.

(** [FrameSending::reject]: the resolver if there is one, else the canceler. *)
Definition sending_reject {S} (s : FrameSending) (err : Error) : M S unit :=
  match resolver s with
  | Some r => reject r err
  | None => match canceler s with Some c => reject c err | None => mret tt end
  end.

Definition sending_resolve {S} (s : FrameSending) : M S unit :=
  match resolver s with Some r => resolve r VUnit | None => mret tt end.

Definition entry_reject {S} (fe : FrameEntry) (err : Error) : M S unit := sending_reject (sending fe) err.

(** [From<AMQPFrame>] and [From<(AMQPFrame, Option<PromiseResolver<()>>)>]. *)
Definition entry_of (f : AMQPFrame) (r : option Resolver) : FrameEntry := mkEntry f (mkSending None r).

Definition cancel_expected_reply {S} (er : ExpectedReply) (err : Error) : M S unit :=
  match er_reply er with
  | RBasicCancelOk r => resolve r VUnit
  | _ => reject (er_cancel er) err
  end.

Definition cancel_expected_replies {S} (l : list ExpectedReply) (err : Error) : M S unit :=
  for_each l (λ er, cancel_expected_reply er err).

Definition check_poison (f : t) (ch : ChannelId) : option Error :=
  match channels_poison f !! ch with Some e => Some e | None => poison f end.

Definition push (ch : ChannelId) (fr : AMQPFrame) (cancel : Resolver)
    (expected : option ExpectedReply) (r : option Resolver) : M t unit :=
  let snd := mkSending (Some cancel) r in
  f ← get;
  match check_poison f ch with
  | Some err =>
    match expected with Some er => cancel_expected_reply er err | None => mret tt end;;
    sending_reject snd err
  | None =>
    modify (λ f, set_frames (frames f ++ [mkEntry fr snd]) f);;
    match expected with
    | Some er => modify (λ f, set_expected
        (<[ch := (expected_replies f !!! ch) ++ [er]]> (expected_replies f)) f)
    | None => mret tt
    end
  end.

Definition push_frames (ch : ChannelId) (frs : list AMQPFrame) (r : Resolver) : M t unit :=
  let last_frame := last frs in
  let frs := removelast frs in
  f ← get;
  match check_poison f ch with
  | Some err => reject r err
  | None =>
    modify (λ f, set_low_prio (low_prio_frames f ++ ((λ x, entry_of x None) <$> frs)) f);;
    match last_frame with
    | Some lf => modify (λ f, set_low_prio (low_prio_frames f ++ [entry_of lf (Some r)]) f)
    | None => resolve r VUnit
    end
  end.

Definition retry (fe : FrameEntry) : M t unit := modify (λ f, set_retry (retry_frames f ++ [fe]) f).

(** The inner [while] of [pop]: move the Header and Body frames at the front of the
    low priority queue to the publish queue. *)
Fixpoint move_publish (low pub : list FrameEntry) : list FrameEntry * list FrameEntry :=
  match low with
  | [] => ([], pub)
  | fe :: low' =>
    match frame fe with
    | Header _ _ | Body _ _ => move_publish low' (pub ++ [fe])
    | _ => (fe :: low', pub)
    end
  end.

Definition pop_ (f : t) (flow : bool) : option FrameEntry * t :=
  match retry_frames f with
  | fe :: l => (Some fe, set_retry l f)
  | [] =>
    match publish_frames f with
    | fe :: l => (Some fe, set_publish l f)
    | [] =>
      match frames f with
      | fe :: l => (Some fe, set_frames l f)
      | [] =>
        if flow then
          match low_prio_frames f with
          | fe :: l =>
            let f := set_low_prio l f in
            if match l with nx :: _ => is_header (frame nx) | [] => false end
            then let (l', pub) := move_publish l (publish_frames f) in
                 (Some fe, set_publish pub (set_low_prio l' f))
            else (Some fe, f)
          | [] => (None, f)
          end
        else (None, f)
      end
    end
  end.

Definition pop (flow : bool) : M t (option FrameEntry) :=
  f ← get; let (r, f') := pop_ f flow in put f';; mret r.

Definition has_pending (f : t) : bool :=
  negb (bool_decide (retry_frames f = []) && bool_decide (publish_frames f = []) &&
        bool_decide (frames f = []) && bool_decide (low_prio_frames f = [])).

(** [position(finder)] then [remove(idx)]. *)
Fixpoint find_remove {A} (p : A → bool) (l : list A) : option (A * list A) :=
  match l with
  | [] => None
  | x :: l => if p x then Some (x, l) else
              match find_remove p l with Some (y, l') => Some (y, x :: l') | None => None end
  end.

Definition find_expected_reply (ch : ChannelId) (finder : ExpectedReply → bool) : M t (option Reply) :=
  f ← get;
  match expected_replies f !! ch with
  | None => mret None
  | Some l =>
    match find_remove finder l with
    | Some (er, l') => put (set_expected (<[ch := l']> (expected_replies f)) f);; mret (Some (er_reply er))
    | None => mret None
    end
  end.

Definition is_connection_step (er : ExpectedReply) : bool :=
  match er_reply er with RConnectionStep _ => true | _ => false end.

Definition find_connection_step (ch : ChannelId) : M t (option ConnectionStep) :=
  r ← find_expected_reply ch is_connection_step;
  mret (match r with Some (RConnectionStep s) => Some s | _ => None end).

(** The resolver and the connection of the step, which the caller drops. *)
Definition connection_resolver (ch : ChannelId) : M t (option (Resolver * ConnectionRef)) :=
  s ← find_connection_step ch; mret ((λ s, (into_connection_resolver s, step_connection s)) <$> s).

(** [while let Some(resolver) = connection_resolver(0)], with fuel.  It returns the connections of
    the steps, which the caller drops: a drop queues commands, a rejection completes a promise. *)
Fixpoint clear_steps_loop (fuel : nat) (err : Error) : M t (list ConnectionRef) :=
  match fuel with
  | O => mret []
  | S fuel =>
    r ← connection_resolver 0;
    match r with
    | Some (p, c) => reject p err;; cs ← clear_steps_loop fuel err; mret (c :: cs)
    | None => mret []
    end
  end.

(** One more iteration than there are replies is enough ([clear_steps_complete]). *)
Definition clear_connection_steps (err : Error) : M t (list ConnectionRef) :=
  f ← get; clear_steps_loop (S (length (expected_replies f !!! 0))) err.

(** [find_map]: the connection promise of the first pending protocol header. *)
Fixpoint header_waiter (l : list ExpectedReply) : option Resolver :=
  match l with
  | [] => None
  | er :: l => match er_reply er with
               | RConnectionStep (StepProtocolHeader r _) => Some r
               | _ => header_waiter l
               end
  end.

Definition retry_connection_header (version : Z * Z * Z) : M t bool :=
  f ← get;
  match (expected_replies f !! 0) ≫= header_waiter with
  | None => mret false
  | Some r =>
    let keep := List.filter (λ fe, negb (is_protocol_header (frame fe))) in
    modify (λ f, set_frames (keep (frames f)) f);;
    modify (λ f, set_retry (keep (retry_frames f)) f);;
    modify (λ f, set_retry (mkEntry (ProtocolHeader version) (mkSending (Some r) None) :: retry_frames f) f);;
    mret true
  end.

(** The loop of [next_expected_close_ok_reply]: the reply found and what is left. *)
Fixpoint close_ok_loop (l : list ExpectedReply) (err : Error) : M t (option Reply * list ExpectedReply) :=
  match l with
  | [] => mret (None, [])
  | er :: l =>
    match er_reply er with
    | RChannelCloseOk r => mret (Some (RChannelCloseOk r), l)
    | RBasicCancelOk r => resolve r VUnit;; close_ok_loop l err
    | _ => reject (er_cancel er) err;; close_ok_loop l err
    end
  end.

Definition next_expected_close_ok_reply (ch : ChannelId) (err : Error) : M t (option Reply) :=
  f ← get;
  match expected_replies f !! ch with
  | None => mret None
  | Some l =>
    x ← close_ok_loop l err;
    modify (λ f, set_expected (<[ch := x.2]> (expected_replies f)) f);;
    mret x.1
  end.

Definition clear_all_expected_replies (err : Error) : M t unit :=
  f ← get;
  for_each (hash_order (expected_replies f)) (λ x, cancel_expected_replies x.2 err);;
  modify (set_expected ∅).

Definition take_expected_replies (ch : ChannelId) : M t (option (list ExpectedReply)) :=
  f ← get; put (set_expected (delete ch (expected_replies f)) f);; mret (expected_replies f !! ch).

Definition clear_expected_replies (ch : ChannelId) (err : Error) : M t unit :=
  r ← take_expected_replies ch;
  match r with Some l => cancel_expected_replies l err | None => mret tt end.

Definition drop_pending_frame {S} (err : Error) (fe : FrameEntry) : M S unit :=
  match frame fe with
  | Method ch (BasicCancel tag _) => rpc_deregister_consumer ch tag;; sending_resolve (sending fe)
  | _ => entry_reject fe err
  end.

Definition drop_pending_frames {S} (l : list FrameEntry) (err : Error) : M S unit :=
  for_each l (drop_pending_frame err).

Definition drop_pending (err : Error) : M t unit :=
  f ← get;
  modify (set_retry []);; drop_pending_frames (retry_frames f) err;;
  modify (set_publish []);; drop_pending_frames (publish_frames f) err;;
  modify (set_frames []);; drop_pending_frames (frames f) err;;
  modify (set_low_prio []);; drop_pending_frames (low_prio_frames f) err;;
  clear_all_expected_replies err;;
  modify (set_poison (Some err)).

(** [retain] of [drop_pending_frames_for_channel]: reject the frames of [ch]. *)
Definition drop_queue_for_channel {S} (ch : ChannelId) (l : list FrameEntry) (err : Error) : M S unit :=
  for_each (List.filter (λ fe, frame_channel (frame fe) =? ch) l) (λ fe, entry_reject fe err).

Definition keep_other_channels (ch : ChannelId) (l : list FrameEntry) : list FrameEntry :=
  List.filter (λ fe, negb (frame_channel (frame fe) =? ch)) l.

Definition drop_frames_for_channel (ch : ChannelId) (err : Error) : M t unit :=
  f ← get;
  drop_queue_for_channel ch (retry_frames f) err;; modify (set_retry (keep_other_channels ch (retry_frames f)));;
  drop_queue_for_channel ch (publish_frames f) err;; modify (set_publish (keep_other_channels ch (publish_frames f)));;
  drop_queue_for_channel ch (frames f) err;; modify (set_frames (keep_other_channels ch (frames f)));;
  drop_queue_for_channel ch (low_prio_frames f) err;; modify (set_low_prio (keep_other_channels ch (low_prio_frames f))).

Definition poison_channel (ch : ChannelId) (err : Error) : M t unit :=
  modify (λ f, set_channels_poison (<[ch := err]> (channels_poison f)) f).

Definition drop_poison : M t unit := modify (set_poison None).

Definition drop_channel_poison (ch : ChannelId) : M t unit :=
  modify (λ f, set_channels_poison (delete ch (channels_poison f)) f).

(** ** What goes on the wire

    A publish is one Method frame, its Header and its Body frames; everything else
    is a single frame.  The server closes the connection when frames of another
    unit come between the frames of a publish. *)

Definition is_body (f : AMQPFrame) : bool := match f with Body _ _ => true | _ => false end.
Definition is_plain (f : AMQPFrame) : bool := negb (is_header f) && negb (is_body f).

Definition single (u : list FrameEntry) : Prop := ∃ x, u = [x] ∧ is_plain (frame x) = true.
Definition publish (u : list FrameEntry) : Prop :=
  ∃ m h bs, u = m :: h :: bs ∧ is_plain (frame m) = true ∧ is_header (frame h) = true ∧
            Forall (λ b, is_body (frame b) = true) bs.
Definition unit_ (u : list FrameEntry) : Prop := single u ∨ publish u.

(** What the rest of the client does with the queues: queue a single frame, queue the
    frames of a publish, serialize the next frame, or find no room for it and put it
    back ([IoLoop::serialize]). *)
Inductive WireOp :=
| WPush (ch : ChannelId) (fr : AMQPFrame) (cancel : Resolver) (er : option ExpectedReply) (r : option Resolver)
| WPublish (ch : ChannelId) (m h : AMQPFrame) (bs : list AMQPFrame) (r : Resolver)
| WEmit (flow : bool)
| WBounce (flow : bool).

Definition op_ok (o : WireOp) : Prop :=
  match o with
  | WPush _ fr _ _ _ => is_plain fr = true
  | WPublish _ m h bs _ => is_plain m = true ∧ is_header h = true ∧ Forall (λ b, is_body b = true) bs
  | _ => True
  end.

(** The serialized frames, the queues and the store. *)
Definition wire_step (x : list FrameEntry * t * Env) (o : WireOp) : list FrameEntry * t * Env :=
  let '(w, f, e) := x in
  match o with
  | WPush ch fr c er r => let '(_, f', e') := push ch fr c er r f e in (w, f', e')
  | WPublish ch m h bs r => let '(_, f', e') := push_frames ch (m :: h :: bs) r f e in (w, f', e')
  | WEmit flow => let '(r, f', e') := pop flow f e in (w ++ option_list r, f', e')
  | WBounce flow =>
    let '(r, f', e') := pop flow f e in
    match r with
    | Some fe => let '(_, f'', e'') := retry fe f' e' in (w, f'', e'')
    | None => (w, f', e')
    end
  end.

Definition wire_run (os : list WireOp) (e : Env) : list FrameEntry * t * Env :=
  fold_left wire_step os ([], default, e).

Definition publish_entries (m h : AMQPFrame) (bs : list AMQPFrame) (r : Resolver) : list FrameEntry :=
  ((λ x, entry_of x None) <$> removelast (m :: h :: bs)) ++
  option_list ((λ x, entry_of x (Some r)) <$> last (m :: h :: bs)).

(** The units queued by a history, in order. *)
Definition pushed_publishes (os : list WireOp) : list (list FrameEntry) :=
  os ≫= λ o, match o with WPublish _ m h bs r => [publish_entries m h bs r] | _ => [] end.
Definition pushed_singles (os : list WireOp) : list (list FrameEntry) :=
  os ≫= λ o, match o with WPush _ fr c _ r => [[mkEntry fr (mkSending (Some c) r)]] | _ => [] end.

Definition publishes (us : list (list FrameEntry)) := List.filter (λ u, (2 <=? length u)%nat) us.
Definition singles (us : list (list FrameEntry)) := List.filter (λ u, (length u =? 1)%nat) us.

(** The frames of the unit being sent that are still queued. *)
Definition in_flight (f : t) : list FrameEntry := retry_frames f ++ publish_frames f.

Record wire_inv (os : list WireOp) (w : list FrameEntry) (f : t)
    (us gs : list (list FrameEntry)) (cur : list FrameEntry) : Prop := {
  wi_wire : w = concat us ++ cur;
  wi_units : Forall unit_ us;
  wi_current : cur ++ in_flight f = [] ∨ unit_ (cur ++ in_flight f);
  wi_low : low_prio_frames f = concat gs;
  wi_groups : Forall publish gs;
  wi_frames : Forall (λ x, is_plain (frame x) = true) (frames f);
  wi_retry : (length (retry_frames f) ≤ 1)%nat;
  wi_poison : poison f = None ∧ channels_poison f = ∅;
  wi_publishes : publishes (us ++ [cur ++ in_flight f]) ++ gs = pushed_publishes os;
  wi_singles : singles (us ++ [cur ++ in_flight f]) ++ ((λ x, [x]) <$> frames f) = pushed_singles os;
}.

Lemma publishes_app us vs : publishes (us ++ vs) = publishes us ++ publishes vs.
Proof. apply List.filter_app. Qed.
Lemma singles_app us vs : singles (us ++ vs) = singles us ++ singles vs.
Proof. apply List.filter_app. Qed.

Lemma is_plain_not fr : is_plain fr = true → is_header fr = false ∧ is_body fr = false.
Proof. unfold is_plain. by destruct (is_header fr), (is_body fr). Qed.

(** Moving the frames of one publish stops at the next unit. *)
Lemma move_publish_bodies bs rest pub :
  Forall (λ b, is_body (frame b) = true) bs →
  match rest with x :: _ => is_plain (frame x) = true | [] => True end →
  move_publish (bs ++ rest) pub = (rest, pub ++ bs).
Proof.
  intros Hbs Hrest. revert pub. induction Hbs as [|b bs Hb _ IH]; intros pub; simpl.
  - rewrite app_nil_r. destruct rest as [|x rest]; [done|]. simpl.
    by destruct (frame x).
  - destruct (frame b); try done. rewrite IH. by rewrite <- app_assoc.
Qed.

Lemma publish_head gs : Forall publish gs →
  match concat gs with x :: _ => is_plain (frame x) = true | [] => True end.
Proof. intros [|g gs' (m & h & bs & -> & Hm & _) _]; simpl; done. Qed.

(** The next frame, when a unit is being sent and when none is. *)
Lemma pop_in_flight f flow x l : (length (retry_frames f) ≤ 1)%nat → in_flight f = x :: l →
  ∃ f', pop_ f flow = (Some x, f') ∧ in_flight f' = l ∧ retry_frames f' = [] ∧
    frames f' = frames f ∧ low_prio_frames f' = low_prio_frames f ∧ publish_frames f' = l ∧
    poison f' = poison f ∧ channels_poison f' = channels_poison f.
Proof.
  unfold pop_, in_flight. intros Hr.
  destruct (retry_frames f) as [|y [|]] eqn:Er; simpl in *; try lia; intros E.
  - rewrite E. eexists; split; [done|]. simpl. by rewrite Er.
  - simplify_eq. eexists; split; [done|]. done.
Qed.

Lemma pop_idle f flow gs : in_flight f = [] → low_prio_frames f = concat gs → Forall publish gs →
  pop_ f flow =
  match frames f with
  | x :: l => (Some x, set_frames l f)
  | [] => if flow then
            match gs with
            | (m :: hbs) :: gs' => (Some m, set_publish hbs (set_low_prio (concat gs') f))
            | _ => (None, f)
            end
          else (None, f)
  end.
Proof.
  unfold pop_, in_flight. intros [Hr Hp]%app_eq_nil Hlow Hg. rewrite Hr, Hp.
  destruct (frames f); [|done]. destruct flow; [|done]. rewrite Hlow.
  destruct Hg as [|g gs' (m & h & bs & -> & Hm & Hh & Hbs) Hg']; simpl; [done|].
  rewrite Hh, Hp. destruct (frame h) eqn:Eh; try done. simpl.
  rewrite move_publish_bodies by (done || by apply publish_head). done.
Qed.

(** Between two units: the one just finished joins the sent ones. *)
Definition absorb (us : list (list FrameEntry)) (cur : list FrameEntry) :=
  match cur with [] => us | _ => us ++ [cur] end.

Lemma absorb_concat us cur : concat (absorb us cur) = concat us ++ cur.
Proof. destruct cur; simpl; rewrite ?concat_app, ?app_nil_r; simpl; by rewrite ?app_nil_r. Qed.

Lemma absorb_units us cur : Forall unit_ us → cur = [] ∨ unit_ cur → Forall unit_ (absorb us cur).
Proof. intros Hus [->|Hu]; [done|]. destruct cur; [done|]. apply Forall_app. auto. Qed.

Lemma absorb_publishes us cur : publishes (absorb us cur) = publishes (us ++ [cur]).
Proof. destruct cur; simpl; [|done]. rewrite publishes_app. simpl. by rewrite app_nil_r. Qed.

Lemma absorb_singles us cur : singles (absorb us cur) = singles (us ++ [cur]).
Proof. destruct cur; simpl; [|done]. rewrite singles_app. simpl. by rewrite app_nil_r. Qed.

(** The invariant with the frame [x] in hand, popped and not yet serialized or put back. *)
Record wire_ready (os : list WireOp) (w : list FrameEntry) (x : FrameEntry) (f : t)
    (us gs : list (list FrameEntry)) (cur : list FrameEntry) : Prop := {
  wr_wire : w = concat us ++ cur;
  wr_units : Forall unit_ us;
  wr_current : unit_ (cur ++ x :: in_flight f);
  wr_low : low_prio_frames f = concat gs;
  wr_groups : Forall publish gs;
  wr_frames : Forall (λ x, is_plain (frame x) = true) (frames f);
  wr_retry : retry_frames f = [];
  wr_poison : poison f = None ∧ channels_poison f = ∅;
  wr_publishes : publishes (us ++ [cur ++ x :: in_flight f]) ++ gs = pushed_publishes os;
  wr_singles : singles (us ++ [cur ++ x :: in_flight f]) ++ ((λ x, [x]) <$> frames f) = pushed_singles os;
}.

Lemma wire_pop_ready os w f us gs cur flow x f' :
  wire_inv os w f us gs cur → pop_ f flow = (Some x, f') →
  ∃ us' gs' cur', wire_ready os w x f' us' gs' cur'.
Proof.
  intros [Hw Hus Hcur Hlow Hgs Hfr Hr Hp Hpub Hsin] E.
  destruct (in_flight f) as [|y l] eqn:Ef.
  - rewrite (pop_idle f flow gs) in E by done. rewrite app_nil_r in *.
    apply app_eq_nil in Ef as [Er Epub].
    exists (absorb us cur). destruct (frames f) as [|z fs] eqn:Efr.
    + destruct flow; [|done].
      destruct Hgs as [|g gs (m & h & bs & -> & Hm & Hh & Hbs) Hgs]; [done|]. simplify_eq.
      exists gs, []. split; simpl; try done.
      * by rewrite absorb_concat, app_nil_r.
      * by apply absorb_units.
      * right. unfold in_flight; simpl. rewrite Er. simpl. by exists x, h, bs.
      * by rewrite Efr.
      * unfold in_flight; simpl. rewrite Er, publishes_app, absorb_publishes, <- Hpub, <- app_assoc. done.
      * unfold in_flight; simpl. rewrite Er, singles_app, absorb_singles, <- Hsin, Efr. simpl.
        by rewrite !app_nil_r.
    + simplify_eq. apply Forall_cons in Hfr as [Hz Hfr].
      exists gs, []. split; simpl; try done.
      * by rewrite absorb_concat, app_nil_r.
      * by apply absorb_units.
      * left. unfold in_flight; simpl. rewrite Er, Epub. by exists x.
      * unfold in_flight; simpl. rewrite Er, Epub, publishes_app, absorb_publishes. simpl.
        by rewrite app_nil_r.
      * unfold in_flight; simpl. rewrite Er, Epub, singles_app, absorb_singles, <- Hsin, <- app_assoc. done.
  - destruct (pop_in_flight f flow y l) as (f2 & E2 & Hl & Hr2 & Hfr2 & Hlow2 & Hpb & Hpo & Hcp); [done..|].
    rewrite E in E2. simplify_eq. exists us, gs, cur.
    split; rewrite ?Hfr2, ?Hlow2, ?Hl, ?Hpo, ?Hcp; try done.
    destruct Hcur as [Hc|]; [|done]. apply app_eq_nil in Hc as [_ ?]. done.
Qed.

Lemma wire_ready_emit os w x f us gs cur :
  wire_ready os w x f us gs cur → wire_inv os (w ++ [x]) f us gs (cur ++ [x]).
Proof.
  intros [-> ? ? ? ? ? Hr ? ? ?].
  split; rewrite <- ?app_assoc; simpl; auto. rewrite Hr. simpl. lia.
Qed.

Lemma wire_ready_bounce os w x f us gs cur :
  wire_ready os w x f us gs cur → wire_inv os w (set_retry (retry_frames f ++ [x]) f) us gs cur.
Proof.
  intros [-> ? ? ? ? ? Hr ? ? ?]. unfold in_flight in *. rewrite Hr in *.
  split; unfold in_flight; simpl; auto.
Qed.

Lemma wire_pop_none f flow f' : pop_ f flow = (None, f') → f' = f.
Proof.
  unfold pop_. destruct (retry_frames f); [|done]. destruct (publish_frames f); [|done].
  destruct (frames f); [|done]. destruct flow; [|by intros [= <-]].
  destruct (low_prio_frames f); [by intros [= <-]|].
  destruct (match _ with [] => false | _ => _ end); [|done]. by destruct (move_publish _ _).
Qed.

Lemma publish_entries_publish m h bs r :
  is_plain m = true → is_header h = true → Forall (λ b, is_body b = true) bs →
  publish (publish_entries m h bs r).
Proof.
  intros Hm Hh Hbs. unfold publish_entries. destruct bs as [|b bs _] using rev_ind.
  - by eexists _, _, [].
  - apply Forall_app in Hbs as [Hbs [Hb _]%Forall_cons].
    change (m :: h :: bs ++ [b]) with ((m :: h :: bs) ++ [b]).
    rewrite last_snoc, removelast_last.
    exists (entry_of m None), (entry_of h None), (((λ x, entry_of x None) <$> bs) ++ [entry_of b (Some r)]).
    split_and!; [done..|].
    apply Forall_app; split; [|apply Forall_singleton; exact Hb].
    apply Forall_fmap. by eapply Forall_impl.
Qed.

Lemma wire_step_inv os w f e us gs cur o :
  wire_inv os w f us gs cur → op_ok o →
  ∃ us' gs' cur', wire_inv (os ++ [o]) (wire_step (w, f, e) o).1.1 (wire_step (w, f, e) o).1.2 us' gs' cur'.
Proof.
  intros Hinv Hok. pose proof Hinv as [Hw Hus Hcur Hlow Hgs Hfr Hr [Hp1 Hp2] Hpub Hsin].
  assert (Hpp : ∀ o, pushed_publishes (os ++ [o]) = pushed_publishes os ++ pushed_publishes [o]).
  { intros. apply bind_app. }
  assert (Hps : ∀ o, pushed_singles (os ++ [o]) = pushed_singles os ++ pushed_singles [o]).
  { intros. apply bind_app. }
  assert (Hck : ∀ ch, check_poison f ch = None).
  { intros ch. unfold check_poison. by rewrite Hp2, lookup_empty. }
  destruct o as [ch fr c er r|ch m h bs r|flow|flow]; simpl in Hok.
  - exists us, gs, cur. unfold wire_step, push, get, mbind, M_bind. rewrite Hck.
    destruct er; simpl; (split; simpl; auto; [apply Forall_app; auto|..]);
      rewrite ?Hpp, ?Hps; unfold in_flight in *; simpl; rewrite ?app_nil_r, ?fmap_app; try done;
      by rewrite app_assoc, Hsin.
  - exists us, (gs ++ [publish_entries m h bs r]), cur.
    destruct Hok as (Hm & Hh & Hbs).
    unfold wire_step, push_frames, get, mbind, M_bind. rewrite Hck.
    destruct (last (m :: h :: bs)) as [lf|] eqn:Elast; [|by apply last_None in Elast].
    assert (Epe : publish_entries m h bs r = ((λ x, entry_of x None) <$> removelast (m :: h :: bs)) ++ [entry_of lf (Some r)]).
    { unfold publish_entries. by rewrite Elast. }
    split; cbn [fst snd modify mbind]; auto.
    + change (low_prio_frames _) with
        ((low_prio_frames f ++ ((λ x, entry_of x None) <$> removelast (m :: h :: bs))) ++ [entry_of lf (Some r)]).
      rewrite concat_app, Hlow, Epe, <- app_assoc. simpl. by rewrite app_nil_r.
    + apply Forall_app; split; [done|]. constructor; [|done]. by apply publish_entries_publish.
    + rewrite Hpp, app_assoc. by f_equal.
    + rewrite Hps. by rewrite app_nil_r.
  - unfold wire_step, pop, get, put, mbind, M_bind.
    destruct (pop_ f flow) as [[x|] f'] eqn:E; simpl.
    + destruct (wire_pop_ready os w f us gs cur flow x f' Hinv E) as (us' & gs' & cur' & Hrdy).
      apply wire_ready_emit in Hrdy. exists us', gs', (cur' ++ [x]).
      destruct Hrdy. split; rewrite ?Hpp, ?Hps, ?app_nil_r; auto.
    + apply wire_pop_none in E as ->. rewrite app_nil_r. exists us, gs, cur.
      split; rewrite ?Hpp, ?Hps, ?app_nil_r; auto.
  - unfold wire_step, pop, get, put, mbind, M_bind.
    destruct (pop_ f flow) as [[x|] f'] eqn:E; simpl.
    + destruct (wire_pop_ready os w f us gs cur flow x f' Hinv E) as (us' & gs' & cur' & Hrdy).
      apply wire_ready_bounce in Hrdy. exists us', gs', cur'.
      destruct Hrdy. split; rewrite ?Hpp, ?Hps, ?app_nil_r; auto.
    + apply wire_pop_none in E as ->. exists us, gs, cur.
      split; rewrite ?Hpp, ?Hps, ?app_nil_r; auto.
Qed.

Lemma wire_run_inv os e : Forall op_ok os →
  ∃ us gs cur, wire_inv os (wire_run os e).1.1 (wire_run os e).1.2 us gs cur.
Proof.
  induction os as [|o os IH] using rev_ind; intros Hok.
  - exists [], [], []. split; simpl; auto.
  - apply Forall_app in Hok as [Hok [Ho _]%Forall_cons].
    destruct (IH Hok) as (us & gs & cur & Hinv).
    unfold wire_run in *. rewrite fold_left_app. simpl.
    destruct (fold_left wire_step os ([], default, e)) as [[w f] e']. simpl in Hinv.
    by eapply wire_step_inv.
Qed.

(** C7: publishes are never torn.  Whatever the interleaving of queued frames, publishes,
    serializations and bounced serializations, the frames on the wire are a prefix of a
    sequence of whole units: the Header and Body frames of a publish directly follow its
    Method frame.  Publishes go out in the order they were queued, and so do the
    other frames. *)
Theorem wire_publishes_contiguous os e : Forall op_ok os →
  ∃ us, (wire_run os e).1.1 `prefix_of` concat us ∧ Forall unit_ us ∧
        publishes us `prefix_of` pushed_publishes os ∧ singles us `prefix_of` pushed_singles os.
Proof.
  intros Hok. destruct (wire_run_inv os e Hok) as (us & gs & cur & [Hw Hus Hcur _ _ _ _ _ Hp Hs]).
  exists (absorb us (cur ++ in_flight (wire_run os e).1.2)). split_and!.
  - rewrite absorb_concat, Hw, app_assoc. by apply prefix_app_r.
  - by apply absorb_units.
  - rewrite absorb_publishes, <- Hp. by apply prefix_app_r.
  - rewrite absorb_singles, <- Hs. by apply prefix_app_r.
Qed.

(** ** Nobody is left waiting *)

(** Who is told when the entry is dropped. *)
Definition entry_waiter (fe : FrameEntry) : option Resolver :=
  match frame fe with
  | Method _ (BasicCancel _ _) => resolver (sending fe)
  | _ => match resolver (sending fe) with Some r => Some r | None => canceler (sending fe) end
  end.

Definition reply_waiter (er : ExpectedReply) : Resolver :=
  match er_reply er with RBasicCancelOk r => r | _ => er_cancel er end.

Lemma keeps_done_sending_reject {S} s err : keeps_done (sending_reject s err : M S unit).
Proof. unfold sending_reject, reject. keeps_done. Qed.
Lemma keeps_done_sending_resolve {S} s : keeps_done (sending_resolve s : M S unit).
Proof. unfold sending_resolve, resolve. keeps_done. Qed.
Lemma keeps_done_cancel_reply {S} er err : keeps_done (cancel_expected_reply er err : M S unit).
Proof. unfold cancel_expected_reply, resolve, reject. keeps_done. Qed.
Hint Resolve keeps_done_sending_reject keeps_done_sending_resolve keeps_done_cancel_reply : keeps_done.

Lemma keeps_done_drop_frame {S} err fe : keeps_done (drop_pending_frame err fe : M S unit).
Proof. unfold drop_pending_frame, entry_reject. keeps_done. Qed.
Hint Resolve keeps_done_drop_frame : keeps_done.

Lemma keeps_done_drop_frames {S} l err : keeps_done (drop_pending_frames l err : M S unit).
Proof. unfold drop_pending_frames. keeps_done. Qed.
Lemma keeps_done_cancel_replies {S} l err : keeps_done (cancel_expected_replies l err : M S unit).
Proof. unfold cancel_expected_replies. keeps_done. Qed.
Hint Resolve keeps_done_drop_frames keeps_done_cancel_replies : keeps_done.

Lemma keeps_done_clear_all err : keeps_done (clear_all_expected_replies err).
Proof. unfold clear_all_expected_replies. keeps_done. Qed.
Hint Resolve keeps_done_clear_all : keeps_done.

Lemma sending_reject_done {S} snd err p (s : S) e :
  match resolver snd with Some r => Some r | None => canceler snd end = Some p →
  done p (env_of (sending_reject snd err s e)).
Proof.
  unfold sending_reject, reject. destruct (resolver snd) as [r|].
  - intros [= <-]. apply complete_done.
  - intros ->. apply complete_done.
Qed.

Lemma cancel_reply_done {S} er err (s : S) e :
  done (reply_waiter er) (env_of (cancel_expected_reply er err s e)).
Proof.
  unfold reply_waiter, cancel_expected_reply, resolve, reject.
  destruct (er_reply er); apply complete_done.
Qed.

(** The completions of cancelled replies. *)
Definition cancellation (err : Error) (er : ExpectedReply) : Resolver * res PVal :=
  (reply_waiter er, match er_reply er with RBasicCancelOk _ => Ok VUnit | _ => Err err end).

Lemma cancel_replies_eq {S} l err (s : S) e :
  cancel_expected_replies l err s e = (tt, s, promise_sets (cancellation err <$> l) e).
Proof.
  revert e. induction l as [|er l IH]; intros e; [done|].
  unfold cancel_expected_replies in *. cbn [for_each].
  assert (E : cancel_expected_reply er err s e =
    (tt, s, promise_set (cancellation err er).1 (cancellation err er).2 e)).
  { unfold cancel_expected_reply, cancellation, reply_waiter. by destruct (er_reply er). }
  rewrite (bind_eq _ _ _ _ _ _ _ E). apply IH.
Qed.

Lemma cancel_replies_done {S} er l err (s : S) e : er ∈ l →
  done (reply_waiter er) (env_of (cancel_expected_replies l err s e)).
Proof.
  apply for_each_done; [intros; apply keeps_done_cancel_reply|intros; apply cancel_reply_done].
Qed.

(** A dropped entry with a waiter tells it. *)
Lemma drop_frame_done {S} fe p err (s : S) e :
  entry_waiter fe = Some p → done p (env_of (drop_pending_frame err fe s e)).
Proof.
  unfold entry_waiter, drop_pending_frame, entry_reject. intros H.
  destruct (frame fe) as [|ch m| | | |]; try (by apply sending_reject_done).
  destruct m; try (by apply sending_reject_done).
  unfold mbind, M_bind, sending_resolve. rewrite H. apply complete_done.
Qed.

Lemma drop_frames_done {S} fe p l err (s : S) e :
  fe ∈ l → entry_waiter fe = Some p → done p (env_of (drop_pending_frames l err s e)).
Proof.
  unfold drop_pending_frames. intros Hin Hw. revert s e.
  induction Hin as [fe l|fe fe' l Hin IH]; intros s e; cbn [for_each]; unfold mbind, M_bind.
  - pose proof (drop_frame_done fe p err s e Hw) as [r Hr].
    destruct (drop_pending_frame err fe s e) as [[? s'] e'].
    exists r. apply (keeps_done_drop_frames l err). exact Hr.
  - destruct (drop_pending_frame err fe' s e) as [[? s'] e']. by apply IH.
Qed.

Lemma clear_all_done ch l er err f e : expected_replies f !! ch = Some l → er ∈ l →
  done (reply_waiter er) (env_of (clear_all_expected_replies err f e)).
Proof.
  intros Hl Her. unfold clear_all_expected_replies, get, modify, mbind, M_bind.
  assert (Hin : (ch, l) ∈ hash_order (expected_replies f)) by by apply hash_order_elem.
  revert Hin. generalize (hash_order (expected_replies f)) as rs. intros rs Hin.
  assert (∀ (f : t) (e : Env), done (reply_waiter er)
            (env_of (for_each rs (λ x, cancel_expected_replies x.2 err) f e))) as Hd.
  { remember (ch, l) as x eqn:Ex. induction Hin as [x rs|x y rs Hin IH]; subst; intros f' e';
      cbn [for_each]; unfold mbind, M_bind.
    - pose proof (cancel_replies_done er l err f' e' Her) as [r Hr]. simpl in *.
      destruct (cancel_expected_replies l err f' e') as [[? s'] e2].
      exists r. apply keeps_done_for_each; [intros; apply keeps_done_cancel_replies|exact Hr].
    - destruct (cancel_expected_replies y.2 err f' e') as [[? s'] e2]. by apply IH. }
  specialize (Hd f e). destruct (for_each rs _ f e) as [[? f'] e']. exact Hd.
Qed.

Lemma keeps_state_sending_reject {S} s err : keeps_state (sending_reject s err : M S unit).
Proof. unfold sending_reject, reject. keeps_state. Qed.
Lemma keeps_state_sending_resolve {S} s : keeps_state (sending_resolve s : M S unit).
Proof. unfold sending_resolve, resolve. keeps_state. Qed.
Lemma keeps_state_cancel_reply {S} er err : keeps_state (cancel_expected_reply er err : M S unit).
Proof. unfold cancel_expected_reply, resolve, reject. keeps_state. Qed.
Hint Resolve keeps_state_sending_reject keeps_state_sending_resolve keeps_state_cancel_reply : keeps_state.

Lemma keeps_state_drop_frames {S} l err : keeps_state (drop_pending_frames l err : M S unit).
Proof. unfold drop_pending_frames, drop_pending_frame, entry_reject. keeps_state. Qed.
Lemma keeps_state_cancel_replies {S} l err : keeps_state (cancel_expected_replies l err : M S unit).
Proof. unfold cancel_expected_replies. keeps_state. Qed.
Hint Resolve keeps_state_drop_frames keeps_state_cancel_replies : keeps_state.

Lemma promises_only_cancel_replies {S} l err : promises_only (cancel_expected_replies l err : M S unit).
Proof. unfold cancel_expected_replies, cancel_expected_reply, resolve, reject. promises_only. Qed.

Lemma clear_all_state err f e : state_of (clear_all_expected_replies err f e) = set_expected ∅ f.
Proof.
  unfold clear_all_expected_replies. unfold get at 1. cbn [mbind M_bind].
  unfold mbind at 1, M_bind at 1. rewrite bind_keeps_state; [done|]. keeps_state.
Qed.

(** The queue part of [drop_pending], one queue at a time. *)
Lemma drop_step_state {B} g l err (k : M t B) f e :
  (modify g;; drop_pending_frames l err;; k) f e =
  k (g f) (env_of (drop_pending_frames l err (g f) e)).
Proof. by rewrite bind_modify, bind_keeps_state by keeps_state. Qed.

Lemma keeps_done_drop_pending err : keeps_done (drop_pending err).
Proof. unfold drop_pending. keeps_done. Qed.

Lemma drop_pending_all err f e :
  let f' := state_of (drop_pending err f e) in
  let e' := env_of (drop_pending err f e) in
  has_pending f' = false ∧ expected_replies f' = ∅ ∧ poison f' = Some err ∧
  (∀ fe p, fe ∈ retry_frames f ++ publish_frames f ++ frames f ++ low_prio_frames f →
           entry_waiter fe = Some p → done p e') ∧
  (∀ ch l er, expected_replies f !! ch = Some l → er ∈ l → done (reply_waiter er) e').
Proof.
  cbn zeta.
  assert (Hk : ∀ l, keeps_done (drop_pending_frames l err : M t unit)) by (intros; apply keeps_done_drop_frames).
  assert (Hend : ∀ g e0, state_of ((clear_all_expected_replies err;; modify (set_poison (Some err))) g e0) =
                  set_poison (Some err) (set_expected ∅ g)).
  { intros g e0. pose proof (clear_all_state err g e0) as E. unfold mbind, M_bind, modify.
    destruct (clear_all_expected_replies err g e0) as [[? g'] e']. unfold state_of in *. simpl in *. by subst. }
  assert (Hf : state_of (drop_pending err f e) =
    set_poison (Some err) (set_expected ∅ (set_low_prio [] (set_frames [] (set_publish [] (set_retry [] f)))))).
  { unfold drop_pending. unfold get. unfold mbind at 1, M_bind at 1.
    rewrite !drop_step_state. apply Hend. }
  rewrite Hf. split_and!; [done..| |].
  - intros fe p Hin Hw. unfold drop_pending. unfold get. unfold mbind at 1, M_bind at 1.
    rewrite !elem_of_app in Hin.
    destruct Hin as [Hin|[Hin|[Hin|Hin]]];
      repeat first
        [ apply bind_done_l; [by eapply drop_frames_done|intros; keeps_done]
        | apply bind_done_r; intros ? ? ? ].
  - intros ch l er Hl Her. unfold drop_pending. unfold get. unfold mbind at 1, M_bind at 1.
    rewrite !drop_step_state.
    apply bind_done_l; [|intros; keeps_done]. by eapply clear_all_done.
Qed.

(** Shutting the queues down tells everybody.  After [drop_pending err] the four
    queues and the expected replies are empty and the queues are poisoned with [err];
    every dropped frame that somebody waits for (through its resolver, or through its
    canceler when it has none) and every expected reply has been completed: no
    waiter is lost. *)
Theorem drop_pending_completes err f e :
  let f' := state_of (drop_pending err f e) in
  let e' := env_of (drop_pending err f e) in
  has_pending f' = false ∧ expected_replies f' = ∅ ∧ poison f' = Some err ∧
  (∀ fe p, fe ∈ retry_frames f ++ publish_frames f ++ frames f ++ low_prio_frames f →
           entry_waiter fe = Some p → done p e') ∧
  (∀ ch l er, expected_replies f !! ch = Some l → er ∈ l → done (reply_waiter er) e').
Proof. apply drop_pending_all. Qed.

(** Nothing enters a poisoned queue.  While the channel or the whole connection is
    poisoned, [push] leaves the queues and the expected replies alone and at once
    completes the caller (through the resolver, or the canceler when there is none) and
    the reply it would have waited for.  The channel's own poison takes precedence. *)
Theorem push_poisoned ch fr cancel expected r f e err :
  check_poison f ch = Some err →
  (∀ ce, channels_poison f !! ch = Some ce → err = ce) ∧
  state_of (push ch fr cancel expected r f e) = f ∧
  done (match r with Some p => p | None => cancel end) (env_of (push ch fr cancel expected r f e)) ∧
  (∀ er, expected = Some er → done (reply_waiter er) (env_of (push ch fr cancel expected r f e))).
Proof.
  intros Hp. split; [unfold check_poison in Hp; intros ce E; rewrite E in Hp; congruence|].
  unfold push. rewrite bind_get, Hp. split; [|split].
  - rewrite bind_keeps_state by (destruct expected; keeps_state). apply keeps_state_sending_reject.
  - apply bind_done_r. intros ? ? ?. apply sending_reject_done. by destruct r.
  - intros er ->. apply bind_done_l; [apply cancel_reply_done|intros; keeps_done].
Qed.

(** *** Looking replies up *)

Lemma find_remove_Some {A} (p : A → bool) l x l' : find_remove p l = Some (x, l') →
  ∃ l1 l2, l = l1 ++ x :: l2 ∧ l' = l1 ++ l2 ∧ p x = true ∧ Forall (λ y, p y = false) l1.
Proof.
  revert l'. induction l as [|y l IH]; intros l'; simpl; [done|].
  destruct (p y) eqn:Ey.
  - intros [= <- <-]. by exists [], l.
  - destruct (find_remove p l) as [[z l2]|]; [|done]. intros [= <- <-].
    destruct (IH l2) as (l1 & l3 & -> & -> & ? & ?); [done|].
    exists (y :: l1), l3. split_and!; auto.
Qed.

Lemma find_remove_None {A} (p : A → bool) l : find_remove p l = None → Forall (λ y, p y = false) l.
Proof.
  induction l as [|y l IH]; simpl; [done|]. destruct (p y) eqn:Ey; [done|].
  destruct (find_remove p l) as [[]|]; [done|]. intros _. auto.
Qed.

(** Replies are matched first come, first served.  [find_expected_reply] returns the
    oldest expected reply of the channel that satisfies the predicate and removes
    exactly this one; the others keep their order, the queues, the other channels
    and the store are untouched.  It finds nothing only when no reply matches. *)
Theorem find_expected_reply_first ch p f e :
  let r := result_of (find_expected_reply ch p f e) in
  let f' := state_of (find_expected_reply ch p f e) in
  env_of (find_expected_reply ch p f e) = e ∧
  match r with
  | Some reply => ∃ l1 er l2, expected_replies f !! ch = Some (l1 ++ er :: l2) ∧ reply = er_reply er ∧
      p er = true ∧ Forall (λ y, p y = false) l1 ∧
      f' = set_expected (<[ch := l1 ++ l2]> (expected_replies f)) f
  | None => f' = f ∧ Forall (λ y, p y = false) (expected_replies f !!! ch)
  end.
Proof.
  unfold find_expected_reply. rewrite bind_get. cbn zeta.
  rewrite lookup_total_alt. destruct (expected_replies f !! ch) as [l|] eqn:El; [|by simpl].
  destruct (find_remove p l) as [[er l']|] eqn:Ef.
  - apply find_remove_Some in Ef as (l1 & l2 & -> & -> & ? & ?). split; [done|].
    unfold result_of; simpl. exists l1, er, l2. done.
  - apply find_remove_None in Ef. by simpl.
Qed.

(** *** The pending handshakes *)

(** The handshake steps awaited, and who waits for them. *)
Definition steps (l : list ExpectedReply) : list ConnectionStep :=
  l ≫= λ er, match er_reply er with RConnectionStep s => [s] | _ => [] end.
Definition step_resolvers (l : list ExpectedReply) : list Resolver := into_connection_resolver <$> steps l.

Lemma steps_cons er l : steps (er :: l) = match er_reply er with RConnectionStep s => [s] | _ => [] end ++ steps l.
Proof. done. Qed.

Lemma steps_app l k : steps (l ++ k) = steps l ++ steps k.
Proof. apply bind_app. Qed.

Lemma steps_none l : Forall (λ er, is_connection_step er = false) l →
  steps l = [] ∧ List.filter (λ er, negb (is_connection_step er)) l = l.
Proof.
  induction 1 as [|er l Her _ [IH1 IH2]]; [done|].
  rewrite steps_cons, IH1. simpl. rewrite IH2, Her.
  unfold is_connection_step in Her. by destruct (er_reply er).
Qed.

(** [connection_resolver] takes the first step there is. *)
Lemma connection_resolver_cases ch f e :
  (connection_resolver ch f e = (None, f, e) ∧
   ∀ l, expected_replies f !! ch = Some l → Forall (λ er, is_connection_step er = false) l) ∨
  ∃ l1 er st l2, expected_replies f !! ch = Some (l1 ++ er :: l2) ∧ Forall (λ er, is_connection_step er = false) l1 ∧
    er_reply er = RConnectionStep st ∧
    connection_resolver ch f e = (Some (into_connection_resolver st, step_connection st),
      set_expected (<[ch := l1 ++ l2]> (expected_replies f)) f, e).
Proof.
  unfold connection_resolver, find_connection_step, find_expected_reply, get, put, mbind, M_bind; simpl.
  destruct (expected_replies f !! ch) as [l|] eqn:El; [|left; by split].
  destruct (find_remove is_connection_step l) as [[er l']|] eqn:Ef.
  - apply find_remove_Some in Ef as (l1 & l2 & -> & -> & Her & Hl1). right. unfold is_connection_step in Her.
    destruct (er_reply er) as [st| | | | | | | | | | | | | | | | | | | | | | | | |] eqn:Er; try done.
    exists l1, er, st, l2. by split_and!.
  - left. split; [done|]. intros ? [= <-]. by apply find_remove_None in Ef.
Qed.

Lemma clear_steps_loop_spec fuel err f e l :
  expected_replies f !! 0 = Some l → (length (steps l) < fuel)%nat →
  clear_steps_loop fuel err f e =
  (step_connection <$> steps l, set_expected (<[0 := List.filter (λ er, negb (is_connection_step er)) l]> (expected_replies f)) f,
   foldl (λ e p, promise_set p (Err err) e) e (step_resolvers l)).
Proof.
  revert f e l. induction fuel as [|fuel IH]; intros f e l Hl Hlen; [lia|].
  cbn [clear_steps_loop].
  unfold connection_resolver, find_connection_step, find_expected_reply, get, put, mbind, M_bind; simpl.
  rewrite Hl. destruct (find_remove is_connection_step l) as [[er l']|] eqn:Ef.
  - apply find_remove_Some in Ef as (l1 & l2 & -> & -> & Her & Hl1).
    destruct (steps_none l1 Hl1) as [Hn1 Hf1].
    unfold is_connection_step in Her. simpl.
    destruct (er_reply er) as [s| | | | | | | | | | | | | | | | | | | | | | | | |] eqn:Eer; try done. simpl.
    assert (Hs : steps (l1 ++ er :: l2) = s :: steps l2) by (by rewrite steps_app, Hn1, steps_cons, Eer).
    assert (Hs' : steps (l1 ++ l2) = steps l2) by (by rewrite steps_app, Hn1).
    rewrite (IH _ _ (l1 ++ l2)); [|apply lookup_insert_eq|rewrite Hs', Hs in *; simpl in *; lia].
    assert (Hflt : List.filter (λ er, negb (is_connection_step er)) (l1 ++ er :: l2) =
                   List.filter (λ er, negb (is_connection_step er)) (l1 ++ l2)).
    { rewrite !List.filter_app. simpl. unfold is_connection_step at 2. by rewrite Eer. }
    unfold step_resolvers. by rewrite Hs, Hs', Hflt; simpl; rewrite insert_insert_eq.
  - apply find_remove_None in Ef. destruct (steps_none l Ef) as [Hn ->]. unfold step_resolvers. rewrite Hn. simpl.
    rewrite insert_id by done. by destruct f.
Qed.

Lemma length_steps l : (length (steps l) ≤ length l)%nat.
Proof.
  induction l as [|er l IH]; [done|]. rewrite steps_cons, length_app.
  destruct (er_reply er); simpl; lia.
Qed.

Lemma foldl_reject_done p ps err e : p ∈ ps → done p (foldl (λ e p, promise_set p (Err err) e) e ps).
Proof.
  assert (Hk : ∀ ps e q, done q e → done q (foldl (λ e p, promise_set p (Err err) e) e ps)).
  { clear. induction ps as [|x ps IH]; intros e q Hq; simpl; [done|]. apply IH.
    unfold done. rewrite promise_set_lookup. case_decide; [eauto|done]. }
  intros Hin. revert e. induction Hin as [p ps|p x ps Hin IH]; intros e; simpl; [|apply IH].
  apply Hk. unfold done. rewrite promise_set_lookup, decide_True; eauto.
Qed.

Lemma foldl_reject_other p ps err e : p ∉ ps →
  promises (foldl (λ e p, promise_set p (Err err) e) e ps) !! p = promises e !! p.
Proof.
  revert e. induction ps as [|x ps IH]; intros e Hp; simpl; [done|].
  apply not_elem_of_cons in Hp as [? ?]. rewrite IH by done.
  by rewrite promise_set_lookup, decide_False by congruence.
Qed.

(** An aborted handshake tells its caller.  [clear_connection_steps] terminates with
    every pending handshake step of channel 0 rejected and removed, whatever their
    number and order, and their connections handed over to be dropped; the other replies of channel 0 stay, in order, and no
    other promise is touched. *)
Theorem clear_steps_complete err f e l :
  expected_replies f !! 0 = Some l →
  let f' := state_of (clear_connection_steps err f e) in
  result_of (clear_connection_steps err f e) = step_connection <$> steps l ∧
  let e' := env_of (clear_connection_steps err f e) in
  f' = set_expected (<[0 := List.filter (λ er, negb (is_connection_step er)) l]> (expected_replies f)) f ∧
  (∀ p, p ∈ step_resolvers l → done p e') ∧
  (∀ p, p ∉ step_resolvers l → promises e' !! p = promises e !! p).
Proof.
  intros Hl. unfold clear_connection_steps. rewrite bind_get.
  rewrite lookup_total_alt, Hl. cbn zeta.
  rewrite (clear_steps_loop_spec _ err f e l Hl) by (pose proof (length_steps l); simpl; lia).
  split_and!; [done|done| |].
  - intros p Hp. by apply foldl_reject_done.
  - intros p Hp. by apply foldl_reject_other.
Qed.

End Frames.

(** ** Evaluations *)

Section Witnesses.
#[local] Existing Instance number_types.
#[local] Instance z_order : HashOrder Z := canonical_order Z.

Definition demo_ops : list WireOp :=
  [ WPublish 1 (Method 1 (BasicPublish "e" "k" false false)) (Header 1 (mkContentHeader 60 2 3%nat))
      [Body 1 [Byte.x01]; Body 1 [Byte.x02]] 7%nat;
    WEmit true; WPush 1 (Method 1 TxSelect) 8%nat None None; WBounce true; WEmit false; WEmit true; WEmit true ].

Lemma wire_publishes_contiguous_witness :
  frame <$> (wire_run demo_ops env_empty).1.1 =
    [Method 1 (BasicPublish "e" "k" false false); Header 1 (mkContentHeader 60 2 3%nat);
     Body 1 [Byte.x01]; Body 1 [Byte.x02]] ∧
  ∃ us, (wire_run demo_ops env_empty).1.1 `prefix_of` concat us ∧ Forall unit_ us ∧
        publishes us `prefix_of` pushed_publishes demo_ops ∧ singles us `prefix_of` pushed_singles demo_ops.
Proof.
  split; [by vm_compute|]. apply (wire_publishes_contiguous demo_ops env_empty).
  repeat constructor.
Defined.

Definition demo_error : Error := error_from (IOError ConnectionAborted).
Definition demo_poisoned : t := set_channels_poison {[ 4 := demo_error ]} (set_poison (Some (error_from ParsingError)) default).

Lemma push_poisoned_witness :
  check_poison demo_poisoned 4 = Some demo_error ∧
  state_of (push 4 (Method 4 TxSelect) 1%nat (Some (mkExpectedReply (RTxSelectOk 2%nat) 2%nat)) None demo_poisoned env_empty)
    = demo_poisoned.
Proof. split; [done|]. by apply (push_poisoned 4 _ 1%nat _ None demo_poisoned env_empty demo_error). Defined.

Definition demo_steps : list ExpectedReply :=
  [ mkExpectedReply (RConnectionStep (StepProtocolHeader 1%nat 0%nat)) 1%nat;
    mkExpectedReply (RConnectionUpdateSecretOk 2%nat) 2%nat;
    mkExpectedReply (RConnectionStep (StepSecureOk 3%nat 0%nat)) 3%nat ].
Definition demo_waiting : t := set_expected {[ 0 := demo_steps ]} default.

Lemma clear_steps_complete_witness :
  expected_replies demo_waiting !! 0 = Some demo_steps ∧
  done 3%nat (env_of (clear_connection_steps demo_error demo_waiting env_empty)).
Proof.
  split; [done|]. apply (clear_steps_complete demo_error demo_waiting env_empty demo_steps); [done|].
  vm_compute. right. left.
Defined.

End Witnesses.
End Frames.
