(* ===== verification/Registry.v ===== *)
(** The topology a channel remembers for recovery: definitions
    (src/topology.rs), the registry (src/registry.rs), and the requests a recovery
    replays ([Channel::start_recovery], src/channel.rs), with a broker that serves or refuses them. *)
From S2P Require Import Prelude.
From S2P Require Import Buffer.
From S2P Require Import Types.
Open Scope Z_scope.

Module Registry.
Section Registry.
Context `{AT : AmqpTypes} `{HO : !HashOrder string}.

(** ** Definitions (src/topology.rs) *)

Record BindingDefinition := mkBinding {
  source : ShortString; routing_key : ShortString; b_arguments : FieldTable }.

#[export] Instance BindingDefinition_eq : EqDecision BindingDefinition.
Proof. solve_decision. Defined.

Record ExchangeDefinition := mkExchange {
  e_name : ShortString;
  e_kind : option ExchangeKind;
  e_options : option ExchangeDeclareOptions;
  e_arguments : option FieldTable;
  e_bindings : list BindingDefinition;
  e_is_declared : bool;
}.

Record QueueDefinition := mkQueue {
  q_name : ShortString;
  q_options : option QueueDeclareOptions;
  q_arguments : option FieldTable;
  q_bindings : list BindingDefinition;
  q_is_declared : bool;
}.

Record ChannelDefinition := mkChannelDefinition {
  d_exchanges : list ExchangeDefinition;
  d_queues : list QueueDefinition;
  d_consumers : list ConsumerRef;
}.

Definition exchange_declared (name : ShortString) (kind : ExchangeKind) (options : ExchangeDeclareOptions)
    (arguments : FieldTable) : ExchangeDefinition :=
  mkExchange name (Some kind) (Some options) (Some arguments) [] true.

Definition exchange_undeclared (name : ShortString) : ExchangeDefinition :=
  mkExchange name None None None [] false.

Definition exchange_set_declared (kind : ExchangeKind) (options : ExchangeDeclareOptions)
    (arguments : FieldTable) (x : ExchangeDefinition) : ExchangeDefinition :=
  mkExchange (e_name x) (Some kind) (Some options) (Some arguments) (e_bindings x) true.

Definition set_e_bindings (bs : list BindingDefinition) (x : ExchangeDefinition) : ExchangeDefinition :=
  mkExchange (e_name x) (e_kind x) (e_options x) (e_arguments x) bs (e_is_declared x).

Definition exchange_register_binding (b : BindingDefinition) (x : ExchangeDefinition) : ExchangeDefinition :=
  set_e_bindings (e_bindings x ++ [b]) x.

(** The predicate [retain] keeps the bindings by. *)
Definition retained (src key : ShortString) (args : FieldTable) (b : BindingDefinition) : bool :=
  negb (bool_decide (source b = src)) || negb (bool_decide (routing_key b = key)) ||
  negb (bool_decide (b_arguments b = args)).

Definition exchange_deregister_binding (src key : ShortString) (args : FieldTable)
    (x : ExchangeDefinition) : ExchangeDefinition :=
  set_e_bindings (List.filter (retained src key args) (e_bindings x)) x.

Definition queue_declared (name : ShortString) (options : QueueDeclareOptions) (arguments : FieldTable)
  : QueueDefinition := mkQueue name (Some options) (Some arguments) [] true.

Definition queue_undeclared (name : ShortString) : QueueDefinition := mkQueue name None None [] false.

Definition queue_set_declared (options : QueueDeclareOptions) (arguments : FieldTable)
    (x : QueueDefinition) : QueueDefinition :=
  mkQueue (q_name x) (Some options) (Some arguments) (q_bindings x) true.

Definition set_q_bindings (bs : list BindingDefinition) (x : QueueDefinition) : QueueDefinition :=
  mkQueue (q_name x) (q_options x) (q_arguments x) bs (q_is_declared x).

Definition queue_register_binding (b : BindingDefinition) (x : QueueDefinition) : QueueDefinition :=
  set_q_bindings (q_bindings x ++ [b]) x.

Definition queue_deregister_binding (src key : ShortString) (args : FieldTable)
    (x : QueueDefinition) : QueueDefinition :=
  set_q_bindings (List.filter (retained src key args) (q_bindings x)) x.

(** ** The registry (src/registry.rs) *)

Record t := mk { exchanges : gmap string ExchangeDefinition; queues : gmap string QueueDefinition }.

Definition empty : t := mk ∅ ∅.
Definition set_exchanges x r := mk x (queues r).
Definition set_queues x r := mk (exchanges r) x.

Definition exchanges_topology (r : t) : list ExchangeDefinition := (hash_order (exchanges r)).*2.
Definition queues_topology (r : t) : list QueueDefinition := (hash_order (queues r)).*2.

Definition register_exchange (name : ShortString) (kind : ExchangeKind) (options : ExchangeDeclareOptions)
    (arguments : FieldTable) (r : t) : t :=
  match exchanges r !! name with
  | Some x => set_exchanges (<[name := exchange_set_declared kind options arguments x]> (exchanges r)) r
  | None => set_exchanges (<[name := exchange_declared name kind options arguments]> (exchanges r)) r
  end.

Definition deregister_exchange (name : ShortString) (r : t) : t :=
  set_exchanges (delete name (exchanges r)) r.

(** [entry(..).or_insert_with(..).register_binding(..)]. *)
Definition register_exchange_binding (destination src key : ShortString) (args : FieldTable) (r : t) : t :=
  let x := match exchanges r !! destination with Some x => x | None => exchange_undeclared destination end in
  set_exchanges (<[destination := exchange_register_binding (mkBinding src key args) x]> (exchanges r)) r.

Definition deregister_exchange_binding (destination src key : ShortString) (args : FieldTable) (r : t) : t :=
  match exchanges r !! destination with
  | Some x => set_exchanges (<[destination := exchange_deregister_binding src key args x]> (exchanges r)) r
  | None => r
  end.

Definition register_queue (name : ShortString) (options : QueueDeclareOptions) (arguments : FieldTable) (r : t) : t :=
  match queues r !! name with
  | Some x => set_queues (<[name := queue_set_declared options arguments x]> (queues r)) r
  | None => set_queues (<[name := queue_declared name options arguments]> (queues r)) r
  end.

Definition deregister_queue (name : ShortString) (r : t) : t := set_queues (delete name (queues r)) r.

Definition register_queue_binding (destination src key : ShortString) (args : FieldTable) (r : t) : t :=
  let x := match queues r !! destination with Some x => x | None => queue_undeclared destination end in
  set_queues (<[destination := queue_register_binding (mkBinding src key args) x]> (queues r)) r.

Definition deregister_queue_binding (destination src key : ShortString) (args : FieldTable) (r : t) : t :=
  match queues r !! destination with
  | Some x => set_queues (<[destination := queue_deregister_binding src key args x]> (queues r)) r
  | None => r
  end.

(** ** Recovery

    The requests [start_recovery] issues, each awaited before the next. *)
Inductive Request :=
| QChannelOpen
| QConfirmSelect
| QExchangeDeclare (name : ShortString) (kind : ExchangeKind) (options : ExchangeDeclareOptions) (arguments : FieldTable)
| QExchangeBind (destination src key : ShortString) (arguments : FieldTable)
| QQueueDeclare (name : ShortString) (options : QueueDeclareOptions) (arguments : FieldTable)
| QQueueBind (destination src key : ShortString) (arguments : FieldTable)
| QBasicConsume (original : ConsumerRef).

Definition redeclare_exchange (x : ExchangeDefinition) : list Request :=
  if e_is_declared x then
    [QExchangeDeclare (e_name x) (default ExchangeKind_default (e_kind x))
       (default ExchangeDeclareOptions_default (e_options x)) (default FieldTable_default (e_arguments x))]
  else [].

Definition rebind_exchange (x : ExchangeDefinition) : list Request :=
  (λ b, QExchangeBind (e_name x) (source b) (routing_key b) (b_arguments b)) <$> e_bindings x.

Definition redeclare_queue (x : QueueDefinition) : list Request :=
  if q_is_declared x then
    [QQueueDeclare (q_name x) (default QueueDeclareOptions_default (q_options x))
       (default FieldTable_default (q_arguments x))]
  else [].

Definition rebind_queue (x : QueueDefinition) : list Request :=
  (λ b, QQueueBind (q_name x) (source b) (routing_key b) (b_arguments b)) <$> q_bindings x.

Definition start_recovery (confirm : bool) (d : ChannelDefinition) : list Request :=
  [QChannelOpen] ++ (if confirm then [QConfirmSelect] else []) ++
  (d_exchanges d ≫= redeclare_exchange) ++ (d_exchanges d ≫= rebind_exchange) ++
  (d_queues d ≫= redeclare_queue) ++ (d_queues d ≫= rebind_queue) ++
  (QBasicConsume <$> d_consumers d).

(** What the registry records when the server accepts a request
    ([on_exchange_declare_ok_received], [on_exchange_bind_ok_received],
    [on_queue_declare_ok_received], [on_queue_bind_ok_received]). *)
Definition on_ok (r : t) (q : Request) : t :=
  match q with
  | QExchangeDeclare n k o a => register_exchange n k o a r
  | QExchangeBind d s k a => register_exchange_binding d s k a r
  | QQueueDeclare n o a => register_queue n o a r
  | QQueueBind d s k a => register_queue_binding d s k a r
  | QChannelOpen | QConfirmSelect | QBasicConsume _ => r
  end.

(** What the client has recorded when the server has accepted all the requests [qs]. *)
Definition replay (qs : list Request) (r : t) : t := foldl on_ok r qs.

Definition topology (r : t) (consumers : list ConsumerRef) : ChannelDefinition :=
  mkChannelDefinition (exchanges_topology r) (queues_topology r) consumers.

(** ** What a registry can hold *)

(** A definition is filed under its name; a declared one has its parameters, an
    undeclared one has none. *)
Definition wf_exchange (n : string) (x : ExchangeDefinition) : Prop :=
  e_name x = n ∧
  if e_is_declared x then is_Some (e_kind x) ∧ is_Some (e_options x) ∧ is_Some (e_arguments x)
  else e_kind x = None ∧ e_options x = None ∧ e_arguments x = None.

Definition wf_queue (n : string) (x : QueueDefinition) : Prop :=
  q_name x = n ∧
  if q_is_declared x then is_Some (q_options x) ∧ is_Some (q_arguments x)
  else q_options x = None ∧ q_arguments x = None.

Definition wf (r : t) : Prop := map_Forall wf_exchange (exchanges r) ∧ map_Forall wf_queue (queues r).

(** The registries the server's answers lead to. *)
Inductive reachable : t → Prop :=
| reach_empty : reachable empty
| reach_ok r q : reachable r → reachable (on_ok r q)
| reach_delete_exchange r n : reachable r → reachable (deregister_exchange n r)
| reach_unbind_exchange r d s k a : reachable r → reachable (deregister_exchange_binding d s k a r)
| reach_delete_queue r n : reachable r → reachable (deregister_queue n r)
| reach_unbind_queue r d s k a : reachable r → reachable (deregister_queue_binding d s k a r).

Lemma wf_insert_exchange r n x : wf r → wf_exchange n x → wf (set_exchanges (<[n := x]> (exchanges r)) r).
Proof. intros [He Hq] Hx. split; [by apply map_Forall_insert_2|done]. Qed.

Lemma wf_insert_queue r n x : wf r → wf_queue n x → wf (set_queues (<[n := x]> (queues r)) r).
Proof. intros [He Hq] Hx. split; [done|by apply map_Forall_insert_2]. Qed.

Lemma wf_exchange_bindings n x bs : wf_exchange n x → wf_exchange n (set_e_bindings bs x).
Proof. done. Qed.

Lemma wf_queue_bindings n x bs : wf_queue n x → wf_queue n (set_q_bindings bs x).
Proof. done. Qed.

Hint Resolve wf_insert_exchange wf_insert_queue wf_exchange_bindings wf_queue_bindings : lapin.

Lemma wf_on_ok r q : wf r → wf (on_ok r q).
Proof.
  intros Hr. pose proof Hr as [He Hq]. destruct q as [| |n k o a|d s k a|n o a|d s k a|c]; simpl; try done.
  - unfold register_exchange. destruct (exchanges r !! n) as [x|] eqn:E.
    + apply He in E as [Hn _]. apply wf_insert_exchange; [done|]. split; simpl; eauto.
    + apply wf_insert_exchange; [done|]. split; simpl; eauto.
  - unfold register_exchange_binding. destruct (exchanges r !! d) as [x|] eqn:E.
    + apply He in E. auto with lapin.
    + apply wf_insert_exchange; [done|]. by split.
  - unfold register_queue. destruct (queues r !! n) as [x|] eqn:E.
    + apply Hq in E as [Hn _]. apply wf_insert_queue; [done|]. split; simpl; eauto.
    + apply wf_insert_queue; [done|]. split; simpl; eauto.
  - unfold register_queue_binding. destruct (queues r !! d) as [x|] eqn:E.
    + apply Hq in E. auto with lapin.
    + apply wf_insert_queue; [done|]. by split.
Qed.

Lemma reachable_wf r : reachable r → wf r.
Proof.
  induction 1 as [|r q _ IH|r n _ [He Hq]|r d s k a _ IH|r n _ [He Hq]|r d s k a _ IH].
  - split; apply map_Forall_empty.
  - by apply wf_on_ok.
  - split; [by apply map_Forall_delete|done].
  - unfold deregister_exchange_binding. destruct (exchanges r !! d) as [x|] eqn:E; [|done].
    pose proof IH as [He _]. apply He in E. unfold exchange_deregister_binding. auto with lapin.
  - split; [done|by apply map_Forall_delete].
  - unfold deregister_queue_binding. destruct (queues r !! d) as [x|] eqn:E; [|done].
    pose proof IH as [_ Hq]. apply Hq in E. unfold queue_deregister_binding. auto with lapin.
Qed.

(** ** Replaying, one name at a time *)

(** What a request does to the exchange [n], and to the queue [n]. *)
Definition exchange_step (n : string) (o : option ExchangeDefinition) (q : Request) : option ExchangeDefinition :=
  match q with
  | QExchangeDeclare m k op a =>
    if decide (m = n) then
      Some (match o with Some x => exchange_set_declared k op a x | None => exchange_declared n k op a end)
    else o
  | QExchangeBind d s k a =>
    if decide (d = n) then
      Some (exchange_register_binding (mkBinding s k a) (default (exchange_undeclared n) o))
    else o
  | _ => o
  end.

Definition queue_step (n : string) (o : option QueueDefinition) (q : Request) : option QueueDefinition :=
  match q with
  | QQueueDeclare m op a =>
    if decide (m = n) then
      Some (match o with Some x => queue_set_declared op a x | None => queue_declared n op a end)
    else o
  | QQueueBind d s k a =>
    if decide (d = n) then
      Some (queue_register_binding (mkBinding s k a) (default (queue_undeclared n) o))
    else o
  | _ => o
  end.

Lemma on_ok_exchange r q n : exchanges (on_ok r q) !! n = exchange_step n (exchanges r !! n) q.
Proof.
  destruct q; simpl; try done; unfold register_exchange, register_exchange_binding, register_queue.
  - case_decide; subst; destruct (exchanges r !! _) eqn:E; simpl;
      by rewrite ?lookup_insert_eq, ?lookup_insert_ne by done.
  - case_decide; subst; simpl; [by rewrite lookup_insert_eq; destruct (exchanges r !! _)|by rewrite lookup_insert_ne].
  - by destruct (queues r !! _).
Qed.

Lemma on_ok_queue r q n : queues (on_ok r q) !! n = queue_step n (queues r !! n) q.
Proof.
  destruct q; simpl; try done; unfold register_exchange, register_queue_binding, register_queue.
  - by destruct (exchanges r !! _).
  - case_decide; subst; destruct (queues r !! _) eqn:E; simpl;
      by rewrite ?lookup_insert_eq, ?lookup_insert_ne by done.
  - case_decide; subst; simpl; [by rewrite lookup_insert_eq; destruct (queues r !! _)|by rewrite lookup_insert_ne].
Qed.

Lemma replay_exchange qs r n : exchanges (replay qs r) !! n = foldl (exchange_step n) (exchanges r !! n) qs.
Proof. revert r. induction qs as [|q qs IH]; intros r; simpl; [done|]. by rewrite <- on_ok_exchange, IH. Qed.

Lemma replay_queue qs r n : queues (replay qs r) !! n = foldl (queue_step n) (queues r !! n) qs.
Proof. revert r. induction qs as [|q qs IH]; intros r; simpl; [done|]. by rewrite <- on_ok_queue, IH. Qed.

(** Requests about something else change nothing. *)
Lemma foldl_skip {A} (step : option A → Request → option A) qs o :
  Forall (λ q, ∀ o, step o q = o) qs → foldl step o qs = o.
Proof. induction 1 as [|q qs Hq _ IH]; simpl; [done|]. by rewrite Hq. Qed.

Lemma Forall_bind {A B} (P : B → Prop) (f : A → list B) l :
  Forall (λ x, Forall P (f x)) l → Forall P (l ≫= f).
Proof. induction 1; simpl; [done|]. by apply Forall_app. Qed.

(** In a list of definitions filed under distinct names, the requests of one definition
    are the only ones that matter to its name. *)
Lemma foldl_one {A D} (step : string → option A → Request → option A) (name : D → string) (f : D → list Request)
    ds n o :
  (∀ d m o, m ≠ name d → foldl (step m) o (f d) = o) → NoDup (name <$> ds) →
  foldl (step n) o (ds ≫= f) =
  match list_find (λ d, name d = n) ds with Some (_, d) => foldl (step n) o (f d) | None => o end.
Proof.
  intros Hf. revert o. induction ds as [|d ds IH]; intros o Hnd; simpl; [done|].
  apply NoDup_cons in Hnd as [Hd Hnd]. rewrite foldl_app, IH by done.
  case_decide as Hn.
  - subst. destruct (list_find _ ds) as [[i d']|] eqn:E; [|done].
    apply list_find_Some in E as (Hi & Hn & _). destruct Hd. rewrite <- Hn.
    apply list_elem_of_fmap. exists d'. split; [done|by eapply list_elem_of_lookup_2].
  - rewrite Hf by done. by destruct (list_find _ ds) as [[]|].
Qed.

(** The definition a map of definitions files under [n]. *)
Lemma find_filed {D} (name : D → string) (m : gmap string D) n :
  map_Forall (λ k d, name d = k) m →
  NoDup (name <$> (hash_order m).*2) ∧
  snd <$> list_find (λ d, name d = n) (hash_order m).*2 = m !! n.
Proof.
  intros Hm.
  assert (Hfst : name <$> (hash_order m).*2 = (hash_order m).*1).
  { rewrite <- list_fmap_compose. apply list_fmap_ext. intros i [k d] Hi. simpl.
    apply list_elem_of_lookup_2, hash_order_elem in Hi. by apply Hm. }
  rewrite Hfst. split; [apply hash_order_NoDup|].
  destruct (m !! n) as [d|] eqn:E.
  - destruct (list_find _ _) as [[i d']|] eqn:Ef; simpl.
    + apply list_find_Some in Ef as (Hi & Hn & _). apply list_elem_of_lookup_2, list_elem_of_fmap in Hi
        as ([k d''] & ? & Hin). simpl in *; subst d''.
      apply hash_order_elem in Hin. pose proof (Hm _ _ Hin) as Hk. simpl in Hk. congruence.
    + apply list_find_None in Ef. rewrite Forall_forall in Ef. destruct (Ef d); [|by apply Hm].
      apply list_elem_of_fmap. exists (n, d). split; [done|]. by apply hash_order_elem.
  - destruct (list_find _ _) as [[i d']|] eqn:Ef; simpl; [|done].
    apply list_find_Some in Ef as (Hi & Hn & _). apply list_elem_of_lookup_2, list_elem_of_fmap in Hi
      as ([k d''] & ? & Hin). simpl in *; subst d''.
    apply hash_order_elem in Hin. pose proof (Hm _ _ Hin) as Hk. simpl in Hk. congruence.
Qed.

Lemma rebind_exchange_fold n bs y :
  foldl (exchange_step n) (Some y) ((λ b, QExchangeBind n (source b) (routing_key b) (b_arguments b)) <$> bs) =
  Some (set_e_bindings (e_bindings y ++ bs) y).
Proof.
  revert y. induction bs as [|[s k a] bs IH]; intros y; simpl.
  - rewrite app_nil_r. by destruct y.
  - rewrite decide_True, IH by done. simpl. by rewrite <- app_assoc.
Qed.

Lemma redeclare_exchange_other x m o : m ≠ e_name x → foldl (exchange_step m) o (redeclare_exchange x) = o.
Proof. intros Hm. unfold redeclare_exchange. destruct (e_is_declared x); simpl; [by rewrite decide_False|done]. Qed.

Lemma rebind_exchange_other x m o : m ≠ e_name x → foldl (exchange_step m) o (rebind_exchange x) = o.
Proof.
  intros Hm. apply foldl_skip. unfold rebind_exchange. apply Forall_fmap, Forall_forall.
  intros b _ o'. simpl. by rewrite decide_False.
Qed.

(** Replaying a definition onto itself adds its bindings a second time. *)
Lemma redo_exchange n x : wf_exchange n x →
  foldl (exchange_step n) (Some x) (redeclare_exchange x ++ rebind_exchange x) = Some (set_e_bindings (e_bindings x ++ e_bindings x) x).
Proof.
  intros [Hn Hd]. rewrite foldl_app. unfold redeclare_exchange, rebind_exchange.
  destruct x as [nm kd op ar bs d]. simpl in *. subst. destruct d; simpl.
  - destruct Hd as ([? ->] & [? ->] & [? ->]). simpl. rewrite decide_True by done.
    by rewrite rebind_exchange_fold.
  - by rewrite rebind_exchange_fold.
Qed.

Lemma rebind_queue_fold n bs y :
  foldl (queue_step n) (Some y) ((λ b, QQueueBind n (source b) (routing_key b) (b_arguments b)) <$> bs) =
  Some (set_q_bindings (q_bindings y ++ bs) y).
Proof.
  revert y. induction bs as [|[s k a] bs IH]; intros y; simpl.
  - rewrite app_nil_r. by destruct y.
  - rewrite decide_True, IH by done. simpl. by rewrite <- app_assoc.
Qed.

Lemma redeclare_queue_other x m o : m ≠ q_name x → foldl (queue_step m) o (redeclare_queue x) = o.
Proof. intros Hm. unfold redeclare_queue. destruct (q_is_declared x); simpl; [by rewrite decide_False|done]. Qed.

Lemma rebind_queue_other x m o : m ≠ q_name x → foldl (queue_step m) o (rebind_queue x) = o.
Proof.
  intros Hm. apply foldl_skip. unfold rebind_queue. apply Forall_fmap, Forall_forall.
  intros b _ o'. simpl. by rewrite decide_False.
Qed.

(** Replaying a definition onto itself adds its bindings a second time. *)
Lemma redo_queue n x : wf_queue n x →
  foldl (queue_step n) (Some x) (redeclare_queue x ++ rebind_queue x) = Some (set_q_bindings (q_bindings x ++ q_bindings x) x).
Proof.
  intros [Hn Hd]. rewrite foldl_app. unfold redeclare_queue, rebind_queue.
  destruct x as [nm op ar bs d]. simpl in *. subst. destruct d; simpl.
  - destruct Hd as ([? ->] & [? ->]). simpl. rewrite decide_True by done.
    by rewrite rebind_queue_fold.
  - by rewrite rebind_queue_fold.
Qed.

(** The requests of a recovery that matter to one name. *)
Lemma recovery_exchange confirm r cs n o : wf r →
  foldl (exchange_step n) o (start_recovery confirm (topology r cs)) =
  match exchanges r !! n with
  | Some x => foldl (exchange_step n) o (redeclare_exchange x ++ rebind_exchange x)
  | None => o
  end.
Proof.
  intros [He _]. destruct (find_filed e_name (exchanges r) n) as [Hnd Hfind].
  { eapply map_Forall_impl; [exact He|]. by intros k x []. }
  unfold start_recovery, topology, exchanges_topology; simpl. rewrite !foldl_app.
  rewrite !(foldl_one exchange_step e_name) by auto using redeclare_exchange_other, rebind_exchange_other.
  rewrite <- Hfind.
  rewrite (foldl_skip _ (QBasicConsume <$> _)) by (by apply Forall_fmap, Forall_true).
  rewrite (foldl_skip _ (_ ≫= rebind_queue)) by (apply Forall_bind, Forall_true; intros;
    by apply Forall_fmap, Forall_true).
  rewrite (foldl_skip _ (_ ≫= redeclare_queue)) by (apply Forall_bind, Forall_true; intros x;
    unfold redeclare_queue; destruct (q_is_declared x); by repeat constructor).
  rewrite (foldl_skip _ (if confirm then _ else _)) by (destruct confirm; by repeat constructor).
  destruct (list_find _ _) as [[i x]|]; simpl; [by rewrite foldl_app|done].
Qed.

Lemma recovery_queue confirm r cs n o : wf r →
  foldl (queue_step n) o (start_recovery confirm (topology r cs)) =
  match queues r !! n with
  | Some x => foldl (queue_step n) o (redeclare_queue x ++ rebind_queue x)
  | None => o
  end.
Proof.
  intros [_ Hq]. destruct (find_filed q_name (queues r) n) as [Hnd Hfind].
  { eapply map_Forall_impl; [exact Hq|]. by intros k x []. }
  unfold start_recovery, topology, queues_topology; simpl. rewrite !foldl_app.
  rewrite !(foldl_one queue_step q_name) by auto using redeclare_queue_other, rebind_queue_other.
  rewrite <- Hfind.
  rewrite (foldl_skip _ (QBasicConsume <$> _)) by (by apply Forall_fmap, Forall_true).
  rewrite (foldl_skip _ (_ ≫= rebind_exchange)) by (apply Forall_bind, Forall_true; intros;
    by apply Forall_fmap, Forall_true).
  rewrite (foldl_skip _ (_ ≫= redeclare_exchange)) by (apply Forall_bind, Forall_true; intros x;
    unfold redeclare_exchange; destruct (e_is_declared x); by repeat constructor).
  rewrite (foldl_skip _ (if confirm then _ else _)) by (destruct confirm; by repeat constructor).
  destruct (list_find _ _) as [[i x]|]; simpl; [by rewrite foldl_app|done].
Qed.

(** ** A broker

    The server's side of the requests, as AMQP 0-9-1 documents them: a request is refused ([None],
    the server closes the channel) when the channel is not open, when it declares something that
    exists with other properties or passively declares something that does not exist, when it binds
    or consumes from something that does not exist, or when it takes a consumer tag in use. *)

Definition exchange_props (k : ExchangeKind) (o : ExchangeDeclareOptions) (a : FieldTable) :=
  (k, edo_durable o, edo_auto_delete o, edo_internal o, a).
Definition queue_props (o : QueueDeclareOptions) (a : FieldTable) :=
  (qdo_durable o, qdo_exclusive o, qdo_auto_delete o, a).

Record Broker := mkBroker {
  b_open : bool;
  b_confirm : bool;
  b_exchanges : gmap string (ExchangeKind * bool * bool * bool * FieldTable);
  b_queues : gmap string (bool * bool * bool * FieldTable);
  b_exchange_bindings : list (string * BindingDefinition);   (* the destination *)
  b_queue_bindings : list (string * BindingDefinition);
  b_consumers : list ConsumerRef;                            (* of the channel *)
}.

Definition set_open (b : Broker) := mkBroker true (b_confirm b) (b_exchanges b) (b_queues b) (b_exchange_bindings b) (b_queue_bindings b) (b_consumers b).
Definition set_confirm (b : Broker) := mkBroker (b_open b) true (b_exchanges b) (b_queues b) (b_exchange_bindings b) (b_queue_bindings b) (b_consumers b).
Definition set_b_exchanges x (b : Broker) := mkBroker (b_open b) (b_confirm b) x (b_queues b) (b_exchange_bindings b) (b_queue_bindings b) (b_consumers b).
Definition set_b_queues x (b : Broker) := mkBroker (b_open b) (b_confirm b) (b_exchanges b) x (b_exchange_bindings b) (b_queue_bindings b) (b_consumers b).
Definition set_eb x (b : Broker) := mkBroker (b_open b) (b_confirm b) (b_exchanges b) (b_queues b) x (b_queue_bindings b) (b_consumers b).
Definition set_qb x (b : Broker) := mkBroker (b_open b) (b_confirm b) (b_exchanges b) (b_queues b) (b_exchange_bindings b) x (b_consumers b).
Definition set_b_consumers x (b : Broker) := mkBroker (b_open b) (b_confirm b) (b_exchanges b) (b_queues b) (b_exchange_bindings b) (b_queue_bindings b) x.

(** Declaring [n] among [m]: the names there are afterwards, unless it is refused. *)
Definition declare {P} `{EqDecision P} (passive : bool) (n : string) (p : P) (m : gmap string P) : option (gmap string P) :=
  match m !! n with
  | Some p' => if passive || bool_decide (p = p') then Some m else None
  | None => if passive then None else Some (<[n := p]> m)
  end.

(** A binding exists once, however often it is asked for. *)
Definition add {A} `{EqDecision A} (x : A) (l : list A) : list A := if decide (x ∈ l) then l else l ++ [x].

Definition exists_ {P} (n : string) (m : gmap string P) : bool := bool_decide (is_Some (m !! n)).

Section Broker.

(** The queue and the tag of a consumer. *)
Context (queue_of tag_of : ConsumerRef → ShortString).

Definition serve (b : Broker) (q : Request) : option Broker :=
  match q with
  | QChannelOpen => if b_open b then None else Some (set_open b)
  | _ => if negb (b_open b) then None else
    match q with
    | QChannelOpen => None
    | QConfirmSelect => Some (set_confirm b)
    | QExchangeDeclare n k o a =>
      (λ m, set_b_exchanges m b) <$> declare (edo_passive o) n (exchange_props k o a) (b_exchanges b)
    | QExchangeBind d s k a =>
      if exists_ d (b_exchanges b) && exists_ s (b_exchanges b)
      then Some (set_eb (add (d, mkBinding s k a) (b_exchange_bindings b)) b) else None
    | QQueueDeclare n o a =>
      (λ m, set_b_queues m b) <$> declare (qdo_passive o) n (queue_props o a) (b_queues b)
    | QQueueBind d s k a =>
      if exists_ d (b_queues b) && exists_ s (b_exchanges b)
      then Some (set_qb (add (d, mkBinding s k a) (b_queue_bindings b)) b) else None
    | QBasicConsume c =>
      if exists_ (queue_of c) (b_queues b) && negb (bool_decide (tag_of c ∈ tag_of <$> b_consumers b))
      then Some (set_b_consumers (b_consumers b ++ [c]) b) else None
    end
  end.

(** Each request is sent when the one before it has been accepted. *)
Fixpoint serve_all (b : Broker) (qs : list Request) : option Broker :=
  match qs with [] => Some b | q :: qs => serve b q ≫= λ b, serve_all b qs end.

Lemma serve_all_app b qs qs' : serve_all b (qs ++ qs') = serve_all b qs ≫= λ b, serve_all b qs'.
Proof. revert b. induction qs as [|q qs IH]; intros b; simpl; [done|]. destruct (serve b q); simpl; [apply IH|done]. Qed.

(** *** Declaring *)

(** A declaration is acceptable where [m] exists: a passive one of something that exists, any other
    of something new or that has the same properties. *)
Definition declarable {P} (passive : bool) (n : string) (p : P) (m : gmap string P) : Prop :=
  if passive then is_Some (m !! n) else m !! n = None ∨ m !! n = Some p.

(** What there is once the declarations [ds] (name, passive, properties) are accepted. *)
Definition declare_all {P} (ds : list (string * bool * P)) (m : gmap string P) : gmap string P :=
  foldl (λ m d, if d.1.2 : bool then m else <[d.1.1 := d.2]> m) m ds.

Lemma declare_declarable {P} `{EqDecision P} passive n (p : P) m : declarable passive n p m →
  declare passive n p m = Some (if passive then m else <[n := p]> m).
Proof.
  unfold declarable, declare. destruct passive; [by intros [p' ->]|]. intros [->| E]; [done|].
  rewrite E, bool_decide_true by done. simpl. by rewrite insert_id.
Qed.

Lemma declare_all_other {P} (ds : list (string * bool * P)) m n : n ∉ (λ d, d.1.1) <$> ds → declare_all ds m !! n = m !! n.
Proof.
  unfold declare_all. revert m. induction ds as [|[[d passive] p] ds IH]; intros m Hn; simpl in *; [done|].
  apply not_elem_of_cons in Hn as [? ?]. rewrite IH by done. destruct passive; [done|]. by rewrite lookup_insert_ne.
Qed.

Lemma declare_all_this {P} (ds : list (string * bool * P)) m n (passive : bool) (p : P) : NoDup ((λ d, d.1.1) <$> ds) → (n, passive, p) ∈ ds →
  declare_all ds m !! n = if passive then m !! n else Some p.
Proof.
  unfold declare_all. revert m. induction ds as [|[[d pv] p'] ds IH]; intros m Hnd Hin; [by apply elem_of_nil in Hin|].
  apply NoDup_cons in Hnd as [Hd Hnd]. apply elem_of_cons in Hin as [[= <- <- <-]|Hin]; simpl.
  - fold (declare_all ds (if passive then m else <[n:=p]> m)). rewrite declare_all_other by done.
    destruct passive; [done|apply lookup_insert_eq].
  - rewrite IH by done. assert (n ≠ d) as Hne.
    { intros ->. apply Hd, list_elem_of_fmap. by exists (d, passive, p). }
    destruct passive, pv; try done; by rewrite lookup_insert_ne.
Qed.

(** A definition that is declared, as a declaration. *)
Definition exchange_decl (x : ExchangeDefinition) : list (string * bool * (ExchangeKind * bool * bool * bool * FieldTable)) :=
  if e_is_declared x then
    let o := default ExchangeDeclareOptions_default (e_options x) in
    [(e_name x, edo_passive o, exchange_props (default ExchangeKind_default (e_kind x)) o (default FieldTable_default (e_arguments x)))]
  else [].
Definition queue_decl (x : QueueDefinition) : list (string * bool * (bool * bool * bool * FieldTable)) :=
  if q_is_declared x then
    let o := default QueueDeclareOptions_default (q_options x) in
    [(q_name x, qdo_passive o, queue_props o (default FieldTable_default (q_arguments x)))]
  else [].

Lemma declarable_insert {P} pv n (p : P) d p' m : n ≠ d → declarable pv n p m → declarable pv n p (<[d := p']> m).
Proof. intros Hne. unfold declarable. by rewrite lookup_insert_ne. Qed.

Lemma declarable_rest {P} (k : string) (passive : bool) (p : P) ds m : NoDup (k :: ((λ d, d.1.1) <$> ds)) →
  Forall (λ d, declarable d.1.2 d.1.1 d.2 m) ds →
  Forall (λ d, declarable d.1.2 d.1.1 d.2 (if passive then m else <[k := p]> m)) ds.
Proof.
  intros [Hd _]%NoDup_cons Hds. destruct passive; [done|]. rewrite Forall_forall in *. intros [[n pv] p'] Hin. simpl.
  apply declarable_insert; [|by apply (Hds (n, pv, p'))]. intros ->. apply Hd, list_elem_of_fmap. by exists (k, pv, p').
Qed.

Lemma redeclare_exchange_decl x :
  redeclare_exchange x = [] ∧ exchange_decl x = [] ∨
  ∃ k o a, redeclare_exchange x = [QExchangeDeclare (e_name x) k o a] ∧ exchange_decl x = [(e_name x, edo_passive o, exchange_props k o a)].
Proof. unfold redeclare_exchange, exchange_decl. destruct (e_is_declared x); [right|by left]. by repeat eexists. Qed.

Lemma serve_exchanges xs b : b_open b = true → NoDup ((λ d, d.1.1) <$> (xs ≫= exchange_decl)) →
  Forall (λ d, declarable d.1.2 d.1.1 d.2 (b_exchanges b)) (xs ≫= exchange_decl) →
  serve_all b (xs ≫= redeclare_exchange) = Some (set_b_exchanges (declare_all (xs ≫= exchange_decl) (b_exchanges b)) b).
Proof.
  revert b. induction xs as [|x xs IH]; intros b Ho Hnd Hds; [by destruct b|].
  rewrite bind_cons in Hnd, Hds. rewrite !bind_cons, serve_all_app.
  destruct (redeclare_exchange_decl x) as [[E1 E2]|(k & o & a & E1 & E2)]; rewrite E1, E2 in *; [by apply IH|].
  cbn [app fmap list_fmap] in Hnd. apply Forall_cons in Hds as [Hx Hds].
  cbn [serve_all serve]. rewrite Ho. cbn [negb]. rewrite declare_declarable by done. cbn [fmap option_fmap option_map mbind option_bind].
  rewrite IH; [done|done|by apply NoDup_cons in Hnd as [? ?]|by apply declarable_rest].
Qed.

Lemma redeclare_queue_decl x :
  redeclare_queue x = [] ∧ queue_decl x = [] ∨
  ∃ o a, redeclare_queue x = [QQueueDeclare (q_name x) o a] ∧ queue_decl x = [(q_name x, qdo_passive o, queue_props o a)].
Proof. unfold redeclare_queue, queue_decl. destruct (q_is_declared x); [right|by left]. by repeat eexists. Qed.

Lemma serve_queues xs b : b_open b = true → NoDup ((λ d, d.1.1) <$> (xs ≫= queue_decl)) →
  Forall (λ d, declarable d.1.2 d.1.1 d.2 (b_queues b)) (xs ≫= queue_decl) →
  serve_all b (xs ≫= redeclare_queue) = Some (set_b_queues (declare_all (xs ≫= queue_decl) (b_queues b)) b).
Proof.
  revert b. induction xs as [|x xs IH]; intros b Ho Hnd Hds; [by destruct b|].
  rewrite bind_cons in Hnd, Hds. rewrite !bind_cons, serve_all_app.
  destruct (redeclare_queue_decl x) as [[E1 E2]|(o & a & E1 & E2)]; rewrite E1, E2 in *; [by apply IH|].
  cbn [app fmap list_fmap] in Hnd. apply Forall_cons in Hds as [Hx Hds].
  cbn [serve_all serve]. rewrite Ho. cbn [negb]. rewrite declare_declarable by done. cbn [fmap option_fmap option_map mbind option_bind].
  rewrite IH; [done|done|by apply NoDup_cons in Hnd as [? ?]|by apply declarable_rest].
Qed.

(** *** Binding and consuming *)

Definition bound (xs : list (string * BindingDefinition)) (l : list (string * BindingDefinition)) :=
  foldl (λ l x, add x l) l xs.

Lemma elem_of_bound (x : string * BindingDefinition) xs l : x ∈ bound xs l ↔ x ∈ l ∨ x ∈ xs.
Proof.
  unfold bound. revert l. induction xs as [|y xs IH]; intros l; simpl; [set_solver|].
  rewrite IH. unfold add. case_decide; set_solver.
Qed.

Definition exchange_binds (x : ExchangeDefinition) : list (string * BindingDefinition) := pair (e_name x) <$> e_bindings x.
Definition queue_binds (x : QueueDefinition) : list (string * BindingDefinition) := pair (q_name x) <$> q_bindings x.

Lemma serve_binds (mk_ : string * BindingDefinition → Request) (get : Broker → list (string * BindingDefinition))
    (set_ : list (string * BindingDefinition) → Broker → Broker) (has : Broker → string → bool) xs b :
  (∀ b x, b_open b = true → has b x.1 = true → exists_ (source x.2) (b_exchanges b) = true →
     serve b (mk_ x) = Some (set_ (add x (get b)) b)) →
  (∀ l b, get (set_ l b) = l) → (∀ l k b, set_ l (set_ k b) = set_ l b) → (∀ b, set_ (get b) b = b) →
  (∀ l b, b_open (set_ l b) = b_open b) → (∀ l b, b_exchanges (set_ l b) = b_exchanges b) → (∀ l b, has (set_ l b) = has b) →
  b_open b = true →
  Forall (λ x, has b x.1 = true ∧ exists_ (source x.2) (b_exchanges b) = true) xs →
  serve_all b (mk_ <$> xs) = Some (set_ (bound xs (get b)) b).
Proof.
  intros Hserve Hgs Hss Hsg Hopen Hex Hhas. unfold bound. revert b. induction xs as [|x xs IH]; intros b Ho Hxs; simpl.
  - by rewrite Hsg.
  - apply Forall_cons in Hxs as [[H1 H2] Hxs]. rewrite Hserve by done. simpl. rewrite IH, Hgs, Hss; [done|by rewrite Hopen|].
    eapply Forall_impl; [exact Hxs|]. intros y. by rewrite Hhas, Hex.
Qed.

Definition exchange_bind_request (x : string * BindingDefinition) : Request :=
  QExchangeBind x.1 (source x.2) (routing_key x.2) (b_arguments x.2).
Definition queue_bind_request (x : string * BindingDefinition) : Request :=
  QQueueBind x.1 (source x.2) (routing_key x.2) (b_arguments x.2).

Lemma serve_exchange_binds xs b : b_open b = true →
  Forall (λ x, exists_ x.1 (b_exchanges b) = true ∧ exists_ (source x.2) (b_exchanges b) = true) xs →
  serve_all b (exchange_bind_request <$> xs) = Some (set_eb (bound xs (b_exchange_bindings b)) b).
Proof.
  apply (serve_binds exchange_bind_request b_exchange_bindings set_eb (λ b n, exists_ n (b_exchanges b))); try done.
  - intros b' [d [s k a]] Ho H1 H2. simpl in *. by rewrite Ho, H1, H2.
  - by intros [].
Qed.

Lemma serve_queue_binds xs b : b_open b = true →
  Forall (λ x, exists_ x.1 (b_queues b) = true ∧ exists_ (source x.2) (b_exchanges b) = true) xs →
  serve_all b (queue_bind_request <$> xs) = Some (set_qb (bound xs (b_queue_bindings b)) b).
Proof.
  apply (serve_binds queue_bind_request b_queue_bindings set_qb (λ b n, exists_ n (b_queues b))); try done.
  - intros b' [d [s k a]] Ho H1 H2. simpl in *. by rewrite Ho, H1, H2.
  - by intros [].
Qed.

Lemma serve_consumers cs b : b_open b = true → NoDup (tag_of <$> (b_consumers b ++ cs)) →
  Forall (λ c, exists_ (queue_of c) (b_queues b) = true) cs →
  serve_all b (QBasicConsume <$> cs) = Some (set_b_consumers (b_consumers b ++ cs) b).
Proof.
  revert b. induction cs as [|c cs IH]; intros b Ho Hnd Hcs; simpl; [rewrite app_nil_r; by destruct b|].
  apply Forall_cons in Hcs as [Hc Hcs]. rewrite Ho, Hc. simpl.
  rewrite bool_decide_false; [|rewrite fmap_app in Hnd; apply NoDup_app in Hnd; set_solver]. simpl.
  rewrite IH; simpl; [by rewrite <- app_assoc|done|by rewrite <- app_assoc|done].
Qed.

End Broker.

(** *** What a recovery needs *)

Section Restoring.
Context (queue_of tag_of : ConsumerRef → ShortString).

Definition declared_exchange (r : t) (n : string) : bool :=
  match exchanges r !! n with Some x => e_is_declared x | None => false end.
Definition declared_queue (r : t) (n : string) : bool :=
  match queues r !! n with Some x => q_is_declared x | None => false end.

(** A broker [b] a recovery can meet: nothing has been asked on the new channel; what is left of
    the recorded exchanges and queues has the recorded properties (and what was declared
    passively is still there); both ends of each recorded binding, and the queue of each
    consumer, are recorded as declared or still there; the consumers have different tags. *)
Record recoverable (r : t) (cs : list ConsumerRef) (b : Broker) : Prop := {
  rv_channel : b_open b = false ∧ b_confirm b = false ∧ b_consumers b = [];
  rv_exchanges n x : exchanges r !! n = Some x →
    Forall (λ d, declarable d.1.2 d.1.1 d.2 (b_exchanges b)) (exchange_decl x);
  rv_queues n x : queues r !! n = Some x →
    Forall (λ d, declarable d.1.2 d.1.1 d.2 (b_queues b)) (queue_decl x);
  rv_exchange_bindings n x y : exchanges r !! n = Some x → y ∈ e_bindings x →
    declared_exchange r n || exists_ n (b_exchanges b) = true ∧
    declared_exchange r (source y) || exists_ (source y) (b_exchanges b) = true;
  rv_queue_bindings n x y : queues r !! n = Some x → y ∈ q_bindings x →
    declared_queue r n || exists_ n (b_queues b) = true ∧
    declared_exchange r (source y) || exists_ (source y) (b_exchanges b) = true;
  rv_consumers : NoDup (tag_of <$> cs) ∧
    Forall (λ c, declared_queue r (queue_of c) || exists_ (queue_of c) (b_queues b) = true) cs;
}.

(** *** The recorded definitions, as declarations and bindings *)

Lemma elem_of_filed {D} (m : gmap string D) x : x ∈ (hash_order m).*2 ↔ ∃ n, m !! n = Some x.
Proof.
  rewrite list_elem_of_fmap. split.
  - intros ([n y] & -> & Hin%hash_order_elem). by exists n.
  - intros [n Hn%hash_order_elem]. by exists (n, x).
Qed.

(** Definitions that give at most one declaration, of their own name. *)
Definition declares {D P} (name : D → string) (decl : D → list (string * bool * P)) : Prop :=
  ∀ x, decl x = [] ∨ ∃ pv p, decl x = [(name x, pv, p)].

Lemma exchange_declares : declares e_name exchange_decl.
Proof. intros x. destruct (redeclare_exchange_decl x) as [[_ ->]|(k & o & a & _ & ->)]; eauto. Qed.

Lemma queue_declares : declares q_name queue_decl.
Proof. intros x. destruct (redeclare_queue_decl x) as [[_ ->]|(o & a & _ & ->)]; eauto. Qed.

Lemma decls_names {D P} (name : D → string) (decl : D → list (string * bool * P)) xs : declares name decl →
  (λ d, d.1.1) <$> (xs ≫= decl) `sublist_of` name <$> xs.
Proof.
  intros Hd. induction xs as [|x xs IH]; [done|]. rewrite bind_cons, fmap_app.
  destruct (Hd x) as [->|(pv & p & ->)]; simpl; by constructor.
Qed.

Lemma rebind_exchanges_eq xs : xs ≫= rebind_exchange = exchange_bind_request <$> (xs ≫= exchange_binds).
Proof.
  induction xs as [|x xs IH]; [done|]. rewrite !bind_cons, fmap_app, IH. unfold exchange_binds. by rewrite <- list_fmap_compose.
Qed.

Lemma rebind_queues_eq xs : xs ≫= rebind_queue = queue_bind_request <$> (xs ≫= queue_binds).
Proof.
  induction xs as [|x xs IH]; [done|]. rewrite !bind_cons, fmap_app, IH. unfold queue_binds. by rewrite <- list_fmap_compose.
Qed.

(** What the registry says of a name, if it is to be declared again. *)
Definition declared_props {P} (d : list (string * bool * P)) : option P :=
  match d with (_, false, p) :: _ => Some p | _ => None end.
Definition recorded_exchange (r : t) (n : string) := exchanges r !! n ≫= λ x, declared_props (exchange_decl x).
Definition recorded_queue (r : t) (n : string) := queues r !! n ≫= λ x, declared_props (queue_decl x).

Lemma decls_lookup {D P} (name : D → string) (decl : D → list (string * bool * P)) (ds : gmap string D) m n :
  declares name decl → map_Forall (λ k d, name d = k) ds →
  NoDup ((λ d, d.1.1) <$> ((hash_order ds).*2 ≫= decl)) ∧
  declare_all ((hash_order ds).*2 ≫= decl) m !! n =
  match ds !! n ≫= λ x, declared_props (decl x) with Some p => Some p | None => m !! n end.
Proof.
  intros Hd Hf.
  assert (Hnd : NoDup ((λ d, d.1.1) <$> ((hash_order ds).*2 ≫= decl))).
  { eapply sublist_NoDup; [|by apply decls_names]. by apply (find_filed name ds n). }
  split; [done|].
  assert (Hin : ∀ k pv p, (k, pv, p) ∈ (hash_order ds).*2 ≫= decl ↔ ∃ x, ds !! k = Some x ∧ decl x = [(k, pv, p)]).
  { intros k pv p. rewrite list_elem_of_bind. split.
    - intros (x & Hx & [j Hj]%elem_of_filed). pose proof (Hf _ _ Hj) as Hn. simpl in Hn.
      destruct (Hd x) as [E|(pv' & p' & E)]; rewrite E in Hx; [by apply elem_of_nil in Hx|].
      apply list_elem_of_singleton in Hx as [= -> -> ->]. exists x. by subst.
    - intros (x & Hx & E). exists x. rewrite E, elem_of_filed. split; [by apply list_elem_of_singleton|by exists k]. }
  assert (Hout : (∀ x, ds !! n = Some x → decl x = []) → declare_all ((hash_order ds).*2 ≫= decl) m !! n = m !! n).
  { intros Hnone. apply declare_all_other. intros ([[j pv] p] & -> & (y & Hy & Ey)%Hin)%list_elem_of_fmap.
    by rewrite (Hnone y Hy) in Ey. }
  destruct (ds !! n) as [x|] eqn:E; simpl; [|by apply Hout].
  destruct (Hd x) as [Ed|(pv & p & Ed)]; rewrite Ed; simpl; [apply Hout; by intros ? [= <-]|].
  rewrite (Hf _ _ E) in Ed. rewrite (declare_all_this _ _ _ pv p); [by destruct pv|done|]. apply Hin. by exists x.
Qed.

Lemma decls_exist {D P} (name : D → string) (decl : D → list (string * bool * P)) (ds : gmap string D) m n :
  declares name decl → map_Forall (λ k d, name d = k) ds →
  (∀ n x, ds !! n = Some x → Forall (λ d, declarable d.1.2 d.1.1 d.2 m) (decl x)) →
  (∃ x, ds !! n = Some x ∧ decl x ≠ []) ∨ is_Some (m !! n) →
  exists_ n (declare_all ((hash_order ds).*2 ≫= decl) m) = true.
Proof.
  intros Hd Hf Hdecl Hn. apply bool_decide_eq_true. destruct (decls_lookup name decl ds m n Hd Hf) as [_ ->].
  destruct Hn as [(x & Ex & Hne)|Hn]; [|by destruct (_ ≫= _)]. rewrite Ex. simpl.
  destruct (Hd x) as [E|(pv & p & E)]; [done|]. rewrite E. pose proof (Hdecl n x Ex) as Hx.
  rewrite E in Hx. apply Forall_cons in Hx as [Hx _]. simpl in Hx. rewrite (Hf _ _ Ex) in Hx.
  destruct pv; simpl in *; eauto.
Qed.

Lemma exchange_exists r cs b n : wf r → recoverable r cs b → declared_exchange r n || exists_ n (b_exchanges b) = true →
  exists_ n (declare_all (exchanges_topology r ≫= exchange_decl) (b_exchanges b)) = true.
Proof.
  intros [He _] Hv Hn. apply (decls_exist e_name); [apply exchange_declares| |apply Hv|].
  - eapply map_Forall_impl; [exact He|]. by intros ?? [].
  - apply orb_true_iff in Hn as [Hn|Hn%bool_decide_eq_true]; [left|by right]. unfold declared_exchange in Hn.
    destruct (exchanges r !! n) as [x|]; [|done]. exists x. split; [done|]. unfold exchange_decl. by rewrite Hn.
Qed.

Lemma queue_exists r cs b n : wf r → recoverable r cs b → declared_queue r n || exists_ n (b_queues b) = true →
  exists_ n (declare_all (queues_topology r ≫= queue_decl) (b_queues b)) = true.
Proof.
  intros [_ Hq] Hv Hn. apply (decls_exist q_name); [apply queue_declares| |apply Hv|].
  - eapply map_Forall_impl; [exact Hq|]. by intros ?? [].
  - apply orb_true_iff in Hn as [Hn|Hn%bool_decide_eq_true]; [left|by right]. unfold declared_queue in Hn.
    destruct (queues r !! n) as [x|]; [|done]. exists x. split; [done|]. unfold queue_decl. by rewrite Hn.
Qed.

(** The broker once everything is accepted. *)
Definition restored (confirm : bool) (r : t) (cs : list ConsumerRef) (b : Broker) : Broker :=
  mkBroker true confirm
    (declare_all (exchanges_topology r ≫= exchange_decl) (b_exchanges b))
    (declare_all (queues_topology r ≫= queue_decl) (b_queues b))
    (bound (exchanges_topology r ≫= exchange_binds) (b_exchange_bindings b))
    (bound (queues_topology r ≫= queue_binds) (b_queue_bindings b)) cs.

Lemma elem_of_exchange_binds r d y : wf r →
  (d, y) ∈ exchanges_topology r ≫= exchange_binds ↔ ∃ x, exchanges r !! d = Some x ∧ y ∈ e_bindings x.
Proof.
  intros [He _]. rewrite list_elem_of_bind. unfold exchange_binds. split.
  - intros (x & (z & [= -> ->] & Hz)%list_elem_of_fmap & [n Hn]%elem_of_filed). exists x.
    by destruct (He _ _ Hn) as [-> _].
  - intros (x & Hx & Hy). exists x. destruct (He _ _ Hx) as [-> _].
    split; [apply list_elem_of_fmap; by exists y|apply elem_of_filed; by exists d].
Qed.

Lemma elem_of_queue_binds r d y : wf r →
  (d, y) ∈ queues_topology r ≫= queue_binds ↔ ∃ x, queues r !! d = Some x ∧ y ∈ q_bindings x.
Proof.
  intros [_ Hq]. rewrite list_elem_of_bind. unfold queue_binds. split.
  - intros (x & (z & [= -> ->] & Hz)%list_elem_of_fmap & [n Hn]%elem_of_filed). exists x.
    by destruct (Hq _ _ Hn) as [-> _].
  - intros (x & Hx & Hy). exists x. destruct (Hq _ _ Hx) as [-> _].
    split; [apply list_elem_of_fmap; by exists y|apply elem_of_filed; by exists d].
Qed.

Lemma Forall_decls {D P} (decl : D → list (string * bool * P)) (ds : gmap string D) m :
  (∀ n x, ds !! n = Some x → Forall (λ d, declarable d.1.2 d.1.1 d.2 m) (decl x)) →
  Forall (λ d, declarable d.1.2 d.1.1 d.2 m) ((hash_order ds).*2 ≫= decl).
Proof. intros H. apply Forall_bind, Forall_forall. intros x [n Hn]%elem_of_filed. by eapply H. Qed.

(** Everything [start_recovery] asks for is accepted, in the order it asks. *)
Lemma recovery_served confirm r cs b : wf r → recoverable r cs b →
  serve_all queue_of tag_of b (start_recovery confirm (topology r cs)) = Some (restored confirm r cs b).
Proof.
  intros Hw Hv. pose proof Hw as [He Hq]. destruct (rv_channel _ _ _ Hv) as (Ho & Hcf & Hcs).
  destruct (rv_consumers _ _ _ Hv) as [Htags Hqs].
  destruct (decls_lookup e_name exchange_decl (exchanges r) (b_exchanges b) "") as [Hnd1 _];
    [apply exchange_declares|eapply map_Forall_impl; [exact He|]; by intros ?? []|].
  destruct (decls_lookup q_name queue_decl (queues r) (b_queues b) "") as [Hnd2 _];
    [apply queue_declares|eapply map_Forall_impl; [exact Hq|]; by intros ?? []|].
  unfold start_recovery. cbn [topology d_exchanges d_queues d_consumers]. rewrite serve_all_app. cbn [serve_all serve].
  rewrite Ho. cbn [mbind option_bind]. rewrite serve_all_app.
  set (b1 := mkBroker true confirm (b_exchanges b) (b_queues b) (b_exchange_bindings b) (b_queue_bindings b) []).
  assert (E1 : serve_all queue_of tag_of (set_open b) (if confirm then [QConfirmSelect] else []) = Some b1).
  { unfold b1. destruct confirm, b; simpl in *; by subst. }
  rewrite E1. cbn [mbind option_bind]. rewrite serve_all_app, serve_exchanges; [|done|exact Hnd1|exact (Forall_decls _ _ _ (rv_exchanges _ _ _ Hv))].
  cbn [mbind option_bind]. rewrite serve_all_app, rebind_exchanges_eq, serve_exchange_binds; [|done|].
  2: { apply Forall_forall. intros [d y] (x & Hx & Hy)%elem_of_exchange_binds; [|done].
       destruct (rv_exchange_bindings _ _ _ Hv d x y Hx Hy) as [H1 H2].
       split; [exact (exchange_exists r cs b _ Hw Hv H1)|exact (exchange_exists r cs b _ Hw Hv H2)]. }
  cbn [mbind option_bind]. rewrite serve_all_app, serve_queues; [|done|exact Hnd2|exact (Forall_decls _ _ _ (rv_queues _ _ _ Hv))].
  cbn [mbind option_bind]. rewrite serve_all_app, rebind_queues_eq, serve_queue_binds; [|done|].
  2: { apply Forall_forall. intros [d y] (x & Hx & Hy)%elem_of_queue_binds; [|done].
       destruct (rv_queue_bindings _ _ _ Hv d x y Hx Hy) as [H1 H2].
       split; [exact (queue_exists r cs b _ Hw Hv H1)|exact (exchange_exists r cs b _ Hw Hv H2)]. }
  cbn [mbind option_bind]. rewrite serve_consumers; [done|done|done|].
  eapply Forall_impl; [exact Hqs|]. intros c Hc. exact (queue_exists r cs b _ Hw Hv Hc).
Qed.

(** C26: recovery restores the topology.  On a broker that may have lost everything, and that
    refuses what AMQP says it refuses (a request before the channel is open, a binding or a consumer
    of something that does not exist, a declaration that contradicts what exists), every
    request of [start_recovery] is accepted in the order they are sent, whatever the
    iteration order of the hash maps, provided that each end of a recorded binding and the
    queue of each consumer is recorded as declared or still exists on the broker, and that what
    is left there has the recorded properties ([recoverable]).  Afterwards the channel is open, in
    confirm mode if it was, with exactly its consumers in their order; every exchange and queue
    recorded as declared exists with the recorded properties, and the others are as
    they were; and the bindings are the recorded ones and those that were left. *)
Theorem recovery_restores confirm r cs b : reachable r → recoverable r cs b →
  ∃ b', serve_all queue_of tag_of b (start_recovery confirm (topology r cs)) = Some b' ∧
  b_open b' = true ∧ b_confirm b' = confirm ∧ b_consumers b' = cs ∧
  (∀ n, b_exchanges b' !! n = match recorded_exchange r n with Some p => Some p | None => b_exchanges b !! n end) ∧
  (∀ n, b_queues b' !! n = match recorded_queue r n with Some p => Some p | None => b_queues b !! n end) ∧
  (∀ d y, (d, y) ∈ b_exchange_bindings b' ↔
     (d, y) ∈ b_exchange_bindings b ∨ ∃ x, exchanges r !! d = Some x ∧ y ∈ e_bindings x) ∧
  (∀ d y, (d, y) ∈ b_queue_bindings b' ↔
     (d, y) ∈ b_queue_bindings b ∨ ∃ x, queues r !! d = Some x ∧ y ∈ q_bindings x).
Proof.
  intros Hr%reachable_wf Hv. exists (restored confirm r cs b). split; [by apply recovery_served|].
  pose proof Hr as [He Hq]. split_and!; [done..| | | |].
  - intros n. refine (proj2 (decls_lookup e_name exchange_decl (exchanges r) (b_exchanges b) n exchange_declares _)).
    eapply map_Forall_impl; [exact He|]. by intros ?? [].
  - intros n. refine (proj2 (decls_lookup q_name queue_decl (queues r) (b_queues b) n queue_declares _)).
    eapply map_Forall_impl; [exact Hq|]. by intros ?? [].
  - intros d y. cbn [restored b_exchange_bindings]. by rewrite elem_of_bound, elem_of_exchange_binds.
  - intros d y. cbn [restored b_queue_bindings]. by rewrite elem_of_bound, elem_of_queue_binds.
Qed.

End Restoring.

(** A recovery doubles the recorded bindings.  The replayed requests are registered
    again when the server accepts them, and the registry is not cleared first: the
    parameters stay, but every binding of every exchange and queue is recorded
    twice afterwards, so the next recovery replays each of them twice. *)
Theorem recovery_doubles_bindings confirm r cs n : reachable r →
  let r' := replay (start_recovery confirm (topology r cs)) r in
  exchanges r' !! n = (λ x, set_e_bindings (e_bindings x ++ e_bindings x) x) <$> exchanges r !! n ∧
  queues r' !! n = (λ x, set_q_bindings (q_bindings x ++ q_bindings x) x) <$> queues r !! n.
Proof.
  intros Hr%reachable_wf. cbn zeta.
  rewrite replay_exchange, replay_queue, recovery_exchange, recovery_queue by done.
  destruct Hr as [He Hq]. split.
  - destruct (exchanges r !! n) as [x|] eqn:E; [|done]. apply He in E. by apply redo_exchange.
  - destruct (queues r !! n) as [x|] eqn:E; [|done]. apply Hq in E. by apply redo_queue.
Qed.

End Registry.

Section Witnesses.
#[local] Existing Instance number_types.
#[local] Instance s_order : HashOrder string := canonical_order string.

Definition demo : t :=
  on_ok (on_ok empty (QQueueDeclare "q" QueueDeclareOptions_default [("a", "4")])) (QQueueBind "q" "x" "k" [("b", "5")]).

Lemma demo_reachable : reachable demo.
Proof. repeat constructor. Qed.

(** A broker that only has its predefined exchange left; the recorded topology binds an exchange to
    it and a queue to the exchange, and has a consumer of the queue. *)
Definition demo_lost : Broker :=
  mkBroker false false {[ "amq.topic" := exchange_props Topic (mkExchangeDeclareOptions false true false false false) [] ]} ∅ [] [] [].
Definition demo_recorded : t :=
  foldl on_ok empty
    [QExchangeDeclare "x" Fanout ExchangeDeclareOptions_default []; QExchangeBind "x" "amq.topic" "#" [];
     QQueueDeclare "q" queue_durable [("a", "4")]; QQueueBind "q" "x" "k" [("b", "5")]].

Lemma demo_recoverable : recoverable (λ _, "q") (λ c, pretty (N.of_nat c)) demo_recorded [7%nat] demo_lost.
Proof.
  assert (He : ∀ n x, exchanges demo_recorded !! n = Some x → n = "x" ∧ x = mkExchange "x" (Some Fanout)
    (Some ExchangeDeclareOptions_default) (Some []) [mkBinding "amq.topic" "#" []] true).
  { intros n x. change (exchanges demo_recorded) with ({["x" := mkExchange "x" (Some Fanout)
      (Some ExchangeDeclareOptions_default) (Some []) [mkBinding "amq.topic" "#" []] true]} : gmap string ExchangeDefinition).
    by intros [<- <-]%lookup_singleton_Some. }
  assert (Hq : ∀ n x, queues demo_recorded !! n = Some x → n = "q" ∧ x = mkQueue "q" (Some queue_durable)
    (Some [("a", "4")]) [mkBinding "x" "k" [("b", "5")]] true).
  { intros n x. change (queues demo_recorded) with ({["q" := mkQueue "q" (Some queue_durable)
      (Some [("a", "4")]) [mkBinding "x" "k" [("b", "5")]] true]} : gmap string QueueDefinition).
    by intros [<- <-]%lookup_singleton_Some. }
  split; [done| | | | |].
  - intros n x [-> ->]%He. repeat constructor.
  - intros n x [-> ->]%Hq. repeat constructor.
  - intros n x y [-> ->]%He ->%list_elem_of_singleton. by vm_compute.
  - intros n x y [-> ->]%Hq ->%list_elem_of_singleton. by vm_compute.
  - split; [apply NoDup_singleton|]. by repeat constructor.
Qed.

Lemma recovery_restores_witness : ∃ b,
  serve_all (λ _, "q") (λ c, pretty (N.of_nat c)) demo_lost (start_recovery true (topology demo_recorded [7%nat])) = Some b ∧
  b_confirm b = true ∧ b_consumers b = [7%nat] ∧ ("q", mkBinding "x" "k" [("b", "5")]) ∈ b_queue_bindings b.
Proof.
  destruct (recovery_restores (λ _, "q") (λ c, pretty (N.of_nat c)) true demo_recorded [7%nat] demo_lost)
    as (b & E & _ & Hc & Hcs & _ & _ & _ & Hb); [repeat constructor|apply demo_recoverable|].
  exists b. split_and!; [done..|]. apply Hb. right. eexists. split; [reflexivity|]. apply list_elem_of_singleton; reflexivity.
Defined.

Lemma recovery_doubles_bindings_witness :
  queues (replay (start_recovery true (topology demo [])) demo) !! "q" =
  Some (mkQueue "q" (Some QueueDeclareOptions_default) (Some [("a", "4")])
          [mkBinding "x" "k" [("b", "5")]; mkBinding "x" "k" [("b", "5")]] true).
Proof. apply (recovery_doubles_bindings true demo [] "q"). apply demo_reachable. Defined.

End Witnesses.
End Registry.
