(* ===== verification/ChannelStatus.v ===== *)
(** A channel's status: the content receiver (src/channel_receiver_state.rs), the
    recovery context (src/channel_recovery_context.rs) and the status itself
    (src/channel_status.rs). *)
From S2P Require Import Prelude.
From S2P Require Import Buffer.
From S2P Require Import Types.
From S2P Require Import Env.
From S2P Require Import Frames.
From S2P Require Import Registry.
Open Scope Z_scope.

Inductive DeliveryCause := Consume (tag : ShortString) | Get | Return.

#[export] Instance DeliveryCause_eq : EqDecision DeliveryCause.
Proof. solve_decision. Defined.

(** * Receiving the content of messages *)

Module ReceiverStates.

Inductive ChannelReceiverState :=
| WillReceiveContent (class_id : Identifier) (cause : DeliveryCause)
| ReceivingContent (cause : DeliveryCause) (length : PayloadSize).

(** [ChannelReceiverStates]: the front is the content expected next. *)
Definition t : Type := list ChannelReceiverState.

Definition reset (_ : t) : t := [].

Definition set_will_receive (class_id : Identifier) (cause : DeliveryCause) (q : t) : t :=
  q ++ [WillReceiveContent class_id cause].

Section Receive.
(** The handlers the channel passes run on the channel's state [S], which holds the
    queue. *)
Context `{AT : AmqpTypes} {S : Type} (proj : S → t) (upd : t → S → S).

Definition pop_front : M S (option ChannelReceiverState) :=
  s ← get; put (upd (tail (proj s)) s);; mret (head (proj s)).

Definition push_front (x : ChannelReceiverState) : M S unit :=
  modify (λ s, upd (x :: proj s) s).

Definition set_content_length (channel_id : ChannelId) (class_id : Identifier) (length : PayloadSize)
    (handler : DeliveryCause → bool → M S unit)
    (invalid_class_handler error_handler : string → M S (res unit)) (confirm_mode : bool) : M S (res unit) :=
  x ← pop_front;
  match x with
  | Some (WillReceiveContent expected_class_id cause) =>
    if expected_class_id =? class_id then
      handler cause confirm_mode;;
      (if 0 <? length then push_front (ReceivingContent cause length) else mret tt);;
      mret (Ok tt)
    else
      invalid_class_handler
        ("content header frame with class id " +:+ pretty class_id +:+ " instead of " +:+
         pretty expected_class_id +:+ " received on channel " +:+ pretty channel_id)
  | _ => error_handler ("unexpected content header frame received on channel " +:+ pretty channel_id)
  end.

(** [checked_sub] on u64. *)
Definition checked_sub (a b : Z) : option Z := if b <=? a then Some (a - b) else None.

Definition receive (channel_id : ChannelId) (length : PayloadSize)
    (handler : DeliveryCause → PayloadSize → bool → M S unit)
    (error_handler : string → M S (res unit)) (confirm_mode : bool) : M S (res unit) :=
  x ← pop_front;
  match x with
  | Some (ReceivingContent cause len) =>
    match checked_sub len length with
    | Some remaining =>
      handler cause remaining confirm_mode;;
      (if 0 <? remaining then push_front (ReceivingContent cause remaining) else mret tt);;
      mret (Ok tt)
    | None =>
      error_handler
        ("unexpectedly large content body frame received on channel " +:+ pretty channel_id +:+ " (" +:+
         pretty length +:+ " bytes, expected " +:+ pretty len +:+ " bytes)")
    end
  | _ => error_handler ("unexpected content body frame received on channel " +:+ pretty channel_id)
  end.

Lemma bind_pop_front {B} (k : option ChannelReceiverState → M S B) s e :
  (pop_front ≫= k) s e = k (head (proj s)) (upd (tail (proj s)) s) e.
Proof. done. Qed.

End Receive.

(** ** The calls a stream of content frames makes

    [S] is the queue and the log of handler calls. *)
Section Calls.
Context `{AT : AmqpTypes}.

Inductive Call :=
| OnHeader (cause : DeliveryCause)
| OnBody (cause : DeliveryCause) (remaining : PayloadSize)
| OnInvalidClass (message : string)
| OnError (message : string).

Definition log (c : Call) : M (t * list Call) unit := modify (λ s, (s.1, s.2 ++ [c])).
Definition failure : Error := error_from (InvalidChannel 0).

Inductive ContentFrame := FHeader (class_id : Identifier) (size : PayloadSize) | FBody (size : PayloadSize).

Definition content_frame (ch : ChannelId) (f : ContentFrame) : M (t * list Call) (res unit) :=
  let upd q (s : t * list Call) := (q, s.2) in
  match f with
  | FHeader c n =>
    set_content_length fst upd ch c n (λ cause _, log (OnHeader cause))
      (λ m, log (OnInvalidClass m);; mret (Err failure)) (λ m, log (OnError m);; mret (Err failure)) false
  | FBody n =>
    receive fst upd ch n (λ cause r _, log (OnBody cause r)) (λ m, log (OnError m);; mret (Err failure)) false
  end.

(** Frame after frame, as long as they are accepted. *)
Fixpoint content_frames (ch : ChannelId) (fs : list ContentFrame) : M (t * list Call) (res unit) :=
  match fs with
  | [] => mret (Ok tt)
  | f :: fs => let! _ := content_frame ch f in content_frames ch fs
  end.

(** The calls for bodies of the given sizes when [total] bytes are expected. *)
Fixpoint body_calls (cause : DeliveryCause) (total : Z) (sizes : list Z) : list Call :=
  match sizes with
  | [] => []
  | n :: sizes => OnBody cause (total - n) :: body_calls cause (total - n) sizes
  end.

Definition total_size (sizes : list Z) : Z := foldr Z.add 0 sizes.

Lemma total_size_nonneg sizes : Forall (λ n, 0 < n) sizes → 0 ≤ total_size sizes.
Proof. induction 1; simpl; lia. Qed.

Lemma body_step ch cause len n rest calls e : n ≤ len →
  content_frame ch (FBody n) (ReceivingContent cause len :: rest, calls) e =
  (Ok tt, ((if 0 <? len - n then [ReceivingContent cause (len - n)] else []) ++ rest,
           calls ++ [OnBody cause (len - n)]), e).
Proof.
  intros Hn. unfold content_frame, receive, pop_front, mbind, M_bind, get, put, mret, M_ret, checked_sub.
  cbn [fst snd head tail].
  rewrite (proj2 (Z.leb_le _ _)) by done. unfold log, modify. cbn [fst snd].
  by destruct (0 <? len - n).
Qed.

Lemma header_step ch cls cause len rest calls e :
  content_frame ch (FHeader cls len) (WillReceiveContent cls cause :: rest, calls) e =
  (Ok tt, ((if 0 <? len then [ReceivingContent cause len] else []) ++ rest, calls ++ [OnHeader cause]), e).
Proof.
  unfold content_frame, set_content_length, pop_front, mbind, M_bind, get, put, mret, M_ret.
  cbn [fst snd head tail]. rewrite Z.eqb_refl. unfold log, modify. cbn [fst snd]. by destruct (0 <? len).
Qed.

Lemma content_frames_cons ch f fs s e s' e' : content_frame ch f s e = (Ok tt, s', e') →
  content_frames ch (f :: fs) s e = content_frames ch fs s' e'.
Proof. intros E. cbn [content_frames]. unfold try_bind, mbind, M_bind. by rewrite E. Qed.

Lemma receive_bodies ch cause sizes rest calls e :
  Forall (λ n, 0 < n) sizes → sizes ≠ [] →
  content_frames ch (FBody <$> sizes) (ReceivingContent cause (total_size sizes) :: rest, calls) e =
  (Ok tt, (rest, calls ++ body_calls cause (total_size sizes) sizes), e).
Proof.
  intros Hs. revert calls. induction Hs as [|n sizes Hn Hs IH]; intros calls Hne; [done|].
  pose proof (total_size_nonneg sizes Hs) as Hpos.
  change (total_size (n :: sizes)) with (n + total_size sizes). rewrite fmap_cons.
  erewrite content_frames_cons by (apply body_step; lia).
  replace (n + total_size sizes - n) with (total_size sizes) by lia. cbn [body_calls].
  replace (n + total_size sizes - n) with (total_size sizes) by lia.
  destruct (0 <? total_size sizes) eqn:E.
  - simpl app. rewrite IH by (by intros ->). by rewrite <- app_assoc.
  - destruct sizes as [|m sizes]; [done|]. apply Forall_cons in Hs as [Hm Hs'].
    pose proof (total_size_nonneg sizes Hs'). apply Z.ltb_ge in E. simpl in E. lia.
Qed.

(** A message is received exactly once its announced size is reached.  When content of
    class [cls] is expected, its header followed by body frames whose sizes add up
    to the announced size is accepted frame by frame: the cause is notified of the header, then
    of each body with the number of bytes still to come, the last with zero, and the
    receiver moves on to the next expected content with nothing left over. *)
Theorem message_received ch cls cause sizes rest calls e :
  Forall (λ n, 0 < n) sizes →
  content_frames ch (FHeader cls (total_size sizes) :: (FBody <$> sizes))
    (WillReceiveContent cls cause :: rest, calls) e =
  (Ok tt, (rest, calls ++ OnHeader cause :: body_calls cause (total_size sizes) sizes), e).
Proof.
  intros Hs. rewrite (content_frames_cons _ _ _ _ _ _ _ (header_step _ _ _ _ _ _ _)).
  destruct (0 <? total_size sizes) eqn:E.
  - simpl app. rewrite receive_bodies by (done || by intros ->). by rewrite <- app_assoc.
  - destruct sizes as [|n sizes]; [done|]. apply Forall_cons in Hs as [Hn Hs].
    pose proof (total_size_nonneg sizes Hs). apply Z.ltb_ge in E. simpl in E. lia.
Qed.

(** Nothing else is accepted.  A header of another class, a header or a body that
    no expected content announces, and a body larger than what is left are refused: only the
    matching error handler runs, its verdict is returned, and the content they broke is
    forgotten. *)
Theorem content_refused ch f q calls e :
  match head q, f with
  | Some (WillReceiveContent cls _), FHeader c _ => cls ≠ c
  | Some (ReceivingContent _ len), FBody n => len < n
  | _, _ => True
  end →
  ∃ m, content_frame ch f (q, calls) e =
       (Err failure, (tail q, calls ++ [match head q, f with
                                        | Some (WillReceiveContent _ _), FHeader _ _ => OnInvalidClass m
                                        | _, _ => OnError m
                                        end]), e).
Proof.
  intros H. destruct q as [|[cls cause|cause len] q], f as [c n|n]; simpl in *; try by eexists.
  - unfold content_frame, set_content_length, pop_front, mbind, M_bind, get, put, mret, M_ret. simpl.
    rewrite (proj2 (Z.eqb_neq cls c)) by done. by eexists.
  - unfold content_frame, receive, pop_front, mbind, M_bind, get, put, mret, M_ret, checked_sub. simpl.
    rewrite (proj2 (Z.leb_gt _ _)) by lia. by eexists.
Qed.

End Calls.

Section Witnesses.
#[local] Existing Instance number_types.

Lemma message_received_witness :
  content_frames 1 [FHeader 60 5; FBody 3; FBody 2] ([WillReceiveContent 60 Get], []) env_empty =
  (Ok tt, ([], [OnHeader Get; OnBody Get 2; OnBody Get 0]), env_empty).
Proof. apply (message_received 1 60 Get [3; 2] [] [] env_empty). repeat constructor. Defined.

Lemma content_refused_witness :
  ∃ m, content_frame 1 (FBody 4) ([ReceivingContent Get 3], []) env_empty =
       (Err failure, ([], [OnError m]), env_empty).
Proof. apply (content_refused 1 (FBody 4) [ReceivingContent Get 3] [] env_empty). simpl. lia. Defined.

End Witnesses.
End ReceiverStates.

(** * Recovery contexts *)

Module RecoveryContext.
Section RecoveryContext.
Context `{AT : AmqpTypes}.

Record t := mk {
  rc_cause : Error;
  rc_topology : Registry.ChannelDefinition;
  rc_expected_replies : option (list ExpectedReply);
  rc_notifier : Notifier;
}.

(** The error handed out carries the notifier that fires when the recovery ends. *)
Definition new {S} (cause : Error) (topology : Registry.ChannelDefinition) : M S t :=
  n ← fresh; mret (mk (with_notifier cause (Some n)) topology None n).

Definition set_expected_replies (l : option (list ExpectedReply)) (c : t) : t :=
  mk (rc_cause c) (rc_topology c) l (rc_notifier c).

Definition finalize_recovery {S} (c : t) : M S unit :=
  notify_all (rc_notifier c);;
  match rc_expected_replies c with
  | Some l => Frames.cancel_expected_replies l (rc_cause c)
  | None => mret tt
  end.

End RecoveryContext.
End RecoveryContext.

(** * The status *)

Module ChannelStatus.
Section ChannelStatus.
Context `{AT : AmqpTypes}.

Record t := mk {
  id : ChannelId;
  confirm : bool;
  send_flow : bool;
  state : ChannelState;
  receiver_state : ReceiverStates.t;
  recovery_context : option RecoveryContext.t;
  killswitch : KillSwitch;
}.

Definition set_confirm_ x s := mk (id s) x (send_flow s) (state s) (receiver_state s) (recovery_context s) (killswitch s).
Definition set_flow_ x s := mk (id s) (confirm s) x (state s) (receiver_state s) (recovery_context s) (killswitch s).
Definition set_state_ x s := mk (id s) (confirm s) (send_flow s) x (receiver_state s) (recovery_context s) (killswitch s).
Definition set_receiver x s := mk (id s) (confirm s) (send_flow s) (state s) x (recovery_context s) (killswitch s).
Definition set_context x s := mk (id s) (confirm s) (send_flow s) (state s) (receiver_state s) x (killswitch s).
Definition set_killswitch x s := mk (id s) (confirm s) (send_flow s) (state s) (receiver_state s) (recovery_context s) x.

Definition update_rpc_status : M t unit :=
  s ← get; rpc_set_channel_status (id s) (killswitch s).

(** [Inner::new]; the killswitch cell and the status message are its effects. *)
Definition new {S} (i : ChannelId) : M S t :=
  k ← killswitch_new;
  rpc_set_channel_status i k;;
  mret (mk i false true ChInitial [] None k).

Definition initializing (s : t) : bool := bool_decide (state s ∈ [ChInitial; ChReconnecting]).
Definition closing (s : t) : bool := bool_decide (state s ∈ [ChClosing; ChReconnecting]).
Definition connected (s : t) : bool := bool_decide (state s = ChConnected).
Definition reconnecting (s : t) : bool := bool_decide (state s = ChReconnecting).
Definition connected_or_recovering (s : t) : bool := bool_decide (state s ∈ [ChConnected; ChReconnecting]).
Definition can_receive_messages (s : t) : bool :=
  bool_decide (state s ∈ [ChClosing; ChConnected; ChReconnecting]).
Definition auto_close (i : ChannelId) (s : t) : bool := negb (i =? 0) && connected s.

Definition finalize_connection : M t unit :=
  modify (set_state_ ChConnected);;
  update_rpc_status;;
  s ← get;
  match recovery_context s with
  | Some ctx => modify (set_context None);; RecoveryContext.finalize_recovery ctx
  | None => mret tt
  end.

Definition set_confirm : M t unit := modify (set_confirm_ true);; finalize_connection.

Definition set_state (x : ChannelState) : M t unit := modify (set_state_ x).

Definition notifier_of (s : t) : option Notifier := RecoveryContext.rc_notifier <$> recovery_context s.

Definition state_error (context : string) (s : t) : Error :=
  let error := error_from (InvalidChannelState (state s) context) in
  if decide (state s = ChReconnecting) then with_notifier error (notifier_of s) else error.

Definition set_reconnecting (error : Error) (topology : Registry.ChannelDefinition) : M t Error :=
  modify (set_state_ ChReconnecting);;
  s ← get;
  k ← killswitch_new; modify (set_killswitch k);; kill (killswitch s);;
  modify (λ s, set_receiver (ReceiverStates.reset (receiver_state s)) s);;
  match recovery_context s with
  | Some ctx => mret (RecoveryContext.rc_cause ctx)
  | None =>
    ctx ← RecoveryContext.new error topology;
    modify (set_context (Some ctx));;
    mret (RecoveryContext.rc_cause ctx)
  end.

Definition set_will_receive (class_id : Identifier) (cause : DeliveryCause) : M t KillSwitch :=
  modify (λ s, set_receiver (ReceiverStates.set_will_receive class_id cause (receiver_state s)) s);;
  s ← get; mret (killswitch s).

Definition set_send_flow (flow : bool) : M t unit := modify (set_flow_ flow).

(** Losing the connection disarms every delivery in flight.  [set_reconnecting] kills
    the killswitch that all deliveries handed out so far share, and gives the channel a
    live one; expected content is forgotten.  The error returned is the cause of the
    recovery: the first failure's, with the notifier of the recovery, even when
    another failure hits during the recovery, whose topology is not overwritten either. *)
Theorem reconnecting_disarms error topology s e :
  env_wf e → (killswitch s < next_ref e)%nat →
  let r := set_reconnecting error topology s e in
  let s' := state_of r in
  state s' = ChReconnecting ∧ receiver_state s' = [] ∧ confirm s' = confirm s ∧
  killed (killswitch s) (env_of r) = true ∧ killed (killswitch s') (env_of r) = false ∧
  match recovery_context s with
  | Some ctx => recovery_context s' = Some ctx ∧ result_of r = RecoveryContext.rc_cause ctx
  | None => ∃ n, notifier (result_of r) = Some n ∧ kind (result_of r) = kind error ∧
      notifier_ready n (env_of r) = false ∧
      recovery_context s' = Some (RecoveryContext.mk (result_of r) topology None n)
  end.
Proof.
  intros [Hk Hn _] Hs. cbn zeta. unfold set_reconnecting, RecoveryContext.new, killswitch_new, fresh, kill.
  destruct s as [i c fl st rs ctx k]. simpl in *.
  assert (Hnew : ∀ m, next_ref e = m → m ∉ {[k]} ∪ killed_set e).
  { intros m <-. apply not_elem_of_union. split; [set_unfold; lia|]. intros ?%Hk. lia. }
  destruct ctx as [ctx|]; simpl; unfold killed, notifier_ready; simpl.
  - rewrite bool_decide_eq_true_2 by set_solver. rewrite bool_decide_eq_false_2 by by apply Hnew. done.
  - rewrite bool_decide_eq_true_2 by set_solver. rewrite bool_decide_eq_false_2 by by apply Hnew.
    split_and!; try done. exists (S (next_ref e)). split_and!; try done.
    apply bool_decide_eq_false_2. intros ?%Hn. lia.
Qed.

(** The end of a recovery. *)
Lemma finalize_eq s e ctx : recovery_context s = Some ctx →
  finalize_connection s e =
  (tt, set_context None (set_state_ ChConnected s),
   promise_sets (Frames.cancellation (RecoveryContext.rc_cause ctx) <$> default [] (RecoveryContext.rc_expected_replies ctx))
     (set_notified ({[RecoveryContext.rc_notifier ctx]} ∪ notified e)
       (env_of (rpc_send (CSetChannelStatus (id s) (killswitch s)) s e)))).
Proof.
  intros Hctx. unfold finalize_connection. rewrite bind_modify. unfold update_rpc_status. rewrite bind_assoc, bind_get.
  assert (E : rpc_send (CSetChannelStatus (id (set_state_ ChConnected s)) (killswitch (set_state_ ChConnected s)))
    (set_state_ ChConnected s) e = (tt, set_state_ ChConnected s, env_of (rpc_send (CSetChannelStatus (id s) (killswitch s)) s e)))
    by done.
  rewrite (bind_eq _ _ _ _ _ _ _ E), bind_get. cbn [recovery_context set_state_]. rewrite Hctx, bind_modify.
  unfold RecoveryContext.finalize_recovery, notify_all. unfold mbind at 1, M_bind at 1, modify_env at 1.
  destruct (RecoveryContext.rc_expected_replies ctx) as [l|]; [|done]. by rewrite Frames.cancel_replies_eq.
Qed.

(** The end of a recovery wakes everybody.  Completing the connection while a recovery
    context is attached fires the context's notifier (the one carried by the errors
    handed out), completes all the replies kept aside with the cause, republishes
    the channel's killswitch and leaves the channel connected without context, so
    that a later failure starts a fresh recovery. *)
Theorem finalize_wakes s e ctx :
  recovery_context s = Some ctx →
  let r := finalize_connection s e in
  state_of r = set_context None (set_state_ ChConnected s) ∧
  notifier_ready (RecoveryContext.rc_notifier ctx) (env_of r) = true ∧
  CSetChannelStatus (id s) (killswitch s) ∈ rpc (env_of r) ∧
  (∀ er l, RecoveryContext.rc_expected_replies ctx = Some l → er ∈ l →
     done (Frames.reply_waiter er) (env_of r)).
Proof.
  intros Hctx. cbn zeta.
  assert (E : finalize_connection s e =
    RecoveryContext.finalize_recovery ctx (set_context None (set_state_ ChConnected s))
      (env_of (rpc_send (CSetChannelStatus (id s) (killswitch s)) s e))).
  { unfold finalize_connection, update_rpc_status, get, modify, mbind, M_bind. simpl. by rewrite Hctx. }
  rewrite E. clear E. set (s' := set_context None _). set (e' := env_of _).
  assert (Hrpc : CSetChannelStatus (id s) (killswitch s) ∈ rpc e').
  { apply elem_of_app. right. by apply list_elem_of_singleton. }
  unfold RecoveryContext.finalize_recovery. rewrite bind_keeps_state by keeps_state.
  destruct (RecoveryContext.rc_expected_replies ctx) as [l|].
  - set (e2 := env_of _).
    pose proof (Frames.keeps_state_cancel_replies l (RecoveryContext.rc_cause ctx) s' e2) as ->.
    destruct (Frames.promises_only_cancel_replies l (RecoveryContext.rc_cause ctx) s' e2) as [ps Hps].
    split_and!; [done| | |].
    + rewrite Hps. apply bool_decide_eq_true_2. simpl. apply elem_of_union_l. by apply elem_of_singleton.
    + by rewrite Hps.
    + intros er l' [= <-] Hin. by apply Frames.cancel_replies_done.
  - split_and!; [done| | |done].
    + apply bool_decide_eq_true_2. simpl. apply elem_of_union_l. by apply elem_of_singleton.
    + done.
Qed.

End ChannelStatus.

Section Witnesses.
#[local] Existing Instance number_types.

Definition demo_topology := Registry.mkChannelDefinition [] [] [].
Definition demo_env : Env := set_next_ref 5%nat env_empty.
Definition demo_status : t := mk 3 true true ChConnected [ReceiverStates.WillReceiveContent 60 Get] None 2%nat.
Definition demo_error : Error := error_from (IOError ConnectionAborted).

Lemma reconnecting_disarms_witness :
  killed 2%nat (env_of (set_reconnecting demo_error demo_topology demo_status demo_env)) = true.
Proof.
  apply (reconnecting_disarms demo_error demo_topology demo_status demo_env); [|simpl; lia].
  split; simpl; set_solver.
Defined.

Definition demo_context := RecoveryContext.mk demo_error demo_topology (Some [mkExpectedReply (RTxSelectOk 1%nat) 1%nat]) 4%nat.

Lemma finalize_wakes_witness :
  notifier_ready 4%nat (env_of (finalize_connection (set_context (Some demo_context) demo_status) demo_env)) = true.
Proof. apply (finalize_wakes (set_context (Some demo_context) demo_status) demo_env demo_context). done. Defined.

End Witnesses.
End ChannelStatus.
