(* ===== verification/Messages.v ===== *)
(** Messages in the hands of the application: deliveries (src/message.rs), settling them
    (src/acker.rs) and the delivery of [basic.get] (src/basic_get_delivery.rs). *)
From S2P Require Import Prelude.
From S2P Require Import Buffer.
From S2P Require Import Types.
From S2P Require Import Env.
Open Scope Z_scope.

(** * Suspended calls

    The synchronous part of an [async fn]: it returns, or waits for one promise and
    then returns [v] unless the promise failed ([promise.await?; Ok(v)]). *)
Inductive Async (A : Type) :=
| Ready (r : res A)
| Await (p : Resolver) (v : A).
Arguments Ready {A} r.
Arguments Await {A} p v.

Module Messages.
Section Messages.
Context `{AT : AmqpTypes}.

(** ** Ackers *)

(** [Acker::new]: every delivery gets a killswitch of its own. *)
Definition acker_new {S} (channel_id : ChannelId) (tag : DeliveryTag) (internal_rpc : bool)
    (error : option ErrorHolder) (channel_killswitch : KillSwitch) : M S Acker :=
  k ← killswitch_new; mret (mkAcker channel_id tag internal_rpc error k channel_killswitch).

Definition poisoned (a : Acker) (e : Env) : bool := killed (ack_channel_killswitch a) e.
Definition usable (a : Acker) (e : Env) : bool := negb (poisoned a e) && negb (killed (ack_killswitch a) e).
Definition invalidate {S} (a : Acker) : M S unit := kill (ack_killswitch a);; mret tt.

(** [Acker::rpc], up to the wait for the answer. *)
Definition rpc_ {S} (a : Acker) (f : Resolver → M S unit) : M S (Async bool) :=
  e ← get_env;
  if poisoned a e then mret (Ready (Ok false)) else
  first ← kill (ack_killswitch a);
  if negb first then mret (Ready (Ok false)) else
  e ← get_env;
  match (match ack_error a with Some h => holder_check h e | None => Ok tt end) with
  | Err err => mret (Ready (Err err))
  | Ok _ =>
    if ack_rpc a then
      p ← promise_new;
      f p;;
      mret (Await p true)
    else mret (Ready (Ok true))
  end.

Inductive Settle := SAck (multiple : bool) | SNack (multiple requeue : bool) | SReject (requeue : bool).

(** The command each method hands to the internal RPC. *)
Definition settle_command (a : Acker) (o : Settle) (r : Resolver) : InternalCommand :=
  match o with
  | SAck m => CBasicAck (ack_channel_id a) (ack_delivery_tag a) m r (ack_error a)
  | SNack m q => CBasicNack (ack_channel_id a) (ack_delivery_tag a) m q r (ack_error a)
  | SReject q => CBasicReject (ack_channel_id a) (ack_delivery_tag a) q r (ack_error a)
  end.

(** [Acker::ack], [nack] and [reject]. *)
Definition settle {S} (a : Acker) (o : Settle) : M S (Async bool) :=
  rpc_ a (λ r,
    match o with
    | SAck m => rpc_basic_ack (ack_channel_id a) (ack_delivery_tag a) m r (ack_error a)
    | SNack m q => rpc_basic_nack (ack_channel_id a) (ack_delivery_tag a) m q r (ack_error a)
    | SReject q => rpc_basic_reject (ack_channel_id a) (ack_delivery_tag a) q r (ack_error a)
    end).

(** ** Deliveries *)

Definition delivery_new {S} (channel_id : ChannelId) (tag : DeliveryTag) (exch key : ShortString)
    (redeliv : bool) (internal_rpc : bool) (error : option ErrorHolder) (k : KillSwitch) : M S Delivery :=
  a ← acker_new channel_id tag internal_rpc error k;
  mret (mkDelivery tag exch key redeliv BasicProperties_default [] a).

Definition get_message_new {S} (channel_id : ChannelId) (tag : DeliveryTag) (exch key : ShortString)
    (redeliv : bool) (count : MessageCount) (k : KillSwitch) : M S BasicGetMessage :=
  d ← delivery_new channel_id tag exch key redeliv true None k;
  mret (mkBasicGetMessage d count).

(** A returned message cannot be acknowledged. *)
Definition return_message_new {S} (exch key : ShortString) (code : ReplyCode) (text : ShortString)
    (k : KillSwitch) : M S BasicReturnMessage :=
  d ← delivery_new 0 0 exch key false false None k;
  invalidate (acker d);;
  mret (mkBasicReturnMessage d code text).

Definition brm_update (f : Delivery → Delivery) (m : BasicReturnMessage) : BasicReturnMessage :=
  mkBasicReturnMessage (f (brm_delivery m)) (brm_reply_code m) (brm_reply_text m).
Definition bgm_update (f : Delivery → Delivery) (m : BasicGetMessage) : BasicGetMessage :=
  mkBasicGetMessage (f (bgm_delivery m)) (bgm_message_count m).

(** ** Settling at most once *)

(** Settlement attempts on one delivery, by whoever holds a copy of its acker. *)
Definition attempts {S} (a : Acker) (os : list Settle) : M S unit :=
  for_each os (λ o, settle a o;; mret tt).

Lemma settle_dead {S} a o (s : S) e :
  killed (ack_killswitch a) e = true ∨ poisoned a e = true →
  result_of (settle a o s e) = Ready (Ok false) ∧
  rpc (env_of (settle a o s e)) = rpc e ∧
  killed_set (env_of (settle a o s e)) = killed_set e.
Proof.
  intros H. unfold settle, rpc_. rewrite bind_get_env. destruct (poisoned a e) eqn:Ep; [done|].
  destruct H as [H|]; [|done]. unfold kill, mbind, M_bind. rewrite H. simpl. split_and!; [done..|].
  apply bool_decide_eq_true in H. by apply subseteq_union_1_L, singleton_subseteq_l.
Qed.

Lemma settle_live {S} a o (s : S) e :
  usable a e = true →
  let ok := is_ok (match ack_error a with Some h => holder_check h e | None => Ok tt end) && ack_rpc a in
  rpc (env_of (settle a o s e)) = rpc e ++ (if ok then [settle_command a o (next_ref e)] else []) ∧
  killed (ack_killswitch a) (env_of (settle a o s e)) = true.
Proof.
  unfold usable. destruct (poisoned a e) eqn:Ep; [done|]. simpl. intros Hk%negb_true_iff. cbn zeta.
  unfold settle, rpc_. rewrite bind_get_env, Ep, bind_kill, Hk.
  assert (Hself : ∀ x : gset nat, ack_killswitch a ∈ {[ack_killswitch a]} ∪ x) by set_solver.
  cbn [negb]. rewrite bind_get_env. unfold killed, holder_check, settle_command. simpl.
  destruct (ack_error a) as [h|]; [destruct (once e !! h)|]; destruct (ack_rpc a), o; simpl; rewrite ?app_nil_r;
    (split; [done|apply bool_decide_eq_true_2, Hself]).
Qed.

Lemma attempts_cons {S} a o os (s : S) e :
  env_of (attempts a (o :: os) s e) = env_of (attempts a os (state_of (settle a o s e)) (env_of (settle a o s e))).
Proof.
  unfold attempts. cbn [for_each]. unfold mbind, M_bind, mret, M_ret.
  by destruct (settle a o s e) as [[x s'] e'].
Qed.

Lemma attempts_dead {S} a os (s : S) e :
  killed (ack_killswitch a) e = true ∨ poisoned a e = true → rpc (env_of (attempts a os s e)) = rpc e.
Proof.
  revert s e. induction os as [|o os IH]; intros s e H; [done|].
  destruct (settle_dead a o s e H) as (_ & Hr & Hk).
  rewrite attempts_cons, IH; [done|]. unfold poisoned, killed in *. by rewrite Hk.
Qed.

(** A delivery is settled at most once.  Whatever the acks, nacks and rejects attempted on
    copies of its acker, the internal commands sent are at most one: the one of the
    first attempt, and none at all once the delivery is invalidated or its channel
    lost the connection, when its consumer failed, or when it has no connection. *)
Theorem settled_at_most_once {S} a o os (s : S) e :
  let ok := usable a e && is_ok (match ack_error a with Some h => holder_check h e | None => Ok tt end) &&
            ack_rpc a in
  rpc (env_of (attempts a (o :: os) s e)) =
  rpc e ++ (if ok then [settle_command a o (next_ref e)] else []).
Proof.
  cbn zeta. destruct (usable a e) eqn:Hu.
  - rewrite attempts_cons, attempts_dead by (left; by apply settle_live). by apply settle_live.
  - rewrite attempts_dead; [by rewrite app_nil_r|]. unfold usable in Hu.
    destruct (poisoned a e); [by right|]. left. by apply negb_false_iff.
Qed.

End Messages.
End Messages.

(** * The message of a [basic.get] *)

Module BasicGetDelivery.
Section BasicGetDelivery.
Context `{AT : AmqpTypes}.

(** [Inner]: the message being received and whom it is for. *)
Definition t : Type := option (BasicGetMessage * Resolver).

Definition start_new_delivery (m : BasicGetMessage) (r : Resolver) : M t unit := put (Some (m, r)).

Definition new_delivery_complete : M t unit :=
  x ← get;
  match x with
  | Some (m, r) => put None;; resolve r (VGet (Some m))
  | None => mret tt
  end.

Definition handle_content_header_frame (size : PayloadSize) (props : BasicProperties) : M t unit :=
  modify (fmap (λ x, (Messages.bgm_update (λ d, set_properties d props) x.1, x.2)));;
  if size =? 0 then new_delivery_complete else mret tt.

Definition handle_body_frame (remaining_size : PayloadSize) (payload : list byte) : M t unit :=
  modify (fmap (λ x, (Messages.bgm_update (λ d, receive_content d payload) x.1, x.2)));;
  if remaining_size =? 0 then new_delivery_complete else mret tt.

End BasicGetDelivery.
End BasicGetDelivery.
