(* ===== verification/Acknowledgements.v ===== *)
(** Publisher confirms: messages the server returned (src/returned_messages.rs), the
    futures handed to publishers (src/publisher_confirm.rs) and the pending
    confirms of a channel (src/acknowledgement.rs). *)
From S2P Require Import Prelude.
From S2P Require Import IdSequence.
From S2P Require Import Buffer.
From S2P Require Import Types.
From S2P Require Import Env.
From S2P Require Import Messages.
Open Scope Z_scope.

(** * Returned messages *)

Module ReturnedMessages.
Section ReturnedMessages.
Context `{AT : AmqpTypes}.

Record t := mk {
  current_message : option BasicReturnMessage;
  non_confirm_messages : list BasicReturnMessage;
  waiting_messages : list BasicReturnMessage;
  messages : list BasicReturnMessage;
  dropped_confirms : list Resolver;
}.

Definition empty : t := mk None [] [] [] [].

Definition set_current x m := mk x (non_confirm_messages m) (waiting_messages m) (messages m) (dropped_confirms m).
Definition set_non_confirm x m := mk (current_message m) x (waiting_messages m) (messages m) (dropped_confirms m).
Definition set_waiting x m := mk (current_message m) (non_confirm_messages m) x (messages m) (dropped_confirms m).
Definition set_messages x m := mk (current_message m) (non_confirm_messages m) (waiting_messages m) x (dropped_confirms m).
Definition set_dropped x m := mk (current_message m) (non_confirm_messages m) (waiting_messages m) (messages m) x.

Definition start_new_delivery (m : BasicReturnMessage) : M t unit := modify (set_current (Some m)).

Definition new_delivery_complete (confirm_mode : bool) : M t unit :=
  s ← get;
  match current_message s with
  | Some m =>
    modify (set_current None);;
    if confirm_mode then modify (λ s, set_waiting (waiting_messages s ++ [m]) s)
    else modify (λ s, set_non_confirm (non_confirm_messages s ++ [m]) s)
  | None => mret tt
  end.

Definition handle_content_header_frame (size : PayloadSize) (props : BasicProperties) (confirm_mode : bool) : M t unit :=
  modify (λ s, set_current (Messages.brm_update (λ d, set_properties d props) <$> current_message s) s);;
  if size =? 0 then new_delivery_complete confirm_mode else mret tt.

Definition handle_body_frame (remaining_size : PayloadSize) (payload : list byte) (confirm_mode : bool) : M t unit :=
  modify (λ s, set_current (Messages.brm_update (λ d, receive_content d payload) <$> current_message s) s);;
  if remaining_size =? 0 then new_delivery_complete confirm_mode else mret tt.

(** The vector the message goes to is the caller's [messages] when there is one (it is
    returned updated), the component's own otherwise. *)
Definition process_dropped_confirm (promise : Resolver) (into : option (list BasicReturnMessage))
  : M t (option (list BasicReturnMessage)) :=
  c ← try_wait promise;
  match c with
  | Some r =>
    match r with
    | Ok (VConfirmation (Nack (Some m))) | Ok (VConfirmation (Ack (Some m))) =>
      match into with
      | Some l => mret (Some (l ++ [m]))
      | None => modify (λ s, set_messages (messages s ++ [m]) s);; mret None
      end
    | _ => mret into
    end
  | None => modify (λ s, set_dropped (dropped_confirms s ++ [promise]) s);; mret into
  end.

Definition register_dropped_confirm (promise : Resolver) : M t unit :=
  process_dropped_confirm promise None;; mret tt.

Definition get_waiting_message : M t (option BasicReturnMessage) :=
  s ← get; put (set_waiting (tail (waiting_messages s)) s);; mret (head (waiting_messages s)).

Definition clear_dropped_confirms : M t unit := modify (set_dropped []).

Fixpoint drain_loop (ps : list Resolver) (acc : list BasicReturnMessage) : M t (list BasicReturnMessage) :=
  match ps with
  | [] => mret acc
  | p :: ps => x ← process_dropped_confirm p (Some acc); drain_loop ps (default [] x)
  end.

Definition drain : M t (list BasicReturnMessage) :=
  s ← get;
  modify (set_messages []);;
  (if bool_decide (non_confirm_messages s = []) then mret tt else modify (set_non_confirm []));;
  let acc := non_confirm_messages s ++ messages s in
  match dropped_confirms s with
  | [] => mret acc
  | ps => modify (set_dropped []);; drain_loop ps acc
  end.

(** The message a completed promise carries. *)
Definition carried (r : res PVal) : option BasicReturnMessage :=
  match r with Ok (VConfirmation c) => take_message c | _ => None end.

Definition take_all (ps : list Resolver) (e : Env) : Env := set_promises (foldr delete (promises e) ps) e.

Lemma drain_loop_eq ps acc s e : NoDup ps →
  ∃ e', drain_loop ps acc s e =
    (acc ++ omap (λ p, promises e !! p ≫= carried) ps,
     set_dropped (dropped_confirms s ++ List.filter (λ p, negb (bool_decide (is_Some (promises e !! p)))) ps) s, e') ∧
    (∀ p, p ∉ ps → promises e' !! p = promises e !! p).
Proof.
  revert acc s e. induction ps as [|p ps IH]; intros acc s e Hnd; simpl.
  - exists e. rewrite !app_nil_r. by destruct s.
  - apply NoDup_cons in Hnd as [Hp Hnd].
    set (e1 := set_promises (delete p (promises e)) e).
    assert (Heq : ∀ q, q ∈ ps → promises e1 !! q = promises e !! q).
    { intros q Hq. simpl. apply lookup_delete_ne. by intros ->. }
    assert (Homap : omap (λ p, promises e1 !! p ≫= carried) ps = omap (λ p, promises e !! p ≫= carried) ps).
    { apply omap_ext_in. intros q Hq. by rewrite Heq. }
    assert (Hflt : List.filter (λ p, negb (bool_decide (is_Some (promises e1 !! p)))) ps =
                   List.filter (λ p, negb (bool_decide (is_Some (promises e !! p)))) ps).
    { apply List.filter_ext_in. intros q Hq%list_elem_of_In. by rewrite Heq. }
    assert (Hgo : ∀ acc s, ∃ e', drain_loop ps acc s e1 =
      (acc ++ omap (λ p, promises e !! p ≫= carried) ps,
       set_dropped (dropped_confirms s ++ List.filter (λ p, negb (bool_decide (is_Some (promises e !! p)))) ps) s, e') ∧
      (∀ q, q ∉ p :: ps → promises e' !! q = promises e !! q)).
    { intros acc' s'. destruct (IH acc' s' e1 Hnd) as (e' & E & He'). rewrite Homap, Hflt in E.
      exists e'. split; [done|]. intros q [Hqp Hq]%not_elem_of_cons. rewrite He' by done. simpl.
      by apply lookup_delete_ne. }
    unfold process_dropped_confirm, try_wait, mbind, M_bind. fold e1.
    destruct (promises e !! p) as [r|] eqn:Er.
    + rewrite (bool_decide_eq_true_2 (is_Some (Some r))) by eauto. simpl.
      destruct r as [[|[[m|]|[m|]|]| | | | | | |]|err]; simpl; try apply Hgo;
        destruct (Hgo (acc ++ [m]) s) as (e' & -> & He'); exists e'; (split; [|done]); by rewrite <- app_assoc.
    + rewrite (bool_decide_eq_false_2 (is_Some None)) by (intros []; done). simpl.
      destruct (Hgo acc (set_dropped (dropped_confirms s ++ [p]) s)) as (e' & -> & He').
      exists e'. split; [|done]. simpl. by rewrite <- app_assoc.
Qed.

(** No returned message is lost or handed out twice.  [drain] hands out the messages
    returned outside of confirm mode, then the ones taken from dropped confirms earlier,
    then the message carried by every dropped confirm whose verdict has arrived;
    the confirms still without verdict, and only these, stay registered for
    the next call. *)
Theorem drain_hands_out_all s e : NoDup (dropped_confirms s) →
  result_of (drain s e) =
    non_confirm_messages s ++ messages s ++ omap (λ p, promises e !! p ≫= carried) (dropped_confirms s) ∧
  state_of (drain s e) =
    set_messages [] (set_non_confirm []
      (set_dropped (List.filter (λ p, negb (bool_decide (is_Some (promises e !! p)))) (dropped_confirms s)) s)).
Proof.
  intros Hnd. unfold drain. rewrite bind_get, bind_modify.
  assert (E : ∀ k : unit → M t (list BasicReturnMessage), ((if bool_decide (non_confirm_messages s = []) then mret tt else modify (set_non_confirm [])) ≫= k)
     (set_messages [] s) e = k tt (set_non_confirm [] (set_messages [] s)) e).
  { intros k. case_bool_decide as Hn; [|done]. unfold mbind, M_bind, mret, M_ret.
    destruct s; simpl in *. by subst. }
  rewrite E. clear E. destruct (dropped_confirms s) as [|p ps] eqn:Ed.
  - rewrite app_nil_r. split; [done|]. destruct s; simpl in *. by subst.
  - rewrite bind_modify, <- Ed.
    destruct (drain_loop_eq (dropped_confirms s) (non_confirm_messages s ++ messages s)
      (set_dropped [] (set_non_confirm [] (set_messages [] s))) e) as (e' & -> & _); [by rewrite Ed|].
    by rewrite <- app_assoc.
Qed.

End ReturnedMessages.

Section Witnesses.
#[local] Existing Instance number_types.

Definition demo_message : BasicReturnMessage :=
  mkBasicReturnMessage (mkDelivery 0 "e" "k" false 0%nat [] (mkAcker 0 0 false None 0%nat 1%nat)) 312 "NO_ROUTE".
Definition demo_store : Env := promise_sets [(3%nat, Ok (VConfirmation (Ack (Some demo_message))))] env_empty.

Lemma drain_hands_out_all_witness :
  result_of (drain (mk None [] [] [] [2; 3]%nat) demo_store) = [demo_message].
Proof.
  apply (drain_hands_out_all (mk None [] [] [] [2; 3]%nat) demo_store).
  repeat constructor; set_solver.
Defined.

End Witnesses.
End ReturnedMessages.

(** * Publisher confirms *)

Module PublisherConfirm.
Section PublisherConfirm.
Context `{AT : AmqpTypes}.

(** [inner]; the [returned_messages] of the struct are the channel's. *)
Definition t : Type := option Resolver.

Definition new (p : Resolver) : t := Some p.

Definition not_requested {S} : M S t :=
  p ← promise_new; complete p (Ok (VConfirmation NotRequested));; mret (Some p).

(** [Future::poll]: the result when there is one, and the future afterwards. *)
Definition poll {S} (c : t) : M S (option (res PVal) * t) :=
  match c with
  | None => mret (Some (Err (error_from FutureCompleted)), None)
  | Some p =>
    r ← try_wait p;
    mret (match r with Some x => (Some x, None) | None => (None, Some p) end)
  end.

(** [Drop]. *)
Definition drop (c : t) : M ReturnedMessages.t unit :=
  match c with Some p => ReturnedMessages.register_dropped_confirm p | None => mret tt end.

End PublisherConfirm.
End PublisherConfirm.

(** * Pending confirms *)

Module Acknowledgements.
Section Acknowledgements.
Context `{AT : AmqpTypes} `{HO : !HashOrder Z}.

(** [Inner]; [pending] holds the resolver of the confirmation and the one of the error
    promise.  [returned_messages] is shared with the channel. *)
Record t := mk {
  channel_id : ChannelId;
  delivery_tag : IdSequence.t;
  last : option Resolver;
  pending : gmap Z (Resolver * Resolver);
  returned_messages : ReturnedMessages.t;
}.

Definition new (ch : ChannelId) : t := mk ch (IdSequence.new false) None ∅ ReturnedMessages.empty.

Definition set_delivery_tag x a := mk (channel_id a) x (last a) (pending a) (returned_messages a).
Definition set_last x a := mk (channel_id a) (delivery_tag a) x (pending a) (returned_messages a).
Definition set_pending x a := mk (channel_id a) (delivery_tag a) (last a) x (returned_messages a).
Definition set_returned x a := mk (channel_id a) (delivery_tag a) (last a) (pending a) x.

Definition in_returned {A} (m : M ReturnedMessages.t A) : M t A := zoom returned_messages set_returned m.

Definition register_pending : M t PublisherConfirm.t :=
  a ← get;
  let (tag, seq) := IdSequence.next 64 (delivery_tag a) in
  modify (set_delivery_tag seq);;
  resolver ← promise_new;
  err_resolver ← promise_new;
  modify (set_last (Some err_resolver));;
  modify (λ a, set_pending (<[tag := (resolver, err_resolver)]> (pending a)) a);;
  mret (PublisherConfirm.new resolver).

Definition get_last_pending : M t (option Resolver) :=
  a ← get; put (set_last None a);; mret (last a).

Definition confirmation (success : bool) (m : option BasicReturnMessage) : Confirmation :=
  if success then Ack m else Nack m.

Definition complete_pending (success : bool) (tag : DeliveryTag) (rs : Resolver * Resolver) : M t unit :=
  returned_message ← in_returned ReturnedMessages.get_waiting_message;
  resolve rs.1 (VConfirmation (confirmation success returned_message));;
  a ← get;
  if bool_decide (Some tag = IdSequence.current (delivery_tag a)) then resolve rs.2 VUnit else mret tt.

Definition drop_all (success : bool) : M t unit :=
  a ← get;
  modify (set_pending ∅);;
  for_each (hash_order (pending a)) (λ x, complete_pending success x.1 x.2).

(** [{:?}] of an [Option] and of the keys of a map. *)
Definition debug_option (x : option Z) : string :=
  match x with Some i => "Some(" +:+ pretty i +:+ ")" | None => "None" end.

Fixpoint comma_separated (l : list string) : string :=
  match l with
  | [] => ""
  | [x] => x
  | x :: l => x +:+ ", " +:+ comma_separated l
  end.

Definition bad_ack_message (success : bool) (tag : DeliveryTag) (a : t) : string :=
  "invalid " +:+ (if success then "ack" else "nack") +:+ " received for inexistant delivery_tag " +:+
  pretty tag +:+ " on channel " +:+ pretty (channel_id a) +:+ ", current is " +:+
  debug_option (IdSequence.current (delivery_tag a)) +:+ ", was expecting one of [" +:+
  comma_separated (pretty <$> (hash_order (pending a)).*1) +:+ "]".

Definition drop_pending (tag : DeliveryTag) (success : bool) : M t (result AMQPError unit) :=
  a ← get;
  match pending a !! tag with
  | Some rs =>
    modify (set_pending (delete tag (pending a)));;
    complete_pending success tag rs;;
    mret (Ok tt)
  | None => mret (Err (mkAMQPError (Soft PRECONDITIONFAILED) (bad_ack_message success tag a)))
  end.

Fixpoint complete_loop (tags : list DeliveryTag) (success : bool) (r : result AMQPError unit)
  : M t (result AMQPError unit) :=
  match tags with
  | [] => mret r
  | tag :: tags =>
    x ← drop_pending tag success;
    complete_loop tags success (match x with Err err => Err err | Ok _ => r end)
  end.

Definition complete_pending_before (tag : DeliveryTag) (success : bool) : M t (result AMQPError unit) :=
  a ← get;
  complete_loop (List.filter (λ k, k <=? tag) (hash_order (pending a)).*1) success (Ok tt).

(** [ack], [nack], [ack_all_pending], [nack_all_pending], [ack_all_before],
    [nack_all_before]. *)
Definition ack (tag : DeliveryTag) := drop_pending tag true.
Definition nack (tag : DeliveryTag) := drop_pending tag false.
Definition ack_all_pending := drop_all true.
Definition nack_all_pending := drop_all false.
Definition ack_all_before (tag : DeliveryTag) := complete_pending_before tag true.
Definition nack_all_before (tag : DeliveryTag) := complete_pending_before tag false.

Definition on_channel_error (error : Error) : M t unit :=
  a ← get;
  for_each (hash_order (pending a)) (λ x,
    reject x.2.1 error;;
    if bool_decide (Some x.1 = IdSequence.current (delivery_tag a)) then reject x.2.2 error else mret tt);;
  modify (set_pending ∅);;
  in_returned ReturnedMessages.clear_dropped_confirms.

Definition reset (error : Error) : M t unit :=
  modify (set_delivery_tag (IdSequence.new false));;
  on_channel_error error.

(** ** What completing confirms does to the promises *)

(** The completions of a list of pending confirms, in order. *)
Fixpoint settlements (success : bool) (current : option Z) (waiting : list BasicReturnMessage)
    (xs : list (Z * (Resolver * Resolver))) : list (Resolver * res PVal) :=
  match xs with
  | [] => []
  | (tag, (p, q)) :: xs =>
    (p, Ok (VConfirmation (confirmation success (head waiting)))) ::
    (if bool_decide (Some tag = current) then [(q, Ok VUnit)] else []) ++
    settlements success current (tail waiting) xs
  end.

Lemma settlements_cons success current w x xs :
  settlements success current w (x :: xs) =
  settlements success current w [x] ++ settlements success current (drop 1 w) xs.
Proof. destruct x as [tag [p q]]. simpl. by rewrite tail_drop1, app_nil_r. Qed.

Definition pop_waiting (n : nat) (a : t) : t :=
  set_returned (ReturnedMessages.set_waiting (drop n (ReturnedMessages.waiting_messages (returned_messages a)))
                  (returned_messages a)) a.

Lemma complete_pending_eq success tag p q a e :
  complete_pending success tag (p, q) a e =
  (tt, pop_waiting 1 a,
   promise_sets (settlements success (IdSequence.current (delivery_tag a))
     (ReturnedMessages.waiting_messages (returned_messages a)) [(tag, (p, q))]) e).
Proof.
  unfold complete_pending, in_returned, zoom, ReturnedMessages.get_waiting_message, resolve, complete,
    modify_env, get, put, mbind, M_bind, mret, M_ret. simpl.
  unfold pop_waiting. rewrite tail_drop1. by case_bool_decide.
Qed.

Lemma pop_waiting_add n m a : pop_waiting n (pop_waiting m a) = pop_waiting (m + n) a.
Proof. unfold pop_waiting; simpl. by rewrite drop_drop. Qed.

Lemma pop_waiting_0 a : pop_waiting 0 a = a.
Proof. by destruct a as [? ? ? ? []]. Qed.

Lemma complete_many success xs a e :
  for_each xs (λ x, complete_pending success x.1 x.2) a e =
  (tt, pop_waiting (length xs) a,
   promise_sets (settlements success (IdSequence.current (delivery_tag a))
     (ReturnedMessages.waiting_messages (returned_messages a)) xs) e).
Proof.
  revert a e. induction xs as [|[tag [p q]] xs IH]; intros a e.
  - simpl. by rewrite pop_waiting_0.
  - cbn [for_each]. unfold mbind at 1, M_bind at 1. cbn [fst snd]. rewrite complete_pending_eq, IH, pop_waiting_add.
    by rewrite (settlements_cons _ _ _ _ xs), promise_sets_app.
Qed.

Lemma foldr_delete_delete {A} (m : gmap Z A) k ks :
  foldr delete (delete k m) ks = delete k (foldr delete m ks).
Proof. induction ks as [|k' ks IH]; simpl; [done|]. by rewrite IH, delete_delete. Qed.

(** The loop of [complete_pending_before] on distinct pending tags. *)
Lemma complete_loop_eq success xs r a e :
  NoDup xs.*1 → (∀ tag rs, (tag, rs) ∈ xs → pending a !! tag = Some rs) →
  complete_loop xs.*1 success r a e =
  (r, pop_waiting (length xs) (set_pending (foldr delete (pending a) xs.*1) a),
   promise_sets (settlements success (IdSequence.current (delivery_tag a))
     (ReturnedMessages.waiting_messages (returned_messages a)) xs) e).
Proof.
  revert a e. induction xs as [|[tag [p q]] xs IH]; intros a e Hnd Hin.
  - simpl. rewrite pop_waiting_0. by destruct a.
  - apply NoDup_cons in Hnd as [Htag Hnd]. cbn [fmap list_fmap fst complete_loop].
    unfold mbind at 1, M_bind at 1. unfold drop_pending. rewrite bind_get.
    rewrite (Hin tag (p, q)) by left. rewrite bind_modify. unfold mbind at 1, M_bind at 1.
    rewrite complete_pending_eq. unfold mret at 1, M_ret at 1. rewrite IH; [|done|].
    + rewrite (settlements_cons _ _ _ _ xs), promise_sets_app. unfold pop_waiting. simpl. rewrite drop_drop.
      by rewrite foldr_delete_delete.
    + intros tag' rs Hin'. simpl. rewrite lookup_delete_ne; [apply Hin; by right|].
      intros <-. apply Htag, list_elem_of_fmap. by exists (tag, rs).
Qed.

(** ** The contract: one verdict per publish

    The abstract state lists the verdicts of the published messages in publishing
    order, [None] while the server has not answered. *)
Inductive Verdict := Confirmed (success : bool) | Failed (err : Error).

#[local] Instance Verdict_eq : EqDecision Verdict.
Proof. solve_decision. Defined.

Inductive ConfirmOp :=
| OPublish
| OConfirm (tag : DeliveryTag) (multiple success : bool)
| OFail (err : Error).

(** The tags an acknowledgement is about. *)
Definition covers (tag : DeliveryTag) (multiple : bool) (k : DeliveryTag) : bool :=
  if multiple then if 0 <? tag then k <=? tag else true else k =? tag.

Definition give (covered : Z → bool) (v : Verdict) (l : list (option Verdict)) : list (option Verdict) :=
  imap (λ i o, match o with
               | None => if covered (Z.of_nat i + 1) then Some v else None
               | Some _ => o
               end) l.

Definition spec_step (l : list (option Verdict)) (o : ConfirmOp) : list (option Verdict) * bool :=
  match o with
  | OPublish => (l ++ [None], true)
  | OConfirm tag multiple success =>
    (give (covers tag multiple) (Confirmed success) l,
     multiple || bool_decide (1 ≤ tag ∧ l !! Z.to_nat (tag - 1) = Some None))
  | OFail err => (give (λ _, true) (Failed err) l, true)
  end.

(** The acknowledgement handlers of the channel ([on_basic_ack_received] and
    [on_basic_nack_received]), without the error reporting. *)
Definition on_confirm (tag : DeliveryTag) (multiple success : bool) : M t (result AMQPError unit) :=
  if multiple then
    if 0 <? tag then complete_pending_before tag success else drop_all success;; mret (Ok tt)
  else drop_pending tag success.

(** The implementation, with the promises of the messages published so far. *)
Definition impl_step (x : list (Resolver * Resolver) * t * Env) (o : ConfirmOp)
  : (list (Resolver * Resolver) * t * Env) * bool :=
  let '(ps, a, e) := x in
  match o with
  | OPublish =>
    let '(c, a', e') := register_pending a e in
    (ps ++ match c, last a' with Some p, Some q => [(p, q)] | _, _ => [] end, a', e', true)
  | OConfirm tag multiple success =>
    let '(r, a', e') := on_confirm tag multiple success a e in (ps, a', e', is_ok r)
  | OFail err => let '(_, a', e') := on_channel_error err a e in (ps, a', e', true)
  end.

Fixpoint spec_run (l : list (option Verdict)) (os : list ConfirmOp) : list (option Verdict) * list bool :=
  match os with
  | [] => (l, [])
  | o :: os => let (l', b) := spec_step l o in let (l'', bs) := spec_run l' os in (l'', b :: bs)
  end.

Fixpoint impl_run (x : list (Resolver * Resolver) * t * Env) (os : list ConfirmOp)
  : (list (Resolver * Resolver) * t * Env) * list bool :=
  match os with
  | [] => (x, [])
  | o :: os => let (x', b) := impl_step x o in let (x'', bs) := impl_run x' os in (x'', b :: bs)
  end.

(** How a promise tells the verdict. *)
Definition told (v : Verdict) (x : option (res PVal)) : Prop :=
  match v with
  | Confirmed success => ∃ m, x = Some (Ok (VConfirmation (confirmation success m)))
  | Failed err => x = Some (Err err)
  end.

Definition told_last (v : Verdict) : res PVal :=
  match v with Confirmed _ => Ok VUnit | Failed err => Err err end.

(** The promises of the messages agree with the verdicts; the error promise of the last
    published message is the one [wait_for_confirms] waits for. *)
Record agrees (l : list (option Verdict)) (ps : list (Resolver * Resolver)) (a : t) (e : Env) : Prop := {
  ag_length : length ps = length l;
  ag_none : ∀ i rs, l !! i = Some None → ps !! i = Some rs →
    promises e !! rs.1 = None ∧ promises e !! rs.2 = None;
  ag_some : ∀ i rs v, l !! i = Some (Some v) → ps !! i = Some rs → told v (promises e !! rs.1);
  ag_last : ∀ i rs v, S i = length l → l !! i = Some (Some v) → ps !! i = Some rs →
    promises e !! rs.2 = Some (told_last v);
  ag_wait : last a = snd <$> ps !! (length ps - 1)%nat;
}.

(** The invariant that carries it. *)
Record inv (l : list (option Verdict)) (ps : list (Resolver * Resolver)) (a : t) (e : Env) : Prop := {
  in_agrees : agrees l ps a e;
  in_seq : delivery_tag a = IdSequence.after (Z.of_nat (length l));
  in_pending : ∀ k rs, pending a !! k = Some rs ↔
    ∃ i, k = Z.of_nat i + 1 ∧ l !! i = Some None ∧ ps !! i = Some rs;
  in_distinct : ∀ i j rs rs', ps !! i = Some rs → ps !! j = Some rs' →
    rs.1 ≠ rs'.2 ∧ (rs.1 = rs'.1 → i = j) ∧ (rs.2 = rs'.2 → i = j);
  in_old : ∀ i rs, ps !! i = Some rs → (rs.1 < next_ref e)%nat ∧ (rs.2 < next_ref e)%nat;
  in_fresh : ∀ p r, promises e !! p = Some r → (p < next_ref e)%nat;
}.

Lemma inv_publish l ps a e :
  inv l ps a e → Z.of_nat (length l) + 2 < 2 ^ 64 →
  inv (spec_step l OPublish).1 (impl_step (ps, a, e) OPublish).1.1.1
      (impl_step (ps, a, e) OPublish).1.1.2 (impl_step (ps, a, e) OPublish).1.2.
Proof.
  intros [[Hlen Hnone Hsome Hlast Hwait] Hseq Hpend Hdist Hold Hfresh] Hmax.
  unfold impl_step, register_pending. rewrite bind_get, Hseq, IdSequence.next_after by lia.
  simpl. set (n := next_ref e).
  assert (Hps : ∀ i rs, (ps ++ [(n, S n)]) !! i = Some rs →
    ps !! i = Some rs ∨ i = length ps ∧ rs = (n, S n)).
  { intros i rs. rewrite lookup_app_if. case_decide; [by left|]. intros Hi. right.
    apply list_lookup_singleton_Some in Hi as [? ->]. split; [lia|done]. }
  assert (Hl : ∀ i o, (l ++ [None]) !! i = Some o → i ≠ length l → l !! i = Some o).
  { intros i o. rewrite lookup_app_if. case_decide; [done|].
    intros [? _]%list_lookup_singleton_Some. lia. }
  assert (Hnew : promises e !! n = None ∧ promises e !! S n = None).
  { split; (destruct (promises e !! _) as [r|] eqn:E; [|done]); apply Hfresh in E; subst n; lia. }
  split; [split| | | | |]; simpl.
  - rewrite !length_app. simpl. lia.
  - intros i rs Hi [Hp|[-> ->]]%Hps; [|done].
    apply (Hnone i); [|done]. apply Hl; [done|]. apply lookup_lt_Some in Hp. lia.
  - intros i rs v Hi [Hp|[-> ->]]%Hps.
    + apply (Hsome i); [|done]. apply Hl; [done|]. apply lookup_lt_Some in Hp. lia.
    + by rewrite Hlen, list_lookup_middle in Hi.
  - intros i rs v Hi Hv _. rewrite length_app in Hi. simpl in Hi.
    by replace i with (length l) in Hv by lia; rewrite list_lookup_middle in Hv.
  - rewrite length_app. simpl. replace (length ps + 1 - 1)%nat with (length ps) by lia.
    by rewrite list_lookup_middle.
  - rewrite length_app. simpl. f_equal. lia.
  - intros k rs. rewrite lookup_insert_Some. split.
    + intros [[<- <-]|[Hk [i (-> & Hi & Hp)]%Hpend]].
      * exists (length l). rewrite <- Hlen at 3. by rewrite !list_lookup_middle.
      * exists i. split_and!; [done|by apply lookup_app_l_Some|by apply lookup_app_l_Some].
    + intros (i & -> & Hi & [Hp|[-> ->]]%Hps).
      * right. assert (i < length ps)%nat by by eapply lookup_lt_Some. split; [lia|].
        apply Hpend. exists i. split_and!; [done| |done]. apply Hl; [done|lia].
      * left. split; [lia|done].
  - intros i j rs rs' [Hi|[-> ->]]%Hps [Hj|[-> ->]]%Hps; simpl.
    + by apply Hdist.
    + apply Hold in Hi as [? ?]. subst n. split_and!; lia.
    + apply Hold in Hj as [? ?]. subst n. split_and!; lia.
    + split_and!; lia.
  - intros i rs [Hi|[-> ->]]%Hps; simpl; [|subst n; lia]. apply Hold in Hi. subst n. lia.
  - intros p r Hp. apply Hfresh in Hp. lia.
Qed.

(** The promises of a list of pending confirms. *)
Definition resolvers (xs : list (Z * (Resolver * Resolver))) : list Resolver := xs ≫= λ x, [x.2.1; x.2.2].

Lemma elem_of_resolvers r xs : r ∈ resolvers xs ↔ ∃ k rs, (k, rs) ∈ xs ∧ (r = rs.1 ∨ r = rs.2).
Proof.
  unfold resolvers. rewrite list_elem_of_bind. split.
  - intros ([k rs] & Hr & Hin). exists k, rs. split; [done|]. simpl in Hr. set_solver.
  - intros (k & rs & Hin & Hr). exists (k, rs). split; [simpl; set_solver|done].
Qed.

Lemma resolvers_NoDup l ps a e xs :
  inv l ps a e → NoDup xs.*1 → (∀ k rs, (k, rs) ∈ xs → pending a !! k = Some rs) → NoDup (resolvers xs).
Proof.
  intros Hinv Hnd Hin. induction xs as [|[k [p q]] xs IH]; [constructor|].
  apply NoDup_cons in Hnd as [Hk Hnd].
  assert (Hd : ∀ k' rs', (k', rs') ∈ xs → p ≠ rs'.1 ∧ p ≠ rs'.2 ∧ q ≠ rs'.1 ∧ q ≠ rs'.2 ∧ p ≠ q).
  { intros k' rs' Hx. assert (k ≠ k').
    { intros <-. apply Hk, list_elem_of_fmap. by exists (k, rs'). }
    destruct (proj1 (in_pending _ _ _ _ Hinv k (p, q)) (Hin _ _ (list_elem_of_here _ _))) as (i & -> & _ & Hi).
    destruct (proj1 (in_pending _ _ _ _ Hinv k' rs') (Hin _ _ (list_elem_of_further _ _ _ Hx))) as (j & -> & _ & Hj).
    destruct (in_distinct _ _ _ _ Hinv i j _ _ Hi Hj) as (H1 & H2 & H3).
    destruct (in_distinct _ _ _ _ Hinv j i _ _ Hj Hi) as (H4 & _ & _).
    destruct (in_distinct _ _ _ _ Hinv i i _ _ Hi Hi) as (H5 & _ & _). simpl in *.
    split_and!; try done; intros ->; [by assert (i = j) by auto; lia|by assert (i = j) by auto; lia]. }
  assert (Hpq : p ≠ q).
  { destruct (proj1 (in_pending _ _ _ _ Hinv k (p, q)) (Hin _ _ (list_elem_of_here _ _))) as (i & _ & _ & Hi).
    by destruct (in_distinct _ _ _ _ Hinv i i _ _ Hi Hi). }
  change (resolvers ((k, (p, q)) :: xs)) with (p :: q :: resolvers xs).
  rewrite !NoDup_cons, elem_of_cons, !elem_of_resolvers. split_and!.
  - intros [?|(k' & rs' & Hx & Hr)]; [done|]. destruct (Hd k' rs' Hx) as (? & ? & _). naive_solver.
  - intros (k' & rs' & Hx & Hr). destruct (Hd k' rs' Hx) as (_ & _ & ? & ? & _). naive_solver.
  - apply IH; [done|]. intros k' rs' Hx. apply Hin. by right.
Qed.

Lemma give_lookup covered v l i o : give covered v l !! i = Some o ↔
  ∃ o', l !! i = Some o' ∧
    o = match o' with None => if covered (Z.of_nat i + 1) then Some v else None | Some _ => o' end.
Proof. unfold give. rewrite list_lookup_imap, fmap_Some. naive_solver. Qed.

(** A batch of completions gives the covered messages their verdict. *)
Lemma inv_settle covered v cs xs l ps a a' e :
  inv l ps a e → NoDup xs.*1 →
  (∀ k rs, (k, rs) ∈ xs ↔ pending a !! k = Some rs ∧ covered k = true) →
  (∀ k p q, (k, (p, q)) ∈ xs → ∃ r, (p, r) ∈ cs ∧ told v (Some r)) →
  (∀ k p q, (k, (p, q)) ∈ xs → Some k = IdSequence.current (delivery_tag a) → (q, told_last v) ∈ cs) →
  cs.*1 `sublist_of` resolvers xs →
  delivery_tag a' = delivery_tag a → last a' = last a →
  (∀ k rs, pending a' !! k = Some rs ↔ pending a !! k = Some rs ∧ covered k = false) →
  inv (give covered v l) ps a' (promise_sets cs e).
Proof.
  intros Hinv Hnd Hxs Hcs Hcur Hsub Htag Hlst Hpend'.
  pose proof Hinv as [[Hlen Hnone Hsome Hlast Hwait] Hseq Hpend Hdist Hold Hfresh].
  assert (Hndc : NoDup cs.*1).
  { eapply sublist_NoDup; [|exact Hsub]. eapply resolvers_NoDup; [done..|]. intros k rs Hx. by apply Hxs. }
  assert (Hcell : ∀ x, x ∈ cs.*1 → ∃ i rs, l !! i = Some None ∧ ps !! i = Some rs ∧
            covered (Z.of_nat i + 1) = true ∧ (x = rs.1 ∨ x = rs.2)).
  { intros x Hx. eapply elem_of_sublist in Hx; [|exact Hsub]. apply elem_of_resolvers in Hx as (k & rs & Hx & Hr).
    apply Hxs in Hx as [(i & -> & ? & ?)%Hpend ?]. by exists i, rs. }
  assert (Hcnone : ∀ x, x ∈ cs.*1 → promises e !! x = None).
  { intros x (i & rs & Hi & Hp & _ & Hx)%Hcell. destruct (Hnone i rs Hi Hp). by destruct Hx as [->| ->]. }
  assert (Hother : ∀ i rs, ps !! i = Some rs → (∀ o, l !! i = Some o → o ≠ None ∨ covered (Z.of_nat i + 1) = false) →
            rs.1 ∉ cs.*1 ∧ rs.2 ∉ cs.*1).
  { intros i rs Hp Ho. split; intros (j & rs' & Hj & Hp' & Hc & Hx)%Hcell;
      destruct (Hdist i j _ _ Hp Hp') as (H1 & H2 & H3), (Hdist j i _ _ Hp' Hp) as (H4 & _ & _);
      (assert (i = j) as -> by naive_solver); destruct (Ho None Hj); congruence. }
  assert (Hmem : ∀ i rs, l !! i = Some None → ps !! i = Some rs → covered (Z.of_nat i + 1) = true →
            (Z.of_nat i + 1, (rs.1, rs.2)) ∈ xs).
  { intros i [p q] Hi Hp Hc. apply Hxs. split; [|done]. apply Hpend. eauto. }
  split; [split| | | | |].
  - unfold give. by rewrite length_imap.
  - intros i rs (o' & Hi & Ho)%give_lookup Hp.
    destruct o' as [|]; [done|]. destruct (covered _) eqn:Ec; [done|].
    destruct (Hother i rs Hp) as [? ?]; [intros; by right|].
    rewrite !promise_sets_other by done. eauto.
  - intros i rs w (o' & Hi & Ho)%give_lookup Hp. destruct o' as [w'|].
    + simplify_eq. destruct (Hother i rs Hp) as [? _]; [intros o Hi'; left; congruence|].
      rewrite promise_sets_other by done. eauto.
    + destruct (covered _) eqn:Ec; [|done]. simplify_eq.
      destruct (Hcs _ _ _ (Hmem i rs Hi Hp Ec)) as (r & Hr & Ht).
      by erewrite promise_sets_lookup.
  - unfold give. rewrite length_imap. intros i rs w Hil (o' & Hi & Ho)%give_lookup Hp. destruct o' as [w'|].
    + simplify_eq. destruct (Hother i rs Hp) as [_ ?]; [intros o Hi'; left; congruence|].
      rewrite promise_sets_other by done. eauto.
    + destruct (covered _) eqn:Ec; [|done]. simplify_eq.
      apply promise_sets_lookup; [done..|]. eapply Hcur; [by apply Hmem|].
      rewrite Hseq, IdSequence.current_after by lia. destruct (Z.eqb_spec (Z.of_nat (length l)) 0); [lia|].
      f_equal. lia.
  - by rewrite Hlst.
  - unfold give. by rewrite Htag, length_imap.
  - intros k rs. rewrite Hpend', Hpend. split.
    + intros [(i & -> & Hi & Hp) Hc]. exists i. split_and!; [done| |done].
      apply give_lookup. exists None. by rewrite Hc.
    + intros (i & -> & (o' & Hi & Ho)%give_lookup & Hp). destruct o'; [done|].
      destruct (covered _) eqn:Ec; [done|]. eauto.
  - done.
  - rewrite promise_sets_next_ref. done.
  - rewrite promise_sets_next_ref. intros p r Hp. destruct (decide (p ∈ cs.*1)) as [Hin|Hin].
    + apply Hcell in Hin as (i & rs & _ & Hi & _ & Hx). apply Hold in Hi as [? ?]. by destruct Hx as [->| ->].
    + rewrite promise_sets_other in Hp by done. eauto.
Qed.

Lemma settlements_spec su cur w xs :
  (∀ k p q, (k, (p, q)) ∈ xs →
     ∃ m, (p, Ok (VConfirmation (confirmation su m))) ∈ settlements su cur w xs) ∧
  (∀ k p q, (k, (p, q)) ∈ xs → Some k = cur → (q, Ok VUnit) ∈ settlements su cur w xs) ∧
  (settlements su cur w xs).*1 `sublist_of` resolvers xs.
Proof.
  revert w. induction xs as [|[k [p q]] xs IH]; intros w.
  - split_and!; [by intros ??? ?%not_elem_of_nil..|done].
  - destruct (IH (tail w)) as (H1 & H2 & H3). cbn [settlements]. split_and!.
    + intros k' p' q' [[= -> -> ->]|Hin]%elem_of_cons; [eexists; left|].
      destruct (H1 k' p' q' Hin) as [m ?]. exists m. right. apply elem_of_app. by right.
    + intros k' p' q' [[= -> -> ->]|Hin]%elem_of_cons Hk; right; apply elem_of_app.
      * left. rewrite bool_decide_eq_true_2 by done. left.
      * right. by apply (H2 k' p' q').
    + change (resolvers ((k, (p, q)) :: xs)) with (p :: q :: resolvers xs).
      rewrite fmap_cons, fmap_app. apply sublist_skip. case_bool_decide; simpl; [by apply sublist_skip|by apply sublist_cons].
Qed.

Lemma inv_confirmed covered su xs l ps a a' e :
  inv l ps a e → NoDup xs.*1 →
  (∀ k rs, (k, rs) ∈ xs ↔ pending a !! k = Some rs ∧ covered k = true) →
  delivery_tag a' = delivery_tag a → last a' = last a →
  (∀ k rs, pending a' !! k = Some rs ↔ pending a !! k = Some rs ∧ covered k = false) →
  inv (give covered (Confirmed su) l) ps a'
    (promise_sets (settlements su (IdSequence.current (delivery_tag a))
       (ReturnedMessages.waiting_messages (returned_messages a)) xs) e).
Proof.
  intros Hinv Hnd Hxs Htag Hlst Hpend.
  destruct (settlements_spec su (IdSequence.current (delivery_tag a))
    (ReturnedMessages.waiting_messages (returned_messages a)) xs) as (H1 & H2 & H3).
  eapply inv_settle; try done.
  intros k p q Hin. destruct (H1 k p q Hin) as [m Hm]. eexists; split; [done|]. by exists m.
Qed.

(** The failures of a list of pending confirms. *)
Fixpoint failures (err : Error) (cur : option Z) (xs : list (Z * (Resolver * Resolver)))
  : list (Resolver * res PVal) :=
  match xs with
  | [] => []
  | (k, (p, q)) :: xs =>
    (p, Err err) :: (if bool_decide (Some k = cur) then [(q, Err err)] else []) ++ failures err cur xs
  end.

Lemma failures_spec err cur xs :
  (∀ k p q, (k, (p, q)) ∈ xs → (p, Err err) ∈ failures err cur xs) ∧
  (∀ k p q, (k, (p, q)) ∈ xs → Some k = cur → (q, Err err) ∈ failures err cur xs) ∧
  (failures err cur xs).*1 `sublist_of` resolvers xs.
Proof.
  induction xs as [|[k [p q]] xs (H1 & H2 & H3)].
  - split_and!; [by intros ??? ?%not_elem_of_nil..|done].
  - cbn [failures]. split_and!.
    + intros k' p' q' [[= -> -> ->]|Hin]%elem_of_cons; [left|].
      right. apply elem_of_app. right. by eapply H1.
    + intros k' p' q' [[= -> -> ->]|Hin]%elem_of_cons Hk; right; apply elem_of_app.
      * left. rewrite bool_decide_eq_true_2 by done. left.
      * right. by apply (H2 k' p' q').
    + change (resolvers ((k, (p, q)) :: xs)) with (p :: q :: resolvers xs).
      rewrite fmap_cons, fmap_app. apply sublist_skip. case_bool_decide; simpl; [by apply sublist_skip|by apply sublist_cons].
Qed.

Lemma fail_many err cur xs (a : t) e :
  for_each xs (λ x, reject x.2.1 err;;
    if bool_decide (Some x.1 = cur) then reject x.2.2 err else mret tt) a e =
  (tt, a, promise_sets (failures err cur xs) e).
Proof.
  revert e. induction xs as [|[k [p q]] xs IH]; intros e; [done|]. cbn [for_each failures].
  unfold mbind at 1 3, M_bind at 1 3. cbn [fst snd].
  unfold reject at 1, complete at 1, modify_env at 1. simpl.
  case_bool_decide; simpl; by rewrite IH.
Qed.

(** The entries of [pending], in iteration order. *)
Lemma pending_entries (m : gmap Z (Resolver * Resolver)) (f : Z → bool) :
  let xs := List.filter (λ x, f x.1) (hash_order m) in
  NoDup xs.*1 ∧ xs.*1 = List.filter f (hash_order m).*1 ∧
  (∀ k rs, (k, rs) ∈ xs ↔ m !! k = Some rs ∧ f k = true).
Proof.
  cbn zeta.
  assert (E : (List.filter (λ x, f x.1) (hash_order m)).*1 = List.filter f (hash_order m).*1).
  { induction (hash_order m) as [|[k rs] xs IH]; [done|]. rewrite fmap_cons. cbn [List.filter fst].
    destruct (f k); [|done]. rewrite fmap_cons. by f_equal. }
  rewrite E. split_and!; [|done|].
  - apply NoDup_ListNoDup, List.NoDup_filter, NoDup_ListNoDup, hash_order_NoDup.
  - intros k rs. rewrite !list_elem_of_In, List.filter_In, <- list_elem_of_In, hash_order_elem. done.
Qed.

Lemma lookup_deleted (m : gmap Z (Resolver * Resolver)) ks k rs :
  foldr delete m ks !! k = Some rs ↔ m !! k = Some rs ∧ k ∉ ks.
Proof.
  induction ks as [|k' ks IH]; simpl; [set_solver|]. rewrite lookup_delete_Some, IH, not_elem_of_cons. naive_solver.
Qed.

Lemma inv_before l ps a e tag su : inv l ps a e →
  let r := complete_pending_before tag su a e in
  inv (give (λ k, k <=? tag) (Confirmed su) l) ps (state_of r) (env_of r) ∧ result_of r = Ok tt.
Proof.
  intros Hinv. cbn zeta. unfold complete_pending_before. rewrite bind_get.
  destruct (pending_entries (pending a) (λ k, k <=? tag)) as (Hnd & E & Hxs).
  rewrite <- E, complete_loop_eq; [|done|intros k rs Hin; by apply Hxs]. split; [|done].
  apply inv_confirmed; try done. intros k rs. simpl. rewrite lookup_deleted, E. split.
  - intros [Hk Hn]. split; [done|]. apply not_true_iff_false. intros Ht. apply Hn.
    apply list_elem_of_In, List.filter_In. split; [|done]. apply list_elem_of_In, list_elem_of_fmap.
    exists (k, rs). split; [done|]. by apply hash_order_elem.
  - intros [Hk Hf]. split; [done|]. intros [_ Ht]%list_elem_of_In%List.filter_In. congruence.
Qed.

Lemma inv_all l ps a e su : inv l ps a e →
  let r := drop_all su a e in
  inv (give (λ _, true) (Confirmed su) l) ps (state_of r) (env_of r).
Proof.
  intros Hinv. cbn zeta. unfold drop_all. rewrite bind_get, bind_modify, complete_many.
  apply (inv_confirmed _ su (hash_order (pending a)) l ps a); try done; [apply hash_order_NoDup|..].
  - intros k rs. rewrite hash_order_elem. naive_solver.
  - intros k rs. simpl. rewrite lookup_empty. naive_solver.
Qed.

Lemma give_none covered v l : (∀ i, l !! i = Some None → covered (Z.of_nat i + 1) = false) → give covered v l = l.
Proof.
  intros H. apply list_eq. intros i. unfold give. rewrite list_lookup_imap.
  destruct (l !! i) as [[w|]|] eqn:E; simpl; [done| |done]. by rewrite H.
Qed.

Lemma inv_one l ps a e tag su : inv l ps a e →
  let r := drop_pending tag su a e in
  inv (give (λ k, k =? tag) (Confirmed su) l) ps (state_of r) (env_of r) ∧
  is_ok (result_of r) = bool_decide (1 ≤ tag ∧ l !! Z.to_nat (tag - 1) = Some None).
Proof.
  intros Hinv. cbn zeta. unfold drop_pending. rewrite bind_get.
  destruct (pending a !! tag) as [[p q]|] eqn:Et.
  - rewrite bind_modify. unfold mbind, M_bind. rewrite complete_pending_eq. split.
    + apply (inv_confirmed _ su [(tag, (p, q))] l ps a); try done.
      * apply NoDup_singleton.
      * intros k rs. rewrite list_elem_of_singleton, Z.eqb_eq. naive_solver.
      * intros k rs. simpl. rewrite lookup_delete_Some, Z.eqb_neq. naive_solver.
    + symmetry. apply bool_decide_eq_true_2. apply (in_pending _ _ _ _ Hinv) in Et as (i & -> & Hi & _).
      split; [lia|]. by replace (Z.to_nat (Z.of_nat i + 1 - 1)) with i by lia.
  - assert (Hno : ∀ i, l !! i = Some None → Z.of_nat i + 1 ≠ tag).
    { intros i Hi <-. destruct (lookup_lt_is_Some_2 ps i) as [rs Hp].
      - rewrite (ag_length _ _ _ _ (in_agrees _ _ _ _ Hinv)). by eapply lookup_lt_Some.
      - assert (pending a !! (Z.of_nat i + 1) = Some rs) by (apply (in_pending _ _ _ _ Hinv); eauto). congruence. }
    split.
    + rewrite give_none; [done|]. intros i Hi. apply Z.eqb_neq. by apply Hno.
    + symmetry. apply bool_decide_eq_false_2. intros [Ht Hi]. apply (Hno _ Hi). lia.
Qed.

Lemma on_channel_error_eq err a e :
  on_channel_error err a e =
  (tt, set_returned (ReturnedMessages.set_dropped [] (returned_messages a)) (set_pending ∅ a),
   promise_sets (failures err (IdSequence.current (delivery_tag a)) (hash_order (pending a))) e).
Proof.
  unfold on_channel_error. rewrite bind_get. unfold mbind at 1, M_bind at 1. by rewrite fail_many.
Qed.

Lemma inv_fail l ps a e err : inv l ps a e →
  let r := on_channel_error err a e in
  inv (give (λ _, true) (Failed err) l) ps (state_of r) (env_of r).
Proof.
  intros Hinv. cbn zeta. rewrite on_channel_error_eq.
  destruct (failures_spec err (IdSequence.current (delivery_tag a)) (hash_order (pending a))) as (H1 & H2 & H3).
  eapply (inv_settle _ _ _ (hash_order (pending a))); try done.
  - apply hash_order_NoDup.
  - intros k rs. rewrite hash_order_elem. naive_solver.
  - intros k p q Hin. eexists; split; [by eapply H1|done].
  - intros k rs. simpl. rewrite lookup_empty. naive_solver.
Qed.

Definition count_publishes (os : list ConfirmOp) : nat :=
  length (List.filter (λ o, match o with OPublish => true | _ => false end) os).

Lemma spec_step_length l o : length (spec_step l o).1 = (length l + count_publishes [o])%nat.
Proof.
  unfold count_publishes, give. destruct o; cbn [spec_step fst List.filter length];
    unfold give; rewrite ?length_app, ?length_imap; simpl; lia.
Qed.

Lemma inv_step l ps a e o : inv l ps a e → Z.of_nat (length l + count_publishes [o]) + 1 < 2 ^ 64 →
  let x := impl_step (ps, a, e) o in
  inv (spec_step l o).1 x.1.1.1 x.1.1.2 x.1.2 ∧ x.2 = (spec_step l o).2.
Proof.
  intros Hinv Hlen. cbn zeta. destruct o as [|tag multiple su|err].
  - split; [apply inv_publish; [done|unfold count_publishes in Hlen; simpl in Hlen; lia]|].
    simpl. by destruct (register_pending a e) as [[? ?] ?].
  - simpl. unfold on_confirm. destruct multiple; simpl.
    + unfold covers. destruct (0 <? tag).
      * destruct (inv_before l ps a e tag su Hinv) as [H1 H2].
        destruct (complete_pending_before tag su a e) as [[r a'] e'].
        unfold state_of, env_of, result_of in *; simpl in *. by subst.
      * pose proof (inv_all l ps a e su Hinv) as H1. unfold mbind, M_bind.
        by destruct (drop_all su a e) as [[r a'] e'].
    + destruct (inv_one l ps a e tag su Hinv) as [H1 H2].
      by destruct (drop_pending tag su a e) as [[r a'] e'].
  - simpl. pose proof (inv_fail l ps a e err Hinv) as H1.
    by destruct (on_channel_error err a e) as [[r a'] e'].
Qed.

Lemma count_publishes_cons o os : count_publishes (o :: os) = (count_publishes [o] + count_publishes os)%nat.
Proof. unfold count_publishes. simpl. by destruct o. Qed.

Lemma inv_run os l ps a e :
  inv l ps a e → Z.of_nat (length l + count_publishes os) + 1 < 2 ^ 64 →
  let x := impl_run (ps, a, e) os in
  inv (spec_run l os).1 x.1.1.1 x.1.1.2 x.1.2 ∧ x.2 = (spec_run l os).2.
Proof.
  cbn zeta. revert l ps a e. induction os as [|o os IH]; intros l ps a e Hinv Hlen; [done|].
  rewrite count_publishes_cons in Hlen.
  destruct (inv_step l ps a e o Hinv) as [H1 H2]; [lia|]. cbn [impl_run spec_run].
  pose proof (spec_step_length l o) as Hsl.
  destruct (impl_step (ps, a, e) o) as [[[ps' a'] e'] b], (spec_step l o) as [l' b']. simpl in *. subst b'.
  destruct (IH l' ps' a' e' H1) as [H3 H4]; [lia|].
  destruct (impl_run (ps', a', e') os) as [[[? ?] ?] ?], (spec_run l' os) as [? ?]. simpl in *. by subst.
Qed.

Lemma inv_initial ch e : env_wf e → inv [] [] (new ch) e.
Proof.
  intros Hwf. split; [split| | | | |]; simpl; try done; [intros k rs; rewrite lookup_empty; naive_solver|].
  intros p r. apply wf_promises, Hwf.
Qed.

(** C9: every published message gets the verdict the server gave it.  For any sequence of
    publishes, acks and nacks (single, cumulative up to a tag, or of everything) and
    channel failures, each publish's promise is unresolved exactly while the server
    has not answered for its tag, and otherwise holds the answer it got first; an
    acknowledgement is refused exactly when it is for one tag that is not pending;
    and the promise of [wait_for_confirms] is completed exactly when the last published message
    is settled, whatever the iteration order of the hash map. *)
Theorem confirms_refine ch os e :
  env_wf e → Z.of_nat (count_publishes os) + 1 < 2 ^ 64 →
  let '(ps, a, e', oks) := impl_run ([], new ch, e) os in
  let (l, oks') := spec_run [] os in
  agrees l ps a e' ∧ oks = oks'.
Proof.
  intros Hwf Hlen. destruct (inv_run os [] [] (new ch) e (inv_initial ch e Hwf) Hlen) as [H1 H2].
  destruct (impl_run ([], new ch, e) os) as [[[ps a] e'] oks], (spec_run [] os) as [l oks'].
  simpl in *. split; [by apply in_agrees|done].
Qed.

(** Without a current tag no error promise is completed. *)
Lemma failures_skip err xs k p q :
  (k, (p, q)) ∈ xs → NoDup (resolvers xs) → q ∉ (failures err None xs).*1.
Proof.
  induction xs as [|[k' [p' q']] xs IH]; [by intros ?%not_elem_of_nil|]. simpl.
  change (resolvers ((k', (p', q')) :: xs)) with (p' :: q' :: resolvers xs).
  intros Hin [Hp' [Hq' Hnd]%NoDup_cons]%NoDup_cons. apply not_elem_of_cons in Hp' as [Hpq Hp'].
  rewrite not_elem_of_cons. apply elem_of_cons in Hin as [[= -> -> ->]|Hin].
  - split; [done|]. intros Hf. apply Hq'. eapply elem_of_sublist; [exact Hf|].
    apply (failures_spec err None xs).
  - split; [|by apply IH]. intros <-. apply Hp', elem_of_resolvers. eauto 10.
Qed.

Lemma reset_waiter l ps a e err p q :
  inv l ps a e → l !! (length l - 1)%nat = Some None → ps !! (length l - 1)%nat = Some (p, q) →
  let r := reset err a e in
  last (state_of r) = Some q ∧ pending (state_of r) = ∅ ∧
  promises (env_of r) !! p = Some (Err err) ∧ promises (env_of r) !! q = None.
Proof.
  intros Hinv Hl Hp. cbn zeta. unfold reset. rewrite bind_modify, on_channel_error_eq.
  pose proof Hinv as [[Hlen Hnone _ _ Hwait] _ Hpend _ _ _].
  set (a0 := set_delivery_tag (IdSequence.new false) a).
  destruct (failures_spec err (IdSequence.current (delivery_tag a0)) (hash_order (pending a0))) as (H1 & _ & H3).
  assert (Hk : (Z.of_nat (length l - 1) + 1, (p, q)) ∈ hash_order (pending a0)).
  { apply hash_order_elem, Hpend. eauto. }
  assert (Hnd : NoDup (resolvers (hash_order (pending a0)))).
  { eapply resolvers_NoDup; [exact Hinv|apply hash_order_NoDup|]. intros k rs. apply hash_order_elem. }
  assert (Hq : q ∉ (failures err (IdSequence.current (delivery_tag a0)) (hash_order (pending a0))).*1).
  { assert (Hcur : IdSequence.current (delivery_tag a0) = None) by done. rewrite Hcur.
    by eapply failures_skip. }
  split_and!.
  - simpl. rewrite Hwait, Hlen, Hp. done.
  - done.
  - apply promise_sets_lookup; [by eapply sublist_NoDup| |by eapply H1].
    intros x Hx. eapply elem_of_sublist in Hx; [|exact H3]. apply elem_of_resolvers in Hx as (k & rs & Hx & Hr).
    apply hash_order_elem, Hpend in Hx as (i & -> & Hi & Hpi). destruct (Hnone i rs Hi Hpi). by destruct Hr as [->| ->].
  - change (promises (promise_sets (failures err (IdSequence.current (delivery_tag a0)) (hash_order (pending a0))) e) !! q = None).
    rewrite promise_sets_other by done. by destruct (Hnone _ _ Hl Hp).
Qed.

(** C40: a recovery leaves [wait_for_confirms] hanging.  When the last published message is
    still unsettled, [reset] fails its confirmation, but the tag sequence is restarted
    first, so the promise [wait_for_confirms] waits for is not completed, although
    the message is no longer pending and nothing else holds its resolver. *)
Theorem reset_leaves_waiter ch os e err :
  env_wf e → Z.of_nat (count_publishes os) + 1 < 2 ^ 64 →
  let '(ps, a, e', _) := impl_run ([], new ch, e) os in
  ∀ p q, (spec_run [] os).1 !! (length ps - 1)%nat = Some None → ps !! (length ps - 1)%nat = Some (p, q) →
  let r := reset err a e' in
  last (state_of r) = Some q ∧ pending (state_of r) = ∅ ∧
  promises (env_of r) !! p = Some (Err err) ∧ promises (env_of r) !! q = None.
Proof.
  intros Hwf Hlen. destruct (inv_run os [] [] (new ch) e (inv_initial ch e Hwf) Hlen) as [H1 _].
  destruct (impl_run ([], new ch, e) os) as [[[ps a] e'] oks]. simpl in *. intros p q.
  rewrite (ag_length _ _ _ _ (in_agrees _ _ _ _ H1)). by apply reset_waiter.
Qed.

End Acknowledgements.

Section Witnesses.
#[local] Existing Instance number_types.
#[local] Instance z_order : HashOrder Z := canonical_order Z.

(** Three messages: the second is nacked, then everything up to the second is acked,
    then a tag that is not pending, and the channel fails. *)
Definition demo_ops : list ConfirmOp :=
  [OPublish; OPublish; OConfirm 2 false false; OPublish; OConfirm 2 true true; OConfirm 7 false true;
   OFail (error_from ParsingError)].

Lemma confirms_refine_witness :
  spec_run [] demo_ops =
    ([Some (Confirmed true); Some (Confirmed false); Some (Failed (error_from ParsingError))],
     [true; true; true; true; true; false; true]) ∧
  let '(ps, a, e', oks) := impl_run ([], new 1, env_empty) demo_ops in
  let (l, oks') := spec_run [] demo_ops in
  agrees l ps a e' ∧ oks = oks'.
Proof. split; [by vm_compute|]. apply (confirms_refine 1 demo_ops env_empty); [apply env_empty_wf|done]. Defined.

Lemma reset_leaves_waiter_witness :
  let '(ps, a, e', _) := impl_run ([], new 1, env_empty) [OPublish] in
  ∀ p q, (spec_run [] [OPublish]).1 !! (length ps - 1)%nat = Some None → ps !! (length ps - 1)%nat = Some (p, q) →
  let r := reset (error_from ParsingError) a e' in
  last (state_of r) = Some q ∧ pending (state_of r) = ∅ ∧
  promises (env_of r) !! p = Some (Err (error_from ParsingError)) ∧ promises (env_of r) !! q = None.
Proof. apply (reset_leaves_waiter 1 [OPublish] env_empty); [apply env_empty_wf|done]. Defined.

End Witnesses.
End Acknowledgements.
