(* ===== verification/Consumers.v ===== *)
(** Consumers: their lifecycle (src/consumer_status.rs), the consumer itself
    (src/consumer.rs) and the consumers of a channel (src/consumers.rs).  A
    consumer's state is shared between the channel and the application, so it lives in
    the store. *)
From S2P Require Import Prelude.
From S2P Require Import Buffer.
From S2P Require Import Types.
From S2P Require Import Env.
From S2P Require Import Messages.
Open Scope Z_scope.

Module Consumer.
Section Consumer.
Context `{AT : AmqpTypes}.

Definition set_message x c := mkConsumer (c_tag c) x (c_deliveries c) (c_state c) (c_delegate c) (c_queue c) (c_options c) (c_arguments c) (c_error c).
Definition set_deliveries x c := mkConsumer (c_tag c) (c_current_message c) x (c_state c) (c_delegate c) (c_queue c) (c_options c) (c_arguments c) (c_error c).
Definition set_status st d c := mkConsumer (c_tag c) (c_current_message c) (c_deliveries c) st d (c_queue c) (c_options c) (c_arguments c) (c_error c).

(** ** The status (src/consumer_status.rs) *)

Definition status_set_delegate (c : Consumer) : Consumer :=
  if is_active (c_state c) then set_status ActiveWithDelegate true c else c.
Definition status_start_cancel (c : Consumer) : Consumer := set_status Canceling false c.
Definition status_cancel (c : Consumer) : Consumer := set_status Canceled false c.

(** ** Accessing the shared consumer *)

Definition update {S} (c : ConsumerRef) (f : Consumer → Consumer) : M S unit :=
  modify_env (λ e, set_consumers (alter f c (consumers e)) e).

Definition with_consumer {S A} (c : ConsumerRef) (d : A) (k : Consumer → M S A) : M S A :=
  e ← get_env; match consumers e !! c with Some x => k x | None => mret d end.

(** [Consumer::new]. *)
Definition new {S} (tag queue : ShortString) (o : BasicConsumeOptions) (args : FieldTable) : M S ConsumerRef :=
  h ← fresh; c ← fresh;
  modify_env (λ e, set_consumers (<[c := mkConsumer tag None [] Active false queue o args h]> (consumers e)) e);;
  mret c.

(** [dispatch]: to the delegate when there is one, to the stream otherwise. *)
Definition dispatch {S} (c : ConsumerRef) (d : DeliveryResult) (delegate : bool) : M S unit :=
  if delegate then spawn (TNewDelivery c d)
  else update c (λ x, set_deliveries (c_deliveries x ++ [d]) x).

(** [Inner::next_delivery]. *)
Definition next_delivery {S} (c : ConsumerRef) : M S (option DeliveryResult) :=
  with_consumer c None (λ x,
    update c (set_deliveries (tail (c_deliveries x)));; mret (head (c_deliveries x))).

(** The loop of [set_delegate] spawns the delegate on all the buffered deliveries. *)
Definition set_delegate {S} (c : ConsumerRef) : M S unit :=
  with_consumer c tt (λ x,
    update c (set_deliveries []);;
    for_each (c_deliveries x) (λ d, spawn (TNewDelivery c d));;
    update c status_set_delegate).

(** [Inner::drop_prefetched_messages]: the loop invalidates the buffered deliveries. *)
Definition drop_prefetched_messages {S} (c : ConsumerRef) : M S unit :=
  with_consumer c tt (λ x,
    (if c_delegate x then spawn (TDropPrefetched c) else mret tt);;
    update c (set_deliveries []);;
    for_each (c_deliveries x) (λ d,
      match d with Ok (Some d) => Messages.invalidate (acker d) | _ => mret tt end)).

Definition reset {S} (c : ConsumerRef) : M S unit :=
  with_consumer c tt (λ x,
    (if bco_no_ack (c_options x) then mret tt else drop_prefetched_messages c);;
    update c (set_message None)).

Definition start_new_delivery {S} (c : ConsumerRef) (d : Delivery) : M S unit :=
  update c (set_message (Some d)).

(** [Inner::check_new_delivery_complete]. *)
Definition check_new_delivery_complete {S} (c : ConsumerRef) (complete : bool) : M S (option Delivery) :=
  if complete then
    with_consumer c None (λ x, update c (set_message None);; mret (c_current_message x))
  else mret None.

Definition check_new_delivery {S} (c : ConsumerRef) (d : option Delivery) : M S unit :=
  match d with
  | Some d => with_consumer c tt (λ x, dispatch c (Ok (Some d)) (c_delegate x))
  | None => mret tt
  end.

Definition handle_content_header_frame {S} (c : ConsumerRef) (size : PayloadSize) (props : BasicProperties) : M S unit :=
  update c (λ x, set_message ((λ d, set_properties d props) <$> c_current_message x) x);;
  d ← check_new_delivery_complete c (size =? 0);
  check_new_delivery c d.

Definition handle_body_frame {S} (c : ConsumerRef) (remaining_size : PayloadSize) (payload : list byte) : M S unit :=
  update c (λ x, set_message ((λ d, receive_content d payload) <$> c_current_message x) x);;
  d ← check_new_delivery_complete c (remaining_size =? 0);
  check_new_delivery c d.

Definition start_cancel {S} (c : ConsumerRef) : M S unit := update c status_start_cancel.

Definition cancel {S} (c : ConsumerRef) : M S unit :=
  with_consumer c tt (λ x, dispatch c (Ok None) (c_delegate x);; update c status_cancel).

Definition send_error {S} (c : ConsumerRef) (err : Error) : M S unit :=
  with_consumer c tt (λ x, dispatch c (Err err) (c_delegate x)).

Definition set_error {S} (c : ConsumerRef) (err : Error) : M S unit :=
  with_consumer c tt (λ x, holder_set (c_error x) err;; mret tt);;
  send_error c err;;
  cancel c.

(** [Stream::poll_next]: pending, an item, or the end of the stream. *)
Inductive Poll := Pending | Item (r : res Delivery) | End_.

Definition poll_next {S} (c : ConsumerRef) : M S Poll :=
  d ← next_delivery c;
  mret (match d with
        | None => Pending
        | Some (Ok (Some d)) => Item (Ok d)
        | Some (Ok None) => End_
        | Some (Err err) => Item (Err err)
        end).

(** ** What the operations do to the shared consumer *)

Definition put_consumer (c : ConsumerRef) (x : Consumer) (e : Env) : Env :=
  set_consumers (<[c := x]> (consumers e)) e.

Lemma put_consumer_lookup c x e : consumers (put_consumer c x e) !! c = Some x.
Proof. apply lookup_insert_eq. Qed.

Lemma put_put_consumer c x y e : put_consumer c y (put_consumer c x e) = put_consumer c y e.
Proof. unfold put_consumer. simpl. by rewrite insert_insert_eq. Qed.

Lemma update_eq {S} c f (s : S) e x : consumers e !! c = Some x →
  update c f s e = (tt, s, put_consumer c (f x) e).
Proof.
  intros Hx. unfold update, modify_env, put_consumer. do 2 f_equal.
  apply map_eq. intros i. destruct (decide (i = c)) as [->|].
  - by rewrite lookup_alter_eq, lookup_insert_eq, Hx.
  - by rewrite lookup_alter_ne, lookup_insert_ne.
Qed.

Lemma with_consumer_eq {S A} c (d : A) k (s : S) e x : consumers e !! c = Some x →
  with_consumer c d k s e = k x s e.
Proof. intros Hx. unfold with_consumer. by rewrite bind_get_env, Hx. Qed.

(** A message completed for a consumer that is polled. *)
Definition delivered (d : Delivery) (x : Consumer) : Consumer :=
  set_deliveries (c_deliveries x ++ [Ok (Some d)]) (set_message None x).

Lemma check_complete_eq {S} c d (b : bool) (s : S) e x :
  consumers e !! c = Some x → c_delegate x = false → c_current_message x = Some d →
  (d' ← check_new_delivery_complete c b; check_new_delivery c d') s e =
  (tt, s, if b then put_consumer c (delivered d x) e else e).
Proof.
  intros Hx Hd Hm. destruct b; [|done]. unfold check_new_delivery_complete.
  unfold mbind at 1, M_bind at 1. rewrite (with_consumer_eq _ _ _ _ _ x Hx).
  unfold mbind at 1, M_bind at 1. rewrite (update_eq _ _ _ _ x Hx). unfold mret, M_ret. rewrite Hm.
  unfold check_new_delivery. rewrite (with_consumer_eq _ _ _ _ _ _ (put_consumer_lookup _ _ _)).
  unfold dispatch. cbn [c_delegate set_message]. rewrite Hd.
  rewrite (update_eq _ _ _ _ _ (put_consumer_lookup _ _ _)). by rewrite put_put_consumer.
Qed.

Lemma header_eq {S} c size props (s : S) e x d :
  consumers e !! c = Some x → c_delegate x = false → c_current_message x = Some d →
  handle_content_header_frame c size props s e =
  (tt, s, put_consumer c (if size =? 0 then delivered (set_properties d props) x
                          else set_message (Some (set_properties d props)) x) e).
Proof.
  intros Hx Hd Hm. unfold handle_content_header_frame.
  unfold mbind at 1, M_bind at 1. rewrite (update_eq _ _ _ _ x Hx), Hm.
  rewrite (check_complete_eq c (set_properties d props) _ _ _ _ (put_consumer_lookup _ _ _)) by done.
  destruct (size =? 0); [|done]. by rewrite put_put_consumer.
Qed.

Lemma body_eq {S} c remaining payload (s : S) e x d :
  consumers e !! c = Some x → c_delegate x = false → c_current_message x = Some d →
  handle_body_frame c remaining payload s e =
  (tt, s, put_consumer c (if remaining =? 0 then delivered (receive_content d payload) x
                          else set_message (Some (receive_content d payload)) x) e).
Proof.
  intros Hx Hd Hm. unfold handle_body_frame.
  unfold mbind at 1, M_bind at 1. rewrite (update_eq _ _ _ _ x Hx), Hm.
  rewrite (check_complete_eq c (receive_content d payload) _ _ _ _ (put_consumer_lookup _ _ _)) by done.
  destruct (remaining =? 0); [|done]. by rewrite put_put_consumer.
Qed.

End Consumer.
End Consumer.

(** * The consumers of a channel *)

Module Consumers.
Section Consumers.
Context `{AT : AmqpTypes} `{HO : !HashOrder string}.

Definition t : Type := gmap string ConsumerRef.

Definition register (tag : ShortString) (c : ConsumerRef) : M t unit := modify (<[tag := c]>).

Definition deregister (tag : ShortString) : M t unit :=
  s ← get;
  match s !! tag with
  | Some c => put (delete tag s);; Consumer.cancel c
  | None => mret tt
  end.

(** [if let Some(consumer) = self.read().get(tag)]. *)
Definition with_tag (tag : ShortString) (k : ConsumerRef → M t unit) : M t unit :=
  s ← get; match s !! tag with Some c => k c | None => mret tt end.

Definition start_cancel_one (tag : ShortString) : M t unit := with_tag tag Consumer.start_cancel.

(** [message] builds the delivery from the consumer's error holder. *)
Definition start_delivery (tag : ShortString) (message : ErrorHolder → M t Delivery) : M t unit :=
  with_tag tag (λ c, Consumer.with_consumer c tt (λ x,
    d ← message (c_error x); Consumer.start_new_delivery c d)).

Definition handle_content_header_frame (tag : ShortString) (size : PayloadSize) (props : BasicProperties) : M t unit :=
  with_tag tag (λ c, Consumer.handle_content_header_frame c size props).

Definition handle_body_frame (tag : ShortString) (remaining_size : PayloadSize) (payload : list byte) : M t unit :=
  with_tag tag (λ c, Consumer.handle_body_frame c remaining_size payload).

Definition values (s : t) : list ConsumerRef := (hash_order s).*2.

Definition drop_prefetched_messages : M t unit := s ← get; for_each (values s) Consumer.drop_prefetched_messages.
Definition start_cancel : M t unit := s ← get; for_each (values s) Consumer.start_cancel.
Definition cancel : M t unit := s ← get; put ∅;; for_each (values s) Consumer.cancel.

Definition error (err : Error) (recover : bool) : M t unit :=
  s ← get; put ∅;;
  for_each (values s) (λ c, if recover then Consumer.send_error c err else Consumer.set_error c err).

Definition topology (s : t) : list ConsumerRef := values s.

End Consumers.
End Consumers.
