(* ===== verification/Connection.v ===== *)
(** What the channels of a connection share: the negotiated configuration
    (src/configuration.rs), the connection's status (src/connection_status.rs) and what the drop
    of the connection does (src/connection_closer.rs). *)
From S2P Require Import Prelude.
From S2P Require Import Buffer.
From S2P Require Import Types.
From S2P Require Import Env.
Open Scope Z_scope.

(** * The negotiated configuration *)

Module Configuration.
Section Configuration.
Context `{AT : AmqpTypes} `{AP : !AmqpProtocol}.

(** [NegotiatedConfig]. *)
Record t := mk { channel_max : ChannelId; frame_max : FrameSize; heartbeat : Heartbeat }.

(** [NegotiatedConfig::new]: the query of the URI; zero means no preference. *)
Definition new (uri_channel_max : option ChannelId) (uri_frame_max : option FrameSize)
    (uri_heartbeat : option Heartbeat) : t :=
  mk (default 0 uri_channel_max) (default 0 uri_frame_max) (default 0 uri_heartbeat).

Definition set_channel_max (x : ChannelId) (c : t) : t := mk x (frame_max c) (heartbeat c).
Definition set_frame_max (x : FrameSize) (c : t) : t := mk (channel_max c) (Z.max x FRAME_MIN_SIZE) (heartbeat c).
Definition set_heartbeat (x : Heartbeat) (c : t) : t := mk (channel_max c) (frame_max c) x.

(** [Channel::tune_connection_configuration] (src/channel.rs), limit by limit. *)
Definition tune_heartbeat (hb : Heartbeat) (c : t) : t :=
  if (heartbeat c =? 0) || (negb (hb =? 0) && (hb <? heartbeat c)) then set_heartbeat hb c else c.

Definition tune_channel_max (cmax : ChannelId) (c : t) : t :=
  let c := if negb (cmax =? 0) then
             if (channel_max c =? 0) || (cmax <? channel_max c) then set_channel_max cmax c else c
           else c in
  if channel_max c =? 0 then set_channel_max u16_max c else c.

Definition tune_frame_max (fmax : FrameSize) (c : t) : t :=
  let c := if negb (fmax =? 0) then
             if (frame_max c =? 0) || (fmax <? frame_max c) then set_frame_max fmax c else c
           else c in
  if frame_max c =? 0 then set_frame_max u32_max c else c.

Definition tune_connection_configuration (cmax : ChannelId) (fmax : FrameSize) (hb : Heartbeat) (c : t) : t :=
  tune_frame_max fmax (tune_channel_max cmax (tune_heartbeat hb c)).

(** The lower of two limits, where zero is no limit. *)
Definition stricter (a b : Z) : Z := if a =? 0 then b else if b =? 0 then a else Z.min a b.

Definition or_limit (limit a : Z) : Z := if a =? 0 then limit else a.

Ltac limits :=
  cbn [channel_max frame_max heartbeat];
  repeat match goal with
  | |- context [?a =? ?b] => destruct (Z.eqb_spec a b)
  | |- context [?a <? ?b] => destruct (Z.ltb_spec a b)
  | |- context [decide ?P] => destruct (decide P)
  | _ => progress cbn [negb andb orb channel_max frame_max heartbeat]
  end; try lia.

Lemma tune_heartbeat_spec hb cm fm h :
  0 ≤ hb → 0 ≤ h → tune_heartbeat hb (mk cm fm h) = mk cm fm (stricter hb h).
Proof. intros. unfold tune_heartbeat, stricter, set_heartbeat. limits; f_equal; lia. Qed.

Lemma tune_channel_max_spec x cm fm h :
  0 ≤ x → 0 ≤ cm → tune_channel_max x (mk cm fm h) = mk (or_limit u16_max (stricter x cm)) fm h.
Proof.
  intros. unfold tune_channel_max, or_limit, stricter, set_channel_max, u16_max. cbn [channel_max].
  destruct (Z.eqb_spec x 0), (Z.eqb_spec cm 0), (Z.ltb_spec x cm); cbn [negb orb channel_max]; limits; f_equal; lia.
Qed.

Lemma tune_frame_max_spec x cm fm h :
  0 ≤ x ≤ u32_max → 0 ≤ fm →
  tune_frame_max x (mk cm fm h) =
  mk cm (if decide (fm ≠ 0 ∧ stricter x fm = fm) then fm
         else Z.max FRAME_MIN_SIZE (or_limit u32_max (stricter x fm))) h.
Proof.
  pose proof FRAME_MIN_SIZE_range as Hmin. unfold u32_max in *. intros Hx Hf.
  unfold tune_frame_max, set_frame_max, stricter, or_limit. cbn [channel_max frame_max heartbeat].
  destruct (Z.eqb_spec x 0); cbn [negb frame_max].
  - destruct (Z.eqb_spec fm 0); cbn [frame_max]; limits; f_equal; unfold u32_max; lia.
  - destruct (Z.eqb_spec fm 0); cbn [orb frame_max]; [limits; f_equal; lia|].
    destruct (Z.ltb_spec x fm); cbn [frame_max].
    + destruct (Z.eqb_spec (Z.max x FRAME_MIN_SIZE) 0); [lia|]. rewrite decide_False by lia. limits; f_equal; lia.
    + rewrite decide_True by lia. destruct (Z.eqb_spec fm 0); [lia|done].
Qed.

(** Tuning picks the stricter of both peers' limits.  For each of the three limits,
    zero means no preference: the result is the smaller of the two stated limits, the
    only one stated, and without any the largest value of the type (for the
    heartbeat: none).  A frame size taken from the server is raised to the minimum
    the protocol requires.  Afterwards channel ids and frames have a positive limit. *)
Theorem tune_stricter cmax fmax hb c :
  0 ≤ cmax ≤ u16_max → 0 ≤ fmax ≤ u32_max → 0 ≤ hb ≤ u16_max →
  0 ≤ channel_max c ≤ u16_max → 0 ≤ frame_max c ≤ u32_max → 0 ≤ heartbeat c ≤ u16_max →
  let c' := tune_connection_configuration cmax fmax hb c in
  channel_max c' = or_limit u16_max (stricter cmax (channel_max c)) ∧
  heartbeat c' = stricter hb (heartbeat c) ∧
  frame_max c' = (if decide (frame_max c ≠ 0 ∧ stricter fmax (frame_max c) = frame_max c) then frame_max c
                  else Z.max FRAME_MIN_SIZE (or_limit u32_max (stricter fmax (frame_max c)))) ∧
  1 ≤ channel_max c' ≤ u16_max ∧ 1 ≤ frame_max c' ≤ u32_max.
Proof.
  destruct c as [cm fm h]. cbn [channel_max frame_max heartbeat]. intros Hc Hf Hh Hcm Hfm Hhm. cbn zeta.
  unfold tune_connection_configuration.
  rewrite tune_heartbeat_spec, tune_channel_max_spec, tune_frame_max_spec by lia. cbn [channel_max frame_max heartbeat].
  pose proof FRAME_MIN_SIZE_range as Hmin. split_and!; try done; unfold u16_max, u32_max, or_limit, stricter in *; limits.
Qed.

End Configuration.

Section Witnesses.
#[local] Existing Instances number_types number_protocol.

Lemma tune_stricter_witness :
  tune_connection_configuration 2047 131072 60 (mk 0 0 10) = mk 2047 131072 10 ∧
  channel_max (tune_connection_configuration 2047 131072 60 (mk 0 0 10)) = or_limit u16_max (stricter 2047 0).
Proof.
  split; [by vm_compute|].
  apply (tune_stricter 2047 131072 60 (mk 0 0 10)); unfold u16_max, u32_max; simpl; lia.
Defined.

End Witnesses.
End Configuration.

(** * The status of the connection *)

Module ConnectionStatus.
Section ConnectionStatus.

Record t := mk { state : ConnectionState; blocked : bool; poison_ : option Error }.

Definition default : t := mk CoInitial false None.

(** [set_state] returns the previous state. *)
Definition set_state (x : ConnectionState) (s : t) : ConnectionState * t := (state s, mk x (blocked s) (poison_ s)).

Definition set_connecting (s : t) : res unit * t :=
  (match poison_ s with Some err => Err err | None => Ok tt end, mk CoConnecting (blocked s) None).

Definition set_reconnecting (_ : t) : t := mk CoReconnecting false None.

Definition block (s : t) : t := mk (state s) true (poison_ s).
Definition unblock (s : t) : t := mk (state s) false (poison_ s).
Definition poison (err : Error) (s : t) : t := mk (state s) (blocked s) (Some err).

Definition connected (s : t) : bool := bool_decide (state s = CoConnected).
Definition connecting (s : t) : bool := bool_decide (state s = CoConnecting).
Definition reconnecting (s : t) : bool := bool_decide (state s = CoReconnecting).
Definition closing (s : t) : bool := bool_decide (state s = CoClosing).
Definition closed (s : t) : bool := bool_decide (state s = CoClosed).
Definition errored (s : t) : bool := bool_decide (state s = CoError).
Definition auto_close (s : t) : bool := bool_decide (state s ∈ [CoConnecting; CoConnected]).

Definition ensure_connected (s : t) : res unit :=
  if negb (connected s) then Err (error_from (InvalidConnectionState (state s))) else Ok tt.

End ConnectionStatus.
End ConnectionStatus.

(** [protocol::constants::REPLY_SUCCESS]. *)
Definition REPLY_SUCCESS : ReplyCode := 200.

(** * Dropping the connection *)

Module ConnectionCloser.
Section ConnectionCloser.
Context `{AT : AmqpTypes}.

(** The status is shared with the connection. *)
Record t := mk { noop_ : bool }.

Definition new : t := mk false.
Definition noop (c : t) : t := mk true.

Definition drop (c : t) : M ConnectionStatus.t unit :=
  if noop_ c then mret tt else
  s ← get;
  if ConnectionStatus.auto_close s then rpc_close_connection REPLY_SUCCESS "OK" 0 0 else mret tt.

(** The closing of the connection is queued. *)
Definition closing_queued (e : Env) : Env := env_of (rpc_close_connection REPLY_SUCCESS "OK" 0 0 tt e).

Lemma closing_queued_eq e : closing_queued e =
  set_wakes (S (S (wakes e))) (set_rpc (rpc e ++ [CSetConnectionClosing; CCloseConnection REPLY_SUCCESS "OK" 0 0 None]) e).
Proof.
  unfold closing_queued, rpc_close_connection, rpc_set_connection_closing, rpc_send, wake, modify_env, mbind, M_bind, env_of.
  destruct e. cbn. by rewrite <- app_assoc.
Qed.

Lemma connection_drop_eq c s e :
  drop c s e = (tt, s, if negb (noop_ c) && ConnectionStatus.auto_close s then closing_queued e else e).
Proof. unfold drop. destruct (noop_ c); [done|]. rewrite bind_get. by destruct (ConnectionStatus.auto_close s). Qed.

End ConnectionCloser.
End ConnectionCloser.
