(* ===== verification/Setup.v ===== *)
(** What an application configures before it connects: [ConnectionProperties]
    (src/connection_properties.rs) and the [Configuration] made of them (src/configuration.rs).  The backoff
    builder is the backon crate's (class [SetupTypes]). *)
From S2P Require Import Prelude.
From S2P Require Import Buffer.
From S2P Require Import Types.
From S2P Require Import Connection.
Open Scope Z_scope.

Class SetupTypes `{AmqpTypes} := {
  ExponentialBuilder : Type;
  builder_default : ExponentialBuilder;
  with_max_times : Z → ExponentialBuilder → ExponentialBuilder;
  Provider : Type;
}.

Module ConnectionProperties.
Section ConnectionProperties.
Context `{AT : AmqpTypes} `{ST : !SetupTypes}.

Record t := mk {
  locale : ShortString;
  client_properties : FieldTable;
  auth_provider : option Provider;
  backoff : ExponentialBuilder;
  auto_recover : bool;
  backoff_configured : bool;
}.

(** [Default]: no retry. *)
Definition default_ : t := mk "en_US" FieldTable_default None (with_max_times 0 builder_default) false false.

Definition with_locale (x : ShortString) (p : t) : t :=
  mk x (client_properties p) (auth_provider p) (backoff p) (auto_recover p) (backoff_configured p).

Definition with_client_property (key : ShortString) (value : LongString) (p : t) : t :=
  mk (locale p) (table_insert key (LongStringValue value) (client_properties p)) (auth_provider p) (backoff p) (auto_recover p) (backoff_configured p).

Definition with_connection_name (name : LongString) (p : t) : t := with_client_property "connection_name" name p.

Definition with_auth_provider (x : Provider) (p : t) : t :=
  mk (locale p) (client_properties p) (Some x) (backoff p) (auto_recover p) (backoff_configured p).

Definition with_backoff (b : ExponentialBuilder) (p : t) : t :=
  mk (locale p) (client_properties p) (auth_provider p) b (auto_recover p) true.

Definition configure_backoff (conf : ExponentialBuilder → ExponentialBuilder) (p : t) : t :=
  mk (locale p) (client_properties p) (auth_provider p) (conf (backoff p)) (auto_recover p) true.

Definition enable_auto_recover (p : t) : t :=
  let b := if backoff_configured p then backoff p else with_max_times 16 (backoff p) in
  mk (locale p) (client_properties p) (auth_provider p) b true true.

(** A chain of builder calls. *)
Inductive Builder :=
| BLocale (x : ShortString)
| BClientProperty (key : ShortString) (value : LongString)
| BConnectionName (name : LongString)
| BAuthProvider (x : Provider)
| BBackoff (b : ExponentialBuilder)
| BConfigureBackoff (conf : ExponentialBuilder → ExponentialBuilder)
| BAutoRecover.

Definition build (b : Builder) : t → t :=
  match b with
  | BLocale x => with_locale x
  | BClientProperty key value => with_client_property key value
  | BConnectionName name => with_connection_name name
  | BAuthProvider x => with_auth_provider x
  | BBackoff b => with_backoff b
  | BConfigureBackoff conf => configure_backoff conf
  | BAutoRecover => enable_auto_recover
  end.

Definition builds (l : list Builder) (p : t) : t := foldl (λ p b, build b p) p l.

(** ** The retries an application asked for *)

(** What a call says about the retries, if it does. *)
Definition strategy (b : Builder) : option (ExponentialBuilder → ExponentialBuilder) :=
  match b with BBackoff b => Some (λ _, b) | BConfigureBackoff conf => Some conf | _ => None end.

Definition recovers (b : Builder) : bool := match b with BAutoRecover => true | _ => false end.

(** The first call that matters decides whether the default of the recovery, 16 attempts, holds:
    it does unless the application set its own strategy before. *)
Fixpoint base (l : list Builder) : ExponentialBuilder → ExponentialBuilder :=
  match l with
  | [] => id
  | b :: l => if recovers b then with_max_times 16 else if strategy b then id else base l
  end.

(** Then the strategies of the application apply, in order. *)
Definition chosen (l : list Builder) (x : ExponentialBuilder) : ExponentialBuilder :=
  foldl (λ x f, f x) (base l x) (omap strategy l).

Lemma builds_cons b l p : builds (b :: l) p = builds l (build b p).
Proof. done. Qed.

Lemma builds_configured l : ∀ p, backoff_configured p = true →
  backoff (builds l p) = foldl (λ x f, f x) (backoff p) (omap strategy l).
Proof.
  induction l as [|b l IH]; intros p Hp; [done|]. rewrite builds_cons.
  destruct b; rewrite IH; try done. simpl. by rewrite Hp.
Qed.

Lemma builds_auto_recover l : ∀ p, auto_recover (builds l p) = auto_recover p || existsb recovers l.
Proof.
  induction l as [|b l IH]; intros p; [by rewrite orb_false_r|]. rewrite builds_cons, IH. cbn [existsb].
  by destruct b; simpl; rewrite ?orb_true_r.
Qed.

(** The reconnect strategy is the application's whatever the order of the calls.  For every chain of
    builder calls, the strategy is what the calls on the backoff make, in order, of the default; the
    default is no retry, and 16 attempts when [enable_auto_recover] is called before any of them; and
    recovery is enabled exactly when it was asked for. *)
Theorem backoff_chosen l : let p := builds l default_ in
  backoff p = chosen l (with_max_times 0 builder_default) ∧ auto_recover p = existsb recovers l.
Proof.
  cbv zeta. split; [|apply (builds_auto_recover l default_)].
  assert (H : ∀ p, backoff_configured p = false → backoff (builds l p) = chosen l (backoff p)); [|by apply (H default_)].
  unfold chosen. induction l as [|b l IH]; intros p Hp; [done|]. rewrite builds_cons.
  destruct b; [by apply IH..| | |]; rewrite builds_configured by done; try done. simpl. by rewrite Hp.
Qed.

End ConnectionProperties.
End ConnectionProperties.

(** * The configuration of a connection *)

Module ConnectionConfiguration.
Section ConnectionConfiguration.
Context `{AT : AmqpTypes} `{AP : !AmqpProtocol} `{ST : !SetupTypes}.

Record t := mk {
  amqp_client_properties : FieldTable;
  amqp_locale : ShortString;
  auth_provider : Provider;
  backoff : ExponentialBuilder;
  negotiated_config : Configuration.t;
  auto_recover : bool;
}.

(** [Configuration::new]; the provider made of the user info and the query of the URI are arguments. *)
Definition new (from_uri : Provider) (uri_channel_max : option ChannelId) (uri_frame_max : option FrameSize)
    (uri_heartbeat : option Heartbeat) (p : ConnectionProperties.t) : t :=
  mk (ConnectionProperties.client_properties p) (ConnectionProperties.locale p)
    (default from_uri (ConnectionProperties.auth_provider p)) (ConnectionProperties.backoff p)
    (Configuration.new uri_channel_max uri_frame_max uri_heartbeat) (ConnectionProperties.auto_recover p).

End ConnectionConfiguration.
End ConnectionConfiguration.
