(* ===== verification/Channel.v ===== *)
(** Channels (src/channel.rs): the state of a channel, what it does when its lifecycle
    changes, how it sends frames and receives content, and its hooks for the
    methods the server sends. *)
From S2P Require Import Prelude.
From S2P Require Import IdSequence.
From S2P Require Import Buffer.
From S2P Require Import Types.
From S2P Require Import Env.
From S2P Require Import Frames.
From S2P Require Import Registry.
From S2P Require Import ChannelStatus.
From S2P Require Import Messages.
From S2P Require Import Acknowledgements.
From S2P Require Import Consumers.
From S2P Require Import Connection.
Open Scope Z_scope.

(** What a [Connection] handle's configuration provides to the handshake: the auth
    provider (src/auth.rs declares the trait, applications implement it), the locale
    and the client properties configured; and whether its closer is disabled, as it is for the
    connections of [Connection::for_reconnect]. *)
Class ConnectionHandle `{AmqpTypes} : Type := {
  mechanism : ConnectionRef → ShortString;
  auth_starter : ConnectionRef → result string LongString;
  continue_auth : ConnectionRef → LongString → result string LongString;
  amqp_locale : ConnectionRef → ShortString;
  amqp_client_properties : ConnectionRef → FieldTable;
  closer_noop : ConnectionRef → bool;
}.

(** The drop of a [Connection] while nothing else holds its closer, [st] being the status of the
    connection: during the handshake no channel has been created from it. *)
Definition drop_connection_ `{CH : ConnectionHandle} {S} (st : S → ConnectionStatus.t) (c : ConnectionRef) : M S unit :=
  zoom st (λ _ s, s) (ConnectionCloser.drop
    (if closer_noop c then ConnectionCloser.noop ConnectionCloser.new else ConnectionCloser.new)).

Lemma drop_connection_eq `{CH : ConnectionHandle} {S} (st : S → ConnectionStatus.t) c s e :
  drop_connection_ st c s e =
  (tt, s, if negb (closer_noop c) && ConnectionStatus.auto_close (st s) then ConnectionCloser.closing_queued e else e).
Proof. unfold drop_connection_, zoom. rewrite ConnectionCloser.connection_drop_eq. by destruct (closer_noop c). Qed.

Lemma drop_connection_noop `{CH : ConnectionHandle} {S} (st : S → ConnectionStatus.t) c s e :
  closer_noop c = true ∨ ConnectionStatus.auto_close (st s) = false → drop_connection_ st c s e = (tt, s, e).
Proof. intros Hn. rewrite drop_connection_eq. destruct Hn as [-> | ->]; [done|]. by rewrite andb_false_r. Qed.

Lemma keeps_done_drop_connection `{CH : ConnectionHandle} {S} (st : S → ConnectionStatus.t) c : keeps_done (drop_connection_ st c).
Proof.
  intros s e p r Hp. rewrite drop_connection_eq. unfold env_of. cbn [snd]. case_match; [|done].
  by rewrite ConnectionCloser.closing_queued_eq.
Qed.

Lemma keeps_state_drop_connection `{CH : ConnectionHandle} {S} (st : S → ConnectionStatus.t) c : keeps_state (drop_connection_ st c).
Proof. intros s e. by rewrite drop_connection_eq. Qed.

#[export] Hint Resolve keeps_done_drop_connection : keeps_done.
#[export] Hint Resolve keeps_state_drop_connection : keeps_state.

(** ** The properties announced to the server (src/channel.rs, [on_connection_start_received]) *)

Definition CARGO_PKG_NAME : LongString := "lapin".
Definition CARGO_PKG_VERSION : LongString := "4.11.0".

Definition contains_key `{AmqpTypes} (k : ShortString) (t : FieldTable) : bool := bool_decide (is_Some (table_lookup k t)).

Definition capability_names : list ShortString :=
  ["publisher_confirms"; "exchange_exchange_bindings"; "basic.nack"; "consumer_cancel_notify"; "connection.blocked";
   "consumer_priorities"; "authentication_failure_close"; "per_consumer_qos"; "direct_reply_to"].

Definition capabilities `{AmqpTypes} : FieldTable :=
  foldl (λ t k, table_insert k (BooleanValue true) t) FieldTable_default capability_names.

(** What is inserted into the configured table before [connection.start-ok]. *)
Definition announced_properties `{AmqpTypes} (t : FieldTable) : FieldTable :=
  let t := if negb (contains_key "product" t) || negb (contains_key "version" t)
           then table_insert "version" (LongStringValue CARGO_PKG_VERSION)
                  (table_insert "product" (LongStringValue CARGO_PKG_NAME) t)
           else t in
  table_insert "capabilities" (FieldTableValue capabilities)
    (table_insert "platform" (LongStringValue "rust") t).

Lemma table_inserts_lookup `{AmqpTypes} v ks t k :
  table_lookup k (foldl (λ t k, table_insert k v t) t ks) = if decide (k ∈ ks) then Some v else table_lookup k t.
Proof.
  revert t. induction ks as [|k' ks IH]; intros t; [by rewrite decide_False by apply not_elem_of_nil|]. simpl.
  rewrite IH, table_lookup_insert. repeat case_decide; set_solver.
Qed.

(** The announced table, key by key. *)
Lemma announced_lookup `{AmqpTypes} t k : table_lookup k (announced_properties t) =
  if decide (k = "capabilities") then Some (FieldTableValue capabilities) else
  if decide (k = "platform") then Some (LongStringValue "rust") else
  if contains_key "product" t && contains_key "version" t then table_lookup k t else
  if decide (k = "version") then Some (LongStringValue CARGO_PKG_VERSION) else
  if decide (k = "product") then Some (LongStringValue CARGO_PKG_NAME) else table_lookup k t.
Proof.
  unfold announced_properties. rewrite !table_lookup_insert. do 2 (case_decide; [done|]).
  destruct (contains_key "product" t), (contains_key "version" t); cbn [negb orb andb]; by rewrite ?table_lookup_insert.
Qed.

Module Channel.
Section Channel.
Context `{AT : AmqpTypes} `{AP : !AmqpProtocol} `{CH : !ConnectionHandle}
  `{HZ : !HashOrder Z} `{HS : !HashOrder string}.

(** ** State *)

(** What a channel owns.  Its [returned_messages] are those of its acknowledgements.
    [closer] tells whether the handle closes the channel when dropped. *)
Record Chan := mkChan {
  id : ChannelId;
  status : ChannelStatus.t;
  local_registry : Registry.t;
  acknowledgements : Acknowledgements.t;
  consumers_ : Consumers.t;
  basic_get_delivery : BasicGetDelivery.t;
  closer : bool;
}.

(** What it shares with the other channels of the connection. *)
Record Conn := mkConn {
  configuration : Configuration.t;
  connection_status : ConnectionStatus.t;
  frames : Frames.t;
  vhost : ShortString;
  auto_recover : bool;
}.

Record t := mk { self : Chan; conn : Conn }.

Definition set_status_ x c := mkChan (id c) x (local_registry c) (acknowledgements c) (consumers_ c) (basic_get_delivery c) (closer c).
Definition set_registry x c := mkChan (id c) (status c) x (acknowledgements c) (consumers_ c) (basic_get_delivery c) (closer c).
Definition set_acks x c := mkChan (id c) (status c) (local_registry c) x (consumers_ c) (basic_get_delivery c) (closer c).
Definition set_consumers_ x c := mkChan (id c) (status c) (local_registry c) (acknowledgements c) x (basic_get_delivery c) (closer c).
Definition set_get x c := mkChan (id c) (status c) (local_registry c) (acknowledgements c) (consumers_ c) x (closer c).
Definition set_self (f : Chan → Chan) (s : t) : t := mk (f (self s)) (conn s).

Definition set_configuration x c := mkConn x (connection_status c) (frames c) (vhost c) (auto_recover c).
Definition set_connection_status x c := mkConn (configuration c) x (frames c) (vhost c) (auto_recover c).
Definition set_frames_ x c := mkConn (configuration c) (connection_status c) x (vhost c) (auto_recover c).
Definition set_conn (f : Conn → Conn) (s : t) : t := mk (self s) (f (conn s)).

Definition in_status {A} : M ChannelStatus.t A → M t A :=
  zoom (λ s, status (self s)) (λ x, set_self (set_status_ x)).
Definition in_acks {A} : M Acknowledgements.t A → M t A :=
  zoom (λ s, acknowledgements (self s)) (λ x, set_self (set_acks x)).
Definition in_returned {A} (m : M ReturnedMessages.t A) : M t A := in_acks (Acknowledgements.in_returned m).
Definition in_consumers {A} : M Consumers.t A → M t A :=
  zoom (λ s, consumers_ (self s)) (λ x, set_self (set_consumers_ x)).
Definition in_get {A} : M BasicGetDelivery.t A → M t A :=
  zoom (λ s, basic_get_delivery (self s)) (λ x, set_self (set_get x)).
Definition in_frames {A} : M Frames.t A → M t A :=
  zoom (λ s, frames (conn s)) (λ x, set_conn (set_frames_ x)).
Definition registry_update (f : Registry.t → Registry.t) : M t unit :=
  modify (set_self (λ c, set_registry (f (local_registry c)) c)).
Definition update_connection_status (f : ConnectionStatus.t → ConnectionStatus.t) : M t unit :=
  modify (set_conn (λ c, set_connection_status (f (connection_status c)) c)).

Definition this_id : M t ChannelId := s ← get; mret (id (self s)).
Definition this_status : M t ChannelStatus.t := s ← get; mret (status (self s)).
Definition confirm : M t bool := s ← get; mret (ChannelStatus.confirm (status (self s))).
Definition can_recover_ (err : Error) : M t bool := s ← get; mret (can_recover (auto_recover (conn s)) err).

(** [Channel::new]. *)
Definition new {S} (i : ChannelId) : M S Chan :=
  st ← ChannelStatus.new i;
  mret (mkChan i st Registry.empty (Acknowledgements.new i) ∅ None (negb (i =? 0))).

(** [wait_for_recovery], up to its wait: the notifier it waits for before it returns [Ok]. *)
Definition wait_for_recovery (err : Error) : M t (res Notifier) :=
  r ← can_recover_ err;
  mret (match notifier err with Some n => if r : bool then Ok n else Err err | None => Err err end).

(** [clone_internal]: a handle that does not close the channel. *)
Definition clone_internal (c : Chan) : Chan :=
  mkChan (id c) (status c) (local_registry c) (acknowledgements c) (consumers_ c) (basic_get_delivery c) false.

(** ** Lifecycle *)

Definition set_state (x : ChannelState) : M t unit := in_status (ChannelStatus.set_state x).

Definition error_publisher_confirms (err : Error) : M t unit := in_acks (Acknowledgements.on_channel_error err).

Definition cancel_consumers : M t unit := in_consumers Consumers.cancel.

Definition error_consumers (err : Error) : M t unit :=
  recover ← can_recover_ err; in_consumers (Consumers.error err recover).

Definition set_closing (err : option Error) : M t unit :=
  set_state ChClosing;;
  match err with
  | Some err => error_publisher_confirms err;; error_consumers err
  | None => in_consumers Consumers.start_cancel
  end.

Definition set_closed (err : Error) : M t unit :=
  set_state ChClosed;;
  error_publisher_confirms err;;
  cancel_consumers;;
  i ← this_id; rpc_remove_channel i err.

Definition set_connection_error (err : Error) : M t unit :=
  set_state ChError;;
  error_publisher_confirms err;;
  error_consumers err;;
  i ← this_id; rpc_remove_channel i err.

(** The [ProtocolError] path of [assert_channel0] and [report_protocol_violation]. *)
Definition close_connection_for (err : AMQPError) (class_id method_id : Identifier) : M t unit :=
  rpc_close_connection (get_id (amqp_kind err)) (amqp_message err) class_id method_id.

Definition assert_channel0 (class_id method_id : Identifier) : M t (res unit) :=
  i ← this_id;
  if i =? 0 then mret (Ok tt) else
  let err := mkAMQPError (Hard COMMANDINVALID) ("connection frame received on channel " +:+ pretty i) in
  close_connection_for err class_id method_id;;
  mret (Err (error_from (ProtocolError err))).

Definition finalize_connection : M t unit := in_status ChannelStatus.finalize_connection.

Definition topology (c : Chan) : Registry.ChannelDefinition :=
  Registry.mkChannelDefinition (Registry.exchanges_topology (local_registry c))
    (Registry.queues_topology (local_registry c)) (Consumers.topology (consumers_ c)).

Definition poison (err : Error) : M t unit := i ← this_id; in_frames (Frames.poison_channel i err).

Definition init_recovery (err : Error) : M t Error :=
  s ← get;
  err ← in_status (ChannelStatus.set_reconnecting err (topology (self s)));
  in_frames (Frames.drop_frames_for_channel (id (self s)) err);;
  poison err;;
  mret err.

(** [update_recovery_context] with the closure of [update_recovery]. *)
Definition update_recovery : M t (option Registry.ChannelDefinition) :=
  s ← get;
  match ChannelStatus.recovery_context (status (self s)) with
  | None => mret None
  | Some ctx =>
    replies ← in_frames (Frames.take_expected_replies (id (self s)));
    in_status (modify (ChannelStatus.set_context (Some (RecoveryContext.set_expected_replies replies ctx))));;
    in_acks (Acknowledgements.reset (RecoveryContext.rc_cause ctx));;
    in_frames (Frames.drop_channel_poison (id (self s)));;
    mret (Some (RecoveryContext.rc_topology ctx))
  end.

(** ** Sending *)

Definition send_frame (f : AMQPFrame) (canceler : Resolver) (expected : option ExpectedReply)
    (r : option Resolver) : M t unit :=
  i ← this_id; in_frames (Frames.push i f canceler expected r);; wake.

Definition send_method_frame (m : AMQPClass) (canceler : Resolver) (expected : option ExpectedReply)
    (r : option Resolver) : M t unit :=
  i ← this_id; send_frame (Method i m) canceler expected r.

(** [slice::chunks]. *)
Fixpoint chunks_ {A} (fuel n : nat) (l : list A) : list (list A) :=
  match fuel, l with
  | S fuel, _ :: _ => take n l :: chunks_ fuel n (drop n l)
  | _, _ => []
  end.
(** Each chunk takes at least one element when [0 < n]. *)
Definition chunks {A} (n : nat) (l : list A) : list (list A) := chunks_ (length l) n l.

Definition chunk_size (frame_max : FrameSize) : nat := Nat.max (Z.to_nat frame_max - 8) 1.

(** The frames of a publish. *)
Definition body_frames (i : ChannelId) (frame_max : FrameSize) (m : AMQPClass) (payload : list byte)
    (props : BasicProperties) : list AMQPFrame :=
  Method i m :: Header i (mkContentHeader (get_amqp_class_id m) (Z.of_nat (length payload)) props) ::
  (Body i <$> chunks (chunk_size frame_max) payload).

(** Up to the wait for the frames to be written; the future then yields the
    confirm given, or one that was not requested. *)
Definition send_method_frame_with_body (m : AMQPClass) (payload : list byte) (props : BasicProperties)
    (publisher_confirms_result : option PublisherConfirm.t) : M t (Async (option PublisherConfirm.t)) :=
  s ← get;
  p ← promise_new;
  in_frames (Frames.push_frames (id (self s))
    (body_frames (id (self s)) (Configuration.frame_max (configuration (conn s))) m payload props) p);;
  wake;;
  mret (Await p publisher_confirms_result).

(** ** Receiving content *)

Definition report_protocol_violation (err : AMQPError) (class_id method_id : Identifier) : M t (res unit) :=
  close_connection_for err class_id method_id;;
  let error := error_from (ProtocolError err) in
  rpc_set_connection_error error;;
  mret (Err error).

Definition handle_invalid_contents (msg : string) (class_id method_id : Identifier) : M t (res unit) :=
  report_protocol_violation (mkAMQPError (Hard UNEXPECTEDFRAME) msg) class_id method_id.

Definition receiver (s : t) : ReceiverStates.t := ChannelStatus.receiver_state (status (self s)).
Definition set_receiver (q : ReceiverStates.t) : t → t :=
  set_self (λ c, set_status_ (ChannelStatus.set_receiver q (status c)) c).

Definition handle_content_header_frame (class_id : Identifier) (size : PayloadSize) (props : BasicProperties)
  : M t (res unit) :=
  s ← get;
  ReceiverStates.set_content_length receiver set_receiver (id (self s)) class_id size
    (λ cause confirm_mode,
      match cause with
      | Consume tag => in_consumers (Consumers.handle_content_header_frame tag size props)
      | Get => in_get (BasicGetDelivery.handle_content_header_frame size props)
      | Return => in_returned (ReturnedMessages.handle_content_header_frame size props confirm_mode)
      end)
    (λ msg, report_protocol_violation (mkAMQPError (Hard FRAMEERROR) msg) class_id 0)
    (λ msg, handle_invalid_contents msg class_id 0)
    (ChannelStatus.confirm (status (self s))).

Definition handle_body_frame (payload : list byte) : M t (res unit) :=
  s ← get;
  ReceiverStates.receive receiver set_receiver (id (self s)) (Z.of_nat (length payload))
    (λ cause remaining confirm_mode,
      match cause with
      | Consume tag => in_consumers (Consumers.handle_body_frame tag remaining payload)
      | Get => in_get (BasicGetDelivery.handle_body_frame remaining payload)
      | Return => in_returned (ReturnedMessages.handle_body_frame remaining payload confirm_mode)
      end)
    (λ msg, handle_invalid_contents msg 0 0)
    (ChannelStatus.confirm (status (self s))).

(** ** Hooks of the generated methods *)

Definition before_basic_publish : M t (option PublisherConfirm.t) :=
  if_ confirm (x ← in_acks Acknowledgements.register_pending; mret (Some x)) (mret None).

Definition before_basic_cancel (tag : ShortString) : M t unit := in_consumers (Consumers.start_cancel_one tag).

Definition acknowledgement_error (err : AMQPError) (class_id method_id : Identifier) : M t (res unit) :=
  i ← this_id;
  spawn (TChannelClose i (get_id (amqp_kind err)) (amqp_message err) class_id method_id);;
  mret (Err (error_from (ProtocolError err))).

Definition on_connection_close_ok_sent (err : Error) : M t unit :=
  rpc_finish_connection_shutdown;;
  if_ (can_recover_ err) (mret tt)
    match kind err with
    | ProtocolError _ => rpc_set_connection_error err
    | _ => rpc_set_connection_closed err
    end.

Definition next_expected_close_ok_reply : M t (option Reply) :=
  i ← this_id;
  in_frames (Frames.next_expected_close_ok_reply i
    (error_from (InvalidChannelState ChClosed "unexpected channel.close-ok received"))).

Definition before_channel_close : M t unit := set_closing None.

Definition on_channel_close_ok_sent (err : option Error) : M t unit :=
  let err' := default (error_from (InvalidChannelState ChClosing "channel.close-ok sent")) err in
  poison err';;
  set_closed err';;
  match err with Some err => send_event (EvError err) | None => mret tt end.

Definition drop_prefetched_messages : M t unit := in_consumers Consumers.drop_prefetched_messages.

Definition on_basic_recover_async_sent : M t unit := drop_prefetched_messages.

Definition on_basic_ack_sent (multiple : bool) (tag : DeliveryTag) : M t unit :=
  if multiple && (tag =? 0) then drop_prefetched_messages else mret tt.

Definition on_basic_nack_sent (multiple : bool) (tag : DeliveryTag) : M t unit :=
  if multiple && (tag =? 0) then drop_prefetched_messages else mret tt.

Definition drop_connection (c : ConnectionRef) : M t unit := drop_connection_ (λ s, connection_status (conn s)) c.

(** A frame refused because of poison is dropped with the reply expected of it: here the
    connection of a handshake step. *)
Definition drop_refused (c : ConnectionRef) : M t unit :=
  s ← get;
  match Frames.check_poison (frames (conn s)) (id (self s)) with
  | Some _ => drop_connection c
  | None => mret tt
  end.

(** The step is dropped at the end of the [if let], after the rejection. *)
Definition connection_process_error (state : ConnectionState) (step : option ConnectionStep)
    (r : option Resolver) : M t (res unit) :=
  let err := error_from (InvalidConnectionState state) in
  rpc_set_connection_error err;;
  match step with
  | Some s => reject (into_connection_resolver s) err;; drop_connection (step_connection s)
  | None => mret tt
  end;;
  match r with Some r => reject r err | None => mret tt end;;
  mret (Err err).

Definition connection_state_ : M t ConnectionState :=
  s ← get; mret (ConnectionStatus.state (connection_status (conn s))).

Definition on_connection_start_received (mechanisms locales : LongString) (step : ConnectionStep) : M t (res unit) :=
  state ← connection_state_;
  if decide (state ≠ CoConnecting) then connection_process_error state (Some step) None else
  match step with
  | StepProtocolHeader r c =>
    match auth_starter c with
    | Err e => drop_connection c;; mret (Err (error_from (AuthProviderError e)))
    | Ok starter =>
      spawn (TConnectionStartOk (announced_properties (amqp_client_properties c)) (mechanism c) starter (amqp_locale c) r c);;
      mret (Ok tt)
    end
  | step => connection_process_error state (Some step) None
  end.

Definition on_connection_secure_received (challenge : LongString) (step : ConnectionStep) : M t (res unit) :=
  state ← connection_state_;
  if decide (state ≠ CoConnecting) then connection_process_error state (Some step) None else
  match step with
  | StepStartOk r c | StepSecureOk r c =>
    match continue_auth c challenge with
    | Err e => drop_connection c;; mret (Err (error_from (AuthProviderError e)))
    | Ok response => spawn (TConnectionSecureOk response r c);; mret (Ok tt)
    end
  | step => connection_process_error state (Some step) None
  end.

Definition on_connection_tune_received (cmax : ChannelId) (fmax : FrameSize) (hb : Heartbeat)
    (step : ConnectionStep) : M t (res unit) :=
  state ← connection_state_;
  if decide (state ≠ CoConnecting) then connection_process_error state (Some step) None else
  match step with
  | StepStartOk r c | StepSecureOk r c =>
    modify (set_conn (λ c, set_configuration
      (Configuration.tune_connection_configuration cmax fmax hb (configuration c)) c));;
    s ← get;
    spawn (TConnectionTuneOk (vhost (conn s)) r c);;
    mret (Ok tt)
  | step => connection_process_error state (Some step) None
  end.

Definition on_connection_open_ok_received (c : ConnectionRef) (r : Resolver) : M t (res unit) :=
  state ← connection_state_;
  if decide (state ≠ CoConnecting)
  then x ← connection_process_error state None (Some r); drop_connection c;; mret x else
  update_connection_status (λ s, (ConnectionStatus.set_state CoConnected s).2);;
  resolve r (VConnection c);;
  send_event EvConnected;;
  mret (Ok tt).

(** [Frames::connection_resolver]: the connection taken from the step is dropped. *)
Definition connection_resolver (i : ChannelId) : M t (option Resolver) :=
  r ← in_frames (Frames.connection_resolver i);
  match r with Some (r, c) => drop_connection c;; mret (Some r) | None => mret None end.

Definition on_connection_close_received (code : ReplyCode) (text : ShortString) : M t (res unit) :=
  let err := match amqp_error_of_close code text with
             | Some e => error_from (ProtocolError e)
             | None => error_from (InvalidConnectionState CoClosed)
             end in
  if_ (can_recover_ err)
    (rpc_init_connection_recovery err)
    (i ← this_id; r ← connection_resolver i; rpc_init_connection_shutdown err r);;
  rpc_send_connection_close_ok err;;
  mret (Ok tt).

Definition on_connection_blocked_received (reason : ShortString) : M t (res unit) :=
  update_connection_status ConnectionStatus.block;;
  send_event (EvConnectionBlocked reason);;
  mret (Ok tt).

Definition on_connection_unblocked_received : M t (res unit) :=
  update_connection_status ConnectionStatus.unblock;;
  send_event EvConnectionUnblocked;;
  wake;;
  mret (Ok tt).

Definition on_connection_close_ok_received : M t (res unit) :=
  rpc_set_connection_closed (error_from (InvalidConnectionState CoClosed));; mret (Ok tt).

Definition on_channel_open_ok_received (r : Resolver) (channel : ChannelId) : M t (res unit) :=
  if_ confirm (mret tt) finalize_connection;;
  resolve r (VChannel channel);;
  mret (Ok tt).

Definition on_channel_flow_received (active : bool) : M t (res unit) :=
  in_status (ChannelStatus.set_send_flow active);;
  send_event (EvSendFlow active);;
  i ← this_id;
  spawn (TChannelFlowOk i active);;
  mret (Ok tt).

Definition on_channel_flow_ok_received (active : bool) (r : Resolver) : M t (res unit) :=
  resolve r (VBool active);; mret (Ok tt).

Definition on_channel_close_received (code : ReplyCode) (text : ShortString) : M t (res unit) :=
  let err := (λ e, error_from (ProtocolError e)) <$> amqp_error_of_close code text in
  set_closing err;;
  i ← this_id;
  spawn (TChannelCloseOk i err);;
  mret (Ok tt).

Definition on_channel_close_ok_received : M t (res unit) :=
  set_closed (error_from (InvalidChannelState ChClosed "channel.close-ok received"));; mret (Ok tt).

Definition on_exchange_bind_ok_received (dest src key : ShortString) (args : FieldTable) : M t (res unit) :=
  registry_update (Registry.register_exchange_binding dest src key args);; mret (Ok tt).

Definition on_exchange_unbind_ok_received (dest src key : ShortString) (args : FieldTable) : M t (res unit) :=
  registry_update (Registry.deregister_exchange_binding dest src key args);; mret (Ok tt).

Definition on_exchange_declare_ok_received (r : Resolver) (exch : ShortString) (k : ExchangeKind)
    (o : ExchangeDeclareOptions) (args : FieldTable) : M t (res unit) :=
  registry_update (Registry.register_exchange exch k o args);; resolve r VUnit;; mret (Ok tt).

Definition on_exchange_delete_ok_received (exch : ShortString) : M t (res unit) :=
  registry_update (Registry.deregister_exchange exch);; mret (Ok tt).

Definition on_queue_delete_ok_received (count : MessageCount) (r : Resolver) (queue : ShortString) : M t (res unit) :=
  registry_update (Registry.deregister_queue queue);; resolve r (VCount count);; mret (Ok tt).

Definition on_queue_purge_ok_received (count : MessageCount) (r : Resolver) : M t (res unit) :=
  resolve r (VCount count);; mret (Ok tt).

Definition on_queue_declare_ok_received (queue : ShortString) (messages consumers : MessageCount) (r : Resolver)
    (o : QueueDeclareOptions) (args : FieldTable) : M t (res unit) :=
  registry_update (Registry.register_queue queue o args);;
  resolve r (VQueue (mkQueue queue messages consumers));; mret (Ok tt).

Definition on_queue_bind_ok_received (queue exch key : ShortString) (args : FieldTable) : M t (res unit) :=
  registry_update (Registry.register_queue_binding queue exch key args);; mret (Ok tt).

Definition on_queue_unbind_ok_received (queue exch key : ShortString) (args : FieldTable) : M t (res unit) :=
  registry_update (Registry.deregister_queue_binding queue exch key args);; mret (Ok tt).

Definition on_basic_get_ok_received (m : AMQPClass) (tag : DeliveryTag) (redeliv : bool) (exch key : ShortString)
    (count : MessageCount) (r : Resolver) : M t (res unit) :=
  k ← in_status (ChannelStatus.set_will_receive (get_amqp_class_id m) Get);
  i ← this_id;
  msg ← Messages.get_message_new i tag exch key redeliv count k;
  in_get (BasicGetDelivery.start_new_delivery msg r);;
  mret (Ok tt).

Definition on_basic_get_empty_received (m : AMQPClass) : M t (res unit) :=
  i ← this_id;
  reply ← in_frames (Frames.find_expected_reply i
    (λ er, match er_reply er with RBasicGetOk _ => true | _ => false end));
  match reply with
  | Some (RBasicGetOk r) => resolve r (VGet None);; mret (Ok tt)
  | _ => handle_invalid_contents ("unexpected basic get empty received on channel " +:+ pretty i)
           (get_amqp_class_id m) (get_amqp_method_id m)
  end.

Definition on_basic_consume_ok_received (tag : ShortString) (r : Resolver) (queue : ShortString)
    (o : BasicConsumeOptions) (args : FieldTable) (original : option ConsumerRef) : M t (res unit) :=
  c ← match original with Some c => mret c | None => Consumer.new tag queue o args end;
  in_consumers (Consumers.register tag c);;
  resolve r (VConsumer c);;
  mret (Ok tt).

Definition on_basic_deliver_received (m : AMQPClass) (consumer_tag : ShortString) (tag : DeliveryTag)
    (redeliv : bool) (exch key : ShortString) : M t (res unit) :=
  k ← in_status (ChannelStatus.set_will_receive (get_amqp_class_id m) (Consume consumer_tag));
  i ← this_id;
  in_consumers (Consumers.start_delivery consumer_tag (λ h,
    Messages.delivery_new i tag exch key redeliv true (Some h) k));;
  mret (Ok tt).

Definition deregister_consumer (tag : ShortString) : M t unit := in_consumers (Consumers.deregister tag).

Definition on_basic_cancel_received (tag : ShortString) (nowait : bool) : M t (res unit) :=
  deregister_consumer tag;;
  (if nowait then mret tt else i ← this_id; spawn (TBasicCancelOk i tag));;
  mret (Ok tt).

Definition on_basic_cancel_ok_received (tag : ShortString) : M t (res unit) :=
  deregister_consumer tag;; mret (Ok tt).

(** The common body of [on_basic_ack_received] and [on_basic_nack_received]. *)
Definition on_basic_confirm_received (m : AMQPClass) (tag : DeliveryTag) (multiple success : bool) : M t (res unit) :=
  if_ confirm
    (r ← in_acks (Acknowledgements.on_confirm tag multiple success);
     match r with
     | Err err => acknowledgement_error err (get_amqp_class_id m) (get_amqp_method_id m)
     | Ok _ => mret (Ok tt)
     end)
    (mret (Ok tt)).

Definition on_basic_ack_received (m : AMQPClass) (tag : DeliveryTag) (multiple : bool) : M t (res unit) :=
  on_basic_confirm_received m tag multiple true.

Definition on_basic_nack_received (m : AMQPClass) (tag : DeliveryTag) (multiple : bool) : M t (res unit) :=
  on_basic_confirm_received m tag multiple false.

Definition on_basic_return_received (m : AMQPClass) (code : ReplyCode) (text exch key : ShortString) : M t (res unit) :=
  k ← in_status (ChannelStatus.set_will_receive (get_amqp_class_id m) Return);
  msg ← Messages.return_message_new exch key code text k;
  in_returned (ReturnedMessages.start_new_delivery msg);;
  mret (Ok tt).

Definition on_basic_recover_ok_received : M t (res unit) := drop_prefetched_messages;; mret (Ok tt).

Definition on_confirm_select_ok_received : M t (res unit) := in_status ChannelStatus.set_confirm;; mret (Ok tt).

(** [wait_for_confirms], up to the wait; [None]: nothing to wait for, the returned
    messages are drained at once. *)
Definition wait_for_confirms : M t (option Resolver + list BasicReturnMessage) :=
  p ← in_acks Acknowledgements.get_last_pending;
  match p with
  | Some p => mret (inl (Some p))
  | None => l ← in_returned ReturnedMessages.drain; mret (inr l)
  end.

(** ** Splitting a payload *)

Lemma chunks_concat_ {A} fuel n (l : list A) : (0 < n)%nat → (length l ≤ fuel)%nat → concat (chunks_ fuel n l) = l.
Proof.
  intros Hn. revert l. induction fuel as [|fuel IH]; intros l Hl; simpl.
  - destruct l; simpl in *; [done|lia].
  - destruct l as [|x l]; [done|]. cbn [concat]. rewrite IH; [apply take_drop|].
    rewrite length_drop. simpl in *. lia.
Qed.

Lemma chunks_size_ {A} fuel n (l : list A) : (0 < n)%nat →
  Forall (λ c, 0 < length c ≤ n)%nat (chunks_ fuel n l).
Proof.
  intros Hn. revert l. induction fuel as [|fuel IH]; intros l; simpl; [constructor|].
  destruct l as [|x l]; constructor; [|apply IH]. rewrite length_take. simpl. lia.
Qed.

(** C32: a published payload fits its frames.  For a frame size above the 8 bytes of overhead, the body frames of a publish carry the
    payload in order, nothing lost or added; the header announces its exact size; none is
    empty, and with the frame envelope of 8 bytes none exceeds the negotiated
    [frame_max]. *)
Theorem body_frames_fit i frame_max m payload props :
  8 < frame_max →
  ∃ bodies, body_frames i frame_max m payload props =
      Method i m :: Header i (mkContentHeader (get_amqp_class_id m) (Z.of_nat (length payload)) props) ::
      (Body i <$> bodies) ∧
    concat bodies = payload ∧
    Forall (λ b, b ≠ [] ∧ Z.of_nat (length b) + 8 ≤ frame_max) bodies.
Proof.
  intros Hmax. exists (chunks (chunk_size frame_max) payload). split_and!; [done| |].
  - apply chunks_concat_; [unfold chunk_size; lia|done].
  - eapply Forall_impl; [apply chunks_size_; unfold chunk_size; lia|]. intros b [Hb1 Hb2].
    split; [by intros ->; simpl in Hb1; lia|]. unfold chunk_size in Hb2. lia.
Qed.

(** ** Receiving a message for a consumer *)

Lemma zoom_tag tag c (k : ConsumerRef → M Consumers.t unit) s e e' :
  consumers_ (self s) !! tag = Some c →
  k c (consumers_ (self s)) e = (tt, consumers_ (self s), e') →
  in_consumers (Consumers.with_tag tag k) s e = (tt, s, e').
Proof.
  intros Hc Hk. unfold in_consumers, zoom, Consumers.with_tag. rewrite bind_get, Hc, Hk.
  by destruct s as [[]].
Qed.

Lemma set_receiver_set q q' s : set_receiver q' (set_receiver q s) = set_receiver q' s.
Proof. done. Qed.

Lemma receiver_set q s : receiver (set_receiver q s) = q.
Proof. done. Qed.

Lemma header_received cls size props s e ctag c x d rest :
  receiver s = ReceiverStates.WillReceiveContent cls (Consume ctag) :: rest →
  consumers_ (self s) !! ctag = Some c → consumers e !! c = Some x →
  c_delegate x = false → c_current_message x = Some d →
  handle_content_header_frame cls size props s e =
  (Ok tt,
   set_receiver ((if 0 <? size then [ReceiverStates.ReceivingContent (Consume ctag) size] else []) ++ rest) s,
   Consumer.put_consumer c (if size =? 0 then Consumer.delivered (set_properties d props) x
                            else Consumer.set_message (Some (set_properties d props)) x) e).
Proof.
  intros Hr Hc Hx Hd Hm. unfold handle_content_header_frame. rewrite bind_get.
  unfold ReceiverStates.set_content_length. rewrite ReceiverStates.bind_pop_front, Hr.
  cbn [head tail]. rewrite Z.eqb_refl. unfold mbind at 1, M_bind at 1. unfold Consumers.handle_content_header_frame.
  rewrite (zoom_tag ctag c _ (set_receiver rest s) e _ Hc (Consumer.header_eq _ _ _ _ _ _ _ Hx Hd Hm)).
  unfold mbind, M_bind, mret, M_ret, ReceiverStates.push_front, modify.
  destruct (0 <? size); [|done]. by rewrite receiver_set, set_receiver_set.
Qed.

Lemma body_received payload size s e ctag c x d rest :
  receiver s = ReceiverStates.ReceivingContent (Consume ctag) size :: rest →
  Z.of_nat (length payload) ≤ size →
  consumers_ (self s) !! ctag = Some c → consumers e !! c = Some x →
  c_delegate x = false → c_current_message x = Some d →
  let remaining := size - Z.of_nat (length payload) in
  handle_body_frame payload s e =
  (Ok tt,
   set_receiver ((if 0 <? remaining then [ReceiverStates.ReceivingContent (Consume ctag) remaining] else []) ++ rest) s,
   Consumer.put_consumer c (if remaining =? 0 then Consumer.delivered (receive_content d payload) x
                            else Consumer.set_message (Some (receive_content d payload)) x) e).
Proof.
  intros Hr Hlen Hc Hx Hd Hm. cbn zeta. unfold handle_body_frame. rewrite bind_get.
  unfold ReceiverStates.receive. rewrite ReceiverStates.bind_pop_front, Hr.
  cbn [head tail]. unfold ReceiverStates.checked_sub. rewrite (proj2 (Z.leb_le _ _)) by done.
  unfold mbind at 1, M_bind at 1. unfold Consumers.handle_body_frame.
  rewrite (zoom_tag ctag c _ (set_receiver rest s) e _ Hc (Consumer.body_eq _ _ _ _ _ _ _ Hx Hd Hm)).
  unfold mbind, M_bind, mret, M_ret, ReceiverStates.push_front, modify.
  destruct (0 <? _); [|done]. by rewrite receiver_set, set_receiver_set.
Qed.

End Channel.

Section Witnesses.
#[local] Existing Instances number_types number_protocol.

Lemma body_frames_fit_witness :
  ∃ bodies, body_frames 1 10 (BasicPublish "" "q" false false) [Byte.x01; Byte.x02; Byte.x03] 0%nat =
      Method 1 (BasicPublish "" "q" false false) :: Header 1 (mkContentHeader 60 3 0%nat) :: (Body 1 <$> bodies) ∧
    concat bodies = [Byte.x01; Byte.x02; Byte.x03] ∧
    Forall (λ b, b ≠ [] ∧ Z.of_nat (length b) + 8 ≤ 10) bodies.
Proof. apply (body_frames_fit (AT := number_types) (AP := number_protocol) 1 10 (BasicPublish "" "q" false false) [Byte.x01; Byte.x02; Byte.x03] 0%nat). lia. Defined.

End Witnesses.
End Channel.

(** A concrete connection handle, to evaluate the model. *)
Definition number_handle : @ConnectionHandle number_types :=
  {| mechanism := λ _, "PLAIN"; auth_starter := λ _, Ok "secret"; continue_auth := λ _ _, Ok "more";
     amqp_locale := λ _, "en_US"; amqp_client_properties := λ _, @FieldTable_default number_types;
     closer_noop := λ c, negb (Nat.eqb c 0) |}.
