(* ===== verification/Generated.v ===== *)
(** The AMQP methods of a channel (src/generated/channel.rs): what the client sends and
    how it receives what the server sends.  An asynchronous method is its part up to the
    wait: [Err] when it fails at once, [Ok p] when it waits for the promise [p]. *)
From S2P Require Import Prelude.
From S2P Require Import IdSequence.
From S2P Require Import Buffer.
From S2P Require Import Types.
From S2P Require Import Env.
From S2P Require Import Frames.
From S2P Require Import Registry.
From S2P Require Import ChannelStatus.
From S2P Require Import Messages.
From S2P Require Import Acknowledgements.
From S2P Require Import Consumers.
From S2P Require Import Connection.
From S2P Require Import Channel.
Open Scope Z_scope.

Module Generated.
Import Channel.
Section Generated.
Context `{AT : AmqpTypes} `{AP : !AmqpProtocol} `{CH : !ConnectionHandle}
  `{HZ : !HashOrder Z} `{HS : !HashOrder string}.

(** ** The shapes the template instantiates *)

(** The state check every method starts with. *)
Definition guarded {A} (ok : ChannelStatus.t → bool) (ctx : string) (k : M t (res A)) : M t (res A) :=
  st ← this_status;
  if ok st then k else mret (Err (ChannelStatus.state_error ctx st)).

(** A method with an answer to wait for, and one that is done when it is written. *)
Definition call (m : AMQPClass) (reply : Resolver → Reply) : M t Resolver :=
  p ← promise_new;
  send_method_frame m p (Some (mkExpectedReply (reply p) p)) None;;
  mret p.

(** A step of the handshake, whose reply holds the connection. *)
Definition call_step (m : AMQPClass) (reply : Resolver → Reply) (c : ConnectionRef) : M t Resolver :=
  p ← call m reply; drop_refused c;; mret p.

Definition cast (m : AMQPClass) : M t Resolver :=
  p ← promise_new; send_method_frame m p None (Some p);; mret p.

(** [if let Some(nowait_reply) = nowait_reply { self.receive_..(nowait_reply)?; }]. *)
Definition unless_wait (nowait : bool) (receive : M t (res unit)) (p : Resolver) : M t (res Resolver) :=
  if nowait then let! _ := receive in mret (Ok p) else mret (Ok p).

Definition waiting (m : M t Resolver) : M t (res Resolver) := p ← m; mret (Ok p).

(** [find_expected_reply] with the pattern [select], then the handler of the reply
    found; a method nobody waits for closes the connection. *)
Definition expecting (name : string) (m : AMQPClass) (select : Reply → option (M t (res unit))) : M t (res unit) :=
  i ← this_id;
  reply ← in_frames (Frames.find_expected_reply i
    (λ er, match select (er_reply er) with Some _ => true | None => false end));
  match reply ≫= select with
  | Some handler => handler
  | None => handle_invalid_contents
      ("unexpected " +:+ name +:+ " received on channel " +:+ pretty i +:+ ", was awaiting for None")
      (get_amqp_class_id m) (get_amqp_method_id m)
  end.

(** [let res = ..; resolver.complete(res.clone()); res]. *)
Definition completing (r : Resolver) (k : M t (res unit)) : M t (res unit) :=
  x ← k;
  complete r (match x with Ok _ => Ok VUnit | Err e => Err e end);;
  mret x.

Definition ok_ : M t (res unit) := mret (Ok tt).

Definition can_receive {A} (ctx : string) (k : M t (res A)) : M t (res A) :=
  guarded ChannelStatus.can_receive_messages ctx k.
Definition connected {A} (ctx : string) (k : M t (res A)) : M t (res A) := guarded ChannelStatus.connected ctx k.

Definition on_channel0 (m : AMQPClass) (k : M t (res unit)) : M t (res unit) :=
  let! _ := assert_channel0 (get_amqp_class_id m) (get_amqp_method_id m) in k.

(** ** basic *)

Definition basic_qos (prefetch_count : Z) (global : bool) : M t (res Resolver) :=
  connected "basic.qos" (waiting (call (BasicQos prefetch_count global) RBasicQosOk)).

Definition receive_basic_qos_ok : M t (res unit) :=
  can_receive "basic.qos-ok" (expecting "basic qos-ok" BasicQosOk (λ r,
    match r with RBasicQosOk p => Some (completing p ok_) | _ => None end)).

Definition receive_basic_consume_ok (tag : ShortString) : M t (res unit) :=
  can_receive "basic.consume-ok" (expecting "basic consume-ok" (BasicConsumeOk tag) (λ r,
    match r with
    | RBasicConsumeOk p _ queue o args original =>
      Some (on_basic_consume_ok_received tag p queue o args original)
    | _ => None
    end)).

Definition do_basic_consume (queue tag : ShortString) (o : BasicConsumeOptions) (args : FieldTable)
    (original : option ConsumerRef) : M t (res Resolver) :=
  connected "basic.consume" (
    s ← get;
    p ← call (BasicConsume queue tag o args)
          (λ p, RBasicConsumeOk p (closer (self s)) queue o args original);
    unless_wait (bco_nowait o) (receive_basic_consume_ok tag) p).

Definition receive_basic_cancel_ok (tag : ShortString) : M t (res unit) :=
  can_receive "basic.cancel-ok" (expecting "basic cancel-ok" (BasicCancelOk tag) (λ r,
    match r with RBasicCancelOk p => Some (completing p (on_basic_cancel_ok_received tag)) | _ => None end)).

Definition basic_cancel (tag : ShortString) (nowait : bool) : M t (res Resolver) :=
  connected "basic.cancel" (
    before_basic_cancel tag;;
    p ← call (BasicCancel tag nowait) RBasicCancelOk;
    unless_wait nowait (receive_basic_cancel_ok tag) p).

Definition receive_basic_cancel (tag : ShortString) (nowait : bool) : M t (res unit) :=
  can_receive "basic.cancel" (on_basic_cancel_received tag nowait).

Definition basic_cancel_ok (tag : ShortString) : M t (res Resolver) :=
  connected "basic.cancel-ok" (waiting (cast (BasicCancelOk tag))).

(** [basic_publish] waits for the frames to be written, then yields the confirm. *)
Definition basic_publish (exch key : ShortString) (mandatory immediate : bool) (payload : list byte)
    (props : BasicProperties) : M t (res (Async (option PublisherConfirm.t))) :=
  connected "basic.publish" (
    start_hook_res ← before_basic_publish;
    a ← send_method_frame_with_body (BasicPublish exch key mandatory immediate) payload props start_hook_res;
    mret (Ok a)).

Definition receive_basic_return (m : AMQPClass) (code : ReplyCode) (text exch key : ShortString) : M t (res unit) :=
  can_receive "basic.return" (on_basic_return_received m code text exch key).

Definition receive_basic_deliver (m : AMQPClass) (ctag : ShortString) (tag : DeliveryTag) (redeliv : bool)
    (exch key : ShortString) : M t (res unit) :=
  can_receive "basic.deliver" (on_basic_deliver_received m ctag tag redeliv exch key).

Definition do_basic_get (queue : ShortString) (no_ack : bool) (original : option Resolver) : M t (res Resolver) :=
  connected "basic.get" (
    p ← promise_new;
    let r := default p original in
    send_method_frame (BasicGet queue no_ack) r (Some (mkExpectedReply (RBasicGetOk p) r)) None;;
    mret (Ok p)).

Definition receive_basic_get_ok (m : AMQPClass) (tag : DeliveryTag) (redeliv : bool) (exch key : ShortString)
    (count : MessageCount) : M t (res unit) :=
  can_receive "basic.get-ok" (expecting "basic get-ok" m (λ r,
    match r with RBasicGetOk p => Some (on_basic_get_ok_received m tag redeliv exch key count p) | _ => None end)).

Definition receive_basic_get_empty (m : AMQPClass) : M t (res unit) :=
  can_receive "basic.get-empty" (on_basic_get_empty_received m).

Definition basic_ack (tag : DeliveryTag) (multiple : bool) : M t (res Resolver) :=
  connected "basic.ack" (
    p ← cast (BasicAck tag multiple); on_basic_ack_sent multiple tag;; mret (Ok p)).

Definition receive_basic_ack (m : AMQPClass) (tag : DeliveryTag) (multiple : bool) : M t (res unit) :=
  can_receive "basic.ack" (on_basic_ack_received m tag multiple).

Definition basic_reject (tag : DeliveryTag) (requeue : bool) : M t (res Resolver) :=
  connected "basic.reject" (waiting (cast (BasicReject tag requeue))).

Definition basic_recover_async (requeue : bool) : M t (res Resolver) :=
  connected "basic.recover-async" (
    p ← cast (BasicRecoverAsync requeue); on_basic_recover_async_sent;; mret (Ok p)).

Definition basic_recover (requeue : bool) : M t (res Resolver) :=
  connected "basic.recover" (waiting (call (BasicRecover requeue) RBasicRecoverOk)).

Definition receive_basic_recover_ok : M t (res unit) :=
  can_receive "basic.recover-ok" (expecting "basic recover-ok" BasicRecoverOk (λ r,
    match r with RBasicRecoverOk p => Some (completing p on_basic_recover_ok_received) | _ => None end)).

Definition basic_nack (tag : DeliveryTag) (multiple requeue : bool) : M t (res Resolver) :=
  connected "basic.nack" (
    p ← cast (BasicNack tag multiple requeue); on_basic_nack_sent multiple tag;; mret (Ok p)).

Definition receive_basic_nack (m : AMQPClass) (tag : DeliveryTag) (multiple : bool) : M t (res unit) :=
  can_receive "basic.nack" (on_basic_nack_received m tag multiple).

(** ** connection *)

(** The part [receive_connection_start], [_secure] and [_tune] share. *)
Definition connection_step (ctx : string) (m : AMQPClass) (k : ConnectionStep → M t (res unit)) : M t (res unit) :=
  on_channel0 m (can_receive ctx (
    i ← this_id;
    step ← in_frames (Frames.find_connection_step i);
    match step with
    | Some step => k step
    | None => state ← connection_state_; connection_process_error state None None
    end)).

Definition receive_connection_start (mechanisms locales : LongString) : M t (res unit) :=
  connection_step "connection.start" (ConnectionStart mechanisms locales)
    (on_connection_start_received mechanisms locales).

(** The promise of [connection.start-ok] only serves to cancel the frame; what completes
    the handshake is the resolver of the connection. *)
Definition connection_start_ok (client_properties : FieldTable) (mech : ShortString) (response : LongString)
    (locale : ShortString) (conn_resolver : Resolver) (c : ConnectionRef) : M t (res Resolver) :=
  waiting (call_step (ConnectionStartOk client_properties mech response locale)
             (λ _, RConnectionStep (StepStartOk conn_resolver c)) c).

Definition receive_connection_secure (challenge : LongString) : M t (res unit) :=
  connection_step "connection.secure" (ConnectionSecure challenge) (on_connection_secure_received challenge).

Definition connection_secure_ok (response : LongString) (conn_resolver : Resolver) (c : ConnectionRef)
  : M t (res Resolver) :=
  waiting (call_step (ConnectionSecureOk response) (λ _, RConnectionStep (StepSecureOk conn_resolver c)) c).

Definition receive_connection_tune (cmax : ChannelId) (fmax : FrameSize) (hb : Heartbeat) : M t (res unit) :=
  connection_step "connection.tune" (ConnectionTune cmax fmax hb) (on_connection_tune_received cmax fmax hb).

Definition connection_tune_ok (cmax : ChannelId) (fmax : FrameSize) (hb : Heartbeat) : M t (res Resolver) :=
  waiting (cast (ConnectionTuneOk cmax fmax hb)).

Definition connection_open (virtual_host : ShortString) (c : ConnectionRef) (conn_resolver : Resolver)
  : M t (res Resolver) :=
  waiting (call_step (ConnectionOpen virtual_host) (λ p, RConnectionOpenOk p c conn_resolver) c).

Definition receive_connection_open_ok : M t (res unit) :=
  on_channel0 ConnectionOpenOk (can_receive "connection.open-ok" (expecting "connection open-ok" ConnectionOpenOk (λ r,
    match r with
    | RConnectionOpenOk p c conn_resolver => Some (completing p (on_connection_open_ok_received c conn_resolver))
    | _ => None
    end))).

Definition connection_close (code : ReplyCode) (text : ShortString) (class_id method_id : Identifier)
  : M t (res Resolver) :=
  waiting (call (ConnectionClose code text class_id method_id) RConnectionCloseOk).

Definition receive_connection_close (code : ReplyCode) (text : ShortString) (class_id method_id : Identifier)
  : M t (res unit) :=
  on_channel0 (ConnectionClose code text class_id method_id)
    (can_receive "connection.close" (on_connection_close_received code text)).

Definition connection_close_ok (err : Error) : M t (res Resolver) :=
  p ← cast ConnectionCloseOk; on_connection_close_ok_sent err;; mret (Ok p).

Definition receive_connection_close_ok : M t (res unit) :=
  on_channel0 ConnectionCloseOk (can_receive "connection.close-ok" (expecting "connection close-ok" ConnectionCloseOk (λ r,
    match r with RConnectionCloseOk p => Some (completing p on_connection_close_ok_received) | _ => None end))).

Definition receive_connection_blocked (reason : ShortString) : M t (res unit) :=
  on_channel0 (ConnectionBlocked reason)
    (can_receive "connection.blocked" (on_connection_blocked_received reason)).

Definition receive_connection_unblocked : M t (res unit) :=
  on_channel0 ConnectionUnblocked (can_receive "connection.unblocked" on_connection_unblocked_received).

Definition connection_update_secret (new_secret : LongString) (reason : ShortString) : M t (res Resolver) :=
  waiting (call (ConnectionUpdateSecret new_secret reason) RConnectionUpdateSecretOk).

Definition receive_connection_update_secret_ok : M t (res unit) :=
  on_channel0 ConnectionUpdateSecretOk (can_receive "connection.update-secret-ok"
    (expecting "connection update-secret-ok" ConnectionUpdateSecretOk (λ r,
      match r with RConnectionUpdateSecretOk p => Some (completing p ok_) | _ => None end))).

(** ** channel *)

Definition channel_open (channel : ChannelId) : M t (res Resolver) :=
  guarded ChannelStatus.initializing "channel.open" (
    waiting (call ChannelOpen (λ p, RChannelOpenOk p channel))).

Definition receive_channel_open_ok : M t (res unit) :=
  guarded ChannelStatus.initializing "channel.open-ok" (expecting "channel open-ok" ChannelOpenOk (λ r,
    match r with RChannelOpenOk p channel => Some (on_channel_open_ok_received p channel) | _ => None end)).

Definition channel_flow (active : bool) : M t (res Resolver) :=
  connected "channel.flow" (waiting (call (ChannelFlow active) RChannelFlowOk)).

Definition receive_channel_flow (active : bool) : M t (res unit) :=
  can_receive "channel.flow" (on_channel_flow_received active).

Definition channel_flow_ok (active : bool) : M t (res Resolver) :=
  connected "channel.flow-ok" (waiting (cast (ChannelFlowOk active))).

Definition receive_channel_flow_ok (active : bool) : M t (res unit) :=
  can_receive "channel.flow-ok" (expecting "channel flow-ok" (ChannelFlowOk active) (λ r,
    match r with RChannelFlowOk p => Some (on_channel_flow_ok_received active p) | _ => None end)).

Definition do_channel_close (code : ReplyCode) (text : ShortString) (class_id method_id : Identifier)
  : M t (res Resolver) :=
  connected "channel.close" (
    before_channel_close;;
    waiting (call (ChannelClose code text class_id method_id) RChannelCloseOk)).

Definition receive_channel_close (code : ReplyCode) (text : ShortString) : M t (res unit) :=
  can_receive "channel.close" (on_channel_close_received code text).

Definition channel_close_ok (err : option Error) : M t (res Resolver) :=
  guarded ChannelStatus.closing "channel.close-ok" (
    p ← cast ChannelCloseOk; on_channel_close_ok_sent err;; mret (Ok p)).

Definition receive_channel_close_ok : M t (res unit) :=
  can_receive "channel.close-ok" (
    reply ← next_expected_close_ok_reply;
    match reply with
    | Some (RChannelCloseOk p) => completing p on_channel_close_ok_received
    | _ =>
      i ← this_id;
      handle_invalid_contents
        ("unexpected channel close-ok received on channel " +:+ pretty i +:+ ", was awaiting for None")
        (get_amqp_class_id ChannelCloseOk) (get_amqp_method_id ChannelCloseOk)
    end).

(** ** access *)

Definition access_request (realm : ShortString) (exclusive passive active write read : bool) : M t (res Resolver) :=
  connected "access.request" (waiting (call (AccessRequest realm exclusive passive active write read) RAccessRequestOk)).

Definition receive_access_request_ok : M t (res unit) :=
  can_receive "access.request-ok" (expecting "access request-ok" AccessRequestOk (λ r,
    match r with RAccessRequestOk p => Some (completing p ok_) | _ => None end)).

(** ** exchange *)

Definition receive_exchange_declare_ok : M t (res unit) :=
  can_receive "exchange.declare-ok" (expecting "exchange declare-ok" ExchangeDeclareOk (λ r,
    match r with
    | RExchangeDeclareOk p exch k o args => Some (on_exchange_declare_ok_received p exch k o args)
    | _ => None
    end)).

Definition do_exchange_declare (exch kind : ShortString) (o : ExchangeDeclareOptions) (args : FieldTable)
    (exchange_kind : ExchangeKind) : M t (res Resolver) :=
  connected "exchange.declare" (
    p ← call (ExchangeDeclare exch kind o args) (λ p, RExchangeDeclareOk p exch exchange_kind o args);
    unless_wait (edo_nowait o) receive_exchange_declare_ok p).

(** [Channel::exchange_declare] (src/channel.rs). *)
Definition exchange_declare (exch : ShortString) (kind : ExchangeKind) (o : ExchangeDeclareOptions)
    (args : FieldTable) : M t (res Resolver) := do_exchange_declare exch (kind_str kind) o args kind.

Definition receive_exchange_delete_ok : M t (res unit) :=
  can_receive "exchange.delete-ok" (expecting "exchange delete-ok" ExchangeDeleteOk (λ r,
    match r with
    | RExchangeDeleteOk p exch => Some (completing p (on_exchange_delete_ok_received exch))
    | _ => None
    end)).

Definition exchange_delete (exch : ShortString) (if_unused nowait : bool) : M t (res Resolver) :=
  connected "exchange.delete" (
    p ← call (ExchangeDelete exch if_unused nowait) (λ p, RExchangeDeleteOk p exch);
    unless_wait nowait receive_exchange_delete_ok p).

Definition receive_exchange_bind_ok : M t (res unit) :=
  can_receive "exchange.bind-ok" (expecting "exchange bind-ok" ExchangeBindOk (λ r,
    match r with
    | RExchangeBindOk p dest src key args => Some (completing p (on_exchange_bind_ok_received dest src key args))
    | _ => None
    end)).

Definition exchange_bind (dest src key : ShortString) (nowait : bool) (args : FieldTable) : M t (res Resolver) :=
  connected "exchange.bind" (
    p ← call (ExchangeBind dest src key nowait args) (λ p, RExchangeBindOk p dest src key args);
    unless_wait nowait receive_exchange_bind_ok p).

Definition receive_exchange_unbind_ok : M t (res unit) :=
  can_receive "exchange.unbind-ok" (expecting "exchange unbind-ok" ExchangeUnbindOk (λ r,
    match r with
    | RExchangeUnbindOk p dest src key args => Some (completing p (on_exchange_unbind_ok_received dest src key args))
    | _ => None
    end)).

Definition exchange_unbind (dest src key : ShortString) (nowait : bool) (args : FieldTable) : M t (res Resolver) :=
  connected "exchange.unbind" (
    p ← call (ExchangeUnbind dest src key nowait args) (λ p, RExchangeUnbindOk p dest src key args);
    unless_wait nowait receive_exchange_unbind_ok p).

(** ** queue *)

Definition receive_queue_declare_ok (queue : ShortString) (messages consumers : MessageCount) : M t (res unit) :=
  can_receive "queue.declare-ok" (expecting "queue declare-ok" (QueueDeclareOk queue messages consumers) (λ r,
    match r with
    | RQueueDeclareOk p o args => Some (on_queue_declare_ok_received queue messages consumers p o args)
    | _ => None
    end)).

Definition queue_declare (queue : ShortString) (o : QueueDeclareOptions) (args : FieldTable) : M t (res Resolver) :=
  connected "queue.declare" (
    p ← call (QueueDeclare queue o args) (λ p, RQueueDeclareOk p o args);
    unless_wait (qdo_nowait o) (receive_queue_declare_ok queue 0 0) p).

Definition receive_queue_bind_ok : M t (res unit) :=
  can_receive "queue.bind-ok" (expecting "queue bind-ok" QueueBindOk (λ r,
    match r with
    | RQueueBindOk p queue exch key args => Some (completing p (on_queue_bind_ok_received queue exch key args))
    | _ => None
    end)).

Definition queue_bind (queue exch key : ShortString) (nowait : bool) (args : FieldTable) : M t (res Resolver) :=
  connected "queue.bind" (
    p ← call (QueueBind queue exch key nowait args) (λ p, RQueueBindOk p queue exch key args);
    unless_wait nowait receive_queue_bind_ok p).

Definition queue_purge (queue : ShortString) (nowait : bool) : M t (res Resolver) :=
  connected "queue.purge" (waiting (call (QueuePurge queue nowait) RQueuePurgeOk)).

Definition receive_queue_purge_ok (count : MessageCount) : M t (res unit) :=
  can_receive "queue.purge-ok" (expecting "queue purge-ok" (QueuePurgeOk count) (λ r,
    match r with RQueuePurgeOk p => Some (on_queue_purge_ok_received count p) | _ => None end)).

Definition receive_queue_delete_ok (count : MessageCount) : M t (res unit) :=
  can_receive "queue.delete-ok" (expecting "queue delete-ok" (QueueDeleteOk count) (λ r,
    match r with RQueueDeleteOk p queue => Some (on_queue_delete_ok_received count p queue) | _ => None end)).

Definition queue_delete (queue : ShortString) (if_unused if_empty nowait : bool) : M t (res Resolver) :=
  connected "queue.delete" (
    p ← call (QueueDelete queue if_unused if_empty nowait) (λ p, RQueueDeleteOk p queue);
    unless_wait nowait (receive_queue_delete_ok 0) p).

Definition queue_unbind (queue exch key : ShortString) (args : FieldTable) : M t (res Resolver) :=
  connected "queue.unbind" (
    waiting (call (QueueUnbind queue exch key args) (λ p, RQueueUnbindOk p queue exch key args))).

Definition receive_queue_unbind_ok : M t (res unit) :=
  can_receive "queue.unbind-ok" (expecting "queue unbind-ok" QueueUnbindOk (λ r,
    match r with
    | RQueueUnbindOk p queue exch key args => Some (completing p (on_queue_unbind_ok_received queue exch key args))
    | _ => None
    end)).

(** ** tx and confirm *)

Definition tx_select : M t (res Resolver) := connected "tx.select" (waiting (call TxSelect RTxSelectOk)).
Definition receive_tx_select_ok : M t (res unit) :=
  can_receive "tx.select-ok" (expecting "tx select-ok" TxSelectOk (λ r,
    match r with RTxSelectOk p => Some (completing p ok_) | _ => None end)).

Definition tx_commit : M t (res Resolver) := connected "tx.commit" (waiting (call TxCommit RTxCommitOk)).
Definition receive_tx_commit_ok : M t (res unit) :=
  can_receive "tx.commit-ok" (expecting "tx commit-ok" TxCommitOk (λ r,
    match r with RTxCommitOk p => Some (completing p ok_) | _ => None end)).

Definition tx_rollback : M t (res Resolver) := connected "tx.rollback" (waiting (call TxRollback RTxRollbackOk)).
Definition receive_tx_rollback_ok : M t (res unit) :=
  can_receive "tx.rollback-ok" (expecting "tx rollback-ok" TxRollbackOk (λ r,
    match r with RTxRollbackOk p => Some (completing p ok_) | _ => None end)).

Definition confirm_select (nowait : bool) : M t (res Resolver) :=
  guarded ChannelStatus.connected_or_recovering "confirm.select"
    (waiting (call (ConfirmSelect nowait) RConfirmSelectOk)).

Definition receive_confirm_select_ok : M t (res unit) :=
  can_receive "confirm.select-ok" (expecting "confirm select-ok" ConfirmSelectOk (λ r,
    match r with RConfirmSelectOk p => Some (completing p on_confirm_select_ok_received) | _ => None end)).

(** ** Recovery *)

(** The requests of [Channel::start_recovery]; a consumer is reset before it is declared
    again.  A topology holds handles of its consumers: they are in the store, and the
    last branch is not taken. *)
Definition send_request (q : Registry.Request) : M t (res Resolver) :=
  match q with
  | Registry.QChannelOpen => i ← this_id; channel_open i
  | Registry.QConfirmSelect => confirm_select false
  | Registry.QExchangeDeclare name kind o args => exchange_declare name kind o args
  | Registry.QExchangeBind dest src key args => exchange_bind dest src key false args
  | Registry.QQueueDeclare name o args => queue_declare name o args
  | Registry.QQueueBind dest src key args => queue_bind dest src key false args
  | Registry.QBasicConsume c =>
    Consumer.reset c;;
    e ← get_env;
    match consumers e !! c with
    | Some x => do_basic_consume (c_queue x) (c_tag x) (c_options x) (c_arguments x) (Some c)
    | None => mret (Err (error_from (InvalidChannel 0)))
    end
  end.

(** The beginning of [Channel::start_recovery], up to the wait for the answer to
    channel.open. *)
Definition begin_recovery : M t (res (Resolver * Registry.ChannelDefinition)) :=
  d ← update_recovery;
  match d with
  | None => st ← this_status; mret (Err (ChannelStatus.state_error "start_recovery" st))
  | Some d => let! p := send_request Registry.QChannelOpen in mret (Ok (p, d))
  end.

(** ** Dispatch *)

Definition receive_method (m : AMQPClass) : M t (res unit) :=
  match m with
  | BasicQosOk => receive_basic_qos_ok
  | BasicConsumeOk tag => receive_basic_consume_ok tag
  | BasicCancel tag nowait => receive_basic_cancel tag nowait
  | BasicCancelOk tag => receive_basic_cancel_ok tag
  | BasicReturn code text exch key => receive_basic_return m code text exch key
  | BasicDeliver ctag tag redeliv exch key => receive_basic_deliver m ctag tag redeliv exch key
  | BasicGetOk tag redeliv exch key count => receive_basic_get_ok m tag redeliv exch key count
  | BasicGetEmpty => receive_basic_get_empty m
  | BasicAck tag multiple => receive_basic_ack m tag multiple
  | BasicRecoverOk => receive_basic_recover_ok
  | BasicNack tag multiple _ => receive_basic_nack m tag multiple
  | ConnectionStart mechanisms locales => receive_connection_start mechanisms locales
  | ConnectionSecure challenge => receive_connection_secure challenge
  | ConnectionTune cmax fmax hb => receive_connection_tune cmax fmax hb
  | ConnectionOpenOk => receive_connection_open_ok
  | ConnectionClose code text class_id method_id => receive_connection_close code text class_id method_id
  | ConnectionCloseOk => receive_connection_close_ok
  | ConnectionBlocked reason => receive_connection_blocked reason
  | ConnectionUnblocked => receive_connection_unblocked
  | ConnectionUpdateSecretOk => receive_connection_update_secret_ok
  | ChannelOpenOk => receive_channel_open_ok
  | ChannelFlow active => receive_channel_flow active
  | ChannelFlowOk active => receive_channel_flow_ok active
  | ChannelClose code text _ _ => receive_channel_close code text
  | ChannelCloseOk => receive_channel_close_ok
  | AccessRequestOk => receive_access_request_ok
  | ExchangeDeclareOk => receive_exchange_declare_ok
  | ExchangeDeleteOk => receive_exchange_delete_ok
  | ExchangeBindOk => receive_exchange_bind_ok
  | ExchangeUnbindOk => receive_exchange_unbind_ok
  | QueueDeclareOk queue messages consumers => receive_queue_declare_ok queue messages consumers
  | QueueBindOk => receive_queue_bind_ok
  | QueuePurgeOk count => receive_queue_purge_ok count
  | QueueDeleteOk count => receive_queue_delete_ok count
  | QueueUnbindOk => receive_queue_unbind_ok
  | TxSelectOk => receive_tx_select_ok
  | TxCommitOk => receive_tx_commit_ok
  | TxRollbackOk => receive_tx_rollback_ok
  | ConfirmSelectOk => receive_confirm_select_ok
  | m =>
    i ← this_id;
    handle_invalid_contents ("unexpected method received on channel " +:+ pretty i)
      (get_amqp_class_id m) (get_amqp_method_id m)
  end.

(** ** A message for a consumer, from its method to its last body frame *)

(** What [Channels::handle_frame] runs on the channel a frame is for. *)
Definition channel_frame (f : AMQPFrame) : M t (res unit) :=
  match f with
  | Method _ m => receive_method m
  | Header _ h => handle_content_header_frame (ch_class_id h) (ch_body_size h) (ch_properties h)
  | Body _ payload => handle_body_frame payload
  | _ => mret (Ok tt)
  end.

Fixpoint channel_frames (l : list AMQPFrame) : M t (res unit) :=
  match l with
  | [] => mret (Ok tt)
  | f :: l => let! _ := channel_frame f in channel_frames l
  end.

Lemma channel_frames_cons f l s e s' e' : channel_frame f s e = (Ok tt, s', e') →
  channel_frames (f :: l) s e = channel_frames l s' e'.
Proof. intros E. cbn [channel_frames]. unfold try_bind, mbind, M_bind. by rewrite E. Qed.

(** The delivery the method announces, with the acker the channel gives it. *)
Definition announced (ctag : ShortString) (tag : DeliveryTag) (redeliv : bool) (exch key : ShortString)
    (h : ErrorHolder) (s : t) (e : Env) : Delivery :=
  mkDelivery tag exch key redeliv BasicProperties_default []
    (mkAcker (id (self s)) tag true (Some h) (next_ref e) (ChannelStatus.killswitch (status (self s)))).

Lemma deliver_received ctag tag redeliv exch key s e c x :
  ChannelStatus.can_receive_messages (status (self s)) = true →
  consumers_ (self s) !! ctag = Some c → consumers e !! c = Some x →
  receive_method (BasicDeliver ctag tag redeliv exch key) s e =
  (Ok tt,
   set_receiver (receiver s ++ [ReceiverStates.WillReceiveContent
     (get_amqp_class_id (BasicDeliver ctag tag redeliv exch key)) (Consume ctag)]) s,
   Consumer.put_consumer c (Consumer.set_message (Some (announced ctag tag redeliv exch key (c_error x) s e)) x)
     (set_next_ref (S (next_ref e)) e)).
Proof.
  intros Hst Hc Hx. unfold receive_method, receive_basic_deliver, can_receive, guarded, this_status.
  rewrite bind_assoc, bind_get. unfold mbind at 1, M_bind at 1, mret at 1, M_ret at 1. rewrite Hst.
  unfold on_basic_deliver_received. unfold mbind at 1, M_bind at 1. cbn [in_status zoom ChannelStatus.set_will_receive].
  unfold in_status, zoom, ChannelStatus.set_will_receive. rewrite bind_modify, bind_get. unfold mret at 1, M_ret at 1.
  unfold this_id. rewrite bind_assoc, bind_get. unfold mbind at 1, M_bind at 1, mret at 1, M_ret at 1.
  unfold mbind at 1, M_bind at 1. unfold Consumers.start_delivery.
  rewrite (zoom_tag ctag c _ _ _
    (Consumer.put_consumer c (Consumer.set_message (Some (announced ctag tag redeliv exch key (c_error x) s e)) x)
       (set_next_ref (S (next_ref e)) e))).
  - done.
  - done.
  - rewrite (Consumer.with_consumer_eq _ _ _ _ _ x Hx).
    unfold Messages.delivery_new, Messages.acker_new, killswitch_new, fresh, mbind, M_bind, mret, M_ret.
    unfold Consumer.start_new_delivery. by rewrite (Consumer.update_eq _ _ _ _ x) by done.
Qed.

(** The bodies complete the message begun in [d]. *)
Lemma bodies_received i ctag c x bodies : ∀ d s e rest,
  Forall (λ b, b ≠ []) bodies → bodies ≠ [] →
  receiver s = ReceiverStates.ReceivingContent (Consume ctag) (Z.of_nat (length (concat bodies))) :: rest →
  consumers_ (self s) !! ctag = Some c → consumers e !! c = Some (Consumer.set_message (Some d) x) →
  c_delegate x = false →
  channel_frames (Body i <$> bodies) s e =
  (Ok tt, set_receiver rest s,
   Consumer.put_consumer c (Consumer.delivered (receive_content d (concat bodies)) x) e).
Proof.
  induction bodies as [|b bodies IH]; intros d s e rest Hne Hnn Hr Hc Hx Hd; [done|].
  apply Forall_cons in Hne as [Hb Hne]. rewrite fmap_cons.
  assert (Hlen : Z.of_nat (length (concat (b :: bodies))) = Z.of_nat (length b) + Z.of_nat (length (concat bodies))).
  { simpl. rewrite length_app. lia. }
  rewrite Hlen in Hr.
  erewrite channel_frames_cons by (cbn [channel_frame]; eapply body_received; [exact Hr|lia|done|done|done|done]).
  replace (Z.of_nat (length b) + Z.of_nat (length (concat bodies)) - Z.of_nat (length b))
    with (Z.of_nat (length (concat bodies))) by lia.
  destruct bodies as [|b' bodies].
  - simpl. by rewrite app_nil_r.
  - assert (Hpos : 0 < Z.of_nat (length (concat (b' :: bodies)))).
    { apply Forall_cons in Hne as [Hb' _]. destruct b'; [done|]. simpl. lia. }
    rewrite (proj2 (Z.ltb_lt _ _)) by done. rewrite (proj2 (Z.eqb_neq _ _)) by lia.
    rewrite (IH (receive_content d b) _ _ rest); try done; [|apply Consumer.put_consumer_lookup].
    rewrite Consumer.put_put_consumer, set_receiver_set. do 3 f_equal.
    unfold receive_content. simpl. by rewrite <- app_assoc.
Qed.

(** The header and the bodies of a message whose method was received. *)
Lemma content_received i ctag cls props bodies s e c x d :
  receiver s = [ReceiverStates.WillReceiveContent cls (Consume ctag)] →
  Forall (λ b, b ≠ []) bodies →
  consumers_ (self s) !! ctag = Some c → consumers e !! c = Some (Consumer.set_message (Some d) x) →
  c_delegate x = false →
  channel_frames (Header i (mkContentHeader cls (Z.of_nat (length (concat bodies))) props) :: (Body i <$> bodies)) s e =
  (Ok tt, set_receiver [] s,
   Consumer.put_consumer c (Consumer.delivered (receive_content (set_properties d props) (concat bodies)) x) e).
Proof.
  intros Hr Hne Hc Hx Hd.
  erewrite channel_frames_cons by (cbn [channel_frame ch_class_id ch_body_size ch_properties];
    eapply header_received; [exact Hr|done|done|done|done]).
  destruct bodies as [|b bodies].
  - simpl. unfold receive_content. simpl. rewrite app_nil_r. by destruct d.
  - assert (Hpos : 0 < Z.of_nat (length (concat (b :: bodies)))).
    { apply Forall_cons in Hne as [Hb _]. destruct b; [done|]. simpl. lia. }
    rewrite (proj2 (Z.ltb_lt _ _)) by done. rewrite (proj2 (Z.eqb_neq _ _)) by lia.
    rewrite (bodies_received i ctag c x (b :: bodies) (set_properties d props) _ _ []);
      try done; [|apply Consumer.put_consumer_lookup].
    by rewrite Consumer.put_put_consumer, set_receiver_set.
Qed.

(** ** Requests and their answers *)

(** The requests of the public interface that wait for an answer of the server. *)
Inductive Call :=
| KQos (n : Z) (global : bool)
| KConsume (queue tag : ShortString) (o : BasicConsumeOptions) (args : FieldTable) (original : option ConsumerRef)
| KGet (queue : ShortString) (no_ack : bool)
| KRecover (requeue : bool)
| KFlow (active : bool)
| KAccess (realm : ShortString) (exclusive passive active write read : bool)
| KExchangeDeclare (exch : ShortString) (kind : ExchangeKind) (o : ExchangeDeclareOptions) (args : FieldTable)
| KExchangeDelete (exch : ShortString) (if_unused nowait : bool)
| KExchangeBind (dest src key : ShortString) (nowait : bool) (args : FieldTable)
| KExchangeUnbind (dest src key : ShortString) (nowait : bool) (args : FieldTable)
| KQueueDeclare (queue : ShortString) (o : QueueDeclareOptions) (args : FieldTable)
| KQueueBind (queue exch key : ShortString) (nowait : bool) (args : FieldTable)
| KQueuePurge (queue : ShortString)
| KQueueDelete (queue : ShortString) (if_unused if_empty nowait : bool)
| KQueueUnbind (queue exch key : ShortString) (args : FieldTable)
| KTxSelect | KTxCommit | KTxRollback.

Definition run_call (k : Call) : M t (res Resolver) :=
  match k with
  | KQos n g => basic_qos n g
  | KConsume q t o a c => do_basic_consume q t o a c
  | KGet q n => do_basic_get q n None
  | KRecover b => basic_recover b
  | KFlow b => channel_flow b
  | KAccess r e p a w d => access_request r e p a w d
  | KExchangeDeclare x k o a => exchange_declare x k o a
  | KExchangeDelete x u n => exchange_delete x u n
  | KExchangeBind d s k n a => exchange_bind d s k n a
  | KExchangeUnbind d s k n a => exchange_unbind d s k n a
  | KQueueDeclare q o a => queue_declare q o a
  | KQueueBind q x k n a => queue_bind q x k n a
  | KQueuePurge q => queue_purge q false
  | KQueueDelete q u e n => queue_delete q u e n
  | KQueueUnbind q x k a => queue_unbind q x k a
  | KTxSelect => tx_select
  | KTxCommit => tx_commit
  | KTxRollback => tx_rollback
  end.

(** The name of the method in errors. *)
Definition call_name (k : Call) : string :=
  match k with
  | KQos _ _ => "basic.qos" | KConsume _ _ _ _ _ => "basic.consume" | KGet _ _ => "basic.get"
  | KRecover _ => "basic.recover" | KFlow _ => "channel.flow" | KAccess _ _ _ _ _ _ => "access.request"
  | KExchangeDeclare _ _ _ _ => "exchange.declare" | KExchangeDelete _ _ _ => "exchange.delete"
  | KExchangeBind _ _ _ _ _ => "exchange.bind" | KExchangeUnbind _ _ _ _ _ => "exchange.unbind"
  | KQueueDeclare _ _ _ => "queue.declare" | KQueueBind _ _ _ _ _ => "queue.bind" | KQueuePurge _ => "queue.purge"
  | KQueueDelete _ _ _ _ => "queue.delete" | KQueueUnbind _ _ _ _ => "queue.unbind"
  | KTxSelect => "tx.select" | KTxCommit => "tx.commit" | KTxRollback => "tx.rollback"
  end.

(** The method on the wire. *)
Definition call_method (k : Call) : AMQPClass :=
  match k with
  | KQos n g => BasicQos n g
  | KConsume q t o a _ => BasicConsume q t o a
  | KGet q n => BasicGet q n
  | KRecover b => BasicRecover b
  | KFlow b => ChannelFlow b
  | KAccess r e p a w d => AccessRequest r e p a w d
  | KExchangeDeclare x k o a => ExchangeDeclare x (kind_str k) o a
  | KExchangeDelete x u n => ExchangeDelete x u n
  | KExchangeBind d s k n a => ExchangeBind d s k n a
  | KExchangeUnbind d s k n a => ExchangeUnbind d s k n a
  | KQueueDeclare q o a => QueueDeclare q o a
  | KQueueBind q x k n a => QueueBind q x k n a
  | KQueuePurge q => QueuePurge q false
  | KQueueDelete q u e n => QueueDelete q u e n
  | KQueueUnbind q x k a => QueueUnbind q x k a
  | KTxSelect => TxSelect
  | KTxCommit => TxCommit
  | KTxRollback => TxRollback
  end.

Definition call_nowait (k : Call) : bool :=
  match k with
  | KConsume _ _ o _ _ => bco_nowait o
  | KExchangeDeclare _ _ o _ => edo_nowait o
  | KExchangeDelete _ _ n | KExchangeBind _ _ _ n _ | KExchangeUnbind _ _ _ n _
  | KQueueBind _ _ _ n _ | KQueueDelete _ _ _ n => n
  | KQueueDeclare _ o _ => qdo_nowait o
  | _ => false
  end.

(** The reply the client then expects. *)
Definition call_reply (k : Call) (closer : bool) (p : Resolver) : Reply :=
  match k with
  | KQos _ _ => RBasicQosOk p
  | KConsume q _ o a c => RBasicConsumeOk p closer q o a c
  | KGet _ _ => RBasicGetOk p
  | KRecover _ => RBasicRecoverOk p
  | KFlow _ => RChannelFlowOk p
  | KAccess _ _ _ _ _ _ => RAccessRequestOk p
  | KExchangeDeclare x k o a => RExchangeDeclareOk p x k o a
  | KExchangeDelete x _ _ => RExchangeDeleteOk p x
  | KExchangeBind d s k _ a => RExchangeBindOk p d s k a
  | KExchangeUnbind d s k _ a => RExchangeUnbindOk p d s k a
  | KQueueDeclare _ o a => RQueueDeclareOk p o a
  | KQueueBind q x k _ a => RQueueBindOk p q x k a
  | KQueuePurge _ => RQueuePurgeOk p
  | KQueueDelete q _ _ _ => RQueueDeleteOk p q
  | KQueueUnbind q x k a => RQueueUnbindOk p q x k a
  | KTxSelect => RTxSelectOk p
  | KTxCommit => RTxCommitOk p
  | KTxRollback => RTxRollbackOk p
  end.

(** The queues with a request sent. *)
Definition requested (i : ChannelId) (m : AMQPClass) (r : Reply) (p : Resolver) (f : Frames.t) : Frames.t :=
  Frames.set_expected (<[i := (Frames.expected_replies f !!! i) ++ [mkExpectedReply r p]]> (Frames.expected_replies f))
    (Frames.set_frames (Frames.frames f ++ [Frames.mkEntry (Method i m) (Frames.mkSending (Some p) None)]) f).

Definition map_frames (g : Frames.t → Frames.t) (s : t) : t :=
  set_conn (set_frames_ (g (frames (conn s)))) s.

Definition after_call (e : Env) : Env := set_wakes (S (wakes e)) (set_next_ref (S (next_ref e)) e).

Lemma push_live i f c er s e : Frames.check_poison s i = None →
  Frames.push i f c (Some er) None s e =
  (tt, Frames.set_expected (<[i := (Frames.expected_replies s !!! i) ++ [er]]> (Frames.expected_replies s))
         (Frames.set_frames (Frames.frames s ++ [Frames.mkEntry f (Frames.mkSending (Some c) None)]) s), e).
Proof. intros Hp. unfold Frames.push. by rewrite bind_get, Hp. Qed.

Lemma call_eq m reply s e : Frames.check_poison (frames (conn s)) (id (self s)) = None →
  call m reply s e =
  (next_ref e, map_frames (requested (id (self s)) m (reply (next_ref e)) (next_ref e)) s, after_call e).
Proof.
  intros Hp. unfold call, promise_new, fresh, send_method_frame, send_frame, this_id, in_frames, zoom,
    mbind, M_bind, mret, M_ret, get. by rewrite push_live.
Qed.

Lemma call_step_eq m reply c s e :
  Frames.check_poison (frames (conn s)) (id (self s)) = None → call_step m reply c s e = call m reply s e.
Proof.
  intros Hp. unfold call_step. rewrite (bind_eq _ _ _ _ _ _ _ (call_eq m reply s e Hp)), (call_eq m reply s e Hp).
  unfold drop_refused. rewrite bind_assoc, bind_get.
  change (Frames.check_poison _ _) with (Frames.check_poison (frames (conn s)) (id (self s))). by rewrite Hp.
Qed.

Lemma guarded_eq {A} ok ctx (k : M t (res A)) s e :
  guarded ok ctx k s e = if ok (status (self s)) then k s e
                         else (Err (ChannelStatus.state_error ctx (status (self s))), s, e).
Proof.
  unfold guarded, this_status. rewrite bind_assoc, bind_get.
  unfold mbind, M_bind, mret, M_ret. by destruct (ok _).
Qed.

Lemma connected_eq {A} ctx (k : M t (res A)) s e :
  connected ctx k s e = if ChannelStatus.connected (status (self s)) then k s e
                        else (Err (ChannelStatus.state_error ctx (status (self s))), s, e).
Proof. apply guarded_eq. Qed.

Lemma call_eq_run k s e :
  call_nowait k = false → Frames.check_poison (frames (conn s)) (id (self s)) = None →
  run_call k s e =
  if ChannelStatus.connected (status (self s)) then
    (Ok (next_ref e),
     map_frames (requested (id (self s)) (call_method k) (call_reply k (closer (self s)) (next_ref e)) (next_ref e)) s,
     after_call e)
  else (Err (ChannelStatus.state_error (call_name k) (status (self s))), s, e).
Proof.
  intros Hn Hp.
  destruct k; simpl in Hn; unfold run_call, basic_qos, do_basic_consume, do_basic_get, basic_recover, channel_flow,
    access_request, exchange_declare, do_exchange_declare, exchange_delete, exchange_bind, exchange_unbind,
    queue_declare, queue_bind, queue_purge, queue_delete, queue_unbind, tx_select, tx_commit, tx_rollback;
    rewrite connected_eq; destruct (ChannelStatus.connected _); try done;
    unfold waiting; rewrite ?bind_get; unfold mbind at 1, M_bind at 1;
    rewrite ?call_eq by done; unfold unless_wait; rewrite ?Hn; try done.
  unfold promise_new, fresh, send_method_frame, send_frame, this_id, in_frames, zoom, mbind, M_bind, mret, M_ret, get.
  simpl. by rewrite push_live.
Qed.

(** A request is sent once, and only on an open channel.  On a connected channel that
    is not poisoned every request allocates a promise and waits for it, queues exactly one
    frame, its method, behind the frames already queued, registers exactly the reply
    that will complete it behind those already expected, and wakes the io loop; nothing
    else changes.  On a channel in any other state it fails with the channel's
    state error and changes nothing. *)
Theorem call_sends k s e :
  call_nowait k = false → Frames.check_poison (frames (conn s)) (id (self s)) = None →
  run_call k s e =
  if ChannelStatus.connected (status (self s)) then
    (Ok (next_ref e),
     map_frames (requested (id (self s)) (call_method k) (call_reply k (closer (self s)) (next_ref e)) (next_ref e)) s,
     after_call e)
  else (Err (ChannelStatus.state_error (call_name k) (status (self s))), s, e).
Proof. apply call_eq_run. Qed.

(** What the server chooses in its answer. *)
Record Answer := mkAnswer {
  a_name : ShortString; a_messages : MessageCount; a_consumers : MessageCount; a_active : bool }.

Definition answer_method (k : Call) (a : Answer) : AMQPClass :=
  match k with
  | KQos _ _ => BasicQosOk
  | KConsume _ _ _ _ _ => BasicConsumeOk (a_name a)
  | KGet _ _ => BasicGetEmpty
  | KRecover _ => BasicRecoverOk
  | KFlow _ => ChannelFlowOk (a_active a)
  | KAccess _ _ _ _ _ _ => AccessRequestOk
  | KExchangeDeclare _ _ _ _ => ExchangeDeclareOk
  | KExchangeDelete _ _ _ => ExchangeDeleteOk
  | KExchangeBind _ _ _ _ _ => ExchangeBindOk
  | KExchangeUnbind _ _ _ _ _ => ExchangeUnbindOk
  | KQueueDeclare _ _ _ => QueueDeclareOk (a_name a) (a_messages a) (a_consumers a)
  | KQueueBind _ _ _ _ _ => QueueBindOk
  | KQueuePurge _ => QueuePurgeOk (a_messages a)
  | KQueueDelete _ _ _ _ => QueueDeleteOk (a_messages a)
  | KQueueUnbind _ _ _ _ => QueueUnbindOk
  | KTxSelect => TxSelectOk
  | KTxCommit => TxCommitOk
  | KTxRollback => TxRollbackOk
  end.

(** What the caller gets. *)
Definition answer_value (k : Call) (a : Answer) (v : PVal) : Prop :=
  match k with
  | KConsume _ _ _ _ (Some c) => v = VConsumer c
  | KConsume _ _ _ _ None => ∃ c, v = VConsumer c
  | KGet _ _ => v = VGet None
  | KFlow _ => v = VBool (a_active a)
  | KQueueDeclare _ _ _ => v = VQueue (mkQueue (a_name a) (a_messages a) (a_consumers a))
  | KQueuePurge _ | KQueueDelete _ _ _ _ => v = VCount (a_messages a)
  | _ => v = VUnit
  end.

(** What the registry records. *)
Definition answer_registry (k : Call) (a : Answer) : Registry.t → Registry.t :=
  match k with
  | KExchangeDeclare x k o a => Registry.register_exchange x k o a
  | KExchangeDelete x _ _ => Registry.deregister_exchange x
  | KExchangeBind d s k _ a => Registry.register_exchange_binding d s k a
  | KExchangeUnbind d s k _ a => Registry.deregister_exchange_binding d s k a
  | KQueueDeclare _ o args => Registry.register_queue (a_name a) o args
  | KQueueBind q x k _ a => Registry.register_queue_binding q x k a
  | KQueueDelete q _ _ _ => Registry.deregister_queue q
  | KQueueUnbind q x k a => Registry.deregister_queue_binding q x k a
  | _ => λ r, r
  end.

Lemma can_receive_eq {A} ctx (k : M t (res A)) s e :
  ChannelStatus.can_receive_messages (status (self s)) = true → can_receive ctx k s e = k s e.
Proof.
  intros H. unfold can_receive. by rewrite guarded_eq, H.
Qed.

Lemma connected_can_receive x : ChannelStatus.connected x = true → ChannelStatus.can_receive_messages x = true.
Proof. unfold ChannelStatus.connected, ChannelStatus.can_receive_messages. by destruct (ChannelStatus.state x). Qed.

(** The reply expected first is the one found. *)
Lemma find_first er l sel s e : Frames.expected_replies (frames (conn s)) !! id (self s) = Some (er :: l) →
  sel er = true →
  in_frames (Frames.find_expected_reply (id (self s)) sel) s e =
  (Some (er_reply er),
   map_frames (λ f, Frames.set_expected (<[id (self s) := l]> (Frames.expected_replies f)) f) s, e).
Proof.
  intros Hl Hs. unfold in_frames, zoom, Frames.find_expected_reply. rewrite bind_get, Hl. cbn [Frames.find_remove].
  by rewrite Hs.
Qed.

Lemma expecting_first name m select er l h s e :
  Frames.expected_replies (frames (conn s)) !! id (self s) = Some (er :: l) → select (er_reply er) = Some h →
  expecting name m select s e =
  h (map_frames (λ f, Frames.set_expected (<[id (self s) := l]> (Frames.expected_replies f)) f) s) e.
Proof.
  intros Hl Hs. unfold expecting, this_id. rewrite bind_assoc, bind_get. unfold mbind at 1, M_bind at 1, mret at 1, M_ret at 1.
  unfold mbind at 1, M_bind at 1. rewrite (find_first er l) by (done || by rewrite Hs). simpl. by rewrite Hs.
Qed.

Lemma set_complete p v e : promises e !! p = None → promises (promise_set p v e) !! p = Some v.
Proof. intros H. by rewrite promise_set_lookup, decide_True, H. Qed.

(** The invalidations of [drop_prefetched_messages] complete nothing. *)
Definition keeps_promises {S A} (m : M S A) : Prop :=
  ∀ s e, promises (env_of (m s e)) = promises e ∧ next_ref (env_of (m s e)) = next_ref e ∧
    notified (env_of (m s e)) = notified e.

Lemma keeps_promises_bind {S A B} (m : M S A) (k : A → M S B) :
  keeps_promises m → (∀ a, keeps_promises (k a)) → keeps_promises (m ≫= k).
Proof.
  intros Hm Hk s e. unfold mbind, M_bind. destruct (Hm s e) as (H1 & H2 & H3). destruct (m s e) as [[a s'] e'].
  unfold env_of in *. simpl in *. rewrite <- H1, <- H2, <- H3. apply Hk.
Qed.

Lemma keeps_promises_for_each {S A} (l : list A) (f : A → M S unit) :
  (∀ x, keeps_promises (f x)) → keeps_promises (for_each l f).
Proof. intros Hf. induction l; simpl; [by intros s e|]. by apply keeps_promises_bind. Qed.

Lemma keeps_promises_drop {S} c : keeps_promises (Consumer.drop_prefetched_messages c : M S unit).
Proof.
  unfold Consumer.drop_prefetched_messages, Consumer.with_consumer. apply keeps_promises_bind; [by intros s e|].
  intros e0. destruct (_ !! _) as [x|]; [|by intros s e].
  apply keeps_promises_bind; [by destruct (c_delegate x); intros s e|]. intros _.
  apply keeps_promises_bind; [by intros s e|]. intros _. apply keeps_promises_for_each.
  intros [[d|]|err]; by intros s e.
Qed.

Lemma drop_prefetched_eq s e : ∃ e', drop_prefetched_messages s e = (tt, s, e') ∧ promises e' = promises e ∧
  next_ref e' = next_ref e ∧ notified e' = notified e.
Proof.
  unfold drop_prefetched_messages, in_consumers, zoom, Consumers.drop_prefetched_messages. rewrite bind_get.
  assert (Hp := keeps_promises_for_each (Consumers.values (consumers_ (self s)))
    Consumer.drop_prefetched_messages keeps_promises_drop (consumers_ (self s)) e).
  assert (Hs : ∀ l (x : Consumers.t) e, state_of (for_each l Consumer.drop_prefetched_messages x e) = x).
  { intros l. apply keeps_state_for_each. intros c x e0. unfold Consumer.drop_prefetched_messages, Consumer.with_consumer.
    rewrite bind_get_env. destruct (_ !! _) as [y|]; [|done].
    rewrite bind_keeps_state by (destruct (c_delegate y); by intros ? ?).
    rewrite bind_keeps_state by (intros ??; done). apply keeps_state_for_each.
    intros [[d|]|err]; by intros ? ?. }
  specialize (Hs (Consumers.values (consumers_ (self s))) (consumers_ (self s)) e).
  destruct (for_each _ _ (consumers_ (self s)) e) as [[[] x] e']. unfold state_of, env_of in *. simpl in *. subst x.
  exists e'. split; [|done]. by destruct s as [[]].
Qed.

Lemma get_empty_first m p l s e :
  Frames.expected_replies (frames (conn s)) !! id (self s) = Some (mkExpectedReply (RBasicGetOk p) p :: l) →
  on_basic_get_empty_received m s e =
  (Ok tt, map_frames (λ f, Frames.set_expected (<[id (self s) := l]> (Frames.expected_replies f)) f) s,
   promise_set p (Ok (VGet None)) e).
Proof.
  intros Hl. unfold on_basic_get_empty_received, this_id. rewrite bind_assoc, bind_get.
  unfold mbind at 1, M_bind at 1, mret at 1, M_ret at 1. unfold mbind at 1, M_bind at 1.
  by rewrite (find_first _ _ _ _ _ Hl eq_refl).
Qed.

(** Receiving the answer to the request whose reply is expected first: what the state
    and the store become. *)
Definition answered (k : Call) (a : Answer) (p : Resolver) (l : list ExpectedReply) (s : t) (e : Env)
    (r : res unit * t * Env) : Prop :=
  result_of r = Ok tt ∧
  (∃ v, promises (env_of r) = <[p := Ok v]> (promises e) ∧ answer_value k a v) ∧
  local_registry (self (state_of r)) = answer_registry k a (local_registry (self s)) ∧
  Frames.expected_replies (frames (conn (state_of r))) !! id (self s) = Some l ∧
  id (self (state_of r)) = id (self s) ∧ status (self (state_of r)) = status (self s) ∧
  conn (state_of r) = conn (map_frames (λ f, Frames.set_expected (<[id (self s) := l]> (Frames.expected_replies f)) f) s) ∧
  (next_ref e ≤ next_ref (env_of r))%nat ∧ notified (env_of r) = notified e ∧
  match k with
  | KConsume _ _ _ _ None | KRecover _ => True
  | KConsume _ _ _ _ (Some c) =>
    consumers (env_of r) = consumers e ∧ consumers_ (self (state_of r)) = <[a_name a := c]> (consumers_ (self s))
  | _ => consumers (env_of r) = consumers e ∧ consumers_ (self (state_of r)) = consumers_ (self s)
  end.

(** What completing a promise leaves alone. *)
Lemma promise_set_rest p v e : 
  next_ref (promise_set p v e) = next_ref e ∧ consumers (promise_set p v e) = consumers e ∧
  notified (promise_set p v e) = notified e.
Proof. unfold promise_set. by destruct (promises e !! p). Qed.

Lemma set_insert p v e m : promises e = m → m !! p = None → promises (promise_set p v e) = <[p := v]> m.
Proof. intros <- H. unfold promise_set. by rewrite H. Qed.

Lemma answer_step k a cl p l s e :
  ChannelStatus.can_receive_messages (status (self s)) = true →
  Frames.expected_replies (frames (conn s)) !! id (self s) = Some (mkExpectedReply (call_reply k cl p) p :: l) →
  promises e !! p = None →
  answered k a p l s e (receive_method (answer_method k a) s e).
Proof.
  intros Hst Hl Hp.
  set (s1 := map_frames (λ f, Frames.set_expected (<[id (self s) := l]> (Frames.expected_replies f)) f) s).
  assert (Hs1 : Frames.expected_replies (frames (conn s1)) !! id (self s) = Some l) by apply lookup_insert_eq.
  destruct k; cbn [answer_method receive_method call_reply] in *;
    unfold receive_basic_qos_ok, receive_basic_consume_ok, receive_basic_get_empty, receive_basic_recover_ok,
      receive_channel_flow_ok, receive_access_request_ok, receive_exchange_declare_ok, receive_exchange_delete_ok,
      receive_exchange_bind_ok, receive_exchange_unbind_ok, receive_queue_declare_ok, receive_queue_bind_ok,
      receive_queue_purge_ok, receive_queue_delete_ok, receive_queue_unbind_ok, receive_tx_select_ok,
      receive_tx_commit_ok, receive_tx_rollback_ok;
    rewrite can_receive_eq by done;
    (* basic.get is matched by its hook; the others by [expecting] *)
    [rewrite (expecting_first _ _ _ _ _ _ _ _ Hl eq_refl); fold s1
    |rewrite (expecting_first _ _ _ _ _ _ _ _ Hl eq_refl); fold s1
    | |rewrite (expecting_first _ _ _ _ _ _ _ _ Hl eq_refl); fold s1 ..].
  all: try (unfold answered, env_of; simpl; rewrite (proj1 (promise_set_rest _ _ _)), ?(proj1 (proj2 (promise_set_rest _ _ _))), (proj2 (proj2 (promise_set_rest _ _ _)));
    split_and!; [done|eexists; split; [apply set_insert; done|done]|done..]).
  - (* basic.consume: the consumer is created, or taken over, and registered *)
    destruct original as [c|]; unfold answered, env_of; simpl; rewrite (proj1 (promise_set_rest _ _ _)),
      ?(proj1 (proj2 (promise_set_rest _ _ _))), (proj2 (proj2 (promise_set_rest _ _ _))); simpl;
      (split_and!; [done|eexists; split; [apply set_insert; done|done || by eexists]|done || lia ..]).
  - (* basic.get *)
    rewrite (get_empty_first _ _ _ _ _ Hl). fold s1.
    unfold answered, env_of; simpl; rewrite (proj1 (promise_set_rest _ _ _)), ?(proj1 (proj2 (promise_set_rest _ _ _))), (proj2 (proj2 (promise_set_rest _ _ _))).
    split_and!; [done|eexists; split; [apply set_insert; done|done]|done..].
  - (* basic.recover *)
    destruct (drop_prefetched_eq s1 e) as (e' & He & Hp' & Hn & Hno).
    unfold completing, on_basic_recover_ok_received. unfold mbind, M_bind. rewrite He.
    unfold answered, env_of; simpl; rewrite (proj1 (promise_set_rest _ _ _)), (proj2 (proj2 (promise_set_rest _ _ _))), Hn.
    split_and!; [done|eexists; split; [|done]|done..].
    by apply set_insert.
Qed.

(** The answer completes the request.  When the reply a request registered is the
    next one expected on the channel, receiving the server's answer to it is accepted,
    completes the request's promise (and no other) with the value the answer carries,
    records the change of the topology in the registry, leaves the status of the channel
    as it was and the replies expected after it in place. *)
Theorem call_answered k a cl p l s e :
  ChannelStatus.can_receive_messages (status (self s)) = true →
  Frames.expected_replies (frames (conn s)) !! id (self s) = Some (mkExpectedReply (call_reply k cl p) p :: l) →
  promises e !! p = None →
  let r := receive_method (answer_method k a) s e in
  result_of r = Ok tt ∧
  (∃ v, promises (env_of r) = <[p := Ok v]> (promises e) ∧ answer_value k a v) ∧
  local_registry (self (state_of r)) = answer_registry k a (local_registry (self s)) ∧
  Frames.expected_replies (frames (conn (state_of r))) !! id (self s) = Some l ∧
  status (self (state_of r)) = status (self s).
Proof. intros Hst Hl Hp. by destruct (answer_step k a cl p l s e Hst Hl Hp) as (? & ? & ? & ? & _ & ? & _). Qed.

(** ** Requests in flight *)

(** Several requests, sent without waiting for the answers; their promises. *)
Fixpoint run_calls (ks : list Call) : M t (res (list Resolver)) :=
  match ks with
  | [] => mret (Ok [])
  | k :: ks => let! p := run_call k in let! ps := run_calls ks in mret (Ok (p :: ps))
  end.

Fixpoint receive_methods (ms : list AMQPClass) : M t (res unit) :=
  match ms with
  | [] => mret (Ok tt)
  | m :: ms => let! _ := receive_method m in receive_methods ms
  end.

Definition expected (s : t) : list ExpectedReply := Frames.expected_replies (frames (conn s)) !!! id (self s).

Definition call_replies (cl : bool) (ks : list Call) (n : nat) : list ExpectedReply :=
  zip_with (λ k p, mkExpectedReply (call_reply k cl p) p) ks (seq n (length ks)).

Definition sent (s : t) (cl : bool) (ks : list Call) (e : Env) (r : res (list Resolver) * t * Env) : Prop :=
  result_of r = Ok (seq (next_ref e) (length ks)) ∧
  expected (state_of r) = expected s ++ call_replies cl ks (next_ref e) ∧
  self (state_of r) = self s ∧ promises (env_of r) = promises e.

Lemma expected_requested m r p s :
  expected (map_frames (requested (id (self s)) m r p) s) = expected s ++ [mkExpectedReply r p].
Proof. unfold expected. simpl. by rewrite lookup_total_insert_eq. Qed.

Lemma run_calls_eq ks : ∀ s e,
  Forall (λ k, call_nowait k = false) ks → ChannelStatus.connected (status (self s)) = true →
  Frames.check_poison (frames (conn s)) (id (self s)) = None →
  sent s (closer (self s)) ks e (run_calls ks s e).
Proof.
  induction ks as [|k ks IH]; intros s e Hks Hc Hp.
  - split_and!; [done|by rewrite app_nil_r|done..].
  - apply Forall_cons in Hks as [Hk Hks]. cbn [run_calls]. unfold try_bind at 1, mbind at 1, M_bind at 1.
    rewrite (call_eq_run k s e), Hc by done.
    set (s1 := map_frames _ s). destruct (IH s1 (after_call e) Hks Hc Hp) as (H1 & H2 & H3 & H4).
    unfold try_bind, mbind, M_bind. destruct (run_calls ks s1 (after_call e)) as [[ps s2] e2].
    unfold result_of, state_of, env_of in *. cbn [fst snd] in *. subst ps.
    split_and!; [done| |done..]. change (expected s2 = expected s ++ call_replies (closer (self s)) (k :: ks) (next_ref e)).
    rewrite H2. unfold s1. by rewrite expected_requested, <- app_assoc.
Qed.

(** The frames of the requests, in the queue. *)
Definition call_entries (i : ChannelId) (ks : list Call) (n : nat) : list Frames.FrameEntry :=
  zip_with (λ k p, Frames.mkEntry (Method i (call_method k)) (Frames.mkSending (Some p) None)) ks (seq n (length ks)).

(** The rest of the connection after the requests. *)
Definition queued_calls (ks : list Call) (s : t) (e : Env) (r : res (list Resolver) * t * Env) : Prop :=
  ∃ f, conn (state_of r) = set_frames_ f (conn s) ∧ Frames.frames f = Frames.frames (frames (conn s)) ++ call_entries (id (self s)) ks (next_ref e) ∧
    Frames.retry_frames f = Frames.retry_frames (frames (conn s)) ∧ Frames.publish_frames f = Frames.publish_frames (frames (conn s)) ∧
    Frames.low_prio_frames f = Frames.low_prio_frames (frames (conn s)) ∧ next_ref (env_of r) = (next_ref e + length ks)%nat.

Lemma run_calls_queued ks : ∀ s e,
  Forall (λ k, call_nowait k = false) ks → ChannelStatus.connected (status (self s)) = true →
  Frames.check_poison (frames (conn s)) (id (self s)) = None → queued_calls ks s e (run_calls ks s e).
Proof.
  induction ks as [|k ks IH]; intros s e Hks Hc Hp.
  - exists (frames (conn s)). simpl. rewrite app_nil_r, Nat.add_0_r. by destruct s as [? []].
  - apply Forall_cons in Hks as [Hk Hks]. cbn [run_calls]. unfold try_bind at 1, mbind at 1, M_bind at 1.
    rewrite (call_eq_run k s e), Hc by done.
    set (s1 := map_frames _ s). destruct (IH s1 (after_call e) Hks Hc Hp) as (f & H1 & H2 & H3 & H4 & H5 & H6).
    pose proof (run_calls_eq ks s1 (after_call e) Hks Hc Hp) as (R1 & _).
    unfold try_bind, mbind, M_bind. destruct (run_calls ks s1 (after_call e)) as [[ps s2] e2].
    unfold result_of, state_of, env_of in *. cbn [fst snd] in *. subst ps.
    exists f. split_and!; [done| |done..|cbn in H6; unfold env_of; simpl; lia].
    rewrite H2. unfold s1. simpl. by rewrite <- app_assoc.
Qed.

Lemma expected_cons s er l : expected s = er :: l →
  Frames.expected_replies (frames (conn s)) !! id (self s) = Some (er :: l).
Proof. unfold expected. rewrite lookup_total_alt. by destruct (_ !! _); [intros [= <-]|]. Qed.

Lemma receive_methods_eq cl ks : ∀ ans n s e,
  length ans = length ks → ChannelStatus.can_receive_messages (status (self s)) = true →
  expected s = call_replies cl ks n → (∀ p, (n ≤ p)%nat → promises e !! p = None) →
  let r := receive_methods (zip_with answer_method ks ans) s e in
  result_of r = Ok tt ∧ expected (state_of r) = [] ∧
  local_registry (self (state_of r)) =
    foldl (λ g ka, answer_registry ka.1 ka.2 g) (local_registry (self s)) (zip ks ans) ∧
  (∀ p, (p < n)%nat → promises (env_of r) !! p = promises e !! p) ∧
  ∀ j k a, ks !! j = Some k → ans !! j = Some a →
    ∃ v, promises (env_of r) !! (n + j)%nat = Some (Ok v) ∧ answer_value k a v.
Proof.
  induction ks as [|k ks IH]; intros ans n s e Hlen Hst Hx Hp; [by destruct ans|].
  destruct ans as [|a ans]; [done|]. injection Hlen as Hlen.
  destruct (answer_step k a cl n _ s e Hst (expected_cons _ _ _ Hx) (Hp n (le_n n)))
    as (Hr & (v & Hv & Hav) & Hreg & Hexp & Hid & Hst' & _).
  cbn zeta. cbn [zip_with receive_methods]. unfold try_bind, mbind, M_bind.
  destruct (receive_method (answer_method k a) s e) as [[r s1] e1].
  unfold result_of, state_of, env_of in Hr, Hv, Hreg, Hexp, Hid, Hst'. cbn [fst snd] in *. subst r.
  destruct (IH ans (S n) s1 e1) as (H1 & H2 & H3 & H4 & H5); [done|by rewrite Hst'| | |].
  { unfold expected. by rewrite Hid, lookup_total_alt, Hexp. }
  { intros p Hle. rewrite Hv, lookup_insert_ne by lia. apply Hp. lia. }
  split_and!; [done|done|by rewrite H3, Hreg| |].
  - intros p Hlt. rewrite H4, Hv, lookup_insert_ne by lia. done.
  - intros [|j] k' a' Hk Ha; simpl in Hk, Ha.
    + injection Hk as <-. injection Ha as <-. exists v. split; [|done].
      rewrite Nat.add_0_r, H4, Hv by lia. apply lookup_insert_eq.
    + rewrite Nat.add_succ_r. by apply (H5 j).
Qed.

(** Answers find their requests.  When several requests are sent on an open channel
    that waits for no other reply, and the server then answers them in the order they were
    sent, each request is completed with its own answer: the j-th promise handed
    out with the value of the j-th answer.  The registry ends with the changes of all the
    requests in that order, and no reply is expected any more. *)
Theorem pipelined_calls ks ans s e :
  Forall (λ k, call_nowait k = false) ks → length ans = length ks →
  ChannelStatus.connected (status (self s)) = true →
  Frames.check_poison (frames (conn s)) (id (self s)) = None →
  expected s = [] → (∀ p, (next_ref e ≤ p)%nat → promises e !! p = None) →
  ∃ ps s1 e1, run_calls ks s e = (Ok ps, s1, e1) ∧ length ps = length ks ∧
  let r := receive_methods (zip_with answer_method ks ans) s1 e1 in
  result_of r = Ok tt ∧ expected (state_of r) = [] ∧
  local_registry (self (state_of r)) =
    foldl (λ g ka, answer_registry ka.1 ka.2 g) (local_registry (self s)) (zip ks ans) ∧
  ∀ j p k a, ps !! j = Some p → ks !! j = Some k → ans !! j = Some a →
    ∃ v, promises (env_of r) !! p = Some (Ok v) ∧ answer_value k a v.
Proof.
  intros Hks Hlen Hc Hp Hx Hf. destruct (run_calls_eq ks s e Hks Hc Hp) as (H1 & H2 & H3 & H4).
  destruct (run_calls ks s e) as [[ps s1] e1]. unfold result_of, state_of, env_of in H1, H2, H3, H4.
  cbn [fst snd] in *. subst ps. rewrite Hx in H2.
  exists (seq (next_ref e) (length ks)), s1, e1. split; [done|]. split; [apply length_seq|].
  destruct (receive_methods_eq (closer (self s)) ks ans (next_ref e) s1 e1) as (R1 & R2 & R3 & _ & R5);
    [done|rewrite H3; by apply connected_can_receive|done|by rewrite H4|].
  rewrite H3 in R3. split_and!; [done..|]. intros j p k a Hj. apply lookup_seq in Hj as [-> _]. apply R5.
Qed.


(** ** Answers nobody waits for *)

(** The replies the answer to a request can complete. *)
Definition completes (k : Call) (r : Reply) : bool :=
  match k, r with
  | KQos _ _, RBasicQosOk _ | KConsume _ _ _ _ _, RBasicConsumeOk _ _ _ _ _ _ | KGet _ _, RBasicGetOk _
  | KRecover _, RBasicRecoverOk _ | KFlow _, RChannelFlowOk _ | KAccess _ _ _ _ _ _, RAccessRequestOk _
  | KExchangeDeclare _ _ _ _, RExchangeDeclareOk _ _ _ _ _ | KExchangeDelete _ _ _, RExchangeDeleteOk _ _
  | KExchangeBind _ _ _ _ _, RExchangeBindOk _ _ _ _ _ | KExchangeUnbind _ _ _ _ _, RExchangeUnbindOk _ _ _ _ _
  | KQueueDeclare _ _ _, RQueueDeclareOk _ _ _ | KQueueBind _ _ _ _ _, RQueueBindOk _ _ _ _ _
  | KQueuePurge _, RQueuePurgeOk _ | KQueueDelete _ _ _ _, RQueueDeleteOk _ _
  | KQueueUnbind _ _ _ _, RQueueUnbindOk _ _ _ _ _
  | KTxSelect, RTxSelectOk _ | KTxCommit, RTxCommitOk _ | KTxRollback, RTxRollbackOk _ => true
  | _, _ => false
  end.

Lemma find_nothing sel s e : Forall (λ er, sel er = false) (expected s) →
  in_frames (Frames.find_expected_reply (id (self s)) sel) s e = (None, s, e).
Proof.
  unfold expected. rewrite lookup_total_alt. intros H. unfold in_frames, zoom, Frames.find_expected_reply.
  rewrite bind_get. destruct (_ !! id (self s)) as [l|]; [|by destruct s as [? []]].
  assert (Hn : Frames.find_remove sel l = None).
  { cbn in H. induction H as [|er l' Her _ IH]; [done|]. simpl. by rewrite Her, IH. }
  rewrite Hn. by destruct s as [? []].
Qed.

(** The commands that close the connection. *)
Definition violation (m : AMQPClass) (msg : string) (e : Env) : Env :=
  let err := mkAMQPError (Hard UNEXPECTEDFRAME) msg in
  set_wakes (3 + wakes e) (set_rpc (rpc e ++
    [CSetConnectionClosing; CCloseConnection (get_id (Hard UNEXPECTEDFRAME)) msg (get_amqp_class_id m) (get_amqp_method_id m) None;
     CSetConnectionError (error_from (ProtocolError err))]) e).

Lemma invalid_contents_eq m msg s e :
  handle_invalid_contents msg (get_amqp_class_id m) (get_amqp_method_id m) s e =
  (Err (error_from (ProtocolError (mkAMQPError (Hard UNEXPECTEDFRAME) msg))), s, violation m msg e).
Proof.
  unfold violation, handle_invalid_contents, report_protocol_violation, close_connection_for, rpc_close_connection, rpc_set_connection_closing, rpc_set_connection_error, rpc_send, wake,
    modify_env, mbind, M_bind, mret, M_ret.
  cbn [rpc set_rpc set_wakes wakes amqp_kind amqp_message get_id]. by rewrite <- !app_assoc.
Qed.

Lemma expecting_nothing name m select s e :
  Forall (λ er, match select (er_reply er) with Some _ => true | None => false end = false) (expected s) →
  ∃ msg, expecting name m select s e =
  (Err (error_from (ProtocolError (mkAMQPError (Hard UNEXPECTEDFRAME) msg))), s, violation m msg e).
Proof.
  intros H. eexists. unfold expecting, this_id. rewrite bind_assoc, bind_get.
  unfold mbind at 1, M_bind at 1, mret at 1, M_ret at 1. unfold mbind at 1, M_bind at 1.
  rewrite (find_nothing _ _ _ H). cbn [mbind option_bind]. apply invalid_contents_eq.
Qed.

(** An answer nobody waits for is a protocol violation.  When no reply expected on the
    channel matches the answer received, the answer is refused with an
    UNEXPECTED_FRAME error: nothing of the channel or of the connection changes, no promise is completed, and the
    io loop is told to close the connection with the code of that error and the ids of the offending
    method and to fail everything pending on it with the same error. *)
Theorem unexpected_answer k a s e :
  ChannelStatus.can_receive_messages (status (self s)) = true →
  Forall (λ er, completes k (er_reply er) = false) (expected s) →
  ∃ msg, receive_method (answer_method k a) s e =
  (Err (error_from (ProtocolError (mkAMQPError (Hard UNEXPECTEDFRAME) msg))), s, violation (answer_method k a) msg e).
Proof.
  intros Hst Hx.
  destruct k; cbn [answer_method receive_method] in *;
    unfold receive_basic_qos_ok, receive_basic_consume_ok, receive_basic_get_empty, receive_basic_recover_ok,
      receive_channel_flow_ok, receive_access_request_ok, receive_exchange_declare_ok, receive_exchange_delete_ok,
      receive_exchange_bind_ok, receive_exchange_unbind_ok, receive_queue_declare_ok, receive_queue_bind_ok,
      receive_queue_purge_ok, receive_queue_delete_ok, receive_queue_unbind_ok, receive_tx_select_ok,
      receive_tx_commit_ok, receive_tx_rollback_ok;
    rewrite can_receive_eq by done;
    try (apply expecting_nothing; eapply Forall_impl; [exact Hx|]; intros [[] ?]; by simpl).
  (* basic.get *)
  eexists. unfold on_basic_get_empty_received, this_id. rewrite bind_assoc, bind_get.
  unfold mbind at 1, M_bind at 1, mret at 1, M_ret at 1. unfold mbind at 1, M_bind at 1.
  rewrite find_nothing; [apply invalid_contents_eq|].
  eapply Forall_impl; [exact Hx|]. intros [[] ?]; by simpl.
Qed.

End Generated.

Section Witnesses.
#[local] Existing Instances number_types number_protocol number_handle.
#[local] Instance z_order : HashOrder Z := canonical_order Z.
#[local] Instance s_order : HashOrder string := canonical_order string.

(** An open channel, with the replies it expects. *)
Definition demo_open (l : list ExpectedReply) : t :=
  let c := result_of (Channel.new 1 tt env_empty) in
  mk (set_status_ (ChannelStatus.set_state_ ChConnected (status c)) c)
     (mkConn (Configuration.mk 10 4096 0) ConnectionStatus.default
       (Frames.set_expected {[ 1 := l ]} Frames.default) "/" false).

Definition demo_declare : Call := KQueueDeclare "" (mkQueueDeclareOptions false false true false false) [].

Lemma call_sends_witness :
  run_call demo_declare (demo_open []) env_empty =
  (Ok 0%nat,
   map_frames (requested 1 (call_method demo_declare) (call_reply demo_declare true 0%nat) 0%nat) (demo_open []),
   after_call env_empty) ∧
  length (Frames.frames (frames (conn (state_of (run_call demo_declare (demo_open []) env_empty))))) = 1%nat.
Proof.
  split; [|by vm_compute].
  exact (call_sends (AT := number_types) (AP := number_protocol)
    demo_declare (demo_open []) env_empty eq_refl eq_refl).
Defined.

Lemma call_answered_witness :
  promises (env_of (receive_method (QueueDeclareOk "amq.gen-1" 3 1)
    (demo_open [mkExpectedReply (call_reply demo_declare true 4%nat) 4%nat;
                mkExpectedReply (RTxSelectOk 5%nat) 5%nat]) env_empty)) =
  {[ 4%nat := Ok (VQueue (mkQueue "amq.gen-1" 3 1)) ]}.
Proof.
  destruct (call_answered (AT := number_types) (AP := number_protocol) (CH := number_handle)
    demo_declare (mkAnswer "amq.gen-1" 3 1 true) true 4%nat [mkExpectedReply (RTxSelectOk 5%nat) 5%nat]
    (demo_open [mkExpectedReply (call_reply demo_declare true 4%nat) 4%nat;
                mkExpectedReply (RTxSelectOk 5%nat) 5%nat]) env_empty) as (_ & (v & Hv & ->) & _);
    [by vm_compute..|exact Hv].
Defined.

Lemma pipelined_calls_witness :
  match run_calls [KTxSelect; demo_declare] (demo_open []) env_empty with
  | (Ok ps, s1, e1) =>
    ps = [0%nat; 1%nat] ∧
    ∃ v, promises (env_of (receive_methods [TxSelectOk; QueueDeclareOk "amq.gen-1" 3 1] s1 e1)) !! 1%nat = Some (Ok v) ∧
         v = VQueue (mkQueue "amq.gen-1" 3 1)
  | _ => False
  end.
Proof.
  destruct (pipelined_calls (AT := number_types) (AP := number_protocol) (CH := number_handle)
    [KTxSelect; demo_declare] [mkAnswer "" 0 0 true; mkAnswer "amq.gen-1" 3 1 true] (demo_open []) env_empty)
    as (ps & s1 & e1 & H1 & _ & _ & _ & _ & H2); [repeat constructor|done..|].
  assert (Hps : ps = [0%nat; 1%nat]) by (vm_compute in H1; by injection H1 as <-).
  rewrite H1. split; [done|]. subst ps. exact (H2 1%nat 1%nat demo_declare _ eq_refl eq_refl eq_refl).
Defined.

Lemma unexpected_answer_witness :
  (receive_method TxCommitOk (demo_open [mkExpectedReply (RTxSelectOk 5%nat) 5%nat]) env_empty).1.2 =
    demo_open [mkExpectedReply (RTxSelectOk 5%nat) 5%nat] ∧
  length (rpc (env_of (receive_method TxCommitOk (demo_open [mkExpectedReply (RTxSelectOk 5%nat) 5%nat]) env_empty))) = 3%nat.
Proof.
  split; [|by vm_compute].
  destruct (unexpected_answer (AT := number_types) (AP := number_protocol) (CH := number_handle) KTxCommit
    (mkAnswer "" 0 0 true) (demo_open [mkExpectedReply (RTxSelectOk 5%nat) 5%nat]) env_empty) as [msg H];
    [by vm_compute|repeat constructor|].
  cbn [answer_method] in H. by rewrite H.
Defined.

End Witnesses.
End Generated.
