(* ===== verification/Channels.v ===== *)
(** The channels of a connection (src/channels.rs): creating and removing them,
    dispatching incoming frames, and the connection-wide transitions. *)
From S2P Require Import Prelude.
From S2P Require Import IdSequence.
From S2P Require Import Buffer.
From S2P Require Import Types.
From S2P Require Import Env.
From S2P Require Import Frames.
From S2P Require Import Registry.
From S2P Require Import ChannelStatus.
From S2P Require Import Messages.
From S2P Require Import Acknowledgements.
From S2P Require Import Consumers.
From S2P Require Import Connection.
From S2P Require Import Channel.
From S2P Require Import Generated.
Open Scope Z_scope.

Module Channels.
Section Channels.
Context `{AT : AmqpTypes} `{AP : !AmqpProtocol} `{CH : !ConnectionHandle}
  `{HZ : !HashOrder Z} `{HS : !HashOrder string}.

(** [Channels] and its [Inner]. *)
Record t := mk {
  channels : gmap Z Channel.Chan;
  channel_id : IdSequence.t;
  channel0 : Channel.Chan;
  conn : Channel.Conn;
  connection_killswitch : KillSwitch;
}.

Definition set_channels x s := mk x (channel_id s) (channel0 s) (conn s) (connection_killswitch s).
Definition set_channel_id x s := mk (channels s) x (channel0 s) (conn s) (connection_killswitch s).
Definition set_channel0 x s := mk (channels s) (channel_id s) x (conn s) (connection_killswitch s).
Definition set_conn x s := mk (channels s) (channel_id s) (channel0 s) x (connection_killswitch s).

(** [Channels::get]. *)
Definition get_ (i : ChannelId) (s : t) : option Channel.Chan :=
  if i =? 0 then Some (channel0 s) else channels s !! i.

Definition put_ (i : ChannelId) (c : Channel.Chan) (s : t) : t :=
  if i =? 0 then set_channel0 c s else set_channels (<[i := c]> (channels s)) s.

(** Run an operation of the channel [i], when there is one. *)
Definition with_channel {A} (i : ChannelId) (none : A) (k : M Channel.t A) : M t A :=
  λ s e, match get_ i s with
         | None => (none, s, e)
         | Some c =>
           let '(a, x, e') := k (Channel.mk c (conn s)) e in
           (a, put_ i (Channel.self x) (set_conn (Channel.conn x) s), e')
         end.

Definition in_channel0 {A} (k : M Channel.t A) : M t A :=
  λ s e, let '(a, x, e') := k (Channel.mk (channel0 s) (conn s)) e in
         (a, set_channel0 (Channel.self x) (set_conn (Channel.conn x) s), e').

Definition in_frames {A} : M Frames.t A → M t A :=
  zoom (λ s, Channel.frames (conn s)) (λ x s, set_conn (Channel.set_frames_ x (conn s)) s).

Definition update_connection_status (f : ConnectionStatus.t → ConnectionStatus.t) : M t unit :=
  modify (λ s, set_conn (Channel.set_connection_status (f (Channel.connection_status (conn s))) (conn s)) s).

Definition connection_status (s : t) : ConnectionStatus.t := Channel.connection_status (conn s).

(** [for channel in self.read().channels.values()]. *)
Definition for_channels (k : M Channel.t unit) : M t unit :=
  s ← get; for_each (hash_order (channels s)).*1 (λ i, with_channel i tt k).

(** ** Creating channels *)

(** [Channels::new]. *)
Definition new {S} (c : Channel.Conn) : M S t :=
  ch0 ← Channel.new 0;
  let ch0 := Channel.set_status_ (ChannelStatus.set_state_ ChConnected (Channel.status ch0)) ch0 in
  k ← killswitch_new;
  mret (mk ∅ (IdSequence.new false) ch0 c k).

Definition next_id : M t ChannelId :=
  s ← get; let (i, seq) := IdSequence.next 16 (channel_id s) in put (set_channel_id seq s);; mret i.

(** The loop of [Inner::create]; [None] when the fuel runs out. *)
Fixpoint create_loop (fuel : nat) (first_id i : ChannelId) (met_first_id : bool) : M t (option (res Channel.Chan)) :=
  match fuel with
  | O => mret None
  | S fuel =>
    if (i =? first_id) && met_first_id then mret (Some (Err (error_from ChannelsLimitReached))) else
    let met_first_id := met_first_id || (i =? first_id) in
    s ← get;
    match channels s !! i with
    | None =>
      c ← Channel.new i;
      modify (λ s, set_channels (<[i := Channel.clone_internal c]> (channels s)) s);;
      mret (Some (Ok c))
    | Some _ => i ← next_id; create_loop fuel first_id i met_first_id
    end
  end.

(** The ids of a sequence bounded by [m] repeat after [m] steps: [m + 1] iterations are
    enough ([create_free_id]). *)
Definition create : M t (option (res Channel.Chan)) :=
  modify (λ s, set_channel_id
    (IdSequence.set_max (channel_id s) (Configuration.channel_max (Channel.configuration (conn s)))) s);;
  s ← get;
  let cmax := Configuration.channel_max (Channel.configuration (conn s)) in
  if cmax <=? Z.of_nat (size (channels s)) then mret (Some (Err (error_from ChannelsLimitReached))) else
  first_id ← next_id;
  create_loop (S (Z.to_nat cmax)) first_id first_id false.

Definition remove (i : ChannelId) (err : Error) : M t (res unit) :=
  in_frames (Frames.clear_expected_replies i err);;
  if i =? 0 then mret (Ok tt) else
  s ← get;
  match channels s !! i with
  | Some _ => put (set_channels (delete i (channels s)) s);; mret (Ok tt)
  | None => mret (Err (error_from (InvalidChannel i)))
  end.

(** ** Incoming frames *)

Definition invalid_channel (i : ChannelId) : res unit := Err (error_from (InvalidChannel i)).

Definition receive_method (i : ChannelId) (m : AMQPClass) : M t (res unit) :=
  with_channel i (invalid_channel i) (Generated.receive_method m).

Definition handle_content_header_frame (i : ChannelId) (class_id : Identifier) (size : PayloadSize)
    (props : BasicProperties) : M t (res unit) :=
  with_channel i (invalid_channel i) (Channel.handle_content_header_frame class_id size props).

Definition handle_body_frame (i : ChannelId) (payload : list byte) : M t (res unit) :=
  with_channel i (invalid_channel i) (Channel.handle_body_frame payload).

Definition drop_connection (c : ConnectionRef) : M t unit := drop_connection_ connection_status c.

(** [if let Some(resolver) = self.frames.connection_resolver(0) { resolver.reject(..) }]: the
    connection of the step is dropped first. *)
Definition reject_connection (err : Error) : M t unit :=
  r ← in_frames (Frames.connection_resolver 0);
  match r with Some (r, c) => drop_connection c;; reject r err | None => mret tt end.

(** [Frames::clear_connection_steps], with the drops of the connections of the steps: the code drops each before
    it rejects its step, but a drop only queues commands and a rejection only completes a promise. *)
Definition clear_connection_steps (err : Error) : M t unit :=
  cs ← in_frames (Frames.clear_connection_steps err); for_each cs drop_connection.

Definition handle_frame (f : AMQPFrame) : M t (res unit) :=
  match f with
  | ProtocolHeader version =>
    let err := error_from (InvalidProtocolVersion version) in
    reject_connection err;; mret (Err err)
  | Method i m => receive_method i m
  | HeartbeatFrame => mret (Ok tt)
  | InvalidHeartbeat i =>
    in_channel0 (Channel.report_protocol_violation
      (mkAMQPError (Hard FRAMEERROR) ("heartbeat frame received on channel " +:+ pretty i)) 0 0)
  | Header i h =>
    if i =? 0 then
      in_channel0 (Channel.report_protocol_violation
        (mkAMQPError (Hard CHANNELERROR) ("content header frame received on channel " +:+ pretty i))
        (ch_class_id h) 0)
    else handle_content_header_frame i (ch_class_id h) (ch_body_size h) (ch_properties h)
  | Body i payload => handle_body_frame i payload
  end.

(** ** Connection-wide transitions *)

Definition set_connection_closing : M t unit :=
  update_connection_status (λ s, (ConnectionStatus.set_state CoClosing s).2);;
  for_channels (Channel.set_closing None).

Definition set_connection_closed (err : Error) : M t unit :=
  update_connection_status (λ s, (ConnectionStatus.set_state CoClosed s).2);;
  for_channels (Channel.set_closed err).

Definition should_init_connection_recovery : M t bool :=
  s ← get;
  if ConnectionStatus.connected (connection_status s)
  then kill (connection_killswitch s);; mret true
  else mret false.

Definition set_connection_error (err : Error) : M t unit :=
  s ← get;
  update_connection_status (λ s, (ConnectionStatus.set_state CoError s).2);;
  if decide ((ConnectionStatus.set_state CoError (connection_status s)).1 = CoError) then mret tt else
  reject_connection err;;
  in_frames (Frames.drop_pending err);;
  send_event (EvError err);;
  for_channels (Channel.set_connection_error err).

Definition flow (s : t) : bool :=
  forallb (λ x, ChannelStatus.send_flow (Channel.status x.2)) (hash_order (channels s)).

Fixpoint init_recovery_loop (l : list ChannelId) (err : Error) : M t Error :=
  match l with
  | [] => mret err
  | i :: l => err ← with_channel i err (Channel.init_recovery err); init_recovery_loop l err
  end.

Definition init_connection_recovery (err : Error) : M t Error :=
  update_connection_status ConnectionStatus.set_reconnecting;;
  clear_connection_steps err;;
  s ← get;
  err ← init_recovery_loop (hash_order (channels s)).*1 err;
  in_channel0 (Channel.init_recovery err).

Definition init_connection_shutdown (err : Error) (r : option Resolver) : M t unit :=
  in_frames (Frames.drop_pending err);;
  match r with Some r => reject r err | None => mret tt end.

Definition finish_connection_shutdown : M t unit :=
  s ← get; kill (connection_killswitch s);; mret tt.

(** [Connection::start] (src/connection.rs), up to the wait for the handshake. *)
Definition start (version : Z * Z * Z) (c : ConnectionRef) : M t (res Resolver) :=
  p ← promise_new;
  s ← get;
  let (r, st) := ConnectionStatus.set_connecting (connection_status s) in
  update_connection_status (λ _, st);;
  match r with
  | Err err => drop_connection c;; mret (Err err)
  | Ok _ =>
    in_channel0 (Channel.send_frame (ProtocolHeader version) p
      (Some (mkExpectedReply (RConnectionStep (StepProtocolHeader p c)) p)) None);;
    in_channel0 (Channel.drop_refused c);;
    mret (Ok p)
  end.

(** [Channels::start_recovery] up to the wait for the handshake; the channels then run
    [Channel::start_recovery] one after the other. *)
Definition start_recovery (version : Z * Z * Z) (c : ConnectionRef) : M t (res Resolver) :=
  s ← get;
  killswitch_reset (connection_killswitch s);;
  in_frames Frames.drop_poison;;
  in_channel0 Channel.update_recovery;;
  in_channel0 Channel.finalize_connection;;
  start version c.

(** ** Allocating ids *)

(** The id sequence stays within the negotiated bound, and so do the open channels. *)
Record ids_wf (m : Z) (s : t) : Prop := {
  iw_bound : 0 < m < 2 ^ 16;
  iw_config : Configuration.channel_max (Channel.configuration (conn s)) = m;
  iw_nozero : IdSequence.allow_zero (channel_id s) = false;
  iw_id : 0 ≤ IdSequence.id (channel_id s) ≤ m;
  iw_open : ∀ i, is_Some (channels s !! i) → 1 ≤ i ≤ m;
}.

(** The sequence as [create] sets it up. *)
Definition bounded_seq (m : Z) (q : IdSequence.t) : Prop :=
  IdSequence.allow_zero q = false ∧ IdSequence.max q = Some m ∧ 0 ≤ IdSequence.id q ≤ m.

Lemma cursor_range m q : 0 < m → bounded_seq m q → 0 ≤ IdSequence.cursor q < m.
Proof. intros Hm (_ & _ & Hid). unfold IdSequence.cursor. destruct (Z.eqb_spec (IdSequence.id q) 0); lia. Qed.

Lemma next_id_eq m s e : 0 < m < 2 ^ 16 → bounded_seq m (channel_id s) →
  ∃ q, next_id s e = (1 + IdSequence.cursor (channel_id s), set_channel_id q s, e) ∧ bounded_seq m q ∧
       IdSequence.cursor q = (IdSequence.cursor (channel_id s) + 1) `mod` m.
Proof.
  intros Hm (Haz & Hmax & Hid).
  destruct (IdSequence.next_bounded 16 m (channel_id s)) as (q & E & H1 & H2 & H3 & H4); [done..|].
  exists q. unfold next_id. rewrite bind_get, E. done.
Qed.

(** A new channel, with the kill switch [k], and the store that knows it. *)
Definition new_chan (i : ChannelId) (k : KillSwitch) : Channel.Chan :=
  Channel.mkChan i (ChannelStatus.mk i false true ChInitial [] None k) Registry.empty (Acknowledgements.new i) ∅ None (negb (i =? 0)).
Definition new_env (i : ChannelId) (e : Env) : Env :=
  set_wakes (S (wakes e)) (set_rpc (rpc e ++ [CSetChannelStatus i (next_ref e)]) (set_next_ref (S (next_ref e)) e)).

Lemma new_channel_eq {S} i (s : S) e : Channel.new i s e = (new_chan i (next_ref e), s, new_env i e).
Proof. done. Qed.

(** [s] once the channel [i] is in its map. *)
Definition opened (i : ChannelId) (k : KillSwitch) (q : IdSequence.t) (s : t) : t :=
  set_channels (<[i := Channel.clone_internal (new_chan i k)]> (channels s)) (set_channel_id q s).

(** With a free id [n] steps ahead the loop finds one, before it comes round. *)
Lemma create_loop_finds m c0 n : 0 < m < 2 ^ 16 → 0 ≤ c0 < m → ∀ k fuel s e,
  bounded_seq m (channel_id s) → IdSequence.cursor (channel_id s) = (c0 + Z.of_nat k + 1) `mod` m →
  Z.of_nat (k + n) < m → channels s !! (1 + (c0 + Z.of_nat (k + n)) `mod` m) = None → (n < fuel)%nat →
  ∃ i q, create_loop fuel (1 + c0) (1 + (c0 + Z.of_nat k) `mod` m) (negb (k =? 0)%nat) s e =
      (Some (Ok (new_chan i (next_ref e))), opened i (next_ref e) q s, new_env i e) ∧
    1 ≤ i ≤ m ∧ channels s !! i = None ∧ bounded_seq m q.
Proof.
  intros Hm Hc0. induction n as [|n IH]; intros k fuel s e Hq Hcur Hlt Hfree Hfuel;
    (destruct fuel as [|fuel]; [lia|]); cbn [create_loop].
  all: assert (Hmet : (1 + (c0 + Z.of_nat k) `mod` m =? 1 + c0) && negb (k =? 0)%nat = false).
  1, 3: apply andb_false_iff; destruct (Nat.eqb_spec k 0); [by right|left]; apply Z.eqb_neq;
    destruct (Z.lt_ge_cases (c0 + Z.of_nat k) m);
    [rewrite Z.mod_small by lia; lia
    |rewrite <- (Z.mod_unique_pos (c0 + Z.of_nat k) m 1 (c0 + Z.of_nat k - m)) by lia; lia].
  all: rewrite Hmet, bind_get.
  all: assert (Hrange : 1 ≤ 1 + (c0 + Z.of_nat k) `mod` m ≤ m)
         by (pose proof (Z.mod_pos_bound (c0 + Z.of_nat k) m); lia).
  all: destruct (channels s !! (1 + (c0 + Z.of_nat k) `mod` m)) as [ch|] eqn:Ei;
    [|exists (1 + (c0 + Z.of_nat k) `mod` m), (channel_id s); split_and!; try done; try lia;
      unfold mbind, M_bind; rewrite new_channel_eq; by destruct s].
  - by rewrite Nat.add_0_r, Ei in Hfree.
  - destruct (next_id_eq m s e Hm Hq) as (q & E & Hq' & Hcur'). unfold mbind, M_bind. rewrite E, Hcur.
    replace (1 + (c0 + Z.of_nat k + 1) `mod` m) with (1 + (c0 + Z.of_nat (S k)) `mod` m) by (do 2 f_equal; lia).
    assert (Hflag : negb (k =? 0)%nat || (1 + (c0 + Z.of_nat k) `mod` m =? 1 + c0) = negb (S k =? 0)%nat).
    { destruct (Nat.eqb_spec k 0) as [->|]; [|done]. simpl. rewrite Z.add_0_r, Z.mod_small by lia.
      by rewrite Z.eqb_refl. }
    rewrite Hflag.
    destruct (IH (S k) fuel (set_channel_id q s) e) as (i & q2 & -> & ? & ? & ?); simpl; try done; try lia.
    + rewrite Hcur', Hcur, Zplus_mod_idemp_l. f_equal. lia.
    + by replace (S (k + n))%nat with (k + S n)%nat by lia.
    + by exists i, q2.
Qed.

(** Fewer open channels than ids leave an id free. *)
Lemma free_id m s : 0 < m → Z.of_nat (size (channels s)) < m → ∃ i, 1 ≤ i ≤ m ∧ channels s !! i = None.
Proof.
  intros Hm Hsize. set (l := (λ k, 1 + Z.of_nat k) <$> seq 0 (Z.to_nat m)).
  destruct (decide (Forall (λ i, is_Some (channels s !! i)) l)) as [Hall|Hex].
  - exfalso. assert (Hsub : list_to_set l ⊆@{gset Z} dom (channels s)).
    { intros i Hi%elem_of_list_to_set. rewrite Forall_forall in Hall. by apply elem_of_dom, Hall. }
    apply subseteq_size in Hsub. rewrite size_list_to_set in Hsub.
    + unfold l in Hsub. rewrite length_fmap, length_seq, size_dom in Hsub. lia.
    + apply NoDup_fmap_2; [intros ???; lia|apply NoDup_seq].
  - apply not_Forall_Exists in Hex; [|intros; apply _]. apply Exists_exists in Hex as (i & Hi & Hn).
    apply list_elem_of_fmap in Hi as (k & -> & Hk%elem_of_seq). exists (1 + Z.of_nat k).
    split; [lia|]. by apply eq_None_not_Some.
Qed.

(** What [create] sets up first. *)
Definition bound_ids (m : Z) (s : t) : t := set_channel_id (IdSequence.set_max (channel_id s) m) s.

Lemma bound_ids_seq m s : ids_wf m s → bounded_seq m (channel_id (bound_ids m s)).
Proof.
  intros [Hm _ Haz Hid _]. split_and!; simpl; [done| |lia|lia]. destruct (Z.eqb_spec m 0); [lia|done].
Qed.

Lemma create_below m s e : ids_wf m s → Z.of_nat (size (channels s)) < m → ∃ i q,
  create s e = (Some (Ok (new_chan i (next_ref e))), opened i (next_ref e) q s, new_env i e) ∧
  1 ≤ i ≤ m ∧ channels s !! i = None ∧ bounded_seq m q.
Proof.
  intros Hwf Hsz. pose proof Hwf as [Hm Hcfg _ _ _]. pose proof (bound_ids_seq m s Hwf) as Hq.
  unfold create. rewrite bind_modify, bind_get. cbn [conn set_channel_id channels].
  rewrite Hcfg. fold (bound_ids m s). set (s1 := bound_ids m s) in *. rewrite (proj2 (Z.leb_gt _ _)) by done.
  destruct (next_id_eq m s1 e Hm Hq) as (q & E & Hq' & Hcur).
  pose proof (cursor_range m _ (proj1 Hm) Hq) as Hc0. set (c0 := IdSequence.cursor (channel_id s1)) in *.
  destruct (free_id m s (proj1 Hm) Hsz) as (i & Hi & Hfree). rewrite (bind_eq _ _ _ _ _ _ _ E).
  destruct (create_loop_finds m c0 (Z.to_nat ((i - 1 - c0) `mod` m)) Hm Hc0 0 (S (Z.to_nat m))
    (set_channel_id q s1) e) as (j & q2 & Eq & Hj & Hjf & Hq2); try done.
  - simpl. rewrite Hcur. f_equal. lia.
  - simpl. pose proof (Z.mod_pos_bound (i - 1 - c0) m). lia.
  - simpl. rewrite Z2Nat.id by (apply Z.mod_pos_bound; lia). rewrite Zplus_mod_idemp_r.
    replace (c0 + (i - 1 - c0)) with (i - 1) by lia. rewrite Z.mod_small by lia. by replace (1 + (i - 1)) with i by lia.
  - pose proof (Z.mod_pos_bound (i - 1 - c0) m). lia.
  - change (Z.of_nat 0) with 0 in Eq. rewrite Z.add_0_r, Z.mod_small in Eq by lia. change (negb (0 =? 0)%nat) with false in Eq.
    rewrite Eq. by exists j, q2.
Qed.

Lemma opened_ids m i k q s : ids_wf m s → 1 ≤ i ≤ m → bounded_seq m q → ids_wf m (opened i k q s).
Proof.
  intros [Hm Hcfg Haz Hid Hopen] Hi (? & ? & ?). split; simpl; try done; try lia.
  intros j Hj. destruct (decide (j = i)) as [->|]; [done|]. rewrite lookup_insert_ne in Hj by done. by apply Hopen.
Qed.

(** A channel can be opened exactly when fewer than [channel_max] are open.  [create]
    terminates; below the limit it opens a channel under an id between [1] and
    [channel_max] that no other channel uses, at the limit it fails with
    [ChannelsLimitReached] and opens none; the other channels are untouched, and
    the allocation stays within the bound. *)
Theorem create_free_id m s e : ids_wf m s →
  let r := create s e in
  if Z.of_nat (size (channels s)) <? m then
    ∃ c, result_of r = Some (Ok c) ∧ 1 ≤ Channel.id c ≤ m ∧ channels s !! Channel.id c = None ∧
         channels (state_of r) = <[Channel.id c := Channel.clone_internal c]> (channels s) ∧
         ids_wf m (state_of r)
  else result_of r = Some (Err (error_from ChannelsLimitReached)) ∧
       channels (state_of r) = channels s ∧ ids_wf m (state_of r).
Proof.
  intros Hwf. cbn zeta. destruct (Z.ltb_spec (Z.of_nat (size (channels s))) m) as [Hsz|Hsz].
  - destruct (create_below m s e Hwf Hsz) as (i & q & -> & Hi & Hfree & Hq). exists (new_chan i (next_ref e)).
    split_and!; try done; [simpl; lia..|]. by apply opened_ids.
  - pose proof Hwf as [Hm Hcfg Haz Hid Hopen]. unfold create. rewrite bind_modify, bind_get. cbn [conn set_channel_id channels].
    rewrite Hcfg. rewrite (proj2 (Z.leb_le _ _)) by done. split_and!; [done..|]. by split.
Qed.

(** ** Frames of one channel *)

Fixpoint handle_frames (l : list AMQPFrame) : M t (res unit) :=
  match l with
  | [] => mret (Ok tt)
  | f :: l => let! _ := handle_frame f in handle_frames l
  end.

(** A method, header or body frame of the channel [i]. *)
Definition frame_of (i : ChannelId) (f : AMQPFrame) : bool :=
  match f with Method j _ | Header j _ | Body j _ => j =? i | _ => false end.

Lemma put_get i c s : get_ i (put_ i c s) = Some c.
Proof. unfold get_, put_. destruct (i =? 0); [done|]. apply lookup_insert_eq. Qed.

Lemma put_put i c c' x s : put_ i c' (set_conn x (put_ i c s)) = put_ i c' (set_conn x s).
Proof. unfold put_. destruct (i =? 0); [done|]. unfold set_channels, set_conn. simpl. by rewrite insert_insert_eq. Qed.

(** They are handled by the channel alone. *)
Lemma handle_frames_channel i l s e c : i ≠ 0 → get_ i s = Some c → Forall (λ f, frame_of i f = true) l → l ≠ [] →
  handle_frames l s e = with_channel i (invalid_channel i) (Generated.channel_frames l) s e.
Proof.
  intros Hi Hc Hl _. revert s e c Hc. induction Hl as [|f l Hf _ IH]; intros s e c Hc.
  - unfold with_channel. rewrite Hc. simpl. unfold put_, get_ in *.
    destruct (Z.eqb_spec i 0); [done|]. destruct s; simpl in *. unfold set_channels, set_conn. simpl.
    by rewrite insert_id.
  - cbn [handle_frames Generated.channel_frames]. unfold try_bind.
    assert (E : handle_frame f s e = with_channel i (invalid_channel i) (Generated.channel_frame f) s e).
    { destruct f as [v|j m|j h|j b| |]; simpl in Hf; try done; apply Z.eqb_eq in Hf as ->; simpl; try done.
      by rewrite (proj2 (Z.eqb_neq i 0)). }
    unfold mbind at 1, M_bind at 1. rewrite E. unfold with_channel. rewrite Hc.
    unfold mbind at 1, M_bind at 1.
    destruct (Generated.channel_frame f (Channel.mk c (conn s)) e) as [[[[]|err] x] e'] eqn:Ef; [|done].
    rewrite (IH (put_ i (Channel.self x) (set_conn (Channel.conn x) s)) e' (Channel.self x)) by apply put_get.
    unfold with_channel. rewrite put_get.
    assert (Hcn : conn (put_ i (Channel.self x) (set_conn (Channel.conn x) s)) = Channel.conn x).
    { unfold put_. by destruct (i =? 0). }
    rewrite Hcn. destruct x as [self_ conn_]. cbn [Channel.self Channel.conn].
    destruct (Generated.channel_frames l (Channel.mk self_ conn_) e') as [[a y] e2]. by rewrite put_put.
Qed.

(** C1: a message reaches its consumer whole, once and in order.  When the server sends a
    [basic.deliver] for a consumer that is polled, its header and its body frames, in
    whatever pieces, every frame is accepted; the consumer's stream then holds one more
    item, after those it held: the delivery with the announced tag, exchange, routing key
    and flags, the header's properties and exactly the bytes sent, with an acker bound to
    the channel.  Nothing else of the connection changes, and the channel is ready for the
    next message. *)
Theorem message_delivered i ctag tag redeliv exch key props bodies s e ch c x :
  let m := BasicDeliver ctag tag redeliv exch key in
  i ≠ 0 → channels s !! i = Some ch →
  ChannelStatus.can_receive_messages (Channel.status ch) = true →
  ChannelStatus.receiver_state (Channel.status ch) = [] →
  Channel.consumers_ ch !! ctag = Some c → consumers e !! c = Some x → c_delegate x = false →
  Forall (λ b, b ≠ []) bodies →
  handle_frames (Method i m ::
    Header i (mkContentHeader (get_amqp_class_id m) (Z.of_nat (length (concat bodies))) props) ::
    (Body i <$> bodies)) s e =
  (Ok tt, s,
   Consumer.put_consumer c
     (Consumer.set_deliveries
        (c_deliveries x ++
         [Ok (Some (mkDelivery tag exch key redeliv props (concat bodies)
            (mkAcker (Channel.id ch) tag true (Some (c_error x)) (next_ref e)
               (ChannelStatus.killswitch (Channel.status ch)))))])
        (Consumer.set_message None x))
     (set_next_ref (S (next_ref e)) e)).
Proof.
  cbn zeta. intros Hi Hch Hst Hr Hc Hx Hd Hne.
  assert (Hget : get_ i s = Some ch) by (unfold get_; by rewrite (proj2 (Z.eqb_neq i 0))).
  rewrite (handle_frames_channel i _ s e ch); [|done|done| |done].
  2: { repeat constructor; simpl; try apply Z.eqb_refl. apply Forall_fmap, Forall_true. intros b. apply Z.eqb_refl. }
  unfold with_channel. rewrite Hget.
  assert (E := Generated.deliver_received ctag tag redeliv exch key (Channel.mk ch (conn s)) e c x Hst Hc Hx).
  rewrite (Generated.channel_frames_cons (Method i (BasicDeliver ctag tag redeliv exch key)) _ _ _ _ _ E). clear E.
  rewrite (Generated.content_received i ctag _ props bodies _ _ c x
    (Generated.announced ctag tag redeliv exch key (c_error x) (Channel.mk ch (conn s)) e));
    [|unfold Channel.receiver; simpl; by rewrite Hr|done|done|apply Consumer.put_consumer_lookup|done].
  rewrite Consumer.put_put_consumer, Channel.set_receiver_set. cbn [Channel.self Channel.conn Channel.set_receiver Channel.set_self].
  do 2 f_equal. unfold put_. rewrite (proj2 (Z.eqb_neq i 0)) by done.
  assert (Hsame : Channel.set_status_ (ChannelStatus.set_receiver [] (Channel.status ch)) ch = ch).
  { rewrite <- Hr. by destruct ch as [? []]. }
  rewrite Hsame. unfold set_channels, set_conn. simpl. rewrite insert_id by done. by destruct s.
Qed.

(** ** A connection error *)

(** What is left of a channel after the connection failed. *)
Definition failed_channel (c : Channel.Chan) : Prop :=
  ChannelStatus.state (Channel.status c) = ChError ∧ Channel.consumers_ c = ∅ ∧
  Acknowledgements.pending (Channel.acknowledgements c) = ∅.

(** Operations that neither change the state nor complete anything; they may queue commands. *)
Definition quiet {S A} (m : M S A) : Prop :=
  ∀ s e, ∃ a e', m s e = (a, s, e') ∧ promises e' = promises e ∧ rpc e `prefix_of` rpc e'.

Lemma quiet_bind {S A B} (m : M S A) (k : A → M S B) : quiet m → (∀ a, quiet (k a)) → quiet (m ≫= k).
Proof.
  intros Hm Hk s e. destruct (Hm s e) as (a & e1 & E & H1 & R1). destruct (Hk a s e1) as (b & e2 & E2 & H2 & R2).
  exists b, e2. unfold mbind, M_bind. rewrite E. rewrite E2, H2. split_and!; [done|done|by etrans].
Qed.

Lemma quiet_for_each {S A} (l : list A) (f : A → M S unit) : (∀ x, quiet (f x)) → quiet (for_each l f).
Proof. intros Hf. induction l as [|x l IH]; simpl; [by intros s e; eexists _, _|]. by apply quiet_bind. Qed.

Lemma quiet_with_consumer {S} c (k : Consumer → M S unit) : (∀ x, quiet (k x)) →
  quiet (Consumer.with_consumer c tt k).
Proof.
  intros Hk s e. unfold Consumer.with_consumer. rewrite bind_get_env.
  destruct (consumers e !! c); [apply Hk|by eexists _, _].
Qed.

Lemma quiet_dispatch {S} c d b : quiet (Consumer.dispatch c d b : M S unit).
Proof. intros s e. destruct b; eexists _, _; (split; [done|split; [done|]]); [by apply prefix_app_r|done]. Qed.

Lemma quiet_update {S} c f : quiet (Consumer.update c f : M S unit).
Proof. intros s e. by eexists _, _. Qed.

Lemma quiet_holder_set {S} h err : quiet (holder_set h err;; mret tt : M S unit).
Proof. intros s e. unfold holder_set. cbv beta delta [mbind M_bind get_env modify_env mret M_ret]. destruct (once e !! h); by eexists _, _. Qed.

Lemma quiet_send_error {S} c err : quiet (Consumer.send_error c err : M S unit).
Proof. apply quiet_with_consumer. intros x. apply quiet_dispatch. Qed.

Lemma quiet_cancel {S} c : quiet (Consumer.cancel c : M S unit).
Proof. apply quiet_with_consumer. intros x. apply quiet_bind; [apply quiet_dispatch|intros _; apply quiet_update]. Qed.

Lemma quiet_set_error {S} c err : quiet (Consumer.set_error c err : M S unit).
Proof.
  apply quiet_bind; [apply quiet_with_consumer; intros; apply quiet_holder_set|intros _].
  apply quiet_bind; [apply quiet_send_error|intros _]. apply quiet_cancel.
Qed.

Lemma consumers_error_eq err b s e : ∃ e',
  Consumers.error err b s e = (tt, ∅, e') ∧ promises e' = promises e ∧ rpc e `prefix_of` rpc e'.
Proof.
  unfold Consumers.error. rewrite bind_get. unfold put. unfold mbind at 1, M_bind at 1.
  edestruct (quiet_for_each (S := Consumers.t) (Consumers.values s)
    (λ c, if b then Consumer.send_error c err else Consumer.set_error c err)) as ([] & e' & -> & H).
  - intros c. destruct b; [apply quiet_send_error|apply quiet_set_error].
  - by exists e'.
Qed.

Lemma promise_sets_done l : ∀ e p, done p e ∨ p ∈ l.*1 → done p (promise_sets l e).
Proof.
  induction l as [|[q r] l IH]; intros e p H; simpl in *.
  - destruct H as [H|H]; [done|]. by apply not_elem_of_nil in H.
  - apply IH. destruct H as [[x Hx]|[->|H]%elem_of_cons]; [left|left|by right].
    + exists x. rewrite promise_set_lookup. case_decide; [subst; by rewrite Hx|done].
    + eexists. by rewrite promise_set_lookup, decide_True.
Qed.

(** One channel of a failed connection. *)
Lemma channel_error_eq err c cn e : ∃ c' e',
  Channel.set_connection_error err (Channel.mk c cn) e = (tt, Channel.mk c' cn, e') ∧
  failed_channel c' ∧ (∀ p, done p e → done p e') ∧
  (∀ tag p q, Acknowledgements.pending (Channel.acknowledgements c) !! tag = Some (p, q) → done p e').
Proof.
  unfold Channel.set_connection_error, Channel.set_state, Channel.error_publisher_confirms,
    Channel.error_consumers, Channel.in_status, Channel.in_acks, Channel.in_consumers.
  cbv beta delta [zoom mbind M_bind ChannelStatus.set_state modify Channel.can_recover_ get mret M_ret].
  cbn [Channel.self Channel.conn Channel.set_self Channel.acknowledgements Channel.set_status_].
  rewrite Acknowledgements.on_channel_error_eq. set (ps := promise_sets _ _).
  cbn [Channel.self Channel.conn Channel.set_self].
  edestruct consumers_error_eq as (e1 & -> & He1 & _). eexists _, _. split; [done|]. split; [done|].
  assert (Hd : ∀ p, done p ps → done p (env_of (rpc_send (S := unit) (CRemoveChannel (Channel.id c) err) tt e1))).
  { intros p [r Hr]. exists r. apply keeps_done_rpc. by rewrite He1. }
  split.
  - intros p Hp. apply Hd, promise_sets_done. by left.
  - intros tag p q Hq. apply Hd, promise_sets_done. right.
    edestruct (Acknowledgements.failures_spec err) as (H1 & _ & _).
    apply list_elem_of_fmap. eexists (_, _). split; [|by eapply H1, hash_order_elem]. done.
Qed.

(** An operation on every channel: it needs [Q] of a channel, [P] relates a channel before and after, [J] the stores, and [D] is
    what the operation achieves for a channel. *)
Section Loop.
Variables (k : M Channel.t unit) (Q : Channel.Chan → Prop) (P : Channel.Chan → Channel.Chan → Prop) (J : relation Env)
  (D : Channel.Chan → Env → Prop).
Hypotheses (HJ : PreOrder J) (HD : ∀ c e e', D c e → J e e' → D c e')
  (Hk : ∀ c cn e, Q c → ∃ c' e', k (Channel.mk c cn) e = (tt, Channel.mk c' cn, e') ∧ P c c' ∧ J e e' ∧ D c e').

Lemma channels_loop l : ∀ s e, NoDup l → 0 ∉ l →
  (∀ i, i ∈ l → ∃ c, channels s !! i = Some c ∧ Q c) → ∃ s' e',
  for_each l (λ i, with_channel i tt k) s e = (tt, s', e') ∧
  conn s' = conn s ∧ channel0 s' = channel0 s ∧ J e e' ∧
  (∀ i, i ∉ l → channels s' !! i = channels s !! i) ∧
  (∀ i c, i ∈ l → channels s !! i = Some c → ∃ c', channels s' !! i = Some c' ∧ P c c' ∧ D c e').
Proof.
  induction l as [|j l IH]; intros s e Hnd H0 Hin; cbn [for_each].
  { eexists s, e. split_and!; try done. by intros ?? ?%not_elem_of_nil. }
  apply NoDup_cons in Hnd as [Hj Hnd]. apply not_elem_of_cons in H0 as [Hj0 H0].
  destruct (Hin j) as (c & Hc & HQ); [by left|].
  destruct (Hk c (conn s) e HQ) as (c1 & e1 & E & Hf & Hd & Hp).
  set (s1 := set_channels (<[j := c1]> (channels s)) (set_conn (conn s) s)).
  assert (E1 : with_channel j tt k s e = (tt, s1, e1)).
  { unfold with_channel, get_, put_. rewrite (proj2 (Z.eqb_neq j 0)) by done. by rewrite Hc, E. }
  destruct (IH s1 e1) as (s2 & e2 & E2 & Hcn & Hc0 & Hd2 & Hother & Hall); [done..| |].
  { intros i Hi. simpl. rewrite lookup_insert_ne by congruence. apply Hin. by right. }
  exists s2, e2. unfold mbind, M_bind. rewrite E1. split; [exact E2|]. split; [exact Hcn|]. split; [exact Hc0|].
  split; [by etrans|]. split.
  - intros i [Hi1 Hi2]%not_elem_of_cons. rewrite Hother by done. simpl. by rewrite lookup_insert_ne.
  - intros i c0 Hi Hi0. destruct (decide (i = j)) as [->|Hne].
    + rewrite Hc in Hi0. injection Hi0 as <-. exists c1. rewrite Hother by done. simpl.
      rewrite lookup_insert_eq. split; [done|]. split; [done|]. by eapply HD.
    + apply Hall; [by apply elem_of_cons in Hi as [?|?]|]. simpl. by rewrite lookup_insert_ne.
Qed.

(** [for channel in channels.values()]. *)
Lemma for_channels_eq s e : channels s !! 0 = None → (∀ i c, channels s !! i = Some c → Q c) → ∃ s' e',
  for_channels k s e = (tt, s', e') ∧ conn s' = conn s ∧ channel0 s' = channel0 s ∧ J e e' ∧
  (∀ i c, channels s !! i = Some c → ∃ c', channels s' !! i = Some c' ∧ P c c' ∧ D c e') ∧
  (∀ i, channels s !! i = None → channels s' !! i = None).
Proof.
  intros H0 HQ. unfold for_channels. rewrite bind_get.
  assert (Hin : ∀ i, i ∈ (hash_order (channels s)).*1 ↔ is_Some (channels s !! i)).
  { intros i. rewrite list_elem_of_fmap. split.
    - intros ([j c] & -> & Hi). apply hash_order_elem in Hi. by exists c.
    - intros [c Hc]. exists (i, c). split; [done|]. by apply hash_order_elem. }
  destruct (channels_loop (hash_order (channels s)).*1 s e) as (s' & e' & E & H1 & H2 & H3 & H4 & H5);
    [apply hash_order_NoDup|rewrite Hin, H0; by intros []|intros i [c Hc]%Hin; exists c; eauto|].
  exists s', e'. split_and!; [done..| |].
  - intros i c Hc. apply H5; [apply Hin; by exists c|done].
  - intros i Hi. rewrite H4; [done|]. rewrite Hin, Hi. by intros [].
Qed.
End Loop.

(** What was completed stays so. *)
Definition done_kept (e e' : Env) : Prop := ∀ p, done p e → done p e'.

#[export] Instance done_kept_order : PreOrder done_kept.
Proof. split; [by intros e p|]. intros e1 e2 e3 H1 H2 p Hp. auto. Qed.

(** The pending confirms of [c] are completed. *)
Definition confirms_done (c : Channel.Chan) (e : Env) : Prop :=
  ∀ tag p q, Acknowledgements.pending (Channel.acknowledgements c) !! tag = Some (p, q) → done p e.

Lemma confirms_done_kept c e e' : confirms_done c e → done_kept e e' → confirms_done c e'.
Proof. intros Hc Hd tag p q H. by eapply Hd, Hc. Qed.

(** All the channels of a failed connection. *)
Lemma for_channels_error err s e : channels s !! 0 = None → ∃ s' e',
  for_channels (Channel.set_connection_error err) s e = (tt, s', e') ∧ conn s' = conn s ∧ done_kept e e' ∧
  (∀ i c, channels s !! i = Some c → ∃ c', channels s' !! i = Some c' ∧ failed_channel c' ∧ confirms_done c e').
Proof.
  intros H0. destruct (for_channels_eq (Channel.set_connection_error err) (λ _, True) (λ _, failed_channel) done_kept confirms_done
    done_kept_order confirms_done_kept) with (s := s) (e := e) as (s' & e' & E & H1 & _ & H2 & H3 & _); [|done|done|by exists s', e'].
  intros c cn e1 _. destruct (channel_error_eq err c cn e1) as (c' & e' & ? & ? & ? & ?). by exists c', e'.
Qed.

Lemma find_remove_first {A} (p : A → bool) l1 x l2 : Forall (λ y, p y = false) l1 → p x = true →
  Frames.find_remove p (l1 ++ x :: l2) = Some (x, l1 ++ l2).
Proof. induction 1 as [|y l1 Hy _ IH]; intros Hx; simpl; [by rewrite Hx|]. by rewrite Hy, IH. Qed.

(** The pending handshake, if any, is told; only its step is taken from the replies. *)
Lemma reject_connection_eq err s e : ∃ x e',
  reject_connection err s e =
    (tt, set_conn (Channel.set_frames_ (Frames.set_expected x (Channel.frames (conn s))) (conn s)) s, e') ∧
  (∀ ch l er, Frames.expected_replies (Channel.frames (conn s)) !! ch = Some l → er ∈ l →
     Frames.is_connection_step er = false → ∃ l', x !! ch = Some l' ∧ er ∈ l') ∧
  (∀ l1 er st l2, Frames.expected_replies (Channel.frames (conn s)) !! 0 = Some (l1 ++ er :: l2) →
     Forall (λ er, Frames.is_connection_step er = false) l1 → er_reply er = RConnectionStep st →
     done (into_connection_resolver st) e').
Proof.
  unfold reject_connection. set (f := Channel.frames (conn s)).
  assert (Hid : f = Frames.set_expected (Frames.expected_replies f) f) by (by destruct f).
  destruct (Frames.connection_resolver_cases 0 f e) as [[E Hn]|(l1 & er & st & l2 & El & Hl1 & Er & E)].
  - exists (Frames.expected_replies f), e. split; [|split; [by eauto|]].
    + unfold in_frames, zoom, mbind, M_bind. fold f. rewrite E. by rewrite Hid at 1.
    + intros l1 er st l2 Hl _ Hst. apply Hn, Forall_app in Hl as [_ Hl]. apply Forall_cons in Hl as [Hl _].
      unfold Frames.is_connection_step in Hl. by rewrite Hst in Hl.
  - eexists _, _. split; [|split].
    + unfold in_frames, zoom, mbind, M_bind. fold f. rewrite E. unfold drop_connection. rewrite drop_connection_eq. reflexivity.
    + intros ch l er' Hl Hin Hns. destruct (decide (ch = 0)) as [->|]; [|rewrite lookup_insert_ne by done; eauto].
      rewrite lookup_insert_eq. eexists. split; [done|]. simplify_eq. set_unfold.
      destruct Hin as [?|[->|?]]; [by left| |by right]. unfold Frames.is_connection_step in Hns. by rewrite Er in Hns.
    + intros k1 er' st' k2 Hk Hk1 Hst. rewrite El in Hk. injection Hk as Hk.
      assert (Hstep : Frames.is_connection_step er' = true) by (unfold Frames.is_connection_step; by rewrite Hst).
      pose proof (find_remove_first _ k1 er' k2 Hk1 Hstep) as E'. rewrite <- Hk, find_remove_first in E'; [|done|].
      * injection E' as <- _. rewrite Er in Hst. injection Hst as <-. apply (complete_done (S := t) _ _ s).
      * unfold Frames.is_connection_step. by rewrite Er.
Qed.

(** A drop does nothing where no closer is armed. *)
Lemma for_each_drop_noop cs s e :
  Forall (λ c, closer_noop c = true) cs ∨ ConnectionStatus.auto_close (connection_status s) = false →
  for_each cs drop_connection s e = (tt, s, e).
Proof.
  intros Hn. induction cs as [|c cs IH]; [done|]. cbn [for_each].
  assert (E : drop_connection c s e = (tt, s, e)).
  { apply drop_connection_noop. destruct Hn as [Hn|Hn]; [left; by apply Forall_cons in Hn as [? _]|by right]. }
  rewrite (bind_eq _ _ _ _ _ _ _ E). apply IH. destruct Hn as [Hn|Hn]; [left; by apply Forall_cons in Hn as [_ ?]|by right].
Qed.

Lemma clear_steps_noop err s e l : Frames.expected_replies (Channel.frames (conn s)) !! 0 = Some l →
  Forall (λ c, closer_noop c = true) (step_connection <$> Frames.steps l) ∨ ConnectionStatus.auto_close (connection_status s) = false →
  clear_connection_steps err s e =
  (tt, set_conn (Channel.set_frames_ (Frames.set_expected
         (<[0 := List.filter (λ er, negb (Frames.is_connection_step er)) l]> (Frames.expected_replies (Channel.frames (conn s))))
         (Channel.frames (conn s))) (conn s)) s,
   foldl (λ e p, promise_set p (Err err) e) e (Frames.step_resolvers l)).
Proof.
  intros Hl Hn. unfold clear_connection_steps, in_frames, zoom, Frames.clear_connection_steps.
  unfold mbind at 1, M_bind at 1. rewrite bind_get, lookup_total_alt, Hl. cbn [default from_option id].
  rewrite (Frames.clear_steps_loop_spec _ _ _ _ _ Hl) by (pose proof (Frames.length_steps l); simpl; lia).
  by apply for_each_drop_noop.
Qed.

(** A connection error keeps what is completed, and leaves the connection in the error state. *)
Lemma keeps_done_zoom {S T A} (g : S → T) (p : T → S → S) (m : M T A) : keeps_done m → keeps_done (zoom g p m).
Proof. intros Hm s e q r Hq. unfold zoom. specialize (Hm (g s) e q r Hq). by destruct (m (g s) e) as [[a x] e']. Qed.

Lemma reject_connection_done err : keeps_done (reject_connection err).
Proof.
  unfold reject_connection, drop_connection, in_frames, Frames.connection_resolver, Frames.find_connection_step, Frames.find_expected_reply, reject.
  apply keeps_done_bind; [apply keeps_done_zoom|intros]; keeps_done.
Qed.

Lemma connection_error_channels err s e : channels s !! 0 = None → ∃ s' e',
  set_connection_error err s e = (tt, s', e') ∧ ConnectionStatus.state (connection_status s') = CoError ∧
  (∀ p, done p e → done p e') ∧
  (ConnectionStatus.state (connection_status s) ≠ CoError →
     ∀ i c, channels s !! i = Some c → ∃ c', channels s' !! i = Some c' ∧ failed_channel c').
Proof.
  intros H0. unfold set_connection_error. rewrite bind_get. unfold update_connection_status. rewrite bind_modify.
  case_decide; [by eexists _, _|]. set (s1 := set_conn _ s).
  destruct (reject_connection_eq err s1 e) as (x & e1 & E1 & _ & _).
  assert (Hd1 : ∀ p, done p e → done p e1).
  { intros p [r Hp]. exists r. pose proof (reject_connection_done err s1 e p r Hp) as Hd. by rewrite E1 in Hd. }
  rewrite (bind_eq _ _ _ _ _ _ _ E1). set (s2 := set_conn _ s1).
  pose proof (Frames.keeps_done_drop_pending err (Channel.frames (conn s2)) e1) as Hkeep.
  destruct (Frames.drop_pending err (Channel.frames (conn s2)) e1) as [[[] f2] e2] eqn:E2.
  set (s3 := set_conn (Channel.set_frames_ f2 (conn s2)) s2).
  assert (E3 : in_frames (Frames.drop_pending err) s2 e1 = (tt, s3, e2)) by (unfold in_frames, zoom; by rewrite E2).
  rewrite (bind_eq _ _ _ _ _ _ _ E3).
  destruct (for_channels_error err s3 (env_of (send_event (S := t) (EvError err) s3 e2)) H0)
    as (s4 & e4 & E4 & Hconn & Hd & Hall).
  exists s4, e4. split; [exact E4|]. split; [unfold connection_status; by rewrite Hconn|]. split.
  - intros p [r Hp]%Hd1. apply Hd. exists r. apply Hkeep in Hp. unfold send_event. simpl in *. by case_decide.
  - intros _ i c Hc. destruct (Hall i c Hc) as (c' & H1 & H2 & _). by exists c'.
Qed.

Lemma connection_error_keeps err s e : channels s !! 0 = None → ∃ s' e',
  set_connection_error err s e = (tt, s', e') ∧ ConnectionStatus.state (connection_status s') = CoError ∧
  (∀ p, done p e → done p e').
Proof. intros H0. destruct (connection_error_channels err s e H0) as (s' & e' & E & H1 & H2 & _). by exists s', e'. Qed.

(** C18: a connection error reaches everybody who waits on the queues.  When the connection was not
    already in the error state, [set_connection_error err] puts it there, empties the send queues
    and the expected replies and poisons the queues with [err]; the caller of every
    queued frame, of every expected reply and of the first handshake step that awaits the server's
    start, secure or tune is told; and every channel is in the error state, without consumers and
    without pending confirms, each of which has been completed.  While [connection.open] is in flight, the
    promise told is that of the request, not the one the caller of connect awaits
    ([open_in_flight_untold]). *)
Theorem connection_error_fails_all err s e :
  channels s !! 0 = None → ConnectionStatus.state (connection_status s) ≠ CoError →
  let f := Channel.frames (conn s) in
  let s' := state_of (set_connection_error err s e) in
  let e' := env_of (set_connection_error err s e) in
  let f' := Channel.frames (conn s') in
  (ConnectionStatus.state (connection_status s') = CoError ∧ Frames.has_pending f' = false ∧
   Frames.expected_replies f' = ∅ ∧ Frames.poison f' = Some err) ∧
  (∀ fe p, fe ∈ Frames.retry_frames f ++ Frames.publish_frames f ++ Frames.frames f ++ Frames.low_prio_frames f →
     Frames.entry_waiter fe = Some p → done p e') ∧
  (∀ ch l er, Frames.expected_replies f !! ch = Some l → er ∈ l →
     Frames.is_connection_step er = false → done (Frames.reply_waiter er) e') ∧
  (∀ l1 er st l2, Frames.expected_replies f !! 0 = Some (l1 ++ er :: l2) →
     Forall (λ er, Frames.is_connection_step er = false) l1 → er_reply er = RConnectionStep st →
     done (into_connection_resolver st) e') ∧
  (∀ i c, channels s !! i = Some c → ∃ c', channels s' !! i = Some c' ∧ failed_channel c' ∧
     ∀ tag p q, Acknowledgements.pending (Channel.acknowledgements c) !! tag = Some (p, q) → done p e').
Proof.
  intros H0 Hne. cbv zeta.
  set (s1 := set_conn (Channel.set_connection_status
               (ConnectionStatus.set_state CoError (connection_status s)).2 (conn s)) s).
  destruct (reject_connection_eq err s1 e) as (x & e1 & E1 & Hreply & Hstep).
  set (s2 := set_conn _ s1) in E1.
  pose proof (Frames.drop_pending_all err (Channel.frames (conn s2)) e1) as Hdrop.
  pose proof (Frames.keeps_done_drop_pending err (Channel.frames (conn s2)) e1) as Hkeep.
  destruct (Frames.drop_pending err (Channel.frames (conn s2)) e1) as [[[] f2] e2] eqn:E2.
  destruct Hdrop as (Hp & Hexp & Hpoison & Hq & Hr).
  set (s3 := set_conn (Channel.set_frames_ f2 (conn s2)) s2).
  destruct (for_channels_error err s3 (env_of (send_event (S := t) (EvError err) s3 e2)) H0)
    as (s4 & e4 & E4 & Hconn & Hd & Hall).
  assert (E : set_connection_error err s e = (tt, s4, e4)).
  { unfold set_connection_error. rewrite bind_get. unfold update_connection_status. rewrite bind_modify.
    rewrite decide_False by done. fold s1. rewrite (bind_eq _ _ _ _ _ _ _ E1).
    assert (E3 : in_frames (Frames.drop_pending err) s2 e1 = (tt, s3, e2)) by (unfold in_frames, zoom; by rewrite E2).
    rewrite (bind_eq _ _ _ _ _ _ _ E3). exact E4. }
  assert (Hd' : ∀ p, done p e2 → done p e4).
  { intros p [r Hpr]. apply Hd. exists r. unfold env_of, send_event, modify_env. simpl. by case_decide. }
  rewrite E. unfold state_of, env_of in *. cbn [fst snd] in *. unfold connection_status. rewrite Hconn.
  split; [split_and!; done|]. split_and!.
  - intros fe p Hin Hw. by eapply Hd', Hq.
  - intros ch l er Hl Her Hns. destruct (Hreply ch l er Hl Her Hns) as (l' & Hl' & Her').
    by eapply Hd', (Hr ch l').
  - intros l1 er st l2 Hl Hl1 Hst. destruct (Hstep l1 er st l2 Hl Hl1 Hst) as [r Hst'].
    apply Hd'. exists r. by apply Hkeep.
  - exact Hall.
Qed.

End Channels.

Section Witnesses.
#[local] Existing Instances number_types number_protocol.
#[local] Instance z_order : HashOrder Z := canonical_order Z.

Definition demo_conn (cmax : Z) : Channel.Conn :=
  Channel.mkConn (Configuration.mk cmax 4096 0) ConnectionStatus.default Frames.default "/" false.
Definition demo_chan (i : Z) : Channel.Chan := result_of (Channel.new i tt env_empty).
(** One channel open, the sequence about to hand out [next] . *)
Definition demo (cmax next : Z) : t :=
  mk {[ 1 := demo_chan 1 ]} (IdSequence.mk false None next) (demo_chan 0) (demo_conn cmax) 0%nat.

Lemma create_free_id_witness :
  ∃ c, result_of (create (demo 2 1) env_empty) = Some (Ok c) ∧ 1 ≤ Channel.id c ≤ 2 ∧
       channels (demo 2 1) !! Channel.id c = None.
Proof.
  destruct (create_free_id 2 (demo 2 1) env_empty) as (c & H1 & H2 & H3 & _); [|by exists c].
  split; simpl; try done; intros i [c Hc]; apply lookup_singleton_Some in Hc as [<- _]. lia.
Defined.

#[local] Existing Instance number_handle.
#[local] Instance s_order : HashOrder string := canonical_order string.

(** A queued frame (promise 1), an expected reply (2), a publish that awaits its confirm (3), and a
    handshake step (4). *)
Definition demo_confirming : Channel.Chan :=
  Channel.set_acks (Acknowledgements.set_pending {[ 1 := (3%nat, 9%nat) ]} (Channel.acknowledgements (demo_chan 1))) (demo_chan 1).
Definition demo_busy (handshake : Reply) : t :=
  set_channels {[ 1 := demo_confirming ]} (set_conn (Channel.set_frames_
    (Frames.set_expected {[ 0 := [mkExpectedReply handshake 4%nat]; 1 := [mkExpectedReply (RTxCommitOk 2%nat) 2%nat] ]}
       (Frames.set_frames [Frames.mkEntry (Method 1 TxRollback) (Frames.mkSending (Some 1%nat) None)] Frames.default)) (demo_conn 2)) (demo 2 1)).

Lemma connection_error_fails_all_witness :
  let e' := env_of (set_connection_error (error_from MissingHeartbeatError)
              (demo_busy (RConnectionStep (StepStartOk 4%nat 0%nat))) env_empty) in
  done 1%nat e' ∧ done 2%nat e' ∧ done 3%nat e' ∧ done 4%nat e'.
Proof.
  destruct (connection_error_fails_all (error_from MissingHeartbeatError)
    (demo_busy (RConnectionStep (StepStartOk 4%nat 0%nat))) env_empty) as (_ & Hq & Hr & Hs & Hc); [done..|].
  cbv zeta. split_and!.
  - apply (Hq (Frames.mkEntry (Method 1 TxRollback) (Frames.mkSending (Some 1%nat) None))); [|reflexivity].
    apply list_elem_of_singleton; reflexivity.
  - apply (Hr 1 [mkExpectedReply (RTxCommitOk 2%nat) 2%nat] (mkExpectedReply (RTxCommitOk 2%nat) 2%nat)); [done| |done].
    by apply list_elem_of_singleton.
  - destruct (Hc 1 demo_confirming) as (c' & _ & _ & Hp); [done|]. by apply (Hp 1 3%nat 9%nat).
  - by apply (Hs [] (mkExpectedReply (RConnectionStep (StepStartOk 4%nat 0%nat)) 4%nat) (StepStartOk 4%nat 0%nat) []).
Defined.

(** With [connection.open] in flight, its own promise (4) is completed but not the one the caller of
    connect awaits (7): nothing is left that could complete it. *)
Lemma open_in_flight_untold :
  let x := set_connection_error (error_from MissingHeartbeatError) (demo_busy (RConnectionOpenOk 4%nat 0%nat 7%nat)) env_empty in
  done 4%nat (env_of x) ∧ promises (env_of x) !! 7%nat = None ∧
  Frames.expected_replies (Channel.frames (conn (state_of x))) = ∅ ∧ ConnectionStatus.state (connection_status (state_of x)) = CoError.
Proof. vm_compute. split_and!; try done. by eexists. Qed.

Definition demo_consumer : Consumer :=
  mkConsumer "ct" None [] Active false "q" (mkBasicConsumeOptions false false false false) [] 6%nat.
Definition demo_store : Env := Consumer.put_consumer 5 demo_consumer (set_next_ref 7 env_empty).
Definition demo_consuming : Channel.Chan :=
  Channel.set_status_ (ChannelStatus.set_state_ ChConnected (Channel.status (demo_chan 1)))
    (Channel.set_consumers_ {[ "ct" := 5%nat ]} (demo_chan 1)).
Definition demo_receiving : t := set_channels {[ 1 := demo_consuming ]} (demo 2 1).

Lemma message_delivered_witness :
  (handle_frames
    [Method 1 (BasicDeliver "ct" 9 false "e" "k"); Header 1 (mkContentHeader 60 3 4%nat);
     Body 1 [Byte.x01; Byte.x02]; Body 1 [Byte.x03]] demo_receiving demo_store).1.1 = Ok tt ∧
  handle_frames
    [Method 1 (BasicDeliver "ct" 9 false "e" "k"); Header 1 (mkContentHeader 60 3 4%nat);
     Body 1 [Byte.x01; Byte.x02]; Body 1 [Byte.x03]] demo_receiving demo_store =
  (Ok tt, demo_receiving,
   Consumer.put_consumer 5
     (Consumer.set_deliveries
        [Ok (Some (mkDelivery 9 "e" "k" false (4%nat : BasicProperties) [Byte.x01; Byte.x02; Byte.x03]
           (mkAcker 1 9 true (Some 6%nat) 7%nat 0%nat)))]
        (Consumer.set_message None demo_consumer))
     (set_next_ref 8 demo_store)).
Proof.
  split; [by vm_compute|].
  apply (message_delivered (AT := number_types) (AP := number_protocol) (CH := number_handle) 1 "ct" 9 false "e" "k" 4%nat [[Byte.x01; Byte.x02]; [Byte.x03]]
    demo_receiving demo_store demo_consuming 5%nat demo_consumer); try done. repeat constructor; done.
Defined.

(** A sequence that already passed a lowered limit hands out ids above it. *)
Lemma create_above_lowered_limit :
  Channel.id <$> (match result_of (create (demo 3 5) env_empty) with Some (Ok c) => Some c | _ => None end) = Some 5.
Proof. by vm_compute. Qed.

End Witnesses.
End Channels.
