(* ===== verification/Heartbeat.v ===== *)
(** The heartbeat (src/heartbeat.rs) and the periodic secret update
    (src/secret_update.rs).  Times and durations are nanoseconds; [now] is the reading of
    the clock an operation starts with. *)
From S2P Require Import Prelude.
From S2P Require Import Buffer.
From S2P Require Import Types.
From S2P Require Import Env.
Open Scope Z_scope.

Definition duration_max : Z := 2 ^ 64 * 10 ^ 9 - 1.
Definition from_millis (ms : Z) : Z := ms * 10 ^ 6.
(** [Instant::duration_since] and [elapsed] saturate at zero. *)
Definition duration_since (later earlier : Z) : Z := Z.max 0 (later - earlier).
Definition saturating_mul (d n : Z) : Z := Z.min (d * n) duration_max.
Definition duration_checked_sub (a b : Z) : option Z := if b <=? a then Some (a - b) else None.

Module Heartbeat.
Section Heartbeat.
Context `{AT : AmqpTypes}.

(** [Heartbeat] with its [Inner]; the connection status is an argument. *)
Record t := mk {
  killswitch : KillSwitch;
  last_read : Z;
  last_write : Z;
  timeout : option Z;
  poison : KillSwitch;
}.

Definition set_last_read x s := mk (killswitch s) x (last_write s) (timeout s) (poison s).
Definition set_last_write x s := mk (killswitch s) (last_read s) x (timeout s) (poison s).
Definition set_timeout_ x s := mk (killswitch s) (last_read s) (last_write s) x (poison s).
Definition set_poison x s := mk (killswitch s) (last_read s) (last_write s) (timeout s) x.

Definition new {S} (now : Z) : M S t :=
  k ← killswitch_new; p ← killswitch_new; mret (mk k now now None p).

Definition set_timeout (d : Z) : M t unit := modify (set_timeout_ (Some d)).
Definition update_last_write (now : Z) : M t unit := modify (set_last_write now).
Definition update_last_read (now : Z) : M t unit := modify (set_last_read now).

Definition cancel : M t unit :=
  modify (set_timeout_ None);; s ← get; kill (poison s);; mret tt.

Definition reset (now : Z) : M t unit :=
  s ← get;
  killswitch_reset (killswitch s);;
  cancel;;
  update_last_read now;;
  update_last_write now;;
  p ← killswitch_new;
  modify (set_poison p).

(** [Inner::poll_timeout]. *)
Definition inner_poll_timeout (now : Z) : M t (option Z) :=
  s ← get;
  match timeout s with
  | None => mret None
  | Some d =>
    if saturating_mul d 4 <? duration_since now (last_read s) then
      modify (set_timeout_ None);;
      kill (killswitch s);;
      rpc_set_connection_error (error_from MissingHeartbeatError);;
      mret None
    else
      match duration_checked_sub d (duration_since now (last_write s)) with
      | Some rest => mret (Some (Z.max rest (from_millis 1)))
      | None => update_last_write now;; rpc_send_heartbeat;; mret (Some d)
      end
  end.

(** [Heartbeat::poll_timeout]: [p] is the poison the task was started with. *)
Definition poll_timeout (now : Z) (connected : bool) (p : KillSwitch) : M t (option Z) :=
  e ← get_env;
  if killed p e then mret None else
  if negb connected then cancel;; mret None else
  inner_poll_timeout now.

(** ** The task of [start]

    What happened on a connection, each with its time: bytes were written, bytes were read, or the
    task queued an internal command. *)
Inductive Activity := Wrote | Heard | Queued (c : InternalCommand).

(** The commands queued between two stores. *)
Definition queued (now : Z) (e e' : Env) : list (Z * Activity) :=
  (λ c, (now, Queued c)) <$> drop (length (rpc e)) (rpc e').

(** [run log s e now next]: the connection is connected, the task sleeps until [next] (it is
    gone when [next] is [None]), the clock reads [now] and [log] is what happened, from the last
    write and the last read before the task on.  In between, the io loop notes
    reads and writes, and the other components use the store, as long as they do not cancel the task.
    The executor wakes the task at most [delta] late. *)
Inductive run (delta d : Z) : list (Z * Activity) → t → Env → Z → option Z → Prop :=
| run_start s e now next s' e' :
    timeout s = Some d → killed (poison s) e = false →
    last_write s ≤ now → last_read s ≤ now →
    poll_timeout now true (poison s) s e = (next, s', e') →
    run delta d ((last_write s, Wrote) :: (last_read s, Heard) :: queued now e e') s' e' now ((λ x, now + x) <$> next)
| run_write log s e now next now' :
    run delta d log s e now (Some next) → now ≤ now' ≤ next + delta →
    run delta d (log ++ [(now', Wrote)]) (set_last_write now' s) e now' (Some next)
| run_read log s e now next now' :
    run delta d log s e now (Some next) → now ≤ now' ≤ next + delta →
    run delta d (log ++ [(now', Heard)]) (set_last_read now' s) e now' (Some next)
| run_others log s e now next e' :
    run delta d log s e now (Some next) → killed (poison s) e' = false →
    run delta d log s e' now (Some next)
| run_poll log s e now next now' next' s' e' :
    run delta d log s e now (Some next) → next ≤ now' ≤ next + delta → now ≤ now' →
    poll_timeout now' true (poison s) s e = (next', s', e') →
    run delta d (log ++ queued now' e e') s' e' now' ((λ x, now' + x) <$> next').

Lemma poll_live now s e d : timeout s = Some d → killed (poison s) e = false →
  poll_timeout now true (poison s) s e =
  if saturating_mul d 4 <? duration_since now (last_read s) then
    (None, set_timeout_ None s,
     set_wakes (S (wakes e)) (set_rpc (rpc e ++ [CSetConnectionError (error_from MissingHeartbeatError)])
       (set_killed ({[killswitch s]} ∪ killed_set e) e)))
  else if duration_since now (last_write s) <=? d then
    (Some (Z.max (d - duration_since now (last_write s)) (from_millis 1)), s, e)
  else (Some d, set_last_write now s, set_wakes (S (wakes e)) (set_rpc (rpc e ++ [CSendHeartbeat]) e)).
Proof.
  intros Ht Hk. unfold poll_timeout. rewrite bind_get_env, Hk. simpl. unfold inner_poll_timeout.
  rewrite bind_get, Ht. unfold duration_checked_sub.
  destruct (saturating_mul d 4 <? duration_since now (last_read s)); [done|].
  by destruct (duration_since now (last_write s) <=? d).
Qed.

(** What keeps the connection from being silent. *)
Definition sent (a : Activity) : Prop := a = Wrote ∨ a = Queued CSendHeartbeat.

(** The log accounts for the times kept: the last thing sent, the last thing heard; and a heartbeat was only
    queued when nothing had been sent for longer than [d]. *)
Record logged (d : Z) (log : list (Z * Activity)) (s : t) : Prop := {
  lg_sent : ∃ a, (last_write s, a) ∈ log ∧ sent a;
  lg_heard : (last_read s, Heard) ∈ log;
  lg_last_sent x a : (x, a) ∈ log → sent a → x ≤ last_write s;
  lg_last_heard x : (x, Heard) ∈ log → x ≤ last_read s;
  lg_paced l1 x l2 : log = l1 ++ (x, Queued CSendHeartbeat) :: l2 → ∀ y a, (y, a) ∈ l1 → sent a → d < x - y;
}.

(** What holds while the task is alive. *)
Record alive (delta d : Z) (s : t) (e : Env) (now next : Z) : Prop := {
  al_timeout : timeout s = Some d;
  al_poison : killed (poison s) e = false;
  al_now : now ≤ next + delta;
  al_write : next ≤ last_write s + d + from_millis 1;
  al_read : next ≤ last_read s + 5 * d + from_millis 1;
  al_past : last_write s ≤ now ∧ last_read s ≤ now;
}.

(** What a poll leaves: a task that sleeps, or one that is gone since the server was silent. *)
Definition polled (delta d : Z) (log : list (Z * Activity)) (s : t) (e : Env) (now : Z) (next : option Z) : Prop :=
  match next with
  | Some n => logged d log s ∧ alive delta d s e now n
  | None => (now, Queued (CSetConnectionError (error_from MissingHeartbeatError))) ∈ log ∧
            ∀ x, (x, Heard) ∈ log → 4 * d < now - x
  end.

Lemma queued_app now e e' l : rpc e' = rpc e ++ l → queued now e e' = (λ c, (now, Queued c)) <$> l.
Proof. intros Hr. unfold queued. by rewrite Hr, drop_app_length. Qed.

(** One more event that is not a heartbeat. *)
Lemma paced_snoc d log z b : (∀ l1 x l2, log = l1 ++ (x, Queued CSendHeartbeat) :: l2 → ∀ y a, (y, a) ∈ l1 → sent a → d < x - y) →
  (b = Queued CSendHeartbeat → ∀ y a, (y, a) ∈ log → sent a → d < z - y) →
  ∀ l1 x l2, log ++ [(z, b)] = l1 ++ (x, Queued CSendHeartbeat) :: l2 → ∀ y a, (y, a) ∈ l1 → sent a → d < x - y.
Proof.
  intros Hlog Hz l1 x l2 E. destruct l2 as [|w l2 _] using rev_ind.
  - apply app_inj_tail in E as [-> [= -> ->]]. by apply Hz.
  - rewrite app_comm_cons, app_assoc in E. apply app_inj_tail in E as [-> _]. by eapply Hlog.
Qed.

Lemma logged_write d log s now : logged d log s → last_write s ≤ now → logged d (log ++ [(now, Wrote)]) (set_last_write now s).
Proof.
  intros [_ H2 H3 H4 H5] Hn. split; simpl.
  - exists Wrote. split; [set_solver|by left].
  - set_solver.
  - intros x a [Hin|[= -> ->]%list_elem_of_singleton]%elem_of_app Ha; [specialize (H3 x a Hin Ha); lia|lia].
  - intros x [Hin|[=]%list_elem_of_singleton]%elem_of_app. by apply H4.
  - by apply paced_snoc.
Qed.

Lemma logged_read d log s now : logged d log s → last_read s ≤ now → logged d (log ++ [(now, Heard)]) (set_last_read now s).
Proof.
  intros [[a0 [H1 H1']] _ H3 H4 H5] Hn. split; simpl.
  - exists a0. split; [set_solver|done].
  - set_solver.
  - intros x a [Hin|[= -> ->]%list_elem_of_singleton]%elem_of_app Ha; [by eapply H3|by destruct Ha].
  - intros x [Hin|[= ->]%list_elem_of_singleton]%elem_of_app; [specialize (H4 x Hin); lia|lia].
  - by apply paced_snoc.
Qed.

(** A poll that queues a heartbeat. *)
Lemma logged_beat d log s now : logged d log s → d < now - last_write s → 0 ≤ d →
  logged d (log ++ [(now, Queued CSendHeartbeat)]) (set_last_write now s).
Proof.
  intros [_ H2 H3 H4 H5] Hn Hd. split; simpl.
  - exists (Queued CSendHeartbeat). split; [set_solver|by right].
  - set_solver.
  - intros x a [Hin|[= -> ->]%list_elem_of_singleton]%elem_of_app Ha; [specialize (H3 x a Hin Ha); lia|lia].
  - intros x [Hin|[=]%list_elem_of_singleton]%elem_of_app. by apply H4.
  - apply paced_snoc; [done|]. intros _ y a Hin Ha. specialize (H3 y a Hin Ha). lia.
Qed.

Lemma poll_polled delta d log s e now next s' e' :
  0 ≤ delta → from_millis 1 ≤ d → 4 * d ≤ duration_max → logged d log s →
  timeout s = Some d → killed (poison s) e = false → last_write s ≤ now → last_read s ≤ now →
  poll_timeout now true (poison s) s e = (next, s', e') →
  polled delta d (log ++ queued now e e') s' e' now ((λ x, now + x) <$> next).
Proof.
  intros Hdelta Hd Hmax Hlog Ht Hk Hw Hr. rewrite (poll_live now s e d) by done.
  unfold saturating_mul, duration_since. rewrite (Z.min_l (d * 4)) by lia.
  destruct (Z.ltb_spec (d * 4) (Z.max 0 (now - last_read s))) as [H1|H1].
  - intros [= <- <- <-]. rewrite (queued_app now e _ [CSetConnectionError (error_from MissingHeartbeatError)]) by done. split; [set_solver|].
    intros x [Hin|[=]%list_elem_of_singleton]%elem_of_app. pose proof (lg_last_heard _ _ _ Hlog x Hin). lia.
  - destruct (Z.leb_spec (Z.max 0 (now - last_write s)) d) as [H2|H2]; intros [= <- <- <-].
    + rewrite (queued_app now e e []) by (by rewrite app_nil_r). rewrite app_nil_r. split; [done|].
      split; simpl; try done; unfold from_millis in *; try lia.
    + rewrite (queued_app now e _ [CSendHeartbeat]) by done. split; [apply logged_beat; [done|lia|unfold from_millis in *; lia]|].
      split; simpl; try done; unfold from_millis in *; try lia.
Qed.

Lemma run_polled delta d log s e now next : 0 ≤ delta → from_millis 1 ≤ d → 4 * d ≤ duration_max →
  run delta d log s e now next → polled delta d log s e now next.
Proof.
  intros Hdelta Hd Hmax. induction 1 as [s e now next s' e' Ht Hk Hw Hr Hp|log s e now next now' _ [Hlog IH] Hn
    |log s e now next now' _ [Hlog IH] Hn|log s e now next e' _ [Hlog IH] Hk|log s e now next now' next' s' e' _ [Hlog IH] Hn Hn' Hp].
  - apply (poll_polled delta d [(last_write s, Wrote); (last_read s, Heard)] s e); try done. split.
    + exists Wrote. split; [set_solver|by left].
    + set_solver.
    + intros x a [[= -> ->]|[[= -> ->]|[]%not_elem_of_nil]%elem_of_cons]%elem_of_cons Ha; [lia|by destruct Ha].
    + intros x [[=]|[[= ->]|[]%not_elem_of_nil]%elem_of_cons]%elem_of_cons. lia.
    + intros [|? [|? [|? l1]]] x l2 E; simplify_eq.
  - destruct IH as [Ht Hk Hnow Hwr Hrd Hpast]. split; [apply logged_write; [done|lia]|]. split; simpl; try done; try lia.
  - destruct IH as [Ht Hk Hnow Hwr Hrd Hpast]. split; [apply logged_read; [done|lia]|]. split; simpl; try done; try lia.
  - split; [done|]. by destruct IH.
  - destruct IH as [Ht Hk Hnow Hwr Hrd Hpast]. eapply poll_polled; try done; lia.
Qed.

(** C33: the connection is never silent for long, nor flooded, and a silent server is noticed.  While the heartbeat
    task of a connected client runs with timeout [d] (half the negotiated heartbeat), and the executor wakes it at
    most [delta] late, whatever the reads and writes in between: something was written or the sending of a
    heartbeat queued during the last [d] plus one millisecond plus [delta]; a heartbeat was only ever queued when
    nothing had been written or queued for longer than [d]; and something was read from the server during
    the last [5 * d] plus one millisecond plus [delta].  When the task ends, nothing was read for more than [4 * d] and
    [MissingHeartbeatError] was just reported. *)
Theorem heartbeat_pace delta d log s e now next :
  0 ≤ delta → from_millis 1 ≤ d → 4 * d ≤ duration_max → run delta d log s e now next →
  match next with
  | Some _ =>
    (∃ x a, (x, a) ∈ log ∧ (a = Wrote ∨ a = Queued CSendHeartbeat) ∧ now - x ≤ d + from_millis 1 + delta) ∧
    (∀ l1 x l2, log = l1 ++ (x, Queued CSendHeartbeat) :: l2 →
       ∀ y a, (y, a) ∈ l1 → a = Wrote ∨ a = Queued CSendHeartbeat → d < x - y) ∧
    (∃ x, (x, Heard) ∈ log ∧ now - x ≤ 5 * d + from_millis 1 + delta)
  | None =>
    (now, Queued (CSetConnectionError (error_from MissingHeartbeatError))) ∈ log ∧
    ∀ x, (x, Heard) ∈ log → 4 * d < now - x
  end.
Proof.
  intros H1 H2 H3 H%run_polled; try done. destruct next as [n|]; [|done]. destruct H as [Hlog [_ _ Hn Hw Hr _]].
  destruct (lg_sent _ _ _ Hlog) as (a & Ha & Hs). split_and!.
  - exists (last_write s), a. split_and!; [done..|lia].
  - apply Hlog.
  - exists (last_read s). split; [apply Hlog|lia].
Qed.

(** The connection is given up exactly when the server was silent for too long.  A poll of a
    live task ends it exactly when nothing was read for more than four times the timeout
    (twice the negotiated heartbeat); it then sets the kill switch, reports
    [MissingHeartbeatError] once and disarms the timer; otherwise the task sleeps for a
    positive time, and at most one heartbeat is queued, exactly when the last write
    is older than the timeout. *)
Theorem missing_heartbeat s e now d :
  timeout s = Some d → killed (poison s) e = false → 0 < d → 4 * d ≤ duration_max →
  last_write s ≤ now → last_read s ≤ now →
  let r := poll_timeout now true (poison s) s e in
  if 4 * d <? now - last_read s then
    result_of r = None ∧ timeout (state_of r) = None ∧ killed (killswitch s) (env_of r) = true ∧
    rpc (env_of r) = rpc e ++ [CSetConnectionError (error_from MissingHeartbeatError)]
  else
    (∃ x, result_of r = Some x ∧ 0 < x ∧ x ≤ Z.max d (from_millis 1)) ∧ timeout (state_of r) = Some d ∧
    rpc (env_of r) = rpc e ++ (if d <? now - last_write s then [CSendHeartbeat] else []).
Proof.
  intros Ht Hk Hd Hmax Hw Hr. cbn zeta. rewrite (poll_live now s e d) by done.
  unfold saturating_mul, duration_since. rewrite (Z.min_l (d * 4)), !Z.max_r by lia.
  replace (d * 4) with (4 * d) by lia. destruct (Z.ltb_spec (4 * d) (now - last_read s)).
  - split_and!; try done. apply bool_decide_eq_true. set_solver.
  - destruct (Z.leb_spec (now - last_write s) d) as [H2|H2].
    + rewrite (proj2 (Z.ltb_ge _ _)) by lia. split_and!; try done.
      * eexists. split; [done|]. unfold from_millis. lia.
      * unfold env_of. simpl. by rewrite app_nil_r.
    + rewrite (proj2 (Z.ltb_lt _ _)) by lia. split_and!; try done.
      eexists. split; [done|]. lia.
Qed.

(** A cancelled heartbeat stays quiet.  After [cancel] or [reset] a task started before
    ends at its next poll, whatever the time and the status of the connection, and
    touches nothing: neither the timers of a task started since, nor the
    connection.  After a [reset] a new task can run: its poison is not killed, nor is the kill switch. *)
Theorem cancelled_stays_quiet s e now now' connected :
  env_wf e → killswitch s ≠ poison s → (poison s < next_ref e)%nat →
  let c := cancel s e in let r := reset now s e in
  poll_timeout now' connected (poison s) (state_of c) (env_of c) = (None, state_of c, env_of c) ∧
  (∀ s', poll_timeout now' connected (poison s) s' (env_of r) = (None, s', env_of r)) ∧
  killed (poison (state_of r)) (env_of r) = false ∧ killed (killswitch s) (env_of r) = false.
Proof.
  intros Hwf Hne Hlt. cbn zeta.
  assert (Hk : ∀ s' e', poison s ∈ killed_set e' → poll_timeout now' connected (poison s) s' e' = (None, s', e')).
  { intros s' e' Hin. unfold poll_timeout. rewrite bind_get_env. unfold killed. by rewrite bool_decide_eq_true_2. }
  split_and!.
  - apply Hk. simpl. set_solver.
  - intros s'. apply Hk. simpl. set_solver.
  - apply bool_decide_eq_false. simpl. intros [Hin%elem_of_singleton|Hin]%elem_of_union; [lia|].
    apply elem_of_difference in Hin as [Hin _]. apply (wf_killed e Hwf) in Hin. lia.
  - apply bool_decide_eq_false. simpl. set_solver.
Qed.

End Heartbeat.

Section Witnesses.
#[local] Existing Instance number_types.

(** A heartbeat of 10 seconds negotiated: a timeout of 5 seconds. *)
Definition demo_timeout : Z := from_millis 5000.
Definition demo (r w : Z) : t := mk 0%nat r w (Some demo_timeout) 1%nat.
Definition demo_env : Env := set_next_ref 2 env_empty.

(** Nothing is written for more than the timeout: the task queues a heartbeat. *)
Lemma heartbeat_pace_witness : ∃ log,
  run (from_millis 3) demo_timeout log (demo 0 (from_millis 5002)) (set_wakes 1 (set_rpc [CSendHeartbeat] demo_env))
    (from_millis 5002) (Some (from_millis 10002)) ∧
  ∃ x a, (x, a) ∈ log ∧ (a = Wrote ∨ a = Queued CSendHeartbeat) ∧ from_millis 5002 - x ≤ demo_timeout + from_millis 1 + from_millis 3.
Proof.
  exists [(0, Wrote); (0, Heard); (from_millis 5002, Queued CSendHeartbeat)].
  assert (H : run (from_millis 3) demo_timeout [(0, Wrote); (0, Heard); (from_millis 5002, Queued CSendHeartbeat)] (demo 0 (from_millis 5002)) (set_wakes 1 (set_rpc [CSendHeartbeat] demo_env))
    (from_millis 5002) (Some (from_millis 10002))).
  { apply (run_poll _ _ [(0, Wrote); (0, Heard)] (demo 0 0) demo_env 0 (from_millis 5000) (from_millis 5002) (Some demo_timeout)
      (demo 0 (from_millis 5002)) (set_wakes 1 (set_rpc [CSendHeartbeat] demo_env))); [|by vm_compute..].
    by apply (run_start _ _ (demo 0 0) demo_env 0 (Some (from_millis 5000)) (demo 0 0) demo_env). }
  split; [exact H|]. eapply heartbeat_pace in H as [H _]; [exact H|by vm_compute..].
Defined.

Lemma missing_heartbeat_witness :
  rpc (env_of (poll_timeout (from_millis 20001) true 1%nat (demo 0 0) demo_env)) =
  [CSetConnectionError (error_from MissingHeartbeatError)].
Proof.
  assert (H := missing_heartbeat (demo 0 0) demo_env (from_millis 20001) demo_timeout eq_refl eq_refl eq_refl).
  destruct H as (_ & _ & _ & H); [by vm_compute..|exact H].
Defined.

Lemma cancelled_stays_quiet_witness :
  killed 2%nat (env_of (reset 7 (demo 0 0) demo_env)) = false ∧
  poll_timeout 9 true 1%nat (demo 9 9) (env_of (reset 7 (demo 0 0) demo_env)) =
    (None, demo 9 9, env_of (reset 7 (demo 0 0) demo_env)).
Proof.
  destruct (cancelled_stays_quiet (demo 0 0) demo_env 7 9 true) as (_ & H1 & H2 & _);
    [split; simpl; set_solver|done|simpl; lia|].
  split; [exact H2|apply H1].
Defined.

End Witnesses.
End Heartbeat.

(** The periodic refresh of the secret; the provider's [valid_for] is an argument. *)
Module SecretUpdate.
Section SecretUpdate.
Context `{AT : AmqpTypes}.

Record t := mk { killswitch : KillSwitch }.

Definition new {S} : M S t := k ← killswitch_new; mret (mk k).
Definition cancel : M t unit := s ← get; kill (killswitch s);; mret tt.
Definition reset : M t unit := cancel;; k ← killswitch_new; put (mk k).

(** [k] is the kill switch the task was started with. *)
Definition poll_timeout (connected : bool) (valid_for : option Z) (k : KillSwitch) : M t (option Z) :=
  e ← get_env;
  mret (if killed k e || negb connected then None else valid_for).

(** One turn of the loop of [start] after the sleep: the refreshed token is sent as a command
    and awaited; a failed refresh is only logged. *)
Definition refresh (token : option LongString) : M t (option Resolver) :=
  match token with
  | Some token =>
    p ← rpc_update_secret token "Automatic periodical refresh";
    mret (Some p)
  | None => mret None
  end.

End SecretUpdate.
End SecretUpdate.
