(* ===== verification/SocketState.v ===== *)
(** The readiness of the socket (src/socket_state.rs).  The channel of socket events
    is the queue [events] together with the counter [wakes] of the store: a [Wake] event
    carries no information, so only the number of those waiting is kept. *)
From S2P Require Import Prelude.
From S2P Require Import Buffer.
From S2P Require Import Types.
From S2P Require Import Env.
Open Scope Z_scope.

(** [std::task::Poll]. *)
Inductive Poll (A : Type) := Ready (a : A) | Pending.
Arguments Ready {A} a.
Arguments Pending {A}.

Module SocketState.
Section SocketState.
Context `{AT : AmqpTypes}.

Inductive SocketEvent := Readable | Writable | Wake.

Record t := mk { readable : bool; writable : bool; events : list SocketEvent }.

Definition default : t := mk true true [].

Definition set_readable x s := mk x (writable s) (events s).
Definition set_writable x s := mk (readable s) x (events s).
Definition set_events x s := mk (readable s) (writable s) x.

Definition handle_event (ev : SocketEvent) (s : t) : t :=
  match ev with
  | Readable => set_readable true s
  | Writable => set_writable true s
  | Wake => s
  end.

(** [recv]: the oldest event waiting, or else the next one to arrive. *)
Definition wait (arrives : SocketEvent) : M t unit :=
  s ← get; e ← get_env;
  match events s, wakes e with
  | ev :: l, _ => put (handle_event ev (set_events l s))
  | [], S n => modify_env (set_wakes n)
  | [], O => put (handle_event arrives s)
  end.

Definition reset : M t unit := modify (λ s, mk true true (events s)).

Definition handle_read_poll {A} (p : Poll A) : M t (option A) :=
  match p with
  | Ready x => mret (Some x)
  | Pending => modify (set_readable false);; mret None
  end.

Definition handle_write_poll {A} (p : Poll A) : M t (option A) :=
  match p with
  | Ready x => mret (Some x)
  | Pending => modify (set_writable false);; mret None
  end.

Definition handle_io_result (r : res unit) : M t (res unit) :=
  match r with
  | Err err =>
    if interrupted err then wake;; mret (Ok tt)
    else if wouldblock err then mret (Ok tt)
    else (if is_io_error err then modify (λ s, mk false false (events s)) else mret tt);; mret (Err err)
  | Ok _ => mret (Ok tt)
  end.

(** [while let Ok(event) = try_recv()]. *)
Definition poll_events : M t unit :=
  s ← get;
  put (foldl (λ s ev, handle_event ev s) (set_events [] s) (events s));;
  modify_env (set_wakes 0).

(** [SocketStateHandle::send] and the wakers. *)
Definition send (ev : SocketEvent) : M t unit :=
  match ev with Wake => wake | _ => modify (λ s, set_events (events s ++ [ev]) s) end.

End SocketState.
End SocketState.
