(* ===== verification/IoLoop.v ===== *)
(** The io loop (src/io_loop.rs): the frames queued are serialized into the send buffer and
    written to the socket, what the socket delivers is parsed into frames and
    dispatched, and errors stop the loop or start a recovery.

    The socket and the frame codec belong to other crates: they are the classes
    [Transport] and [FrameCodec].  [now] is the reading of the clock and [arrives] the event
    a blocking wait receives. *)
From S2P Require Import Prelude.
From S2P Require Import Buffer.
From S2P Require Import Types.
From S2P Require Import Env.
From S2P Require Import Frames.
From S2P Require Import Connection.
From S2P Require Import Channel.
From S2P Require Import Generated.
From S2P Require Import Channels.
From S2P Require Import Heartbeat.
From S2P Require Import SocketState.
Open Scope Z_scope.

(** A socket: [AsyncRead] and [AsyncWrite].  A read is offered [space] bytes of room and
    delivers the bytes it stored. *)
Class Transport : Type := {
  Stream : Type;
  poll_flush : Stream → result IoErrorKind (Poll unit) * Stream;
  poll_write : Stream → list (list byte) → result IoErrorKind (Poll nat) * Stream;
  poll_read : Stream → nat → result IoErrorKind (Poll (list byte)) * Stream;
  is_shutdown : IoErrorKind → bool;
}.

(** The codec of the amq-protocol crate.  It works on the buffers of the client, whose
    operations may panic ([None]); generating reports the bytes written and leaves what
    it wrote in the buffer when it fails. *)
Inductive ParseError := Incomplete | Malformed.

Class FrameCodec `{AT : AmqpTypes} : Type := {
  gen_frame : AMQPFrame → Buffer.t → option (result Buffer.GenError nat * Buffer.t);
  parse_frame : Parsing.Ctx → option (result ParseError (Parsing.Ctx * AMQPFrame));
}.

Module IoLoop.
Section IoLoop.
Context `{AT : AmqpTypes} `{AP : !AmqpProtocol} `{CH : !ConnectionHandle}
  `{HZ : !HashOrder Z} `{HS : !HashOrder string} `{TR : !Transport} `{FC : !FrameCodec}.

Definition FRAMES_STORAGE : Z := 32.

Inductive Status := Initial | Connected | Stop.
#[local] Instance Status_eq : EqDecision Status.
Proof. solve_decision. Defined.

(** The status and the configuration of the connection and its frames are in [channels].
    [backoff] is the delays a fresh [backoff.build()] hands out, [global_backoff] those left
    of the current one. *)
Record t := mk {
  channels : Channels.t;
  socket_state : SocketState.t;
  heartbeat : Heartbeat.t;
  status : Status;
  frame_size : FrameSize;
  receive_buffer : Buffer.t;
  send_buffer : Buffer.t;
  serialized_frames : list (FrameSize * Frames.FrameSending);
  half_closed : bool;
  first_connection : bool;
  backoff : list Z;
  global_backoff : list Z;
  stream : Stream;
}.

Definition set_channels x s := mk x (socket_state s) (heartbeat s) (status s) (frame_size s) (receive_buffer s) (send_buffer s) (serialized_frames s) (half_closed s) (first_connection s) (backoff s) (global_backoff s) (stream s).
Definition set_socket_state x s := mk (channels s) x (heartbeat s) (status s) (frame_size s) (receive_buffer s) (send_buffer s) (serialized_frames s) (half_closed s) (first_connection s) (backoff s) (global_backoff s) (stream s).
Definition set_heartbeat x s := mk (channels s) (socket_state s) x (status s) (frame_size s) (receive_buffer s) (send_buffer s) (serialized_frames s) (half_closed s) (first_connection s) (backoff s) (global_backoff s) (stream s).
Definition set_status x s := mk (channels s) (socket_state s) (heartbeat s) x (frame_size s) (receive_buffer s) (send_buffer s) (serialized_frames s) (half_closed s) (first_connection s) (backoff s) (global_backoff s) (stream s).
Definition set_frame_size x s := mk (channels s) (socket_state s) (heartbeat s) (status s) x (receive_buffer s) (send_buffer s) (serialized_frames s) (half_closed s) (first_connection s) (backoff s) (global_backoff s) (stream s).
Definition set_receive_buffer x s := mk (channels s) (socket_state s) (heartbeat s) (status s) (frame_size s) x (send_buffer s) (serialized_frames s) (half_closed s) (first_connection s) (backoff s) (global_backoff s) (stream s).
Definition set_send_buffer x s := mk (channels s) (socket_state s) (heartbeat s) (status s) (frame_size s) (receive_buffer s) x (serialized_frames s) (half_closed s) (first_connection s) (backoff s) (global_backoff s) (stream s).
Definition set_serialized x s := mk (channels s) (socket_state s) (heartbeat s) (status s) (frame_size s) (receive_buffer s) (send_buffer s) x (half_closed s) (first_connection s) (backoff s) (global_backoff s) (stream s).
Definition set_half_closed x s := mk (channels s) (socket_state s) (heartbeat s) (status s) (frame_size s) (receive_buffer s) (send_buffer s) (serialized_frames s) x (first_connection s) (backoff s) (global_backoff s) (stream s).
Definition set_first_connection x s := mk (channels s) (socket_state s) (heartbeat s) (status s) (frame_size s) (receive_buffer s) (send_buffer s) (serialized_frames s) (half_closed s) x (backoff s) (global_backoff s) (stream s).
Definition set_stream x s := mk (channels s) (socket_state s) (heartbeat s) (status s) (frame_size s) (receive_buffer s) (send_buffer s) (serialized_frames s) (half_closed s) (first_connection s) (backoff s) (global_backoff s) x.
Definition set_global_backoff x s := mk (channels s) (socket_state s) (heartbeat s) (status s) (frame_size s) (receive_buffer s) (send_buffer s) (serialized_frames s) (half_closed s) (first_connection s) (backoff s) x (stream s).

(** ** Outcomes: a result, a panic of the thread, or a loop out of fuel *)

Inductive Out (A : Type) := Done (r : res A) | Panic | OutOfFuel.
Arguments Done {A} r.
Arguments Panic {A}.
Arguments OutOfFuel {A}.

Notation Io A := (M t (Out A)) (only parsing).
Definition io_ret {A} (a : A) : Io A := mret (Done (Ok a)).
Definition fail {A} (err : Error) : Io A := mret (Done (Err err)).
Definition io_bind {A B} (m : Io A) (k : A → Io B) : Io B :=
  r ← m;
  match r with
  | Done (Ok a) => k a
  | Done (Err err) => mret (Done (Err err))
  | Panic => mret Panic
  | OutOfFuel => mret OutOfFuel
  end.
(** Go on with the result, error included. *)
Definition io_catch {A B} (m : Io A) (k : res A → Io B) : Io B :=
  r ← m;
  match r with Done r => k r | Panic => mret Panic | OutOfFuel => mret OutOfFuel end.
Definition lift {A} (m : M t A) : Io A := a ← m; io_ret a.
Definition unwrap {A} (x : option A) : Io A := match x with Some a => io_ret a | None => mret Panic end.

Notation "'let*' x := m 'in' k" := (io_bind m (λ x, k)) (at level 200, x binder, k at level 200).

Definition in_channels {A} : M Channels.t A → M t A := zoom channels set_channels.
Definition in_frames {A} (m : M Frames.t A) : M t A := in_channels (Channels.in_frames m).
Definition in_socket {A} : M SocketState.t A → M t A := zoom socket_state set_socket_state.
Definition in_heartbeat {A} : M Heartbeat.t A → M t A := zoom heartbeat set_heartbeat.

Definition frames (s : t) : Frames.t := Channel.frames (Channels.conn (channels s)).
Definition configuration (s : t) : Configuration.t := Channel.configuration (Channels.conn (channels s)).
Definition connection_status (s : t) : ConnectionStatus.t := Channels.connection_status (channels s).
Definition connection_killswitch (s : t) : KillSwitch := Channels.connection_killswitch (channels s).
Definition io_error (k : IoErrorKind) : Error :=
  error_from (if is_shutdown k then RuntimeShutdownError k else IOError k).

(** ** State *)

Definition new (c : Channels.t) (so : SocketState.t) (hb : Heartbeat.t) (delays : list Z) (st : Stream) : t :=
  let frame_size := Z.max FRAME_MIN_SIZE (Configuration.frame_max (Channel.configuration (Channels.conn c))) in
  let buf := Buffer.with_capacity (Z.to_nat (FRAMES_STORAGE * frame_size)) in
  mk c so hb Initial frame_size buf buf [] false true delays delays st.

Definition reset : M t unit :=
  modify (λ s, set_status Initial (set_receive_buffer (Buffer.reset (receive_buffer s))
    (set_send_buffer (Buffer.reset (send_buffer s)) s)));;
  in_socket SocketState.reset.

Definition finish_setup : Io bool :=
  s ← get;
  if ConnectionStatus.connected (connection_status s) then
    let size := Z.max (frame_size s) (Configuration.frame_max (configuration s)) in
    let cap := Z.to_nat (FRAMES_STORAGE * size) in
    modify (set_frame_size size);;
    let* r := unwrap (Buffer.grow (receive_buffer s) cap) in
    modify (set_receive_buffer r.2);;
    let* w := unwrap (Buffer.grow (send_buffer s) cap) in
    modify (set_send_buffer w.2);;
    let hb := Configuration.heartbeat (configuration s) in
    (if hb =? 0 then mret tt else rpc_start_heartbeat (hb * 500));;
    modify (set_status Connected);;
    modify (λ s, set_global_backoff (backoff s) s);;
    modify (set_first_connection false);;
    io_ret true
  else io_ret true.

Definition ensure_setup : Io bool :=
  s ← get;
  match status s with
  | Initial => finish_setup
  | Connected => io_ret true
  | Stop => io_ret false
  end.

Definition has_data (s : t) : bool :=
  Frames.has_pending (frames s) || (0 <? Z.of_nat (Buffer.available_data (send_buffer s))) ||
  negb (bool_decide (serialized_frames s = [])).

Definition can_write (s : t) : bool :=
  SocketState.writable (socket_state s) && has_data s && negb (ConnectionStatus.blocked (connection_status s)).

(** [available_space] is [None] only on a broken buffer. *)
Definition can_read (s : t) : bool :=
  SocketState.readable (socket_state s) &&
  match Buffer.available_space (receive_buffer s) with Some n => 0 <? Z.of_nat n | None => false end.

Definition can_parse (s : t) : bool := 0 <? Z.of_nat (Buffer.available_data (receive_buffer s)).

Definition connecting (s : t) : bool := bool_decide (status s = Initial).
Definition reconnecting (s : t) : bool := ConnectionStatus.reconnecting (connection_status s).

Definition rpc_is_empty (e : Env) : bool := match rpc e with [] => true | _ => false end.

Definition should_continue (s : t) (e : Env) : bool :=
  if ConnectionStatus.errored (connection_status s) then false else
  match status s with
  | Initial => negb (half_closed s)
  | Stop => false
  | Connected =>
    ConnectionStatus.connected (connection_status s) || ConnectionStatus.closing (connection_status s) ||
    negb (rpc_is_empty e) || Frames.has_pending (frames s) ||
    negb (killed (connection_killswitch s) e) || negb (bool_decide (serialized_frames s = []))
  end.

Definition stop : M t unit := modify (set_status Stop).

Definition check_connection_state : M t unit :=
  s ← get; if ConnectionStatus.closed (connection_status s) then stop else mret tt.

(** ** Errors *)

Definition clear_serialized_frames (err : Error) : M t unit :=
  s ← get;
  modify (set_serialized []);;
  for_each (serialized_frames s) (λ x, Frames.sending_reject x.2 err).

(** Always an error. *)
Definition critical_error {A} (err : Error) : Io A :=
  s ← get;
  (if is_io_error err then kill (connection_killswitch s);; mret tt else mret tt);;
  if can_recover (Channel.auto_recover (Channels.conn (channels s))) err then
    rpc_init_connection_recovery err;; fail err
  else
    in_channels (Channels.reject_connection err);;
    stop;;
    rpc_set_connection_error err;;
    clear_serialized_frames err;;
    fail err.

Definition handle_io_result (r : res unit) : Io unit :=
  r ← in_socket (SocketState.handle_io_result r);
  match r with Ok _ => io_ret tt | Err err => critical_error err end.

(** ** Writing *)

Definition flush : Io unit :=
  s ← get;
  let (r, st) := poll_flush (stream s) in
  modify (set_stream st);;
  match r with
  | Err k => fail (io_error k)
  | Ok p => in_socket (SocketState.handle_write_poll p);; io_ret tt
  end.

Definition attempt_flush : Io unit := io_catch flush handle_io_result.

(** The loop of [serialize]: every turn takes a frame out of the queues. *)
Fixpoint serialize_loop (fuel : nat) : Io unit :=
  match fuel with
  | O => mret OutOfFuel
  | S fuel =>
    s ← get;
    next ← in_frames (Frames.pop (Channels.flow (channels s)));
    match next with
    | None => io_ret tt
    | Some fe =>
      let cp := Buffer.checkpoint (send_buffer s) in
      match gen_frame (Frames.frame fe) (send_buffer s) with
      | None => mret Panic
      | Some (Ok sz, b) =>
        modify (set_send_buffer b);;
        modify (λ s, set_serialized (serialized_frames s ++ [(Z.of_nat sz `mod` 2 ^ 32, Frames.sending fe)]) s);;
        serialize_loop fuel
      | Some (Err ge, b) =>
        let* b := unwrap (Buffer.rollback b cp) in
        modify (set_send_buffer b);;
        match ge with
        | Buffer.BufferTooSmall _ => in_frames (Frames.retry fe);; io_ret tt
        | Buffer.GenOther => critical_error (error_from SerialisationError)
        end
      end
    end
  end.

(** The frames waiting in the four queues. *)
Definition queued (f : Frames.t) : list Frames.FrameEntry :=
  Frames.retry_frames f ++ Frames.publish_frames f ++ Frames.frames f ++ Frames.low_prio_frames f.

Definition serialize : Io unit := s ← get; serialize_loop (S (length (queued (frames s)))).

(** The inner loop of [write_to_stream]: settle the frames written. *)
Fixpoint settle_written (written : FrameSize) (l : list (FrameSize * Frames.FrameSending))
  : M t (list (FrameSize * Frames.FrameSending)) :=
  match l with
  | [] => mret []
  | (to_write, sending) :: l' =>
    if written <=? 0 then mret l else
    if written <? to_write then mret ((to_write - written, sending) :: l')
    else Frames.sending_resolve sending;; settle_written (written - to_write) l'
  end.

(** [Buffer::poll_write_to] on the socket. *)
Definition poll_write_to : Io (Poll nat) :=
  s ← get;
  let* slices := unwrap (Buffer.write_slices (send_buffer s)) in
  match slices with
  | [] => io_ret (Ready O)
  | _ =>
    let (r, st) := poll_write (stream s) slices in
    modify (set_stream st);;
    match r with Err k => fail (io_error k) | Ok p => io_ret p end
  end.

Definition write_to_stream (now : Z) : Io unit :=
  let* _ := flush in
  let* _ := serialize in
  let* p := poll_write_to in
  sz ← in_socket (SocketState.handle_write_poll p);
  match sz with
  | None => io_ret tt
  | Some O =>
    in_socket (SocketState.handle_write_poll (Pending : Poll unit));; io_ret tt
  | Some sz =>
    in_heartbeat (Heartbeat.update_last_write now);;
    s ← get;
    let* b := unwrap (Buffer.consume (send_buffer s) sz) in
    modify (set_send_buffer b.2);;
    l ← settle_written (Z.of_nat sz `mod` 2 ^ 32) (serialized_frames s);
    modify (set_serialized l);;
    flush
  end.

Fixpoint write (fuel : nat) (now : Z) : Io unit :=
  match fuel with
  | O => mret OutOfFuel
  | S fuel =>
    s ← get;
    if can_write s then
      let* _ := io_catch (write_to_stream now) handle_io_result in write fuel now
    else io_ret tt
  end.

(** ** Reading *)

Definition parse : Io (option AMQPFrame) :=
  s ← get;
  let* c := unwrap (Buffer.parsing_context (receive_buffer s)) in
  let* r := unwrap (parse_frame c) in
  match r with
  | Ok (i, f) =>
    let* consumed := unwrap (Buffer.offset (receive_buffer s) i) in
    let frame_max := Configuration.frame_max (configuration s) in
    let* _ :=
      (if (0 <? frame_max) && (frame_max <? Z.of_nat consumed) then
         r ← in_channels (Channels.in_channel0 (Channel.report_protocol_violation
           (mkAMQPError (Hard FRAMEERROR) ("frame too large: " +:+ pretty (Z.of_nat consumed) +:+ " bytes")) 0 0));
         match r with Ok _ => io_ret tt | Err err => critical_error err end
       else io_ret tt) in
    let* b := unwrap (Buffer.consume (receive_buffer s) consumed) in
    modify (set_receive_buffer b.2);;
    io_ret (Some f)
  | Err Incomplete => io_ret None
  | Err Malformed => critical_error (error_from ParsingError)
  end.

(** Every turn of the loop of [handle_frames] that goes on consumed a frame. *)
Fixpoint handle_frames_loop (fuel : nat) (did_something : bool) : Io bool :=
  match fuel with
  | O => mret OutOfFuel
  | S fuel =>
    s ← get;
    if can_parse s then
      let* r := parse in
      match r with
      | Some f =>
        r ← in_channels (Channels.handle_frame f);
        match r with
        | Ok _ => handle_frames_loop fuel true
        | Err err => rpc_set_connection_error err;; fail err
        end
      | None => io_ret did_something
      end
    else io_ret did_something
  end.

Definition handle_frames : Io bool :=
  s ← get; handle_frames_loop (S (Buffer.available_data (receive_buffer s))) false.

Definition handle_half_closed_connection : Io bool :=
  s ← get; e ← get_env;
  if reconnecting s || connecting s || killed (connection_killswitch s) e then io_ret true else
  r ← in_socket (SocketState.handle_io_result (Err (error_from (IOError ConnectionAborted))));
  match r with Ok _ => io_ret false | Err err => fail err end.

(** [Buffer::poll_read_from] on the socket, and the [fill] of what it read. *)
Definition poll_read_from : Io (Poll nat) :=
  s ← get;
  let* space := unwrap (Buffer.available_space (receive_buffer s)) in
  match space with
  | O => io_ret (Ready O)
  | _ =>
    let (r, st) := poll_read (stream s) space in
    modify (set_stream st);;
    match r with
    | Err k => fail (io_error k)
    | Ok Pending => io_ret Pending
    | Ok (Ready data) =>
      let* b := unwrap (Buffer.read_fill (receive_buffer s) data) in
      modify (set_receive_buffer b.2);;
      io_ret (Ready b.1)
    end
  end.

Definition read_from_stream (now : Z) : Io bool :=
  s ← get;
  match ConnectionStatus.state (connection_status s) with
  | CoClosed => io_ret true
  | CoError => fail (error_from (InvalidConnectionState CoError))
  | _ =>
    let* p := poll_read_from in
    sz ← in_socket (SocketState.handle_read_poll p);
    match sz with
    | None => io_ret false
    | Some (S _) => in_heartbeat (Heartbeat.update_last_read now);; io_ret false
    | Some O =>
      s ← get;
      if half_closed s then handle_half_closed_connection else
      modify (set_half_closed true);;
      let* did_something := handle_frames in
      e ← get_env;
      if negb did_something && rpc_is_empty e then handle_half_closed_connection else io_ret false
    end
  end.

Fixpoint read (fuel : nat) (now : Z) : Io unit :=
  match fuel with
  | O => mret OutOfFuel
  | S fuel =>
    s ← get;
    if can_read s then
      io_catch (read_from_stream now) (λ r,
        let* _ := handle_io_result (match r with Ok _ => Ok tt | Err err => Err err end) in
        match r with Ok true => io_ret tt | _ => read fuel now end)
    else io_ret tt
  end.

(** ** One turn of the loop *)

Definition run (fuel : nat) (now : Z) (arrives : SocketState.SocketEvent) : Io unit :=
  in_socket SocketState.poll_events;;
  let* go := ensure_setup in
  if negb go then io_ret tt else
  check_connection_state;;
  s ← get; e ← get_env;
  (if negb (can_read s) && negb (can_write s) && should_continue s e
   then in_socket (SocketState.wait arrives) else mret tt);;
  in_socket SocketState.poll_events;;
  let* _ := attempt_flush in
  let* _ := write fuel now in
  check_connection_state;;
  s ← get; e ← get_env;
  let* _ := (if should_continue s e then read fuel now else io_ret tt) in
  let* _ := handle_frames in
  check_connection_state;;
  io_ret tt.

(** ** Lemmas on the outcomes *)

Lemma io_bind_ok {A B} (m : Io A) (k : A → Io B) a s e s' e' :
  m s e = (Done (Ok a), s', e') → io_bind m k s e = k a s' e'.
Proof. intros E. unfold io_bind, mbind, M_bind. by rewrite E. Qed.

Lemma io_bind_err {A B} (m : Io A) (k : A → Io B) err s e s' e' :
  m s e = (Done (Err err), s', e') → io_bind m k s e = (Done (Err err), s', e').
Proof. intros E. unfold io_bind, mbind, M_bind. by rewrite E. Qed.

(** ** The queues *)

Definition set_frames_of (f : Frames.t) (s : t) : t :=
  set_channels (Channels.set_conn (Channel.set_frames_ f (Channels.conn (channels s))) (channels s)) s.

Lemma in_frames_eq {A} (m : M Frames.t A) s e :
  in_frames m s e = let '(a, f, e') := m (frames s) e in (a, set_frames_of f s, e').
Proof. unfold in_frames, in_channels, Channels.in_frames, zoom, frames. by destruct (m _ e) as [[a f] e']. Qed.

Lemma set_frames_of_id s : set_frames_of (frames s) s = s.
Proof. by destruct s as [[? ? ? [] ?]]. Qed.

Lemma move_publish_perm low : ∀ pub,
  (Frames.move_publish low pub).2 ++ (Frames.move_publish low pub).1 ≡ₚ pub ++ low.
Proof.
  induction low as [|fe low IH]; intros pub; cbn [Frames.move_publish]; [done|].
  destruct (Frames.frame fe); try done; rewrite IH, <- app_assoc; done.
Qed.

Lemma pop_queued f flow fe f' : Frames.pop_ f flow = (Some fe, f') → queued f ≡ₚ fe :: queued f'.
Proof.
  unfold Frames.pop_, queued. destruct (Frames.retry_frames f) as [|x l] eqn:E1; [|by intros [= <- <-]].
  destruct (Frames.publish_frames f) as [|x l] eqn:E2; [|intros [= <- <-]; simpl; by rewrite E1].
  destruct (Frames.frames f) as [|x l] eqn:E3; [|intros [= <- <-]; simpl; by rewrite E1, E2].
  destruct flow; [|done]. destruct (Frames.low_prio_frames f) as [|x l] eqn:E4; [done|].
  destruct (match l with [] => false | nx :: _ => is_header (Frames.frame nx) end).
  - assert (Hp := move_publish_perm l (Frames.publish_frames (Frames.set_low_prio l f))).
    destruct (Frames.move_publish l _) as [l' pub]. intros [= <- <-]. simpl in *.
    by rewrite E1, E2, E3 in *; simpl in *; rewrite Hp.
  - intros [= <- <-]. simpl. by rewrite E1, E2, E3.
Qed.

(** The frames that [pop] hands out one after the other. *)
Fixpoint pops (n : nat) (flow : bool) (f : Frames.t) : list Frames.FrameEntry :=
  match n with
  | O => []
  | S n => match Frames.pop_ f flow with (Some fe, f') => fe :: pops n flow f' | (None, _) => [] end
  end.

Definition next_frames (s : t) : list Frames.FrameEntry :=
  pops (S (length (queued (frames s)))) (Channels.flow (channels s)) (frames s).

(** ** What the client relies on *)

(** The codec, for the frames it can encode ([ok]): a frame that fits is appended
    whole, one that does not is reported as such, with part of it written; a whole frame at the start of
    the input is recognised, a proper prefix of one is incomplete. *)
Record codec_laws (ok : AMQPFrame → Prop) (enc : AMQPFrame → list byte) : Prop := {
  enc_size : ∀ f, ok f → 0 < Z.of_nat (length (enc f)) < 2 ^ 32;
  gen_fits : ∀ f b, ok f → Buffer.wf b → (length (enc f) ≤ Buffer.capacity b - Buffer.avail b)%nat →
    ∃ b', gen_frame f b = Some (Ok (length (enc f)), b') ∧ Buffer.appends b b' (enc f);
  gen_full : ∀ f b, ok f → Buffer.wf b → (Buffer.capacity b - Buffer.avail b < length (enc f))%nat →
    ∃ m b' ext, gen_frame f b = Some (Err (Buffer.BufferTooSmall m), b') ∧ Buffer.appends b b' ext;
  parse_whole : ∀ f c rest, ok f → Parsing.iter c = enc f ++ rest →
    ∃ i, parse_frame c = Some (Ok (i, f)) ∧ Parsing.take_from c (length (enc f)) = Some i;
  parse_partial : ∀ f c rest, ok f → enc f = Parsing.iter c ++ rest → rest ≠ [] →
    parse_frame c = Some (Err Incomplete);
}.

(** The socket takes what it reports, in order; [sent] is all it took so far. *)
Record transport_laws (sent : Stream → list byte) : Prop := {
  flush_sent : ∀ st r st', poll_flush st = (r, st') → sent st' = sent st;
  write_sent : ∀ st ss r st', poll_write st ss = (r, st') →
    match r with
    | Ok (Ready n) => (n ≤ length (concat ss))%nat ∧ sent st' = sent st ++ take n (concat ss)
    | _ => sent st' = sent st
    end;
}.

Section Wire.
Variables (ok : AMQPFrame → Prop) (enc : AMQPFrame → list byte) (sent : Stream → list byte).
Hypotheses (HC : codec_laws ok enc) (HT : transport_laws sent).

Definition encs (l : list Frames.FrameEntry) : list byte := concat ((λ fe, enc (Frames.frame fe)) <$> l).

Definition sized (fe : Frames.FrameEntry) : FrameSize * Frames.FrameSending :=
  (Z.of_nat (length (enc (Frames.frame fe))), Frames.sending fe).

(** The sizes still to write of [p], of whose first frame [k] bytes are written. *)
Definition sizes (k : nat) (p : list Frames.FrameEntry) : list (FrameSize * Frames.FrameSending) :=
  match p with
  | [] => []
  | fe :: p => (Z.of_nat (length (enc (Frames.frame fe))) - Z.of_nat k, Frames.sending fe) :: (sized <$> p)
  end.

Definition resolve_written (d : list Frames.FrameEntry) (e : Env) : Env :=
  foldl (λ e fe, match Frames.resolver (Frames.sending fe) with
                 | Some r => promise_set r (Ok VUnit) e
                 | None => e
                 end) e d.

(** A frame the codec can encode and the send buffer can hold. *)
Definition good (s : t) (fe : Frames.FrameEntry) : Prop :=
  ok (Frames.frame fe) ∧ (length (enc (Frames.frame fe)) ≤ Buffer.capacity (send_buffer s))%nat.

(** Of the frames serialized so far, [d] are written and [p] are not, or not entirely:
    what the socket took and what waits in the buffer is their encoding, and the promises
    of the frames of [d], and only these, were completed by the loop. *)
Record wire (base : list byte) (e0 : Env) (d p : list Frames.FrameEntry) (s : t) (e : Env) : Prop := {
  w_wf : Buffer.wf (send_buffer s);
  w_ok : Forall (good s) p;
  w_bytes : sent (stream s) ++ Buffer.contents (send_buffer s) = base ++ encs d ++ encs p;
  w_sizes : ∃ k, length (sent (stream s)) = (length base + length (encs d) + k)%nat ∧
    serialized_frames s = sizes k p ∧
    match p with [] => k = O | fe :: _ => (k < length (enc (Frames.frame fe)))%nat end;
  w_done : promises e = promises (resolve_written d e0);
}.

Lemma encs_app l1 l2 : encs (l1 ++ l2) = encs l1 ++ encs l2.
Proof. unfold encs. by rewrite fmap_app, concat_app. Qed.

Lemma sizes_snoc k p fe : p ≠ [] → sizes k (p ++ [fe]) = sizes k p ++ [sized fe].
Proof. destruct p; [done|]. intros _. simpl. by rewrite fmap_app. Qed.

(** A frame joins the ones to write. *)
Lemma wire_serialized base e0 d p s e fe b f :
  wire base e0 d p s e → good s fe → Buffer.appends (send_buffer s) b (enc (Frames.frame fe)) →
  wire base e0 d (p ++ [fe])
    (set_serialized (serialized_frames s ++ [sized fe]) (set_send_buffer b (set_frames_of f s))) e.
Proof.
  intros [Hwf Hok Hb (k & Hk & Hs & Hlt) Hd] Hg (Hwf' & Hcap & _ & Hcont). split; simpl; try done.
  - apply Forall_app. unfold good in *; simpl; rewrite Hcap. split; [done|]. by constructor.
  - rewrite Hcont, encs_app. unfold encs at 3. simpl. rewrite app_nil_r.
    by rewrite !app_assoc, Hb, !app_assoc.
  - exists k. split; [done|]. rewrite Hs. destruct p as [|x p].
    + simpl in *. subst k. split; [by rewrite Z.sub_0_r|].
      destruct (enc_size _ _ HC (Frames.frame fe)) as [? _]; [apply Hg|]. lia.
    + split; [by rewrite sizes_snoc|done].
Qed.

(** Without the frame that does not fit, the buffer is as before. *)
Lemma wire_rolled_back base e0 d p s e b f :
  wire base e0 d p s e → Buffer.wf b → Buffer.contents b = Buffer.contents (send_buffer s) →
  Buffer.capacity b = Buffer.capacity (send_buffer s) →
  wire base e0 d p (set_send_buffer b (set_frames_of f s)) e.
Proof.
  intros [Hwf Hok Hb Hk Hd] Hwf' Hc Hcap. split; simpl; try done.
  - unfold good in *. simpl. by rewrite Hcap.
  - by rewrite Hc.
Qed.

Lemma rollback_not_full s fe b ext :
  good s fe → Buffer.wf (send_buffer s) →
  (Buffer.capacity (send_buffer s) - Buffer.avail (send_buffer s) < length (enc (Frames.frame fe)))%nat →
  Buffer.appends (send_buffer s) b ext →
  ∃ b', Buffer.rollback b (Buffer.checkpoint (send_buffer s)) = Some b' ∧ Buffer.wf b' ∧
    Buffer.contents b' = Buffer.contents (send_buffer s) ∧ Buffer.capacity b' = Buffer.capacity (send_buffer s).
Proof.
  intros [_ Hfit] Hwf Hfull Happ. pose proof (Buffer.appends_avail _ _ _ Hwf Happ) as Ha.
  destruct (Buffer.rollback_appended (send_buffer s) b ext) as (b' & ? & ? & ? & _ & _ & ?); [done..| |by exists b'].
  destruct Happ as (Hwf' & Hcap & _). pose proof (Buffer.wf_avail _ Hwf'). pose proof (Buffer.wf_avail _ Hwf). lia.
Qed.

Lemma retry_queued fe f e : queued (Frames.retry fe f e).1.2 ≡ₚ fe :: queued f.
Proof. unfold queued. simpl. rewrite <- !app_assoc. simpl. by rewrite <- Permutation_middle. Qed.

(** The replies expected and the poisons are the same. *)
Definition same_replies (f f' : Frames.t) : Prop :=
  Frames.expected_replies f' = Frames.expected_replies f ∧ Frames.poison f' = Frames.poison f ∧
  Frames.channels_poison f' = Frames.channels_poison f.

Lemma same_replies_trans f1 f2 f3 : same_replies f1 f2 → same_replies f2 f3 → same_replies f1 f3.
Proof. intros (A1 & A2 & A3) (B1 & B2 & B3). unfold same_replies. by rewrite B1, B2, B3. Qed.

Lemma pop_replies f flow : same_replies f (Frames.pop_ f flow).2.
Proof.
  unfold Frames.pop_. destruct (Frames.retry_frames f); [|done]. destruct (Frames.publish_frames f); [|done].
  destruct (Frames.frames f); [|done]. destruct flow; [|done]. destruct (Frames.low_prio_frames f) as [|? l]; [done|].
  destruct (match l with [] => false | nx :: _ => is_header (Frames.frame nx) end); [|done]. by destruct (Frames.move_publish l _).
Qed.

(** What [serialize] leaves of the rest of the loop, and of the order of the queues: [p] was taken out
    of them; it stops when they are empty, or the buffer holds something. *)
Record serialized_to (s : t) (p : list Frames.FrameEntry) (s' : t) : Prop := {
  st_shape : ∃ b f l, same_replies (frames s) f ∧ s' = set_serialized l (set_send_buffer b (set_frames_of f s));
  st_order : (length (Frames.retry_frames (frames s)) ≤ 1)%nat →
    next_frames s = p ++ next_frames s' ∧ (length (Frames.retry_frames (frames s')) ≤ 1)%nat;
  st_stops : next_frames s' = [] ∨ (0 < Buffer.avail (send_buffer s'))%nat;
}.

Lemma pops_enough flow n : ∀ f, (length (queued f) < n)%nat → pops n flow f = pops (S (length (queued f))) flow f.
Proof.
  induction n as [|n IH]; intros f Hn; [lia|]. cbn [pops]. destruct (Frames.pop_ f flow) as [[fe|] f'] eqn:E; [|done].
  pose proof (Permutation_length (pop_queued _ _ _ _ E)) as Hl. simpl in Hl. f_equal. rewrite Hl. apply IH. lia.
Qed.

Lemma pops_cons flow f fe f' : Frames.pop_ f flow = (Some fe, f') →
  pops (S (length (queued f))) flow f = fe :: pops (S (length (queued f'))) flow f'.
Proof. intros E. cbn [pops]. rewrite E. f_equal. by rewrite (Permutation_length (pop_queued _ _ _ _ E)). Qed.

Lemma pop_retry f flow fe f' : Frames.pop_ f flow = (Some fe, f') → (length (Frames.retry_frames f) ≤ 1)%nat →
  Frames.retry_frames f' = [].
Proof.
  unfold Frames.pop_. destruct (Frames.retry_frames f) as [|x [|]] eqn:E1; [|by intros [= <- <-]|simpl; lia].
  destruct (Frames.publish_frames f); [|by intros [= <- <-]]. destruct (Frames.frames f); [|by intros [= <- <-]].
  destruct flow; [|done]. destruct (Frames.low_prio_frames f) as [|? l]; [done|].
  destruct (match l with [] => false | nx :: _ => is_header (Frames.frame nx) end); [|by intros [= <- <-]].
  destruct (Frames.move_publish l _). by intros [= <- <-].
Qed.

(** A frame put back is the next one. *)
Lemma retry_next f flow fe f' : Frames.pop_ f flow = (Some fe, f') → (length (Frames.retry_frames f) ≤ 1)%nat →
  let f1 := Frames.set_retry (Frames.retry_frames f' ++ [fe]) f' in
  pops (S (length (queued f1))) flow f1 = pops (S (length (queued f))) flow f ∧ (length (Frames.retry_frames f1) ≤ 1)%nat.
Proof.
  intros E Hr f1. pose proof (pop_retry _ _ _ _ E Hr) as En. unfold f1. rewrite En. split; [|done].
  rewrite (pops_cons _ _ _ _ E). rewrite (pops_cons flow _ fe f'); [done|]. destruct f'; simpl in *. by subst.
Qed.

Lemma serialize_loop_wire base e0 d e fuel : ∀ p s,
  wire base e0 d p s e → Forall (good s) (queued (frames s)) → (length (queued (frames s)) < fuel)%nat →
  ∃ s' p', serialize_loop fuel s e = (Done (Ok tt), s', e) ∧ wire base e0 d (p ++ p') s' e ∧
    Forall (good s') (queued (frames s')) ∧ p' `prefix_of` pops fuel (Channels.flow (channels s)) (frames s) ∧
    Buffer.capacity (send_buffer s') = Buffer.capacity (send_buffer s) ∧ serialized_to s p' s'.
Proof.
  induction fuel as [|fuel IH]; intros p s Hw Hq Hf; [lia|]. cbn [serialize_loop pops].
  rewrite bind_get. set (fl := Channels.flow (channels s)).
  destruct (Frames.pop_ (frames s) fl) as [[fe|] f'] eqn:Ep.
  - erewrite bind_eq by (rewrite in_frames_eq; unfold Frames.pop; rewrite bind_get, Ep; done).
    pose proof (pop_queued _ _ _ _ Ep) as Hperm. rewrite Hperm in Hq. apply Forall_cons in Hq as [Hg Hq].
    cbv iota beta. pose proof (w_wf _ _ _ _ _ _ Hw) as Hwf. unfold good in Hg.
    destruct (decide (length (enc (Frames.frame fe)) ≤ Buffer.capacity (send_buffer s) - Buffer.avail (send_buffer s))%nat).
    + destruct (gen_fits _ _ HC (Frames.frame fe) (send_buffer s)) as (b & -> & Happ); [apply Hg|done..|].
      rewrite bind_modify, bind_modify.
      pose proof (wire_serialized base e0 d p s e fe b f' Hw Hg Happ) as Hw'.
      destruct (enc_size _ _ HC (Frames.frame fe) (proj1 Hg)) as [_ Hlt].
      rewrite Z.mod_small by lia.
      destruct (IH _ _ Hw') as (s' & p' & Hr & Hws & Hqs & Hst & Hcs & [(b' & f1 & sz & Hsr & ->) Ho Hend]).
      * eapply Forall_impl; [exact Hq|]. intros x. unfold good. simpl. by destruct Happ as (_ & -> & _).
      * simpl. apply Permutation_length in Hperm. simpl in Hperm. unfold frames in *. simpl in *. lia.
      * eexists _, (fe :: p'). split; [exact Hr|]. rewrite <- app_assoc in Hws. split_and!; try done.
        -- by apply prefix_cons.
        -- rewrite Hcs. by destruct Happ as (_ & ? & _).
        -- pose proof (pop_replies (frames s) fl) as Hpr. rewrite Ep in Hpr.
           split; [exists b', f1, sz; split; [by apply (same_replies_trans _ f')|done]| |done]. intros Hre. destruct Ho as [Ho1 Ho2]; [change (length (Frames.retry_frames f') ≤ 1)%nat; rewrite (pop_retry _ _ _ _ Ep Hre); simpl; lia|].
           split; [|done]. unfold next_frames at 1. fold fl. rewrite (pops_cons _ _ _ _ Ep). simpl. f_equal. apply Ho1.
    + destruct (gen_full _ _ HC (Frames.frame fe) (send_buffer s)) as (m & b & ext & -> & Happ); [apply Hg|done|lia|].
      destruct (rollback_not_full s fe b ext) as (b' & -> & Hwf' & Hc & Hcap); [done|done|lia|done|].
      erewrite (io_bind_ok _ _ b') by done. rewrite bind_modify.
      erewrite bind_eq by (rewrite in_frames_eq; done).
      eexists _, []. split; [done|]. rewrite app_nil_r. split; [by eapply (wire_rolled_back _ _ _ _ s e b')|].
      split; [|split; [apply prefix_nil|split; [done|]]].
      * simpl. unfold frames at 1. simpl. apply (Forall_impl (good s)); [rewrite (retry_queued fe f' e); by constructor|].
        intros x. unfold good. simpl. by rewrite Hcap.
      * pose proof (pop_replies (frames s) fl) as Hpr. rewrite Ep in Hpr.
        split; [by exists b', (Frames.set_retry (Frames.retry_frames f' ++ [fe]) f'), (serialized_frames s)| |].
        -- intros Hre. destruct (retry_next _ _ _ _ Ep Hre) as [E1 E2]. split; [symmetry; exact E1|exact E2].
        -- right. simpl. rewrite <- (Buffer.length_contents b' Hwf'), Hc, Buffer.length_contents by done.
           destruct Hg as [Hok Hfit]. destruct (enc_size _ _ HC _ Hok). lia.
  - pose proof (Frames.wire_pop_none _ _ _ Ep) as ->.
    erewrite bind_eq by (rewrite in_frames_eq; unfold Frames.pop; rewrite bind_get, Ep; done).
    change (set_frames_of _ s) with (set_frames_of (frames s) s). rewrite set_frames_of_id.
    exists s, []. rewrite app_nil_r. split_and!; try done. split; [|done|left].
    + exists (send_buffer s), (frames s), (serialized_frames s). split; [done|]. by destruct s as [[? ? ? []]].
    + unfold next_frames. cbn [pops]. fold fl. by rewrite Ep.
Qed.

Lemma sizes_0 p : sizes 0 p = sized <$> p.
Proof. destruct p as [|fe p]; [done|]. simpl. by rewrite Z.sub_0_r. Qed.

Lemma encs_cons fe p : encs (fe :: p) = enc (Frames.frame fe) ++ encs p.
Proof. done. Qed.

Lemma sending_resolve_eq {S} fe (s : S) e :
  Frames.sending_resolve (Frames.sending fe) s e = (tt, s, resolve_written [fe] e).
Proof. unfold Frames.sending_resolve, resolve_written. simpl. by destruct (Frames.resolver _). Qed.

(** The frames entirely written are settled, the first of the others keeps the rest. *)
Lemma settle_written_sizes p : ∀ k w s e,
  Forall (λ fe, ok (Frames.frame fe)) p → (k + w ≤ length (encs p))%nat →
  match p with [] => k = O | fe :: _ => (k < length (enc (Frames.frame fe)))%nat end →
  ∃ d' p' k', settle_written (Z.of_nat w) (sizes k p) s e = (sizes k' p', s, resolve_written d' e) ∧
    p = d' ++ p' ∧ (k + w = length (encs d') + k')%nat ∧
    match p' with [] => k' = O | fe :: _ => (k' < length (enc (Frames.frame fe)))%nat end.
Proof.
  induction p as [|fe p IH]; intros k w s e Hok Hle Hk.
  - exists [], [], O. simpl in *. split_and!; try done. lia.
  - apply Forall_cons in Hok as [Hfe Hok]. rewrite encs_cons, length_app in Hle.
    cbn [sizes settle_written].
    destruct (Z.leb_spec (Z.of_nat w) 0).
    { exists [], (fe :: p), k. split_and!; try done. simpl. lia. }
    destruct (Z.ltb_spec (Z.of_nat w) (Z.of_nat (length (enc (Frames.frame fe))) - Z.of_nat k)).
    + exists [], (fe :: p), (k + w)%nat. split_and!; [|done|done|lia].
      cbn [sizes]. unfold resolve_written. cbn [foldl]. unfold mret, M_ret. do 4 f_equal. lia.
    + erewrite bind_eq by apply sending_resolve_eq. rewrite <- sizes_0.
      replace (Z.of_nat w - (Z.of_nat (length (enc (Frames.frame fe))) - Z.of_nat k))
        with (Z.of_nat (w - (length (enc (Frames.frame fe)) - k))) by lia.
      destruct (IH O (w - (length (enc (Frames.frame fe)) - k))%nat s (resolve_written [fe] e))
        as (d' & p' & k' & -> & -> & Hsum & Hk'); [done|lia| |].
      { destruct p as [|x p]; [done|]. apply Forall_cons in Hok as [Hx _].
        destruct (enc_size _ _ HC _ Hx). lia. }
      exists (fe :: d'), p', k'. split_and!; [done|done| |done].
      rewrite encs_cons, length_app. lia.
Qed.

Lemma resolve_written_app d1 d2 e : resolve_written (d1 ++ d2) e = resolve_written d2 (resolve_written d1 e).
Proof. apply foldl_app. Qed.

(** What is completed depends on the promises only. *)
Lemma resolve_written_promises d : ∀ e1 e2, promises e1 = promises e2 →
  promises (resolve_written d e1) = promises (resolve_written d e2).
Proof.
  induction d as [|fe d IH]; intros e1 e2 E; [done|]. cbn [resolve_written foldl]. apply IH.
  destruct (Frames.resolver _); [|done]. unfold promise_set. rewrite E. by destruct (promises e2 !! _); simpl; rewrite ?E.
Qed.

(** The invariant only looks at the send buffer, the sizes and what the socket took. *)
Lemma wire_same base e0 d p s e s' :
  wire base e0 d p s e → send_buffer s' = send_buffer s → serialized_frames s' = serialized_frames s →
  sent (stream s') = sent (stream s) → wire base e0 d p s' e.
Proof.
  intros [Hwf Hok Hb Hk Hd] E1 E2 E3. split; rewrite ?E1, ?E2, ?E3; try done.
  unfold good. by rewrite E1.
Qed.

Lemma flush_eq s e : ∃ r s', flush s e = (Done r, s', e) ∧ send_buffer s' = send_buffer s ∧
  serialized_frames s' = serialized_frames s ∧ frames s' = frames s ∧ sent (stream s') = sent (stream s).
Proof.
  unfold flush. rewrite bind_get. destruct (poll_flush (stream s)) as [r st] eqn:E.
  pose proof (flush_sent _ HT _ _ _ E) as Hs. destruct r as [[[]|]|k]; by eexists _, _.
Qed.

Lemma flush_next s e r s' e' : flush s e = (r, s', e') → next_frames s' = next_frames s.
Proof.
  unfold flush. rewrite bind_get. destruct (poll_flush (stream s)) as [[[[]|]|k] st]; by intros [= _ <- _].
Qed.

(** The write of [n] bytes: the invariant after the settlement. *)
Lemma wire_written base e0 d p s e s1 n :
  wire base e0 d p s e → Z.of_nat (Buffer.capacity (send_buffer s)) < 2 ^ 32 →
  send_buffer s1 = send_buffer s → serialized_frames s1 = serialized_frames s →
  (n ≤ Buffer.avail (send_buffer s))%nat →
  sent (stream s1) = sent (stream s) ++ take n (Buffer.contents (send_buffer s)) →
  ∃ b l d' p', Buffer.consume (send_buffer s1) n = Some b ∧ Buffer.capacity b.2 = Buffer.capacity (send_buffer s) ∧
    settle_written (Z.of_nat n `mod` 2 ^ 32) (serialized_frames s1) (set_send_buffer b.2 s1) e =
      (l, set_send_buffer b.2 s1, resolve_written d' e) ∧ p = d' ++ p' ∧
    wire base e0 (d ++ d') p' (set_serialized l (set_send_buffer b.2 s1)) (resolve_written d' e).
Proof.
  intros [Hwf Hok Hb (k & Hk & Hs & Hlt) Hd] Hcap E1 E2 Hn Hsent.
  pose proof (Buffer.wf_avail _ Hwf) as Hav. rewrite E1, E2, Hs, Z.mod_small by lia.
  destruct (Buffer.consume_spec (send_buffer s) n Hwf) as (b & -> & Hwf' & Hcap' & Hcont).
  assert (Hlen : (length (encs p) = k + Buffer.avail (send_buffer s))%nat).
  { apply (f_equal length) in Hb. rewrite !length_app, Hk, Buffer.length_contents in Hb by done. lia. }
  destruct (settle_written_sizes p k n (set_send_buffer b s1) e) as (d' & p' & k' & Hset & -> & Hsum & Hk');
    [eapply Forall_impl; [exact Hok|by intros ? []]|lia|done|].
  exists (n `min` Buffer.avail (send_buffer s), b)%nat, (sizes k' p'), d', p'.
  split_and!; [done|done|exact Hset|done|]. split; simpl; try done.
  - apply Forall_app in Hok as [_ Hok]. unfold good in *. simpl. by rewrite Hcap'.
  - rewrite Hsent, Hcont, <- app_assoc, take_drop, Hb, !encs_app. by rewrite <- !app_assoc.
  - exists k'. split; [|done]. rewrite Hsent, length_app, length_take, Buffer.length_contents, Hk, encs_app, length_app by done.
    lia.
  - rewrite resolve_written_app. by apply resolve_written_promises.
Qed.

Lemma serialize_wire base e0 d p s e :
  wire base e0 d p s e → Forall (good s) (queued (frames s)) →
  ∃ s' p', serialize s e = (Done (Ok tt), s', e) ∧ wire base e0 d (p ++ p') s' e ∧
    Forall (good s') (queued (frames s')) ∧ p' `prefix_of` next_frames s ∧
    Buffer.capacity (send_buffer s') = Buffer.capacity (send_buffer s) ∧ serialized_to s p' s'.
Proof. intros Hw Hq. unfold serialize. rewrite bind_get. apply serialize_loop_wire; [done|done|lia]. Qed.

Definition outcome_wire base e0 d p (x : Out unit * t * Env) : Prop :=
  ∃ r s' e' d' p', x = (Done r, s', e') ∧ wire base e0 (d ++ d') p' s' e' ∧
    p = d' ++ p' ∧ Forall (good s') (queued (frames s')).

(** Nothing was written. *)
Lemma outcome_wire_same base e0 d p s e r s' :
  wire base e0 d p s e → Forall (good s) (queued (frames s)) →
  send_buffer s' = send_buffer s → serialized_frames s' = serialized_frames s →
  frames s' = frames s → sent (stream s') = sent (stream s) →
  outcome_wire base e0 d p (Done r, s', e).
Proof.
  intros Hw Hq E1 E2 E3 E4. exists r, s', e, [], p. rewrite app_nil_r. split_and!; try done.
  - by eapply wire_same.
  - rewrite E3. eapply Forall_impl; [exact Hq|]. intros x. unfold good. by rewrite E1.
Qed.

Lemma poll_write_to_eq s e : Buffer.wf (send_buffer s) →
  ∃ r s', poll_write_to s e = (Done r, s', e) ∧ send_buffer s' = send_buffer s ∧
    serialized_frames s' = serialized_frames s ∧ frames s' = frames s ∧
    match r with
    | Ok (Ready n) => (n ≤ Buffer.avail (send_buffer s))%nat ∧
        sent (stream s') = sent (stream s) ++ take n (Buffer.contents (send_buffer s))
    | _ => sent (stream s') = sent (stream s)
    end.
Proof.
  intros Hwf. destruct (Buffer.write_slices_spec (send_buffer s) Hwf) as (ss & Hss & Hc).
  unfold poll_write_to. rewrite bind_get. erewrite (io_bind_ok _ _ ss) by (rewrite Hss; done).
  destruct ss as [|x ss].
  - eexists _, s. split; [done|]. split_and!; try done; [lia|by rewrite take_0, app_nil_r].
  - destruct (poll_write (stream s) (x :: ss)) as [r st] eqn:E. pose proof (write_sent _ HT _ _ _ _ E) as Hw.
    rewrite Hc, Buffer.length_contents in Hw by done. rewrite bind_modify.
    destruct r as [[n|]|err]; by eexists _, (set_stream st s).
Qed.

Lemma write_to_stream_outcome base e0 d p s e now :
  wire base e0 d p s e → Forall (good s) (queued (frames s)) →
  Z.of_nat (Buffer.capacity (send_buffer s)) < 2 ^ 32 →
  ∃ p1, p1 `prefix_of` next_frames s ∧ outcome_wire base e0 d (p ++ p1) (write_to_stream now s e).
Proof.
  intros Hw Hq Hcap. unfold write_to_stream.
  destruct (flush_eq s e) as (r & s1 & Hf & E1 & E2 & E3 & E4).
  destruct r as [[]|err]; [erewrite io_bind_ok by exact Hf
    |erewrite io_bind_err by exact Hf; exists []; rewrite app_nil_r;
     split; [apply prefix_nil|by eapply outcome_wire_same]].
  assert (Hw1 : wire base e0 d p s1 e) by by eapply wire_same.
  destruct (serialize_wire base e0 d p s1 e Hw1) as (s2 & p2 & Hs & Hw2 & Hq2 & Hp2 & Hc2 & _).
  { rewrite E3. eapply Forall_impl; [exact Hq|]. intros x. unfold good. by rewrite E1. }
  erewrite io_bind_ok by exact Hs. exists p2. split; [by rewrite (flush_next s e _ s1 e Hf) in Hp2|].
  destruct (poll_write_to_eq s2 e (w_wf _ _ _ _ _ _ Hw2)) as (r & s3 & Hp & F1 & F2 & F3 & Hr).
  destruct r as [r|err]; [erewrite io_bind_ok by exact Hp|erewrite io_bind_err by exact Hp; by eapply outcome_wire_same].
  destruct r as [[|n]|].
  - destruct Hr as [_ Hr]. rewrite take_0, app_nil_r in Hr.
    by apply (outcome_wire_same _ _ _ _ s2 e (Ok tt) (set_socket_state (SocketState.set_writable false (socket_state s3)) s3)).
  - cbn [SocketState.handle_write_poll]. unfold in_heartbeat, in_socket.
    erewrite bind_eq by done. cbv beta iota. erewrite bind_eq by done. rewrite bind_get.
    set (s4 := set_heartbeat _ _).
    destruct (wire_written base e0 d (p ++ p2) s2 e s4 (S n)) as (b & l & d' & p' & Hb & Hbc & Hset & Hpp & Hw5);
      [done|by rewrite Hc2, E1|done|done|apply Hr|apply Hr|].
    erewrite (io_bind_ok _ _ b) by (rewrite Hb; done). rewrite bind_modify.
    erewrite bind_eq by exact Hset. rewrite bind_modify.
    set (s5 := set_serialized _ _) in *.
    destruct (flush_eq s5 (resolve_written d' e)) as (r & s6 & -> & G1 & G2 & G3 & G4).
    exists r, s6, (resolve_written d' e), d', p'. split_and!; [done|by eapply wire_same|done|].
    rewrite G3. change (frames s5) with (frames s3). rewrite F3.
    eapply Forall_impl; [exact Hq2|]. intros x. unfold good. rewrite G1. simpl. by rewrite Hbc.
  - by apply (outcome_wire_same _ _ _ _ s2 e (Ok tt) (set_socket_state (SocketState.set_writable false (socket_state s3)) s3)).
Qed.

End Wire.

(** C4: what is written is what was queued, and its callers learn it exactly then.  Take a
    codec and a socket that keep their contracts and frames that fit the send buffer.  If
    the bytes the socket took and the bytes waiting are the encodings of the frames [d]
    (written) and [p] (not yet), one [write_to_stream] neither panics nor loops and
    keeps it so, whatever the socket accepts, also when it fails half-way: the next frames of the
    queues join [p] in their order, the frames whose last byte the socket took move to
    [d], and exactly the promises of the frames of [d] are completed. *)
Theorem written_frames ok enc sent base e0 d p s e now :
  codec_laws ok enc → transport_laws sent → wire ok enc sent base e0 d p s e →
  Forall (good ok enc s) (queued (frames s)) → Z.of_nat (Buffer.capacity (send_buffer s)) < 2 ^ 32 →
  ∃ r s' e' p1 d' p', write_to_stream now s e = (Done r, s', e') ∧
    p1 `prefix_of` next_frames s ∧ p ++ p1 = d' ++ p' ∧ wire ok enc sent base e0 (d ++ d') p' s' e' ∧
    Forall (good ok enc s') (queued (frames s')).
Proof.
  intros HC HT Hw Hq Hcap.
  destruct (write_to_stream_outcome ok enc sent HC HT base e0 d p s e now Hw Hq Hcap)
    as (p1 & Hp & r & s' & e' & d' & p' & -> & Hw' & Hpp & Hq').
  by exists r, s', e', p1, d', p'.
Qed.

Lemma serialize_idle s e : Frames.pop_ (frames s) (Channels.flow (channels s)) = (None, frames s) →
  serialize s e = (Done (Ok tt), s, e).
Proof.
  intros Hp. unfold serialize. rewrite bind_get. cbn [serialize_loop]. rewrite bind_get.
  erewrite bind_eq by (rewrite in_frames_eq; unfold Frames.pop; rewrite bind_get, Hp; done).
  change (set_frames_of _ s) with (set_frames_of (frames s) s). by rewrite set_frames_of_id.
Qed.

Lemma poll_write_idle s e : Buffer.avail (send_buffer s) = O → poll_write_to s e = (Done (Ok (Ready O)), s, e).
Proof.
  intros Ha. unfold poll_write_to. rewrite bind_get.
  by erewrite io_bind_ok by (unfold Buffer.write_slices, Buffer.available_data; rewrite Ha; done).
Qed.

(** C37: pausing publishes can stop all writing.  While the server asked to pause the flow
    and only publishes are queued, [write_to_stream] has nothing to write, takes that for a
    socket that would block and marks it not writable, although the socket was not
    asked to wake anybody.  From then on nothing is written, not even after the
    flow is resumed, until the socket reports an event by itself. *)
Theorem paused_flow_stalls s e now :
  Channels.flow (channels s) = false → SocketState.writable (socket_state s) = true →
  ConnectionStatus.blocked (connection_status s) = false →
  Buffer.avail (send_buffer s) = O → (∃ st, poll_flush (stream s) = (Ok (Ready tt), st)) →
  Frames.retry_frames (frames s) = [] → Frames.publish_frames (frames s) = [] →
  Frames.frames (frames s) = [] → Frames.low_prio_frames (frames s) ≠ [] →
  can_write s = true ∧
  let r := write_to_stream now s e in
  result_of r = Done (Ok tt) ∧ queued (frames (state_of r)) = queued (frames s) ∧
  SocketState.writable (socket_state (state_of r)) = false ∧
  ∀ c fuel now' e', write (S fuel) now' (set_channels c (state_of r)) e' = (Done (Ok tt), set_channels c (state_of r), e').
Proof.
  intros Hflow Hwr Hbl Hav (st & Hfl) H1 H2 H3 H4.
  assert (Hpop : Frames.pop_ (frames s) (Channels.flow (channels s)) = (None, frames s)).
  { unfold Frames.pop_. by rewrite H1, H2, H3, Hflow. }
  assert (Hw : write_to_stream now s e =
    (Done (Ok tt), set_socket_state (SocketState.set_writable false (socket_state s)) (set_stream st s), e)).
  { unfold write_to_stream. erewrite io_bind_ok by (unfold flush; rewrite bind_get, Hfl; done).
    erewrite io_bind_ok by by apply serialize_idle.
    by erewrite io_bind_ok by by apply poll_write_idle. }
  rewrite Hw. split.
  - unfold can_write. rewrite Hwr, Hbl. unfold has_data, Frames.has_pending. rewrite H1, H2, H3.
    by rewrite (bool_decide_eq_false_2 (Frames.low_prio_frames (frames s) = [])).
  - done.
Qed.


(** ** Reading *)

Section Read.
Variables (ok : AMQPFrame → Prop) (enc : AMQPFrame → list byte).
Hypotheses (HC : codec_laws ok enc).

Definition encoded (fs : list AMQPFrame) : list byte := concat (enc <$> fs).

(** The beginning of a frame, not all of it. *)
Definition partial (x : list byte) : Prop := x = [] ∨ ∃ f rest, ok f ∧ enc f = x ++ rest ∧ rest ≠ [].

(** The connection still reads. *)
Definition reads (c : Channels.t) : Prop :=
  ConnectionStatus.state (Channels.connection_status c) ∉ [CoClosed; CoError].

(** Frames the codec knows, none larger than the limit negotiated when it is parsed, and
    all accepted by the channels, without closing the connection. *)
Fixpoint accepted (fs : list AMQPFrame) (c : Channels.t) (e : Env) : Prop :=
  match fs with
  | [] => reads c
  | f :: fs =>
    let m := Configuration.frame_max (Channel.configuration (Channels.conn c)) in
    reads c ∧ ok f ∧ (m = 0 ∨ Z.of_nat (length (enc f)) ≤ m) ∧
    result_of (Channels.handle_frame f c e) = Ok tt ∧
    accepted fs (state_of (Channels.handle_frame f c e)) (env_of (Channels.handle_frame f c e))
  end.

Definition received (c : Channels.t) (b : Buffer.t) (s : t) : t := set_receive_buffer b (set_channels c s).

Lemma parse_frame_eq f rest s e :
  ok f → Buffer.wf (receive_buffer s) → Buffer.contents (receive_buffer s) = enc f ++ rest →
  Configuration.frame_max (configuration s) = 0 ∨
    Z.of_nat (length (enc f)) ≤ Configuration.frame_max (configuration s) →
  ∃ b, parse s e = (Done (Ok (Some f)), set_receive_buffer b s, e) ∧ Buffer.wf b ∧ Buffer.contents b = rest ∧
       Buffer.capacity b = Buffer.capacity (receive_buffer s).
Proof.
  intros Hok Hwf Hc Hm. destruct (Buffer.parsing_context_spec _ Hwf) as (c & Hctx & Hi).
  rewrite Hc in Hi. destruct (parse_whole _ _ HC f c rest Hok Hi) as (i & Hp & Ht).
  destruct (enc_size _ _ HC f Hok) as [Hpos _].
  assert (Hav : (length (enc f) ≤ Buffer.avail (receive_buffer s))%nat).
  { rewrite <- (Buffer.length_contents _ Hwf), Hc, length_app. lia. }
  destruct (Buffer.offset_after (receive_buffer s) (length (enc f)) c i) as [Ho _]; [done|lia|done|done|].
  destruct (Buffer.consume_spec (receive_buffer s) (length (enc f)) Hwf) as (b & Hb & Hwf' & Hcap & Hcont).
  exists b. split_and!; [|done|by rewrite Hcont, Hc, drop_app_length|done].
  unfold parse. rewrite bind_get. erewrite io_bind_ok by (rewrite Hctx; done).
  erewrite io_bind_ok by (rewrite Hp; done). cbv iota beta.
  erewrite io_bind_ok by (rewrite Ho; done). cbv zeta.
  assert (Hle : (0 <? Configuration.frame_max (configuration s)) &&
    (Configuration.frame_max (configuration s) <? Z.of_nat (length (enc f))) = false).
  { destruct (Z.ltb_spec 0 (Configuration.frame_max (configuration s))); [simpl; apply Z.ltb_ge; lia|done]. }
  rewrite Hle. erewrite io_bind_ok by done. erewrite io_bind_ok by (rewrite Hb; done). done.
Qed.

Lemma parse_incomplete x s e :
  partial x → x ≠ [] → Buffer.wf (receive_buffer s) → Buffer.contents (receive_buffer s) = x →
  parse s e = (Done (Ok None), s, e).
Proof.
  intros [->|(f & rest & Hok & He & Hr)] Hne Hwf Hc; [done|].
  destruct (Buffer.parsing_context_spec _ Hwf) as (c & Hctx & Hi). rewrite Hc in Hi.
  unfold parse. rewrite bind_get. erewrite io_bind_ok by (rewrite Hctx; done).
  erewrite io_bind_ok by (rewrite (parse_partial _ _ HC f c rest) by (done || by rewrite Hi); done). done.
Qed.

Lemma handle_frames_cons f fs c e c' e' : Channels.handle_frame f c e = (Ok tt, c', e') →
  Channels.handle_frames (f :: fs) c e = Channels.handle_frames fs c' e'.
Proof. intros E. cbn [Channels.handle_frames]. unfold try_bind, mbind, M_bind. by rewrite E. Qed.

Lemma handle_frames_loop_eq fs : ∀ fuel b0 x s e,
  Buffer.wf (receive_buffer s) → Buffer.contents (receive_buffer s) = encoded fs ++ x → partial x →
  accepted fs (channels s) e → (length fs < fuel)%nat →
  ∃ b, handle_frames_loop fuel b0 s e =
      (Done (Ok (match fs with [] => b0 | _ => true end)),
       received (state_of (Channels.handle_frames fs (channels s) e)) b s,
       env_of (Channels.handle_frames fs (channels s) e)) ∧
    Buffer.wf b ∧ Buffer.contents b = x ∧ Buffer.capacity b = Buffer.capacity (receive_buffer s).
Proof.
  induction fs as [|f fs IH]; intros fuel b0 x s e Hwf Hc Hx Ha Hf; (destruct fuel as [|fuel]; [simpl in Hf; lia|]);
    cbn [handle_frames_loop]; rewrite bind_get.
  - exists (receive_buffer s). simpl in Hc. split_and!; try done.
    assert (Hs : received (state_of (Channels.handle_frames [] (channels s) e)) (receive_buffer s) s = s)
      by by destruct s.
    rewrite Hs.
    unfold can_parse, Buffer.available_data. rewrite <- (Buffer.length_contents _ Hwf), Hc.
    destruct x as [|y x]; [done|]. rewrite (proj2 (Z.ltb_lt _ _)) by (simpl; lia).
    erewrite io_bind_ok by (apply (parse_incomplete (y :: x)); done). done.
  - destruct Ha as (_ & Hok & Hm & Hr & Ha). unfold encoded in Hc. rewrite fmap_cons in Hc. cbn [concat] in Hc.
    fold (encoded fs) in Hc. rewrite <- app_assoc in Hc.
    assert (Hcp : can_parse s = true).
    { unfold can_parse, Buffer.available_data. rewrite <- (Buffer.length_contents _ Hwf), Hc, length_app.
      destruct (enc_size _ _ HC f Hok). apply Z.ltb_lt. lia. }
    rewrite Hcp. destruct (parse_frame_eq f (encoded fs ++ x) s e) as (b & Hp & Hwf' & Hc' & Hcap); [done..|].
    erewrite io_bind_ok by exact Hp. cbv iota beta.
    destruct (Channels.handle_frame f (channels s) e) as [[r c'] e'] eqn:Eh.
    unfold result_of, state_of, env_of in Hr, Ha. cbn [fst snd] in Hr, Ha. subst r.
    rewrite (handle_frames_cons _ _ _ _ _ _ Eh).
    erewrite bind_eq by (unfold in_channels, zoom; cbn [channels set_receive_buffer]; rewrite Eh; done). cbv iota beta.
    destruct (IH fuel true x (received c' b s) e') as (b' & Hl & Hwf2 & Hc2 & Hcap2);
      [done|done|done|done|simpl in Hf; lia|].
    exists b'. split_and!; [|done|done|by rewrite Hcap2].
    change (set_channels c' (set_receive_buffer b s)) with (received c' b s). rewrite Hl.
    by destruct fs.
Qed.

Lemma handle_frames_eq fs x s e :
  Buffer.wf (receive_buffer s) → Buffer.contents (receive_buffer s) = encoded fs ++ x → partial x →
  accepted fs (channels s) e →
  ∃ b, handle_frames s e =
      (Done (Ok (match fs with [] => false | _ => true end)),
       received (state_of (Channels.handle_frames fs (channels s) e)) b s,
       env_of (Channels.handle_frames fs (channels s) e)) ∧
    Buffer.wf b ∧ Buffer.contents b = x ∧ Buffer.capacity b = Buffer.capacity (receive_buffer s).
Proof.
  intros Hwf Hc Hx Ha. unfold handle_frames. rewrite bind_get. apply handle_frames_loop_eq; try done.
  unfold Buffer.available_data. rewrite <- (Buffer.length_contents _ Hwf), Hc, length_app.
  assert (Hlen : (length fs ≤ length (encoded fs))%nat); [|lia].
  clear Hc Hwf Hx. revert Ha. generalize (channels s) e. induction fs as [|f fs IH]; [done|].
  intros c e1 (_ & Hok & _ & _ & Ha). apply IH in Ha. destruct (enc_size _ _ HC f Hok).
  unfold encoded in *. cbn [fmap list_fmap concat length]. rewrite length_app. lia.
Qed.

(** *** Input in pieces *)

(** The socket delivers these pieces, one per read. *)
Inductive delivers : Stream → list (list byte) → Prop :=
| delivers_nil st : delivers st []
| delivers_cons st x st' l :
    (∀ space, (length x ≤ space)%nat → poll_read st space = (Ok (Ready x), st')) →
    delivers st' l → delivers st (x :: l).

(** Several turns of reading and dispatching. *)
Fixpoint turns (n : nat) (now : Z) : Io unit :=
  match n with
  | O => io_ret tt
  | S n => let* _ := read_from_stream now in let* _ := handle_frames in turns n now
  end.

Lemma encoded_app fs1 fs2 : encoded (fs1 ++ fs2) = encoded fs1 ++ encoded fs2.
Proof. unfold encoded. by rewrite fmap_app, concat_app. Qed.

(** [x] is the beginning of the first frame of [fs], not all of it. *)
Definition begins (fs : list AMQPFrame) (x : list byte) : Prop :=
  x = [] ∨ ∃ f fs' z, fs = f :: fs' ∧ ok f ∧ enc f = x ++ z ∧ z ≠ [].

Lemma begins_partial fs x : begins fs x → partial x.
Proof. intros [->|(f & fs' & z & _ & H)]; [by left|right]. by exists f, z. Qed.

Lemma begins_length fs x m : begins fs x → Forall (λ f, (length (enc f) ≤ m)%nat) fs → (length x ≤ m)%nat.
Proof.
  intros [->|(f & fs' & z & -> & _ & Hf & _)] Hm; [simpl; lia|].
  apply Forall_cons in Hm as [Hm _]. rewrite Hf, length_app in Hm. lia.
Qed.

Lemma begins_not_whole fs x : begins fs x → Forall ok fs → x = encoded fs → fs = [].
Proof.
  intros [->|(f & fs' & z & -> & _ & Hf & Hz)] Hok Hx.
  - destruct fs as [|f fs]; [done|]. apply Forall_cons in Hok as [Hok _]. destruct (enc_size _ _ HC f Hok) as [H _].
    unfold encoded in Hx. cbn [fmap list_fmap concat] in Hx. symmetry in Hx. apply app_nil in Hx as [Hx _].
    rewrite Hx in H. simpl in H. lia.
  - exfalso. apply Hz. change (encoded (f :: fs')) with (enc f ++ encoded fs') in Hx.
    apply (f_equal length) in Hx. rewrite Hf, !length_app in Hx. destruct z; [done|simpl in Hx; lia].
Qed.

(** Where the input is cut, some frames are complete and at most one is not. *)
Lemma split_encoded fs : ∀ w rest, Forall ok fs → encoded fs = w ++ rest →
  ∃ fs1 fs2 y, fs = fs1 ++ fs2 ∧ w = encoded fs1 ++ y ∧ encoded fs2 = y ++ rest ∧
    begins fs2 y.
Proof.
  induction fs as [|f fs IH]; intros w rest Hok E.
  - destruct w; [|done]. exists [], [], []. split_and!; try done. by left.
  - apply Forall_cons in Hok as [Hf Hok]. change (encoded (f :: fs)) with (enc f ++ encoded fs) in E.
    destruct (decide (length (enc f) ≤ length w)%nat) as [Hle|Hlt].
    + assert (Hw : w = enc f ++ drop (length (enc f)) w).
      { rewrite <- (take_drop (length (enc f)) w) at 1. f_equal.
        apply (f_equal (take (length (enc f)))) in E. by rewrite take_app_length, take_app_le in E by done. }
      rewrite Hw, <- app_assoc in E. apply app_inv_head in E.
      destruct (IH _ _ Hok E) as (fs1 & fs2 & y & -> & Hd & H2 & H3).
      exists (f :: fs1), fs2, y. split_and!; try done. rewrite Hw, Hd.
      change (encoded (f :: fs1)) with (enc f ++ encoded fs1). by rewrite app_assoc.
    + exists [], (f :: fs), w. split_and!; try done.
      right. exists f, fs, (drop (length w) (enc f)). split_and!; [done|done| |].
      * rewrite <- (take_drop (length w) (enc f)) at 1. f_equal.
        apply (f_equal (take (length w))) in E. by rewrite take_app_length, take_app_le in E by lia.
      * intros H. apply (f_equal length) in H. rewrite length_drop in H. simpl in H. lia.
Qed.

Lemma accepted_app fs1 : ∀ fs2 c e, accepted (fs1 ++ fs2) c e →
  accepted fs1 c e ∧
  accepted fs2 (state_of (Channels.handle_frames fs1 c e)) (env_of (Channels.handle_frames fs1 c e)) ∧
  Channels.handle_frames (fs1 ++ fs2) c e =
  Channels.handle_frames fs2 (state_of (Channels.handle_frames fs1 c e)) (env_of (Channels.handle_frames fs1 c e)).
Proof.
  induction fs1 as [|f fs1 IH]; intros fs2 c e Ha.
  - split_and!; try done. by destruct fs2; [|destruct Ha].
  - destruct Ha as (Hr & Hok & Hm & Hres & Ha). simpl app.
    destruct (Channels.handle_frame f c e) as [[r c'] e'] eqn:E. unfold result_of, state_of, env_of in Hres, Ha.
    cbn [fst snd] in Hres, Ha. subst r. rewrite !(handle_frames_cons _ _ _ _ _ _ E).
    destruct (IH fs2 c' e' Ha) as (H1 & H2 & H3). split_and!; try done.
    cbn [accepted]. by rewrite E.
Qed.

Lemma accepted_ok fs : ∀ c e, accepted fs c e → Forall ok fs.
Proof. induction fs as [|f fs IH]; intros c e; [done|]. intros (_ & Hok & _ & _ & Ha). constructor; [done|]. by eapply IH. Qed.

Lemma accepted_reads fs c e : accepted fs c e → reads c.
Proof. by destruct fs; [|intros []]. Qed.

Lemma read_from_stream_eq x st now s e :
  reads (channels s) → Buffer.wf (receive_buffer s) → x ≠ [] →
  (length x ≤ Buffer.capacity (receive_buffer s) - Buffer.avail (receive_buffer s))%nat →
  (∀ space, (length x ≤ space)%nat → poll_read (stream s) space = (Ok (Ready x), st)) →
  ∃ s', read_from_stream now s e = (Done (Ok false), s', e) ∧ channels s' = channels s ∧ stream s' = st ∧
    Buffer.wf (receive_buffer s') ∧ Buffer.capacity (receive_buffer s') = Buffer.capacity (receive_buffer s) ∧
    Buffer.contents (receive_buffer s') = Buffer.contents (receive_buffer s) ++ x.
Proof.
  intros Hr Hwf Hne Hfit Hp. pose proof (Buffer.wf_avail _ Hwf) as Hav.
  assert (Hlen : (0 < length x)%nat) by (destruct x; [done|simpl; lia]).
  destruct (Buffer.read_fill_spec (receive_buffer s) x Hwf) as (b & Hb & Hwf' & Hcap & Hpos & Hav' & Hcells).
  assert (Hpr : poll_read_from s e = (Done (Ok (Ready (length x))), set_receive_buffer b (set_stream st s), e)).
  { unfold poll_read_from. rewrite bind_get.
    erewrite io_bind_ok by (unfold Buffer.available_space; rewrite usub_Some by lia; done).
    destruct (Buffer.capacity _ - Buffer.avail _)%nat as [|n] eqn:En; [lia|]. rewrite Hp by lia.
    rewrite bind_modify. erewrite io_bind_ok by (rewrite Hb; done). rewrite bind_modify. simpl snd.
    cbn [fst]. rewrite Nat.min_l by lia. done. }
  exists (set_heartbeat (Heartbeat.set_last_read now (heartbeat s)) (set_receive_buffer b (set_stream st s))).
  split_and!; try done.
  - unfold read_from_stream. rewrite bind_get.
    unfold reads in Hr. fold (connection_status s) in Hr.
    destruct (ConnectionStatus.state (connection_status s));
      first [by (exfalso; apply Hr; left)|by (exfalso; apply Hr; right; left)
            |erewrite io_bind_ok by exact Hpr; destruct (length x); (lia || done)].
  - change (Buffer.contents b = Buffer.contents (receive_buffer s) ++ x).
    rewrite (Buffer.appended_contents (receive_buffer s) b x); try done. by rewrite take_ge by lia.
Qed.

Lemma turns_eq now m l : ∀ fs s e,
  Buffer.wf (receive_buffer s) → begins fs (Buffer.contents (receive_buffer s)) →
  Buffer.contents (receive_buffer s) ++ concat l = encoded fs → delivers (stream s) l → Forall (λ z, z ≠ []) l →
  Forall (λ f, (length (enc f) ≤ m)%nat) fs → Forall (λ z, (m + length z ≤ Buffer.capacity (receive_buffer s))%nat) l →
  accepted fs (channels s) e →
  ∃ s', turns (length l) now s e = (Done (Ok tt), s', env_of (Channels.handle_frames fs (channels s) e)) ∧
    channels s' = state_of (Channels.handle_frames fs (channels s) e) ∧
    Buffer.contents (receive_buffer s') = [].
Proof.
  induction l as [|z l IH]; intros fs s e Hwf Hx Hall Hdel Hne Hm Hcap Ha.
  - simpl in Hall. rewrite app_nil_r in Hall. assert (fs = []) as ->.
    { eapply begins_not_whole; [exact Hx|by eapply accepted_ok|done]. }
    by exists s.
  - apply Forall_cons in Hne as [Hz Hne]. apply Forall_cons in Hcap as [Hc Hcap].
    inversion Hdel as [|? ? st ? Hp Hdel']; subst. cbn [length turns].
    pose proof (begins_length _ _ _ Hx Hm) as Hlx. rewrite Buffer.length_contents in Hlx by done.
    destruct (read_from_stream_eq z st now s e) as (s1 & Hread & Hch & Hst & Hwf1 & Hcap1 & Hc1);
      [by eapply accepted_reads|done|done|lia|done|].
    erewrite io_bind_ok by exact Hread. cbn [concat] in Hall. rewrite app_assoc, <- Hc1 in Hall. symmetry in Hall.
    destruct (split_encoded _ _ _ (accepted_ok _ _ _ Ha) Hall) as (fs1 & fs2 & y & -> & Hy & Hrest & Hbeg).
    destruct (accepted_app _ _ _ _ Ha) as (Ha1 & Ha2 & ->). rewrite <- Hch in Ha1, Ha2 |- *.
    destruct (handle_frames_eq fs1 y s1 e) as (b & Hh & Hwfb & Hcb & Hcapb); [done|done|by eapply begins_partial|done|].
    erewrite io_bind_ok by exact Hh. apply Forall_app in Hm as [_ Hm].
    destruct (IH fs2 (received (state_of (Channels.handle_frames fs1 (channels s1) e)) b s1)
      (env_of (Channels.handle_frames fs1 (channels s1) e))) as (s' & -> & H1 & H2);
      [done|simpl; by rewrite Hcb|simpl; by rewrite Hcb|simpl; by rewrite Hst|done|done| |done|by exists s'].
    eapply Forall_impl; [exact Hcap|]. intros w. simpl. by rewrite Hcapb, Hcap1.
Qed.

End Read.

(** C5: it does not matter how the input is cut.  When the socket delivers the encodings of
    frames in any non-empty pieces (pieces that hold several frames, or cut
    one anywhere, its length prefix included), reading and dispatching piece by piece has exactly the effect of
    dispatching the frames one after the other: no frame is lost, doubled or
    reordered, the parser never fails on an incomplete frame, and nothing is left in the buffer.  The
    receive buffer has to hold one piece beside the largest frame. *)
Theorem input_in_pieces ok enc now m l fs s e :
  codec_laws ok enc → Buffer.wf (receive_buffer s) → Buffer.avail (receive_buffer s) = O →
  concat l = encoded enc fs → delivers (stream s) l → Forall (λ z, z ≠ []) l →
  Forall (λ f, (length (enc f) ≤ m)%nat) fs → Forall (λ z, (m + length z ≤ Buffer.capacity (receive_buffer s))%nat) l →
  accepted ok enc fs (channels s) e →
  ∃ s', turns (length l) now s e = (Done (Ok tt), s', env_of (Channels.handle_frames fs (channels s) e)) ∧
    channels s' = state_of (Channels.handle_frames fs (channels s) e) ∧
    Buffer.contents (receive_buffer s') = [].
Proof.
  intros HC Hwf Hav Hall Hd Hne Hm Hcap Ha.
  assert (Hx : Buffer.contents (receive_buffer s) = []).
  { apply nil_length_inv. by rewrite Buffer.length_contents. }
  apply (turns_eq ok enc HC now m l fs s e); try done; rewrite Hx; [by left|done].
Qed.

Definition keeps_rpc {S A} (m : M S A) : Prop := ∀ s e, rpc (env_of (m s e)) = rpc e.

Lemma keeps_rpc_bind {S A B} (m : M S A) (k : A → M S B) :
  keeps_rpc m → (∀ a, keeps_rpc (k a)) → keeps_rpc (m ≫= k).
Proof.
  intros Hm Hk s e. unfold mbind, M_bind. specialize (Hm s e). destruct (m s e) as [[a s'] e'].
  unfold env_of in *. simpl in *. rewrite <- Hm. apply Hk.
Qed.

Lemma keeps_rpc_complete {S} p r : keeps_rpc (complete p r : M S unit).
Proof. intros s e. unfold complete, modify_env, env_of, promise_set. simpl. by destruct (promises e !! p). Qed.

Lemma keeps_rpc_reject_all {S} (l : list (FrameSize * Frames.FrameSending)) err :
  keeps_rpc (for_each l (λ x, Frames.sending_reject x.2 err) : M S unit).
Proof.
  induction l as [|[n [c r]] l IH]; [done|]. apply keeps_rpc_bind; [|done].
  destruct r; [apply keeps_rpc_complete|]. destruct c; [apply keeps_rpc_complete|done].
Qed.

Lemma state_reject_all (l : list (FrameSize * Frames.FrameSending)) err (s : t) e :
  state_of (for_each l (λ x, Frames.sending_reject x.2 err) s e) = s.
Proof.
  apply (keeps_state_for_each l (λ x, Frames.sending_reject x.2 err)). intros [n [c r]] s1 e1.
  unfold Frames.sending_reject. simpl. by destruct r; [|destruct c].
Qed.

(** What the drop of the connection of a pending handshake queues. *)
Definition handshake_closing (c : Channels.t) : list InternalCommand :=
  match Frames.steps (Frames.expected_replies (Channel.frames (Channels.conn c)) !!! 0) with
  | st :: _ => if negb (closer_noop (step_connection st)) && ConnectionStatus.auto_close (Channels.connection_status c)
               then [CSetConnectionClosing; CCloseConnection REPLY_SUCCESS "OK" 0 0 None] else []
  | [] => []
  end.

Lemma reject_connection_rpc err c e : rpc (env_of (Channels.reject_connection err c e)) = rpc e ++ handshake_closing c.
Proof.
  unfold Channels.reject_connection, handshake_closing, Channels.in_frames, zoom. rewrite lookup_total_alt.
  unfold mbind at 1, M_bind at 1.
  destruct (Frames.connection_resolver_cases 0 (Channel.frames (Channels.conn c)) e) as [[E Hn]|(l1 & er & st & l2 & El & Hl1 & Er & E)];
    rewrite E.
  - destruct (_ !! 0) as [l|] eqn:El; simpl; [|by rewrite app_nil_r].
    destruct (Frames.steps_none l (Hn l eq_refl)) as [-> _]. by rewrite app_nil_r.
  - rewrite El. simpl. rewrite Frames.steps_app, (proj1 (Frames.steps_none l1 Hl1)), Frames.steps_cons, Er. simpl.
    unfold Channels.drop_connection, mbind, M_bind. rewrite drop_connection_eq. unfold reject. rewrite keeps_rpc_complete.
    change (Channels.connection_status (Channels.set_conn _ c)) with (Channels.connection_status c).
    destruct (_ && _); [by rewrite ConnectionCloser.closing_queued_eq|by rewrite app_nil_r].
Qed.

(** An error that is not of the socket and cannot be recovered from. *)
Lemma critical_error_stops {A} err s e :
  is_io_error err = false → can_recover (Channel.auto_recover (Channels.conn (channels s))) err = false →
  ∃ s' e', (critical_error err : Io A) s e = (Done (Err err), s', e') ∧ receive_buffer s' = receive_buffer s ∧
    status s' = Stop ∧ serialized_frames s' = [] ∧ rpc e' = rpc e ++ handshake_closing (channels s) ++ [CSetConnectionError err].
Proof.
  intros Hio Hr. unfold critical_error. rewrite bind_get, Hio. erewrite bind_eq by done. rewrite Hr.
  unfold in_channels, zoom. pose proof (reject_connection_rpc err (channels s) e) as Hrpc.
  unfold mbind at 1, M_bind at 1. destruct (Channels.reject_connection err (channels s) e) as [[[] c] e1].
  unfold stop, clear_serialized_frames. rewrite bind_modify. rewrite (bind_eq _ _ tt _ _ _ _ eq_refl).
  rewrite bind_assoc, bind_get, bind_assoc, bind_modify.
  set (s1 := set_serialized [] _). set (e2 := set_wakes _ _).
  set (l := serialized_frames _).
  pose proof (state_reject_all l err s1 e2) as Hs. pose proof (keeps_rpc_reject_all l err s1 e2) as He.
  unfold mbind at 1, M_bind at 1. destruct (for_each l _ s1 e2) as [[[] s2] e3].
  unfold state_of, env_of in Hs, He, Hrpc. cbn [fst snd] in *. subst s2. exists s1, e3. split_and!; try done.
  rewrite He. unfold e2. simpl. by rewrite Hrpc, <- app_assoc.
Qed.

Lemma critical_error_recovers {A} err s e :
  is_io_error err = false → can_recover (Channel.auto_recover (Channels.conn (channels s))) err = true →
  (critical_error err : Io A) s e =
  (Done (Err err), s, set_wakes (S (wakes e)) (set_rpc (rpc e ++ [CInitConnectionRecovery err]) e)).
Proof. intros Hio Hr. unfold critical_error. rewrite bind_get, Hio. erewrite bind_eq by done. by rewrite Hr. Qed.

Lemma report_violation_eq err s e :
  in_channels (Channels.in_channel0 (Channel.report_protocol_violation err 0 0)) s e =
  (Err (error_from (ProtocolError err)), s,
   set_wakes (3 + wakes e) (set_rpc (rpc e ++
     [CSetConnectionClosing; CCloseConnection (get_id (amqp_kind err)) (amqp_message err) 0 0 None;
      CSetConnectionError (error_from (ProtocolError err))]) e)).
Proof.
  unfold in_channels, zoom, Channels.in_channel0, Channel.report_protocol_violation, Channel.close_connection_for,
    rpc_close_connection, rpc_set_connection_closing, rpc_set_connection_error, rpc_send, wake, modify_env, mbind, M_bind, mret, M_ret.
  cbn [rpc set_rpc set_wakes wakes Channel.self Channel.conn]. rewrite <- !app_assoc. by destruct s as [[]].
Qed.

(** A frame larger than negotiated is refused.  When the parser finds a whole frame
    larger than the negotiated maximum, the frame is not dispatched and stays in the buffer:
    the parse fails with a FRAME_ERROR, the connection is told to close with that code, and the
    loop starts a recovery or, when that is not possible, drops a pending handshake, stops and fails
    everything pending. *)
Theorem large_frame_refused ok enc f rest s e :
  codec_laws ok enc → ok f → Buffer.wf (receive_buffer s) → Buffer.contents (receive_buffer s) = enc f ++ rest →
  0 < Configuration.frame_max (configuration s) < Z.of_nat (length (enc f)) →
  ∃ msg s' e', let err := error_from (ProtocolError (mkAMQPError (Hard FRAMEERROR) msg)) in
  parse s e = (Done (Err err), s', e') ∧ receive_buffer s' = receive_buffer s ∧
  rpc e' = rpc e ++
    [CSetConnectionClosing; CCloseConnection (get_id (Hard FRAMEERROR)) msg 0 0 None; CSetConnectionError err] ++
    (if Channel.auto_recover (Channels.conn (channels s)) then [CInitConnectionRecovery err]
     else handshake_closing (channels s) ++ [CSetConnectionError err]) ∧
  (Channel.auto_recover (Channels.conn (channels s)) = false → status s' = Stop ∧ serialized_frames s' = []).
Proof.
  intros HC Hok Hwf Hc Hm. destruct (Buffer.parsing_context_spec _ Hwf) as (c & Hctx & Hi). rewrite Hc in Hi.
  destruct (parse_whole _ _ HC f c rest Hok Hi) as (i & Hp & Ht).
  assert (Hav : (length (enc f) ≤ Buffer.avail (receive_buffer s))%nat).
  { rewrite <- (Buffer.length_contents _ Hwf), Hc, length_app. lia. }
  destruct (Buffer.offset_after (receive_buffer s) (length (enc f)) c i) as [Ho _]; [done|lia|done|done|].
  set (msg := ("frame too large: " +:+ pretty (Z.of_nat (length (enc f))) +:+ " bytes")%string).
  set (err := error_from (ProtocolError (mkAMQPError (Hard FRAMEERROR) msg))). exists msg. cbv zeta. fold err.
  unfold parse. rewrite bind_get. erewrite io_bind_ok by (rewrite Hctx; done).
  erewrite io_bind_ok by (rewrite Hp; done). cbv iota beta. erewrite io_bind_ok by (rewrite Ho; done). cbv zeta.
  rewrite (proj2 (Z.ltb_lt 0 _)), (proj2 (Z.ltb_lt (Configuration.frame_max _) _)) by lia. cbn [andb].
  destruct (Channel.auto_recover (Channels.conn (channels s))) eqn:Ea.
  - erewrite io_bind_err by (erewrite bind_eq by apply report_violation_eq; cbv iota;
      apply critical_error_recovers; [done|by rewrite Ea]).
    eexists _, _. split_and!; try done. simpl. by rewrite <- app_assoc.
  - destruct (critical_error_stops (A := unit) err s (set_wakes (3 + wakes e) (set_rpc (rpc e ++
     [CSetConnectionClosing; CCloseConnection (get_id (Hard FRAMEERROR)) msg 0 0 None; CSetConnectionError err]) e)))
      as (s' & e' & Hce & H1 & H2 & H3 & H4); [done|by rewrite Ea|].
    erewrite io_bind_err by (erewrite bind_eq by apply report_violation_eq; cbv iota; exact Hce).
    exists s', e'. split_and!; try done. rewrite H4. simpl. by rewrite <- app_assoc.
Qed.



End IoLoop.

Arguments Done {A} r.
Arguments Panic {A}.
Arguments OutOfFuel {A}.

(** ** A small codec and socket, to evaluate the model *)

Section Witnesses.
#[local] Existing Instances number_types number_protocol number_handle.
#[local] Instance z_order : HashOrder Z := canonical_order Z.
#[local] Instance s_order : HashOrder string := canonical_order string.

(** Heartbeats; bodies of one byte, [tx.select] and [tx.select-ok] on channel 1; a message of one byte published on channel 1, and its ack. *)
Definition demo_publish : AMQPFrame := Method 1 (BasicPublish "e" "k" false false).
Definition demo_header : AMQPFrame := Header 1 (mkContentHeader 60 1 0%nat).
Definition demo_ack : AMQPFrame := Method 1 (BasicAck 1 false).
Definition demo_ok (f : AMQPFrame) : Prop :=
  f = HeartbeatFrame ∨ (∃ b, f = Body 1 [b]) ∨ f = Method 1 TxSelect ∨ f = Method 1 TxSelectOk ∨ f = demo_publish ∨ f = demo_header ∨ f = demo_ack.
Definition demo_enc (f : AMQPFrame) : list byte :=
  match f with
  | HeartbeatFrame => [Byte.x08]
  | Body 1 [b] => [Byte.x03; b]
  | Method 1 TxSelect => [Byte.x01; Byte.x0a]
  | Method 1 TxSelectOk => [Byte.x01; Byte.x0b]
  | Method 1 (BasicPublish "e" "k" false false) => [Byte.x01; Byte.x0c]
  | Header 1 _ => [Byte.x02; Byte.x01]
  | Method 1 (BasicAck 1 false) => [Byte.x01; Byte.x0d]
  | _ => []
  end.

Definition demo_gen (f : AMQPFrame) (b : Buffer.t) : option (result Buffer.GenError nat * Buffer.t) :=
  match demo_enc f with
  | [] => Some (Err Buffer.GenOther, b)
  | bs =>
    let? (n, b') := Buffer.write b bs in
    Some (if decide (n = length bs) then Ok n else Err (Buffer.BufferTooSmall (length bs - n)), b')
  end.

Definition demo_parse (c : Parsing.Ctx) : option (result ParseError (Parsing.Ctx * AMQPFrame)) :=
  match Parsing.iter c with
  | [] | [Byte.x03] | [Byte.x01] | [Byte.x02] => Some (Err Incomplete)
  | Byte.x01 :: Byte.x0a :: _ => let? i := Parsing.take_from c 2 in Some (Ok (i, Method 1 TxSelect))
  | Byte.x01 :: Byte.x0b :: _ => let? i := Parsing.take_from c 2 in Some (Ok (i, Method 1 TxSelectOk))
  | Byte.x01 :: Byte.x0c :: _ => let? i := Parsing.take_from c 2 in Some (Ok (i, demo_publish))
  | Byte.x01 :: Byte.x0d :: _ => let? i := Parsing.take_from c 2 in Some (Ok (i, demo_ack))
  | Byte.x02 :: _ :: _ => let? i := Parsing.take_from c 2 in Some (Ok (i, demo_header))
  | Byte.x08 :: _ => let? i := Parsing.take_from c 1 in Some (Ok (i, HeartbeatFrame))
  | Byte.x03 :: b :: _ => let? i := Parsing.take_from c 2 in Some (Ok (i, Body 1 [b]))
  | _ => Some (Err Malformed)
  end.

#[local] Instance demo_codec : FrameCodec := {| gen_frame := demo_gen; parse_frame := demo_parse |}.

(** A socket that takes at most two bytes at a time: what it took and what it will deliver. *)
#[local] Instance demo_socket : Transport := {|
  Stream := list byte * list (list byte);
  poll_flush st := (Ok (Ready tt), st);
  poll_write st ss := let n := (2 `min` length (concat ss))%nat in
    (Ok (Ready n), (st.1 ++ take n (concat ss), st.2));
  poll_read st space := match st.2 with
    | x :: l => if decide (length x ≤ space)%nat then (Ok (Ready x), (st.1, l)) else (Ok Pending, st)
    | [] => (Ok Pending, st)
    end;
  is_shutdown _ := false;
|}.

Lemma demo_write b bs : Buffer.wf b → ∃ n b', Buffer.write b bs = Some (n, b') ∧
  n = (length bs `min` (Buffer.capacity b - Buffer.avail b))%nat ∧
  Buffer.appends b b' (take (Buffer.capacity b - Buffer.avail b) bs).
Proof.
  intros Hwf. destruct (Buffer.write_spec b bs Hwf) as (b' & E & _). eexists _, b'. split; [exact E|]. split; [done|].
  by eapply Buffer.write_appends.
Qed.

Lemma demo_enc_cases f : demo_ok f → (∃ x y, demo_enc f = [x; y]) ∨ ∃ x, demo_enc f = [x].
Proof. intros [->|[[b ->]|[->|[->|[->|[->| ->]]]]]]; [right|left..]; eauto. Qed.

Lemma demo_laws : codec_laws demo_ok demo_enc.
Proof.
  split.
  - intros f [(x & y & ->)|(x & ->)]%demo_enc_cases; simpl; lia.
  - intros f b Hok Hwf Hfit. destruct (demo_write b (demo_enc f) Hwf) as (n & b' & E & Hn & Ha).
    exists b'. rewrite take_ge in Ha by lia. split; [|done]. simpl. unfold demo_gen.
    apply demo_enc_cases in Hok as [(x & y & Ee)|(x & Ee)]; rewrite Ee in *; rewrite E;
      by rewrite Hn, Nat.min_l, decide_True by (simpl in *; lia).
  - intros f b Hok Hwf Hfit. destruct (demo_write b (demo_enc f) Hwf) as (n & b' & E & Hn & Ha).
    exists (length (demo_enc f) - n)%nat, b', (take (Buffer.capacity b - Buffer.avail b) (demo_enc f)).
    split; [|done]. simpl. unfold demo_gen.
    apply demo_enc_cases in Hok as [(x & y & Ee)|(x & Ee)]; rewrite Ee in *; rewrite E;
      by rewrite decide_False by (cbn [length] in *; lia).
  - intros f c rest Hok Hi. destruct Hok as [->|Hok]; [|assert (length (demo_enc f) = 2%nat) as Hl by (by destruct Hok as [[b ->]|[->|[->|[->|[->| ->]]]]])].
    + destruct (Parsing.take_from_spec c 1) as (i & Ht & _); [rewrite <- Parsing.length_iter, Hi; simpl; lia|].
      exists i. simpl in *. unfold demo_parse. by rewrite Hi, Ht.
    + destruct (Parsing.take_from_spec c 2) as (i & Ht & _); [rewrite <- Parsing.length_iter, Hi, length_app; lia|].
      exists i. rewrite Hl. split; [|done]. simpl. unfold demo_parse. by destruct Hok as [[b ->]|[->|[->|[->|[->| ->]]]]]; rewrite Hi; simpl; rewrite Ht.
  - intros f c rest [->|[[b ->]|[->|[->|[->|[->| ->]]]]]] Hi Hr; simpl in *; unfold demo_parse;
      destruct (Parsing.iter c) as [|x [|y l]]; simplify_eq/=; try done;
      match goal with H : [] = _ ++ rest |- _ => symmetry in H; by apply app_nil in H as [_ ->] end.
Qed.

Lemma demo_socket_laws : transport_laws (fst : list byte * list (list byte) → list byte).
Proof.
  split.
  - by intros st r st' [= <- <-].
  - intros st ss r st' [= <- <-]. split; [destruct (length (concat ss)) as [|[|n]]; simpl; lia|done].
Qed.

(** An open connection with a buffer of eight bytes. *)
Definition demo_frames (f : Frames.t) : Channels.t :=
  let c := Channels.demo 2 1 in Channels.set_conn (Channel.set_frames_ f (Channels.conn c)) c.
Definition demo_io (f : Frames.t) (input : list (list byte)) : t :=
  mk (demo_frames f) SocketState.default (Heartbeat.demo 0 0) Connected 4096
    (Buffer.with_capacity 8) (Buffer.with_capacity 8) [] false false [1; 2] [1; 2] ([], input).

Definition demo_entries : list Frames.FrameEntry :=
  [Frames.mkEntry HeartbeatFrame (Frames.mkSending None (Some 1%nat));
   Frames.mkEntry (Body 1 [Byte.x07]) (Frames.mkSending None (Some 2%nat))].
Definition demo_queue : Frames.t := Frames.set_frames demo_entries Frames.default.

Lemma written_frames_witness :
  (write_to_stream 5 (demo_io demo_queue []) env_empty).1.1 = Done (Ok tt) ∧
  ∃ d p, wire demo_ok demo_enc fst [] env_empty d p
    (state_of (write_to_stream 5 (demo_io demo_queue []) env_empty))
    (env_of (write_to_stream 5 (demo_io demo_queue []) env_empty)) ∧
  (stream (state_of (write_to_stream 5 (demo_io demo_queue []) env_empty))).1 = [Byte.x08; Byte.x03] ∧
  promises (env_of (write_to_stream 5 (demo_io demo_queue []) env_empty)) = {[ 1%nat := Ok VUnit ]}.
Proof.
  split; [by vm_compute|].
  destruct (written_frames (AT := number_types) (TR := demo_socket) (FC := demo_codec)
    demo_ok demo_enc fst [] env_empty [] [] (demo_io demo_queue []) env_empty 5 demo_laws demo_socket_laws)
    as (r & s' & e' & p1 & d' & p' & E & _ & _ & Hw & _).
  - split; try done; [by apply Buffer.with_capacity_wf; lia|by exists O].
  - change (Forall (good demo_ok demo_enc (demo_io demo_queue [])) demo_entries).
    apply Forall_cons; split; [split; [by left|simpl; lia]|].
    apply Forall_cons; split; [split; [right; left; by eexists|simpl; lia]|done].
  - done.
  - exists ([] ++ d'), p'. split; [rewrite E; exact Hw|split; by vm_compute].
Defined.

(** Channel 1 with the flow paused, or waiting for a body of one byte. *)
Definition demo_channel (f : ChannelStatus.ChannelStatus.t → ChannelStatus.ChannelStatus.t) (s : t) : t :=
  let c := Channels.demo_chan 1 in
  set_channels (Channels.set_channels {[ 1 := Channel.set_status_ (f (Channel.status c)) c ]} (channels s)) s.

Definition demo_paused : t :=
  demo_channel (ChannelStatus.ChannelStatus.set_flow_ false)
    (demo_io (Frames.set_low_prio demo_entries Frames.default) []).

Lemma paused_flow_stalls_witness :
  can_write demo_paused = true ∧
  SocketState.writable (socket_state (state_of (write_to_stream 5 demo_paused env_empty))) = false.
Proof.
  destruct (paused_flow_stalls (AT := number_types) (TR := demo_socket) (FC := demo_codec)
    demo_paused env_empty 5) as (H1 & _ & _ & H2 & _); [by vm_compute..|by eexists|done|done|done|done|].
  split; [exact H1|exact H2].
Defined.

Definition demo_expecting : t :=
  demo_channel (ChannelStatus.ChannelStatus.set_receiver [ChannelStatus.ReceiverStates.ReceivingContent ChannelStatus.Get 1])
    (demo_io Frames.default [[Byte.x08; Byte.x03]; [Byte.x07]]).

Lemma input_in_pieces_witness : ∃ s',
  (turns 2 5 demo_expecting env_empty).1 = (Done (Ok tt), s') ∧ Buffer.contents (receive_buffer s') = [] ∧
  channels s' = state_of (Channels.handle_frames [HeartbeatFrame; Body 1 [Byte.x07]] (channels demo_expecting) env_empty).
Proof.
  destruct (input_in_pieces (AT := number_types) (AP := number_protocol) (CH := number_handle) (TR := demo_socket)
    (FC := demo_codec) demo_ok demo_enc 5 2%nat
    [[Byte.x08; Byte.x03]; [Byte.x07]] [HeartbeatFrame; Body 1 [Byte.x07]] demo_expecting env_empty demo_laws)
    as (s' & H1 & H2 & H3).
  - apply Buffer.with_capacity_wf. lia.
  - done.
  - done.
  - repeat (econstructor; [intros space Hs; simpl; rewrite decide_True by (simpl in Hs; lia); done|]). constructor.
  - by repeat constructor.
  - repeat constructor; simpl; lia.
  - repeat constructor; simpl; lia.
  - split_and!; [by apply (bool_decide_unpack _)|by left|by vm_compute; right|by vm_compute|].
    split_and!; [by apply (bool_decide_unpack _)|right; left; by eexists|by vm_compute; right|by vm_compute|].
    by apply (bool_decide_unpack _).
  - change (length _) with 2%nat in H1. exists s'. split; [rewrite H1; reflexivity|split; [exact H3|exact H2]].
Defined.

Definition demo_large : t :=
  set_receive_buffer (Buffer.mk (Byte.x03 :: Byte.x07 :: replicate 6 Byte.x00) 8 0 2 2)
    (set_channels (Channels.set_conn (Channel.set_configuration (Configuration.mk 2 1 0) (Channels.demo_conn 2))
      (Channels.demo 2 1)) (demo_io Frames.default [])).

Lemma large_frame_refused_witness :
  match (parse demo_large env_empty).1.1 with Done (Err _) => True | _ => False end ∧
  status (state_of (parse demo_large env_empty)) = Stop.
Proof.
  destruct (large_frame_refused (AT := number_types) (AP := number_protocol) (TR := demo_socket)
    (FC := demo_codec) demo_ok demo_enc (Body 1 [Byte.x07]) [] demo_large env_empty demo_laws)
    as (msg & s' & e' & H1 & _ & _ & H2); [right; left; by eexists|split; simpl; lia || done|done|by vm_compute|].
  rewrite H1. split; [done|]. by apply H2.
Defined.

End Witnesses.
End IoLoop.
