(* ===== verification/Socket.v ===== *)
(** The loop against the socket (src/io_loop.rs): what is queued is written, and requests made on a channel
    are completed by the answers that come back, over a socket that takes and delivers bytes in pieces. *)
From S2P Require Import Prelude.
From S2P Require Import Buffer.
From S2P Require Import Types.
From S2P Require Import Env.
From S2P Require Import Frames.
From S2P Require Import ChannelStatus.
From S2P Require Import Connection.
From S2P Require Import Channel.
From S2P Require Import Generated.
From S2P Require Import Channels.
From S2P Require Import Heartbeat.
From S2P Require Import SocketState.
From S2P Require Import IoLoop.
Open Scope Z_scope.

Module Socket.
Section Socket.
Context `{AT : AmqpTypes} `{AP : !AmqpProtocol} `{CH : !ConnectionHandle}
  `{HZ : !HashOrder Z} `{HS : !HashOrder string} `{TR : !Transport} `{FC : !FrameCodec}.
Import IoLoop.

(** A socket that, whatever it took before, flushes and takes at least a byte of what it is offered. *)
Record willing (W : Stream → Prop) : Prop := {
  will_flush : ∀ st, W st → ∃ st', poll_flush st = (Ok (Ready tt), st') ∧ W st';
  will_write : ∀ st ss, W st → concat ss ≠ [] → ∃ n st', poll_write st ss = (Ok (Ready (S n)), st') ∧ W st';
}.

(** ** Writing everything *)

Section Writing.
Variables (ok : AMQPFrame → Prop) (enc : AMQPFrame → list byte) (sent : Stream → list byte) (W : Stream → Prop).
Hypotheses (HC : codec_laws ok enc) (HT : transport_laws sent) (HW : willing W).

(** A loop that can write, with nothing that holds a publish back. *)
Record writing (s : t) : Prop := {
  wr_good : Forall (good ok enc s) (queued (frames s));
  wr_capacity : Z.of_nat (Buffer.capacity (send_buffer s)) < 2 ^ 32;
  wr_retry : (length (Frames.retry_frames (frames s)) ≤ 1)%nat;
  wr_willing : W (stream s);
  wr_writable : SocketState.writable (socket_state s) = true;
  wr_unblocked : ConnectionStatus.blocked (connection_status s) = false;
  wr_flow : Channels.flow (channels s) = true;
}.

(** The loop after some bytes were written: only the queues, the send buffer, the time of the last write and the
    socket changed. *)
Record wrote (s s' : t) : Prop := {
  wo_channels : ∃ f, same_replies (frames s) f ∧ channels s' = channels (set_frames_of f s);
  wo_receive : receive_buffer s' = receive_buffer s;
  wo_socket : socket_state s' = socket_state s;
  wo_status : status s' = status s;
}.

Lemma flush_willing s e : W (stream s) → ∃ st, flush s e = (Done (Ok tt), set_stream st s, e) ∧ W st ∧ sent st = sent (stream s).
Proof.
  intros H. destruct (will_flush _ HW _ H) as (st & E & Hst). exists st. split_and!; [|done|by eapply (flush_sent _ HT)].
  unfold flush. rewrite bind_get, E. rewrite bind_modify. simpl. unfold in_socket, zoom, mbind, M_bind. simpl. by destruct s.
Qed.

Lemma wrote_trans s1 s2 s3 : wrote s1 s2 → wrote s2 s3 → wrote s1 s3.
Proof.
  intros [(f & Hf & E) R1 R2 R3] [(g & Hg & E') R1' R2' R3']. split; [|by rewrite R1'|by rewrite R2'|by rewrite R3'].
  exists g. split.
  - eapply same_replies_trans; [exact Hf|]. unfold frames in Hg. by rewrite E in Hg.
  - by rewrite E'; unfold set_frames_of; simpl; rewrite E.
Qed.

Lemma wire_avail base e0 d p s e : wire ok enc sent base e0 d p s e →
  (length (sent (stream s)) + Buffer.avail (send_buffer s) = length base + length (encs enc d) + length (encs enc p))%nat ∧
  (p ≠ [] → (0 < Buffer.avail (send_buffer s))%nat) ∧ (p = [] → Buffer.avail (send_buffer s) = O ∧ serialized_frames s = []).
Proof.
  intros [Hwf _ Hb (k & Hk & Hs & Hlt) _]. apply (f_equal length) in Hb. rewrite !length_app, Buffer.length_contents in Hb by done.
  split; [lia|]. destruct p as [|fe p].
  - split; [done|]. intros _. cbn in Hb, Hs. split; [lia|done].
  - split; [|done]. intros _. rewrite (encs_cons enc fe p), length_app in Hb. lia.
Qed.

Lemma poll_write_willing s e : Buffer.wf (send_buffer s) → W (stream s) → (0 < Buffer.avail (send_buffer s))%nat →
  ∃ n st, poll_write_to s e = (Done (Ok (Ready (S n))), set_stream st s, e) ∧ W st ∧ (S n ≤ Buffer.avail (send_buffer s))%nat ∧
    sent st = sent (stream s) ++ take (S n) (Buffer.contents (send_buffer s)).
Proof.
  intros Hwf Hst Hav. destruct (Buffer.write_slices_spec (send_buffer s) Hwf) as (ss & Hss & Hc).
  assert (concat ss ≠ []) as Hne.
  { rewrite Hc. intros H. apply (f_equal length) in H. rewrite Buffer.length_contents in H by done. simpl in H. lia. }
  destruct (will_write _ HW _ ss Hst Hne) as (n & st & E & Hst'). exists n, st.
  pose proof (write_sent _ HT _ _ _ _ E) as [H1 H2]. rewrite Hc in H1, H2. rewrite Buffer.length_contents in H1 by done.
  split_and!; [|done..]. unfold poll_write_to. rewrite bind_get. erewrite (io_bind_ok _ _ ss) by (rewrite Hss; done).
  destruct ss; [done|]. rewrite E. by rewrite bind_modify.
Qed.

(** What is written is a part of what was to be written, not nothing. *)
Lemma write_takes base e0 d p s e now : wire ok enc sent base e0 d p s e → writing s → p ++ next_frames s ≠ [] →
  ∃ s' e' d' p', write_to_stream now s e = (Done (Ok tt), s', e') ∧ e' = resolve_written d' e ∧
    wire ok enc sent base e0 (d ++ d') p' s' e' ∧ writing s' ∧ wrote s s' ∧
    p ++ next_frames s = d' ++ p' ++ next_frames s' ∧ (length (sent (stream s)) < length (sent (stream s')))%nat.
Proof.
  intros Hw [G1 G2 G3 G4 G5 G6 G7] Hne. unfold write_to_stream.
  destruct (flush_willing s e G4) as (st1 & Hf & Hst1 & Hse1). erewrite io_bind_ok by exact Hf. set (s1 := set_stream st1 s).
  assert (Hw1 : wire ok enc sent base e0 d p s1 e) by by eapply wire_same.
  destruct (serialize_wire ok enc sent HC base e0 d p s1 e Hw1) as (s2 & p2 & Hs & Hw2 & Hq2 & _ & Hc2 & [(b & f & l & Hsr & Es2) Hord Hstop]);
    [exact G1|].
  erewrite io_bind_ok by exact Hs. destruct (Hord G3) as [Ho2 Hr2]. clear Hord. change (next_frames s1) with (next_frames s) in Ho2.
  pose proof (wire_avail _ _ _ _ _ _ Hw2) as (Hlen & Hpav & _).
  assert (Hav : (0 < Buffer.avail (send_buffer s2))%nat).
  { destruct Hstop as [Hn|]; [|done]. apply Hpav. by rewrite Hn, app_nil_r in Ho2; rewrite <- Ho2. }
  destruct (poll_write_willing s2 e (w_wf _ _ _ _ _ _ _ _ _ Hw2)) as (n & st3 & Hpo & Hst3 & Hn & Hse3); [rewrite Es2; exact Hst1|done|].
  erewrite io_bind_ok by exact Hpo. cbn [SocketState.handle_write_poll]. unfold in_heartbeat, in_socket.
  erewrite bind_eq by done. cbv beta iota. erewrite bind_eq by done. rewrite bind_get. set (s4 := set_heartbeat _ _).
  destruct (wire_written ok enc sent HC base e0 d (p ++ p2) s2 e s4 (S n)) as (b5 & l5 & d' & p' & Hb & Hbc & Hset & Hpp & Hw5);
    [done|by rewrite Hc2|done..|].
  erewrite (io_bind_ok _ _ b5) by (rewrite Hb; done). rewrite bind_modify. erewrite bind_eq by exact Hset. rewrite bind_modify.
  set (s5 := set_serialized l5 _) in *.
  destruct (flush_willing s5 (resolve_written d' e)) as (st6 & Hf6 & Hst6 & Hse6); [done|].
  exists (set_stream st6 s5), (resolve_written d' e), d', p'. split_and!; [exact Hf6|done|eapply wire_same; [exact Hw5|done|done|exact Hse6]| | | |].
  - split; try done; [|by simpl; rewrite Hbc, Hc2|by subst s2..].
    eapply Forall_impl; [exact Hq2|]. intros x. unfold good. simpl. by rewrite Hbc.
  - split; [exists f; split; [exact Hsr|by subst s2]|by subst s2|by subst s2; destruct s|by subst s2].
  - by rewrite Ho2, app_assoc, Hpp, <- app_assoc.
  - simpl. rewrite Hse6. change (stream s5) with st3. rewrite Hse3, length_app, length_take, Buffer.length_contents
      by apply (w_wf _ _ _ _ _ _ _ _ _ Hw2). replace (stream s2) with st1 by (by rewrite Es2). rewrite Hse1. lia.
Qed.

Lemma next_none s : Channels.flow (channels s) = true → next_frames s = [] → queued (frames s) = [].
Proof.
  unfold next_frames, queued. intros ->. cbn [pops]. unfold Frames.pop_.
  destruct (Frames.retry_frames _); [|done]. destruct (Frames.publish_frames _); [|done]. destruct (Frames.frames _); [|done].
  destruct (Frames.low_prio_frames _) as [|? l]; [done|].
  destruct (match l with [] => false | nx :: _ => is_header (Frames.frame nx) end); [by destruct (Frames.move_publish _ _)|done].
Qed.

Lemma has_pending_queued f : Frames.has_pending f = negb (bool_decide (queued f = [])).
Proof.
  unfold Frames.has_pending, queued. destruct (Frames.retry_frames f); [|done]. destruct (Frames.publish_frames f); [|done].
  destruct (Frames.frames f); [|done]. by destruct (Frames.low_prio_frames f).
Qed.

Lemma can_write_iff base e0 d p s e : wire ok enc sent base e0 d p s e → writing s →
  can_write s = negb (bool_decide (p ++ next_frames s = [])).
Proof.
  intros Hw [_ _ _ _ Hwr Hbl Hfl]. destruct (wire_avail _ _ _ _ _ _ Hw) as (_ & Hp1 & Hp2).
  unfold can_write, has_data, Buffer.available_data. rewrite Hwr, Hbl, has_pending_queued. simpl. rewrite andb_true_r.
  destruct p as [|fe p].
  - destruct (Hp2 eq_refl) as [-> ->]. simpl. rewrite !orb_false_r. f_equal. apply bool_decide_ext.
    split; [|by apply next_none]. unfold next_frames. intros E. cbn [pops]. unfold Frames.pop_, queued in *.
    apply app_eq_nil in E as [-> E]. apply app_eq_nil in E as [-> E]. apply app_eq_nil in E as [-> ->]. by destruct (Channels.flow _).
  - rewrite (proj2 (Z.ltb_lt 0 (Z.of_nat (Buffer.avail (send_buffer s))))) by (specialize (Hp1 ltac:(done)); lia).
    by rewrite orb_true_r.
Qed.

Lemma write_all base e0 now fuel : ∀ d p s e, wire ok enc sent base e0 d p s e → writing s →
  (length base + length (encs enc (d ++ p ++ next_frames s)) < fuel + length (sent (stream s)))%nat →
  ∃ s', write fuel now s e = (Done (Ok tt), s', resolve_written (p ++ next_frames s) e) ∧
    wire ok enc sent base e0 (d ++ p ++ next_frames s) [] s' (resolve_written (p ++ next_frames s) e) ∧
    queued (frames s') = [] ∧ wrote s s' ∧ writing s'.
Proof.
  induction fuel as [|fuel IH]; intros d p s e Hw Hs Hf; pose proof (wire_avail _ _ _ _ _ _ Hw) as (Hlen & _).
  { rewrite !encs_app, !length_app in Hf. pose proof (Buffer.length_contents _ (w_wf _ _ _ _ _ _ _ _ _ Hw)). lia. }
  cbn [write]. rewrite bind_get, (can_write_iff _ _ _ _ _ _ Hw Hs).
  destruct (decide (p ++ next_frames s = [])) as [Hn|Hn].
  - rewrite bool_decide_true, Hn by done. simpl. apply app_eq_nil in Hn as [-> Hn]. exists s.
    split_and!; [done|by rewrite app_nil_r|by apply next_none; [apply Hs|]| |done].
    split; try done. exists (frames s). split; [done|by rewrite set_frames_of_id].
  - rewrite bool_decide_false by done. simpl.
    destruct (write_takes base e0 d p s e now Hw Hs Hn) as (s1 & e1 & d' & p' & Hwt & -> & Hw1 & Hs1 & Ho1 & Hall & Hlt).
    assert (Hcatch : io_catch (write_to_stream now) handle_io_result s e = (Done (Ok tt), s1, resolve_written d' e)).
    { unfold io_catch, mbind, M_bind. rewrite Hwt. simpl. unfold handle_io_result, in_socket, zoom, mbind, M_bind. simpl. by destruct s1. }
    erewrite io_bind_ok by exact Hcatch. rewrite Hall in Hf |- *.
    destruct (IH (d ++ d') p' s1 (resolve_written d' e) Hw1 Hs1) as (s' & Hr & Hw' & Hq & Ho & Hs'); [rewrite <- app_assoc; lia|].
    rewrite resolve_written_app. rewrite <- app_assoc in Hw'. exists s'. split_and!; try done. by eapply wrote_trans.
Qed.

End Writing.

(** Nothing is waiting to be written. *)
Record drained (s : t) : Prop := {
  dr_wf : Buffer.wf (send_buffer s);
  dr_empty : Buffer.avail (send_buffer s) = O;
  dr_serialized : serialized_frames s = [];
}.

Lemma drained_wire ok enc sent s e : drained s → wire ok enc sent (sent (stream s)) e [] [] s e.
Proof.
  intros [H1 H2 H3]. assert (Hc : Buffer.contents (send_buffer s) = []) by (apply nil_length_inv; by rewrite Buffer.length_contents).
  split; try done; [by rewrite Hc|]. exists O. simpl. split_and!; [lia|done|done].
Qed.

Lemma wire_sent ok enc sent base e0 d s e : wire ok enc sent base e0 d [] s e → sent (stream s) = base ++ encs enc d ∧ drained s.
Proof.
  intros Hw. destruct (wire_avail _ _ _ _ _ _ _ _ _ Hw) as (_ & _ & Ha). destruct (Ha eq_refl) as [Hav Hs]. pose proof (w_wf _ _ _ _ _ _ _ _ _ Hw) as Hwf.
  split; [|done]. pose proof (w_bytes _ _ _ _ _ _ _ _ _ Hw) as Hb. rewrite <- (Buffer.length_contents _ Hwf) in Hav. apply nil_length_inv in Hav.
  by rewrite Hav, !app_nil_r in Hb.
Qed.

(** The loop [write], from a loop that has nothing half written. *)
Lemma write_queue ok enc sent W now fuel s e :
  codec_laws ok enc → transport_laws sent → willing W → writing ok enc W s → drained s →
  (length (encs enc (next_frames s)) < fuel)%nat →
  ∃ s', write fuel now s e = (Done (Ok tt), s', resolve_written (next_frames s) e) ∧ queued (frames s') = [] ∧ drained s' ∧
    sent (stream s') = sent (stream s) ++ encs enc (next_frames s) ∧ wrote s s' ∧ writing ok enc W s'.
Proof.
  intros HC HT HW Hs Hd Hf.
  destruct (write_all ok enc sent W HC HT HW _ e now fuel [] [] s e (drained_wire ok enc sent s e Hd) Hs) as (s' & Hr & Hw' & Hq & Ho & Hs'); [simpl; lia|].
  destruct (wire_sent _ _ _ _ _ _ _ _ Hw') as [? ?]. by exists s'.
Qed.

Lemma pops_perm n : ∀ f, (length (queued f) < n)%nat → pops n true f ≡ₚ queued f.
Proof.
  induction n as [|n IH]; intros f Hn; [lia|]. cbn [pops]. destruct (Frames.pop_ f true) as [[fe|] f'] eqn:E.
  - pose proof (pop_queued _ _ _ _ E) as Hp. pose proof (Permutation_length Hp) as Hl. simpl in Hl. rewrite Hp, IH by lia. done.
  - revert E. unfold Frames.pop_, queued. destruct (Frames.retry_frames f); [|done]. destruct (Frames.publish_frames f); [|done].
    destruct (Frames.frames f); [|done]. destruct (Frames.low_prio_frames f) as [|? l]; [done|].
    destruct (match l with [] => false | nx :: _ => is_header (Frames.frame nx) end); [by destruct (Frames.move_publish _ _)|done].
Qed.

(** C6: everything queued is written.  On a socket that takes at least one byte at a time, with publishes neither blocked
    nor paused, the loop [write] ends after at most a turn per byte: the queues are empty, what the socket took
    is exactly the encodings of the frames, each whole and in the order [pop] hands
    them out, whatever number of bytes it took each time; and exactly the promises of these frames are completed. *)
Theorem queue_written ok enc sent W now fuel s e :
  codec_laws ok enc → transport_laws sent → willing W → writing ok enc W s → drained s →
  (length (encs enc (next_frames s)) < fuel)%nat →
  ∃ s', write fuel now s e = (Done (Ok tt), s', resolve_written (next_frames s) e) ∧ queued (frames s') = [] ∧ drained s' ∧
    sent (stream s') = sent (stream s) ++ encs enc (next_frames s) ∧ next_frames s ≡ₚ queued (frames s).
Proof.
  intros HC HT HW Hs Hd Hf. destruct (write_queue ok enc sent W now fuel s e) as (s' & ? & ? & ? & ? & _); [done..|]. exists s'.
  split_and!; try done. unfold next_frames. rewrite (wr_flow _ _ _ _ Hs). apply pops_perm. lia.
Qed.

(** ** Requests and answers *)

(** The application makes requests on the channel [ch]. *)
Definition request (ch : ChannelId) (ks : list Generated.Call) : M t (res (list Resolver)) :=
  in_channels (Channels.with_channel ch (Err (error_from (InvalidChannel ch))) (Generated.run_calls ks)).

Definition request_frames (ch : ChannelId) (ks : list Generated.Call) : list AMQPFrame :=
  (λ k, Method ch (Generated.call_method k)) <$> ks.

Definition answer_frames (ch : ChannelId) (ks : list Generated.Call) (ans : list Generated.Answer) : list AMQPFrame :=
  zip_with (λ k a, Method ch (Generated.answer_method k a)) ks ans.

(** The channel [ch] waits for the answers to [ks], whose promises are numbered from [n]. *)
Record waits (ch : ChannelId) (c : Channel.Chan) (cl : bool) (ks : list Generated.Call) (n : nat) (x : Channels.t) (e : Env) : Prop := {
  wa_get : Channels.get_ ch x = Some c;
  wa_id : Channel.id c = ch;
  wa_open : ChannelStatus.can_receive_messages (Channel.status c) = true;
  wa_reads : reads x;
  wa_expected : Frames.expected_replies (Channel.frames (Channels.conn x)) !!! ch = Generated.call_replies cl ks n;
  wa_fresh : ∀ p, (n ≤ p)%nat → promises e !! p = None;
}.

(** A frame that the codec knows and that is not larger than negotiated. *)
Definition fits (ok : AMQPFrame → Prop) (enc : AMQPFrame → list byte) (x : Channels.t) (f : AMQPFrame) : Prop :=
  let m := Configuration.frame_max (Channel.configuration (Channels.conn x)) in ok f ∧ (m = 0 ∨ Z.of_nat (length (enc f)) ≤ m).

Lemma conn_put i c x s : Channels.conn (Channels.put_ i c (Channels.set_conn x s)) = x.
Proof. unfold Channels.put_. by destruct (i =? 0). Qed.

(** One answer. *)
Lemma answer_handled ch c cl k ks a n x e : waits ch c cl (k :: ks) n x e → ∃ c' x' e' v,
  Channels.handle_frame (Method ch (Generated.answer_method k a)) x e = (Ok tt, x', e') ∧ waits ch c' cl ks (S n) x' e' ∧
  Channel.configuration (Channels.conn x') = Channel.configuration (Channels.conn x) ∧
  Channel.local_registry c' = Generated.answer_registry k a (Channel.local_registry c) ∧
  promises e' = <[n := Ok v]> (promises e) ∧ Generated.answer_value k a v.
Proof.
  intros [Hg Hi Ho Hr Hx Hf]. set (y := Channel.mk c (Channels.conn x)).
  assert (Hl : Frames.expected_replies (Channel.frames (Channel.conn y)) !! Channel.id (Channel.self y) =
    Some (mkExpectedReply (Generated.call_reply k cl n) n :: Generated.call_replies cl ks (S n))).
  { apply Generated.expected_cons. unfold Generated.expected. simpl. by rewrite Hi. }
  destruct (Generated.answer_step k a cl n _ y e Ho Hl (Hf n (le_n n))) as (A1 & (v & A2 & A3) & A4 & A5 & A6 & A7 & A8 & _).
  cbn [Channels.handle_frame]. unfold Channels.receive_method, Channels.with_channel. rewrite Hg. fold y.
  destruct (Generated.receive_method (Generated.answer_method k a) y e) as [[r z] e']. unfold result_of, state_of, env_of in *. cbn [fst snd] in *. subst r.
  eexists (Channel.self z), _, e', v. split; [done|]. split; [|by rewrite conn_put, A8].
  split; [apply Channels.put_get|by rewrite A6|by rewrite A7| | |].
  - unfold reads, Channels.connection_status. rewrite conn_put, A8. exact Hr.
  - rewrite conn_put, lookup_total_alt, <- Hi. change (Channel.id c) with (Channel.id (Channel.self y)). by rewrite A5.
  - intros p Hp. rewrite A2, lookup_insert_ne by lia. apply Hf. lia.
Qed.

Lemma answers_handled ok enc ch ks : ∀ ans n c cl x e, waits ch c cl ks n x e → length ans = length ks →
  Forall (fits ok enc x) (answer_frames ch ks ans) →
  accepted ok enc (answer_frames ch ks ans) x e ∧
  let r := Channels.handle_frames (answer_frames ch ks ans) x e in
  (∃ c', Channels.get_ ch (state_of r) = Some c' ∧
    Channel.local_registry c' = foldl (λ g ka, Generated.answer_registry ka.1 ka.2 g) (Channel.local_registry c) (zip ks ans)) ∧
  (∀ p, (p < n)%nat → promises (env_of r) !! p = promises e !! p) ∧
  ∀ j k a, ks !! j = Some k → ans !! j = Some a → ∃ v, promises (env_of r) !! (n + j)%nat = Some (Ok v) ∧ Generated.answer_value k a v.
Proof.
  induction ks as [|k ks IH]; intros [|a ans] n c cl x e Hw Hlen Hfit; try done.
  - split; [apply Hw|]. cbn zeta. split_and!; [exists c; split; [apply Hw|done]|done|done].
  - injection Hlen as Hlen. unfold answer_frames in Hfit |- *. cbn [zip_with] in Hfit |- *. fold (answer_frames ch ks ans) in Hfit |- *.
    apply Forall_cons in Hfit as [Hf Hfit]. destruct (answer_handled ch c cl k ks a n x e Hw) as (c' & x' & e' & v & Hh & Hw' & Hcf & Hreg & Hp & Hv).
    destruct (IH ans (S n) c' cl x' e' Hw' Hlen) as (Ha & (c2 & Hg2 & Hr2) & Hlow & Hval).
    { eapply Forall_impl; [exact Hfit|]. intros f. unfold fits. by rewrite Hcf. }
    rewrite (handle_frames_cons _ _ _ _ _ _ Hh). cbn zeta. split_and!.
    + cbn [accepted]. rewrite Hh. unfold result_of, state_of, env_of. cbn [fst snd]. destruct Hf as [? ?]. split_and!; [apply Hw|done..].
    + exists c2. split; [done|]. by rewrite Hr2, Hreg.
    + intros p Hlt. rewrite Hlow, Hp, lookup_insert_ne by lia. done.
    + intros [|j] k' a' Hk Hak; simpl in Hk, Hak.
      * simplify_eq. exists v. split; [|done]. rewrite Nat.add_0_r, Hlow, Hp by lia. apply lookup_insert_eq.
      * rewrite Nat.add_succ_r. by apply (Hval j).
Qed.

(** An open channel that waits for no reply, on a loop with nothing to write. *)
Record asking (ch : ChannelId) (c : Channel.Chan) (s : t) (e : Env) : Prop := {
  as_get : Channels.get_ ch (channels s) = Some c;
  as_id : Channel.id c = ch;
  as_connected : ChannelStatus.connected (Channel.status c) = true;
  as_poison : Frames.check_poison (frames s) ch = None;
  as_expected : Frames.expected_replies (frames s) !!! ch = [];
  as_fresh : ∀ p, (next_ref e ≤ p)%nat → promises e !! p = None;
  as_reads : reads (channels s);
  as_queued : queued (frames s) = [];
  as_drained : drained s;
}.

Lemma put_same ch c x : Channels.get_ ch x = Some c → Channels.put_ ch c x = x.
Proof.
  unfold Channels.get_, Channels.put_. destruct x as [m q c0 cn k]. destruct (ch =? 0); simpl; [by intros [= ->]|].
  intros H. unfold Channels.set_channels. simpl. by rewrite insert_id.
Qed.

Lemma request_eq ch c ks s e : asking ch c s e → Forall (λ k, Generated.call_nowait k = false) ks → ∃ f e1,
  request ch ks s e = (Ok (seq (next_ref e) (length ks)), set_frames_of f s, e1) ∧ promises e1 = promises e ∧
  Frames.frames f = Generated.call_entries ch ks (next_ref e) ∧ Frames.retry_frames f = [] ∧ Frames.publish_frames f = [] ∧
  Frames.low_prio_frames f = [] ∧ Frames.expected_replies f !!! ch = Generated.call_replies (Channel.closer c) ks (next_ref e).
Proof.
  intros Ha Hks. set (y := Channel.mk c (Channels.conn (channels s))).
  assert (Hp : Frames.check_poison (Channel.frames (Channel.conn y)) (Channel.id (Channel.self y)) = None)
    by (simpl; rewrite (as_id _ _ _ _ Ha); apply Ha).
  destruct (Generated.run_calls_eq ks y e Hks (as_connected _ _ _ _ Ha) Hp) as (R1 & R2 & R3 & R4).
  destruct (Generated.run_calls_queued ks y e Hks (as_connected _ _ _ _ Ha) Hp) as (f & Q1 & Q2 & Q3 & Q4 & Q5 & _).
  pose proof (as_queued _ _ _ _ Ha) as Hq. unfold queued in Hq. apply app_eq_nil in Hq as [E1 Hq]. apply app_eq_nil in Hq as [E2 Hq].
  apply app_eq_nil in Hq as [E3 E4]. unfold Generated.expected in R2.
  unfold request, in_channels, zoom, Channels.with_channel. rewrite (as_get _ _ _ _ Ha). fold y.
  destruct (Generated.run_calls ks y e) as [[ps z] e1]. unfold result_of, state_of, env_of in *. cbn [fst snd] in *. subst ps.
  exists f, e1. rewrite Q1, R3 in R2 |- *. split_and!; [|done| |by rewrite Q3|by rewrite Q4|by rewrite Q5|].
  - do 2 f_equal. unfold set_frames_of. f_equal. apply put_same. apply Ha.
  - rewrite Q2. simpl. unfold frames in E3. rewrite E3, (as_id _ _ _ _ Ha). done.
  - simpl in R2. rewrite (as_id _ _ _ _ Ha) in R2. rewrite R2. change (Channel.frames (Channels.conn (channels s))) with (frames s).
    by rewrite (as_expected _ _ _ _ Ha).
Qed.

Lemma pops_frames flow l : ∀ n f, Frames.retry_frames f = [] → Frames.publish_frames f = [] → Frames.low_prio_frames f = [] →
  Frames.frames f = l → (length l < n)%nat → pops n flow f = l.
Proof.
  induction l as [|fe l IH]; intros [|n] f E1 E2 E3 E4 Hn; simpl in Hn; try lia; cbn [pops]; unfold Frames.pop_; rewrite E1, E2, E4.
  - rewrite E3. by destruct flow.
  - f_equal. apply IH; try done. lia.
Qed.

(** The requests are resolved by their answers, not by their being written. *)
Lemma entries_resolved ch ks : ∀ n e, resolve_written (Generated.call_entries ch ks n) e = e.
Proof. induction ks as [|k ks IH]; intros n e; [done|]. apply (IH (S n)). Qed.

Lemma entries_encoded enc ch ks : ∀ n, encs enc (Generated.call_entries ch ks n) = encoded enc (request_frames ch ks).
Proof. induction ks as [|k ks IH]; intros n; [done|]. unfold encs, encoded. simpl. f_equal. apply (IH (S n)). Qed.

Lemma entries_frames (P : AMQPFrame → Prop) ch ks : ∀ n, Forall P (request_frames ch ks) → Forall (λ fe, P (Frames.frame fe)) (Generated.call_entries ch ks n).
Proof.
  induction ks as [|k ks IH]; intros n H; [constructor|]. apply Forall_cons in H as [H1 H2]. constructor; [done|]. by apply (IH (S n)).
Qed.

(** C2: requests make the round trip.  The application makes requests on an open channel of a loop that has nothing to write; the
    loop writes them, the socket taking them in pieces of any size; the server, once it has all of them, answers each, the answers arriving cut in
    any way; the loop reads them.  Then what the server got is exactly the encodings of the requests, one after
    the other, neither the writing nor the reading fails, every request is completed with its own answer, and the
    channel's registry records their effects in their order. *)
Theorem calls_over_socket ok enc sent W ch c ks ans l m now fuel s e :
  codec_laws ok enc → transport_laws sent → willing W → asking ch c s e → writing ok enc W s →
  Forall (λ k, Generated.call_nowait k = false) ks → length ans = length ks →
  Forall (λ f, ok f ∧ (length (enc f) ≤ Buffer.capacity (send_buffer s))%nat) (request_frames ch ks) →
  (length (encoded enc (request_frames ch ks)) < fuel)%nat →
  Forall (λ f, fits ok enc (channels s) f ∧ (length (enc f) ≤ m)%nat) (answer_frames ch ks ans) →
  (∀ st, W st → sent st = sent (stream s) ++ encoded enc (request_frames ch ks) → delivers st l) →
  concat l = encoded enc (answer_frames ch ks ans) → Forall (λ z, z ≠ []) l →
  Buffer.wf (receive_buffer s) → Buffer.avail (receive_buffer s) = O →
  Forall (λ z, (m + length z ≤ Buffer.capacity (receive_buffer s))%nat) l →
  ∃ ps s1 e1 s2 e2 s3 e3 c', request ch ks s e = (Ok ps, s1, e1) ∧ length ps = length ks ∧
    write fuel now s1 e1 = (Done (Ok tt), s2, e2) ∧ sent (stream s2) = sent (stream s) ++ encoded enc (request_frames ch ks) ∧
    turns (length l) now s2 e2 = (Done (Ok tt), s3, e3) ∧ Channels.get_ ch (channels s3) = Some c' ∧
    Channel.local_registry c' = foldl (λ g ka, Generated.answer_registry ka.1 ka.2 g) (Channel.local_registry c) (zip ks ans) ∧
    ∀ j p k a, ps !! j = Some p → ks !! j = Some k → ans !! j = Some a →
      ∃ v, promises e3 !! p = Some (Ok v) ∧ Generated.answer_value k a v.
Proof.
  intros HC HT HW Ha Hwr Hks Hlen Hreq Hfuel Hans Hdel Hcat Hne Hrwf Hrav Hcap.
  destruct (request_eq ch c ks s e Ha Hks) as (f & e1 & Hrq & Hpe & Hf1 & Hf2 & Hf3 & Hf4 & Hexp).
  set (s1 := set_frames_of f s) in *.
  assert (Hqf : queued (frames s1) = Generated.call_entries ch ks (next_ref e)).
  { change (frames s1) with f. unfold queued. by rewrite Hf1, Hf2, Hf3, Hf4, app_nil_r. }
  assert (Hnext : next_frames s1 = Generated.call_entries ch ks (next_ref e)).
  { unfold next_frames. apply pops_frames; try done. rewrite Hqf. lia. }
  assert (Hwr1 : writing ok enc W s1).
  { destruct Hwr as [W1 W2 W3 W4 W5 W6 W7]. split; try done; [|change (frames s1) with f; rewrite Hf2; simpl; lia].
    rewrite Hqf. exact (entries_frames _ ch ks (next_ref e) Hreq). }
  assert (Hd1 : drained s1) by (destruct (as_drained _ _ _ _ Ha); by split).
  destruct (write_queue ok enc sent W now fuel s1 e1 HC HT HW Hwr1 Hd1) as (s2 & Hw & _ & _ & Hse & [(g & (G1 & G2 & G3) & Hch) Hrb _ _] & Hwr2);
    [by rewrite Hnext, entries_encoded|].
  rewrite Hnext, entries_resolved in Hw. rewrite Hnext, entries_encoded in Hse. change (stream s1) with (stream s) in Hse. change (receive_buffer s1) with (receive_buffer s) in Hrb.
  assert (Hwait : waits ch c (Channel.closer c) ks (next_ref e) (channels s2) e1).
  { rewrite Hch. split; try apply Ha.
    - apply Generated.connected_can_receive, Ha.
    - simpl. rewrite G1. exact Hexp.
    - rewrite Hpe. apply Ha. }
  destruct (answers_handled ok enc ch ks ans (next_ref e) c _ (channels s2) e1 Hwait Hlen) as (Hacc & (c' & Hg' & Hreg) & _ & Hval).
  { eapply Forall_impl; [exact Hans|]. intros x [Hx _]. unfold fits in *. by rewrite Hch. }
  assert (Hx : Buffer.contents (receive_buffer s) = []) by (apply nil_length_inv; by rewrite Buffer.length_contents).
  destruct (turns_eq ok enc HC now m l (answer_frames ch ks ans) s2 e1) as (s3 & Ht & Hc3 & _); try done; rewrite ?Hrb; try done.
  { rewrite Hx. by left. }
  { by rewrite Hx. }
  { apply Hdel; [apply Hwr2|done]. }
  { eapply Forall_impl; [exact Hans|]. by intros x [_ ?]. }
  eexists _, s1, e1, s2, e1, s3, _, c'. split; [exact Hrq|]. split; [apply length_seq|]. split; [exact Hw|]. split; [exact Hse|]. split; [exact Ht|].
  split; [by rewrite Hc3|]. split; [done|]. intros j p k a Hj. apply lookup_seq in Hj as [-> _]. apply Hval.
Qed.

End Socket.

Section Witnesses.
Import IoLoop.
#[local] Existing Instances number_types number_protocol number_handle.
#[local] Existing Instances IoLoop.z_order IoLoop.s_order IoLoop.demo_codec IoLoop.demo_socket.

Definition demo_input : list (list byte) := [[Byte.x01]; [Byte.x0b; Byte.x01; Byte.x0b]].

(** Before anything is read. *)
Definition demo_unread (input : list (list byte)) (st : list byte * list (list byte)) : Prop := st.2 = input.

Lemma demo_willing input : willing (TR := IoLoop.demo_socket) (demo_unread input).
Proof.
  split.
  - intros st H. by exists st.
  - intros st ss H Hne. simpl. destruct (length (concat ss)) as [|[|n]] eqn:E; [by apply nil_length_inv in E|exists O|exists 1%nat];
      (eexists; split; [by rewrite ?E|done]).
Qed.

(** Channel 1, open, of a loop with the frames [f] queued. *)
Definition demo_open (f : Frames.t) : t := demo_channel (ChannelStatus.ChannelStatus.set_state_ ChConnected) (demo_io f demo_input).

Lemma demo_writing f : Forall (good demo_ok demo_enc (demo_open f)) (queued f) → Frames.retry_frames f = [] →
  writing demo_ok demo_enc (demo_unread demo_input) (demo_open f).
Proof.
  intros Hq Hr. split; [exact Hq|done|change (length (Frames.retry_frames f) ≤ 1)%nat; rewrite Hr; simpl; lia|done|done|done|].
  vm_compute. reflexivity.
Qed.

Lemma demo_drained f : drained (demo_open f).
Proof. split; [|done..]. apply Buffer.with_capacity_wf. lia. Qed.

Lemma queue_written_witness : ∃ s', write 4 5 (demo_open demo_queue) env_empty = (Done (Ok tt), s', resolve_written demo_entries env_empty) ∧
  (stream s').1 = [Byte.x08; Byte.x03; Byte.x07].
Proof.
  destruct (queue_written (AT := number_types) (TR := IoLoop.demo_socket) (FC := IoLoop.demo_codec)
    demo_ok demo_enc fst (demo_unread demo_input) 5 4 (demo_open demo_queue) env_empty demo_laws demo_socket_laws (demo_willing demo_input)) as (s' & H1 & _ & _ & H2 & _).
  - apply demo_writing; [|done]. apply Forall_cons; split; [split; [by left|simpl; lia]|].
    apply Forall_cons; split; [split; [right; left; by eexists|simpl; lia]|done].
  - apply demo_drained.
  - vm_compute. lia.
  - exists s'. split; [exact H1|]. rewrite H2. vm_compute. reflexivity.
Defined.

(** Two requests; the answers arrive cut in the middle of the first. *)
Lemma calls_over_socket_witness : ∃ ps s1 e1 s2 e2 s3 e3,
  request 1 [Generated.KTxSelect; Generated.KTxSelect] (demo_open Frames.default) env_empty = (Ok ps, s1, e1) ∧ length ps = 2%nat ∧
  write 5 5 s1 e1 = (Done (Ok tt), s2, e2) ∧ (stream s2).1 = [Byte.x01; Byte.x0a; Byte.x01; Byte.x0a] ∧
  turns 2 5 s2 e2 = (Done (Ok tt), s3, e3) ∧ ∀ p, p ∈ ps → promises e3 !! p = Some (Ok VUnit).
Proof.
  set (a := Generated.mkAnswer "" 0 0 false).
  destruct (calls_over_socket (AT := number_types) (AP := number_protocol) (CH := number_handle) (TR := IoLoop.demo_socket) (FC := IoLoop.demo_codec)
    demo_ok demo_enc fst (demo_unread demo_input) 1 (Channel.set_status_ (ChannelStatus.ChannelStatus.set_state_ ChConnected (Channel.status (Channels.demo_chan 1))) (Channels.demo_chan 1))
    [Generated.KTxSelect; Generated.KTxSelect] [a; a] demo_input 2%nat 5 5 (demo_open Frames.default) env_empty demo_laws demo_socket_laws (demo_willing demo_input))
    as (ps & s1 & e1 & s2 & e2 & s3 & e3 & c' & H1 & H2 & H3 & H4 & H5 & _ & _ & H6).
  - split; try done; [|apply demo_drained]. apply (bool_decide_unpack _). vm_compute. done.
  - by apply demo_writing.
  - by repeat constructor.
  - done.
  - repeat constructor; simpl; try lia; unfold demo_ok; tauto.
  - simpl. lia.
  - repeat constructor; simpl; try lia; unfold demo_ok; tauto || (right; vm_compute; discriminate).
  - intros st Hst _. unfold demo_unread in Hst. destruct st as [x y]. simpl in Hst. subst y.
    repeat (econstructor; [intros space Hs; simpl; rewrite decide_True by (simpl in Hs; lia); done|]). constructor.
  - done.
  - by repeat constructor.
  - apply Buffer.with_capacity_wf. lia.
  - done.
  - repeat constructor; simpl; lia.
  - exists ps, s1, e1, s2, e2, s3, e3. split_and!; [done|done|done|rewrite H4; done|done|].
    intros p [j Hj]%list_elem_of_lookup. assert (j < 2)%nat as Hlt by (apply lookup_lt_Some in Hj; by rewrite H2 in Hj).
    destruct j as [|[|j]]; [| |lia]; destruct (H6 _ p Generated.KTxSelect a Hj) as (v & Hv & Hav); try done; simpl in Hav; by subst v.
Defined.

End Witnesses.
End Socket.
