(* ===== verification/Publishing.v ===== *)
(** Publishing with confirms, over the socket: the calls of [basic_publish] (src/generated/channel.rs, src/channel.rs), the low
    priority queue (src/frames.rs), the io loop (src/io_loop.rs) and the acks and nacks of the server
    (src/acknowledgement.rs), composed from the call to the verdict. *)
From S2P Require Import Prelude.
From S2P Require Import IdSequence.
From S2P Require Import Buffer.
From S2P Require Import Types.
From S2P Require Import Env.
From S2P Require Import Frames.
From S2P Require Import ChannelStatus.
From S2P Require Import Messages.
From S2P Require Import Acknowledgements.
From S2P Require Import Connection.
From S2P Require Import Channel.
From S2P Require Import Generated.
From S2P Require Import Channels.
From S2P Require Import Heartbeat.
From S2P Require Import SocketState.
From S2P Require Import IoLoop.
From S2P Require Import Socket.
Open Scope Z_scope.

Module Publishing.
Section Publishing.
Context `{AT : AmqpTypes} `{AP : !AmqpProtocol} `{CH : !ConnectionHandle}
  `{HZ : !HashOrder Z} `{HS : !HashOrder string} `{TR : !Transport} `{FC : !FrameCodec}.
Import IoLoop Socket.

(** ** The calls *)

(** What an application publishes. *)
Record Publication := mkPublication {
  p_exchange : ShortString;
  p_routing_key : ShortString;
  p_mandatory : bool;
  p_immediate : bool;
  p_payload : list byte;
  p_properties : BasicProperties;
}.

Definition publish (m : Publication) : M Channel.t (res (Async (option PublisherConfirm.t))) :=
  Generated.basic_publish (p_exchange m) (p_routing_key m) (p_mandatory m) (p_immediate m) (p_payload m) (p_properties m).

Fixpoint publish_all (ms : list Publication) : M Channel.t (res (list (Async (option PublisherConfirm.t)))) :=
  match ms with
  | [] => mret (Ok [])
  | m :: ms => let! a := publish m in let! l := publish_all ms in mret (Ok (a :: l))
  end.

(** The frames of a message, on the channel [ch] of a connection with frames of [fmax] bytes. *)
Definition publish_frames (ch : ChannelId) (fmax : FrameSize) (m : Publication) : list AMQPFrame :=
  Channel.body_frames ch fmax (BasicPublish (p_exchange m) (p_routing_key m) (p_mandatory m) (p_immediate m)) (p_payload m) (p_properties m).

(** The last one tells that the message is written. *)
Definition message_entries (fs : list AMQPFrame) (sent : Resolver) : list Frames.FrameEntry :=
  ((λ f, Frames.entry_of f None) <$> removelast fs) ++ match last fs with Some f => [Frames.entry_of f (Some sent)] | None => [] end.

(** The messages published from the reference [n] on: each has a promise for the verdict, one for [wait_for_confirms] and one for
    its having been written. *)
Fixpoint publish_entries (ch : ChannelId) (fmax : FrameSize) (ms : list Publication) (n : nat) : list Frames.FrameEntry :=
  match ms with [] => [] | m :: ms => message_entries (publish_frames ch fmax m) (2 + n) ++ publish_entries ch fmax ms (3 + n) end.

Fixpoint confirms (ms : list Publication) (n : nat) : list (Resolver * Resolver) :=
  match ms with [] => [] | _ :: ms => (n, S n) :: confirms ms (3 + n) end.

Fixpoint written_promises (ms : list Publication) (n : nat) : list Resolver :=
  match ms with [] => [] | _ :: ms => (2 + n)%nat :: written_promises ms (3 + n) end.

Definition futures (ms : list Publication) (n : nat) : list (Async (option PublisherConfirm.t)) :=
  zip_with (λ w rs, Await w (Some (PublisherConfirm.new rs.1))) (written_promises ms n) (confirms ms n).

(** A channel in confirm mode that can publish. *)
Record confirming (l : list (option Acknowledgements.Verdict)) (ps : list (Resolver * Resolver)) (y : Channel.t) (e : Env) : Prop := {
  cf_connected : ChannelStatus.connected (Channel.status (Channel.self y)) = true;
  cf_confirm : ChannelStatus.confirm (Channel.status (Channel.self y)) = true;
  cf_poison : Frames.check_poison (Channel.frames (Channel.conn y)) (Channel.id (Channel.self y)) = None;
  cf_inv : Acknowledgements.inv l ps (Channel.acknowledgements (Channel.self y)) e;
}.

Definition queue_low (l : list Frames.FrameEntry) (y : Channel.t) : Channel.t :=
  Generated.map_frames (λ f, Frames.set_low_prio (Frames.low_prio_frames f ++ l) f) y.

Definition with_acks (a : Acknowledgements.t) (y : Channel.t) : Channel.t := Channel.set_self (Channel.set_acks a) y.

Lemma push_frames_eq ch fs p f e : Frames.check_poison f ch = None → fs ≠ [] →
  Frames.push_frames ch fs p f e = (tt, Frames.set_low_prio (Frames.low_prio_frames f ++ message_entries fs p) f, e).
Proof.
  intros Hp Hne. unfold Frames.push_frames, message_entries. rewrite bind_get, Hp, bind_modify.
  destruct (last fs) eqn:E; [|by apply last_None in E]. unfold modify. simpl. by rewrite app_assoc.
Qed.

(** Unrelated promises and later references. *)
Lemma inv_later l ps a e e' : Acknowledgements.inv l ps a e → promises e' = promises e → (next_ref e ≤ next_ref e')%nat →
  Acknowledgements.inv l ps a e'.
Proof.
  intros [[H1 H2 H3 H4 H5] H6 H7 H8 H9 H10] Hp Hn. split; [split| | | | |]; rewrite ?Hp; try done.
  - intros i rs Hi. specialize (H9 i rs Hi). lia.
  - intros p r Hr. specialize (H10 p r Hr). lia.
Qed.

Lemma inv_other l ps a e p v : Acknowledgements.inv l ps a e → (p < next_ref e)%nat →
  (∀ i rs, ps !! i = Some rs → rs.1 ≠ p ∧ rs.2 ≠ p) → Acknowledgements.inv l ps a (promise_set p v e).
Proof.
  intros [[H1 H2 H3 H4 H5] H6 H7 H8 H9 H10] Hp Hn.
  assert (Hq : ∀ i rs, ps !! i = Some rs → promises (promise_set p v e) !! rs.1 = promises e !! rs.1 ∧ promises (promise_set p v e) !! rs.2 = promises e !! rs.2).
  { intros i rs Hi. destruct (Hn i rs Hi). rewrite !promise_set_lookup, !decide_False by congruence. done. }
  split; [split| | | | |]; try done.
  - intros i rs Hl Hi. destruct (Hq i rs Hi) as [-> ->]. by eapply H2.
  - intros i rs w Hl Hi. destruct (Hq i rs Hi) as [-> _]. by eapply H3.
  - intros i rs w Hl Hv Hi. destruct (Hq i rs Hi) as [_ ->]. by eapply H4.
  - intros i rs Hi. rewrite promise_set_next_ref. by eapply H9.
  - intros q r Hr. rewrite promise_set_next_ref. rewrite promise_set_lookup in Hr. case_decide; [by subst|by eapply H10].
Qed.

Lemma publish_eq m l ps y e : confirming l ps y e → Z.of_nat (length l) + 2 < 2 ^ 64 → let n := next_ref e in ∃ a e',
  publish m y e = (Ok (Await (2 + n)%nat (Some (PublisherConfirm.new n))),
    queue_low (message_entries (publish_frames (Channel.id (Channel.self y)) (Configuration.frame_max (Channel.configuration (Channel.conn y))) m) (2 + n)) (with_acks a y), e') ∧
  promises e' = promises e ∧ next_ref e' = (3 + n)%nat ∧ Acknowledgements.inv (l ++ [None]) (ps ++ [(n, S n)]) a e'.
Proof.
  intros [Hc Hcf Hp Hi] Hlen n.
  pose proof (Acknowledgements.inv_publish l ps (Channel.acknowledgements (Channel.self y)) e Hi Hlen) as Hi'.
  set (a0 := Channel.acknowledgements (Channel.self y)) in *.
  destruct (IdSequence.next 64 (Acknowledgements.delivery_tag a0)) as [tag sq] eqn:En.
  set (a := Acknowledgements.set_pending (<[tag := (n, S n)]> (Acknowledgements.pending a0)) (Acknowledgements.set_last (Some (S n)) (Acknowledgements.set_delivery_tag sq a0))).
  assert (Hr : Acknowledgements.register_pending a0 e = (PublisherConfirm.new n, a, set_next_ref (2 + n) e)).
  { unfold Acknowledgements.register_pending. rewrite bind_get, En. reflexivity. }
  unfold Acknowledgements.impl_step in Hi'. rewrite Hr in Hi'. cbn in Hi'.
  exists a. eexists. split.
  - unfold publish, Generated.basic_publish. rewrite Generated.connected_eq, Hc.
    assert (Hb : Channel.before_basic_publish y e = (Some (PublisherConfirm.new n), with_acks a y, set_next_ref (2 + n) e)).
    { unfold Channel.before_basic_publish, if_, Channel.confirm. rewrite bind_assoc, bind_get. unfold mret at 1, M_ret at 1.
      erewrite bind_eq by reflexivity. rewrite Hcf. unfold Channel.in_acks, zoom, mbind, M_bind. fold a0. by rewrite Hr. }
    rewrite (bind_eq _ _ _ _ _ _ _ Hb). unfold Channel.send_method_frame_with_body. rewrite !bind_assoc, bind_get.
    rewrite bind_assoc. erewrite bind_eq by reflexivity.
    rewrite bind_assoc. erewrite bind_eq; [|unfold Channel.in_frames, zoom; rewrite push_frames_eq; [reflexivity|exact Hp|done]].
    rewrite bind_assoc. erewrite bind_eq by reflexivity. reflexivity.
  - split; [done|]. split; [done|]. eapply inv_later; [exact Hi'|done|simpl; lia].
Qed.

Lemma queue_low_app l1 l2 y : queue_low l2 (queue_low l1 y) = queue_low (l1 ++ l2) y.
Proof. unfold queue_low, Generated.map_frames. destruct y as [c [cf st f vh ar]]. simpl. by rewrite app_assoc. Qed.

Lemma queue_low_acks a b l y : with_acks b (queue_low l (with_acks a y)) = queue_low l (with_acks b y).
Proof. by destruct y as [[] []]. Qed.

Lemma publish_all_eq ms : ∀ l ps y e, confirming l ps y e → Z.of_nat (length l + length ms) + 2 < 2 ^ 64 → let n := next_ref e in ∃ a e',
  publish_all ms y e = (Ok (futures ms n),
    queue_low (publish_entries (Channel.id (Channel.self y)) (Configuration.frame_max (Channel.configuration (Channel.conn y))) ms n) (with_acks a y), e') ∧
  promises e' = promises e ∧ next_ref e' = (3 * length ms + n)%nat ∧
  Acknowledgements.inv (l ++ replicate (length ms) None) (ps ++ confirms ms n) a e'.
Proof.
  induction ms as [|m ms IH]; intros l ps y e Hc Hlen n.
  - exists (Channel.acknowledgements (Channel.self y)), e. rewrite !app_nil_r. split_and!; [|done|done|apply Hc].
    simpl. unfold queue_low, Generated.map_frames, with_acks, Channel.set_self. destruct y as [[] [? ? [] ? ?]]. simpl. by rewrite app_nil_r.
  - cbn [length] in Hlen. destruct (publish_eq m l ps y e Hc ltac:(lia)) as (a1 & e1 & E1 & P1 & N1 & I1). fold n in E1, N1, I1.
    set (y1 := queue_low _ (with_acks a1 y)) in E1.
    assert (Hc1 : confirming (l ++ [None]) (ps ++ [(n, S n)]) y1 e1) by (split; [apply Hc|apply Hc|exact (cf_poison _ _ _ _ Hc)|exact I1]).
    destruct (IH _ _ _ _ Hc1) as (a & e' & E & P & N & I); [rewrite length_app; simpl; lia|]. rewrite N1 in E, N, I.
    exists a, e'. cbn [publish_all]. rewrite (try_bind_ok _ _ _ _ _ _ _ E1), (try_bind_ok _ _ _ _ _ _ _ E).
    split_and!; [|by rewrite P|rewrite N; simpl; lia|].
    + cbn [publish_entries]. rewrite <- queue_low_app. unfold y1. by rewrite queue_low_acks.
    + cbn [confirms replicate length]. by rewrite <- !(assoc_L (++)) in I.
Qed.

(** ** Writing *)

Lemma move_publish_app low : ∀ pub l' pub', Frames.move_publish low pub = (l', pub') → pub' ++ l' = pub ++ low.
Proof.
  induction low as [|fe low IH]; intros pub l' pub' E; simpl in E; [by simplify_eq|].
  destruct (Frames.frame fe); try by simplify_eq. all: rewrite (IH _ _ _ E); by rewrite <- (assoc_L (++)).
Qed.

(** What is queued with low priority, and only that, is written in its order. *)
Lemma pops_low l : ∀ n f, Frames.retry_frames f = [] → Frames.frames f = [] → Frames.publish_frames f ++ Frames.low_prio_frames f = l →
  (length l < n)%nat → pops n true f = l.
Proof.
  induction l as [|fe l IH]; intros [|n] f E1 E2 E3 Hn; simpl in Hn; try lia; cbn [pops]; unfold Frames.pop_; rewrite E1, E2.
  - apply app_eq_nil in E3 as [-> ->]. done.
  - destruct (Frames.publish_frames f) as [|fe' pub] eqn:Ep.
    + simpl in E3. rewrite E3. destruct (match l with [] => false | nx :: _ => is_header (Frames.frame nx) end).
      * destruct (Frames.move_publish _ _) as [l' pub'] eqn:Em. f_equal. apply IH; try done; [|lia]. apply move_publish_app in Em. simpl in Em. by rewrite Ep in Em.
      * f_equal. apply IH; try done; [|lia]. simpl. by rewrite Ep.
    + simpl in E3. injection E3 as -> E3. f_equal. apply IH; try done. lia.
Qed.

Lemma message_entries_frames fs p : Frames.frame <$> message_entries fs p = fs.
Proof.
  unfold message_entries. rewrite fmap_app, <- list_fmap_compose. induction fs as [|f fs IH]; [done|].
  destruct fs as [|f' fs]; [done|]. simpl in IH |- *. by f_equal.
Qed.

Lemma publish_entries_frames ch fmax ms : ∀ n, Frames.frame <$> publish_entries ch fmax ms n = ms ≫= publish_frames ch fmax.
Proof. induction ms as [|m ms IH]; intros n; [done|]. cbn [publish_entries]. rewrite fmap_app, message_entries_frames, IH. done. Qed.

Lemma entries_encs enc l : encs enc l = encoded enc (Frames.frame <$> l).
Proof. unfold encs, encoded. by rewrite <- list_fmap_compose. Qed.

(** Writing the messages completes their promises of being written. *)
Lemma resolve_quiet fs e : resolve_written ((λ f, Frames.entry_of f None) <$> fs) e = e.
Proof. revert e. induction fs as [|f fs IH]; intros e; [done|]. apply IH. Qed.

Lemma resolve_message fs p e : fs ≠ [] → resolve_written (message_entries fs p) e = promise_set p (Ok VUnit) e.
Proof.
  intros Hne. unfold message_entries, resolve_written. rewrite foldl_app. fold (resolve_written ((λ f, Frames.entry_of f None) <$> removelast fs) e).
  rewrite resolve_quiet. destruct (last fs) eqn:E; [done|]. by apply last_None in E.
Qed.

Lemma resolve_publishes ch fmax ms : ∀ n e, resolve_written (publish_entries ch fmax ms n) e =
  promise_sets ((λ p, (p, Ok VUnit)) <$> written_promises ms n) e.
Proof.
  induction ms as [|m ms IH]; intros n e; [done|]. cbn [publish_entries]. unfold resolve_written. rewrite foldl_app.
  fold (resolve_written (message_entries (publish_frames ch fmax m) (2 + n)) e). rewrite resolve_message by done. exact (IH _ _).
Qed.

Lemma written_promises_elem ms : ∀ n p, p ∈ written_promises ms n → ∃ j, (j < length ms)%nat ∧ p = (3 * j + 2 + n)%nat.
Proof.
  induction ms as [|m ms IH]; intros n p; cbn [written_promises]; [by intros ?%not_elem_of_nil|]. intros [->|Hp]%elem_of_cons.
  - exists O. simpl. split; lia.
  - destruct (IH _ _ Hp) as (j & Hj & ->). exists (S j). simpl. split; lia.
Qed.

Lemma written_promises_NoDup ms : ∀ n, NoDup (written_promises ms n).
Proof.
  induction ms as [|m ms IH]; intros n; cbn [written_promises]; [constructor|]. apply NoDup_cons. split; [|apply IH].
  intros (j & _ & ?)%written_promises_elem. lia.
Qed.

Lemma confirms_lookup ms : ∀ n i rs, confirms ms n !! i = Some rs ↔ (i < length ms)%nat ∧ rs = (3 * i + n, S (3 * i + n))%nat.
Proof.
  induction ms as [|m ms IH]; intros n [|i] rs; cbn [confirms lookup list_lookup length]; [split; [done|lia]..| |].
  - split; [intros [= <-]; split; [lia|done]|intros [_ ->]; done].
  - rewrite IH. split; (intros [? ->]; split; [lia|f_equal; lia]).
Qed.

Lemma inv_written l ps a ms n e : Acknowledgements.inv l (ps ++ confirms ms n) a e → (3 * length ms + n ≤ next_ref e)%nat →
  (∀ i rs, ps !! i = Some rs → (rs.1 < n)%nat ∧ (rs.2 < n)%nat) →
  Acknowledgements.inv l (ps ++ confirms ms n) a (promise_sets ((λ p, (p, Ok VUnit)) <$> written_promises ms n) e).
Proof.
  intros Hi Hn Hold. assert (H : ∀ p, p ∈ written_promises ms n → (p < next_ref e)%nat ∧
    ∀ i rs, (ps ++ confirms ms n) !! i = Some rs → rs.1 ≠ p ∧ rs.2 ≠ p).
  { intros p (j & Hj & ->)%written_promises_elem. split; [lia|]. intros i rs [Hp|[_ Hp]]%lookup_app_Some.
    - destruct (Hold i rs Hp). lia.
    - apply confirms_lookup in Hp as [? ->]. simpl. lia. }
  revert e Hi Hn H. induction (written_promises ms n) as [|p l' IH]; intros e Hi Hn H; [done|]. destruct (H p) as [? ?]; [by left|].
  apply IH; rewrite ?promise_set_next_ref; [by apply inv_other|done|]. intros q Hq. apply H. by right.
Qed.

(** ** The verdicts of the server *)

Record Answer := mkAnswer { a_tag : DeliveryTag; a_multiple : bool; a_success : bool }.

Definition answer_method (a : Answer) : AMQPClass :=
  if a_success a then BasicAck (a_tag a) (a_multiple a) else BasicNack (a_tag a) (a_multiple a) false.

Definition answer_op (a : Answer) : Acknowledgements.ConfirmOp := Acknowledgements.OConfirm (a_tag a) (a_multiple a) (a_success a).

Definition verdict_frames (ch : ChannelId) (ans : list Answer) : list AMQPFrame := (λ a, Method ch (answer_method a)) <$> ans.

(** The channel [ch] waits for verdicts. *)
Record judged (ch : ChannelId) (c : Channel.Chan) (l : list (option Acknowledgements.Verdict)) (ps : list (Resolver * Resolver))
    (x : Channels.t) (e : Env) : Prop := {
  jg_get : Channels.get_ ch x = Some c;
  jg_open : ChannelStatus.can_receive_messages (Channel.status c) = true;
  jg_confirm : ChannelStatus.confirm (Channel.status c) = true;
  jg_reads : reads x;
  jg_inv : Acknowledgements.inv l ps (Channel.acknowledgements c) e;
  jg_length : Z.of_nat (length l) + 1 < 2 ^ 64;
}.

Lemma confirm_received m tag mult su y e a e' : ChannelStatus.confirm (Channel.status (Channel.self y)) = true →
  Acknowledgements.on_confirm tag mult su (Channel.acknowledgements (Channel.self y)) e = (Ok tt, a, e') →
  Channel.on_basic_confirm_received m tag mult su y e = (Ok tt, with_acks a y, e').
Proof.
  intros Hc E. unfold Channel.on_basic_confirm_received, if_, Channel.confirm. rewrite bind_assoc, bind_get. unfold mret at 1, M_ret at 1.
  erewrite bind_eq by reflexivity. rewrite Hc. unfold Channel.in_acks, zoom, mbind, M_bind. by rewrite E.
Qed.

Lemma verdict_handled ch c l ps an x e : judged ch c l ps x e → (Acknowledgements.spec_step l (answer_op an)).2 = true → ∃ c' x' e',
  Channels.handle_frame (Method ch (answer_method an)) x e = (Ok tt, x', e') ∧
  judged ch c' (Acknowledgements.spec_step l (answer_op an)).1 ps x' e' ∧
  Channel.configuration (Channels.conn x') = Channel.configuration (Channels.conn x).
Proof.
  intros [Hg Ho Hc Hr Hi Hl] Hok. set (y := Channel.mk c (Channels.conn x)).
  destruct (Acknowledgements.inv_step l ps (Channel.acknowledgements c) e (answer_op an) Hi) as [Hi' Hr']; [unfold Acknowledgements.count_publishes; simpl; lia|].
  rewrite Hok in Hr'. unfold answer_op, Acknowledgements.impl_step in Hi', Hr'.
  destruct (Acknowledgements.on_confirm (a_tag an) (a_multiple an) (a_success an) (Channel.acknowledgements c) e) as [[[[]|err] a] e'] eqn:E; [|done].
  cbn [fst snd] in Hi'.
  assert (Em : Generated.receive_method (answer_method an) y e = (Ok tt, with_acks a y, e')).
  { unfold answer_method. destruct an as [tag mult []]; cbn [a_success a_tag a_multiple Generated.receive_method] in *;
      [unfold Generated.receive_basic_ack, Channel.on_basic_ack_received|unfold Generated.receive_basic_nack, Channel.on_basic_nack_received];
      rewrite Generated.can_receive_eq by done; by apply confirm_received. }
  exists (Channel.set_acks a c), (Channels.put_ ch (Channel.set_acks a c) (Channels.set_conn (Channels.conn x) x)), e'.
  split; [|split; [|by rewrite conn_put]].
  - cbn [Channels.handle_frame]. unfold Channels.receive_method, Channels.with_channel. rewrite Hg. fold y. by rewrite Em.
  - split; [apply Channels.put_get|done|done| |exact Hi'|].
    + unfold reads, Channels.connection_status. rewrite conn_put. exact Hr.
    + rewrite Acknowledgements.spec_step_length. unfold Acknowledgements.count_publishes. simpl. lia.
Qed.

(** All of them, none for a message that waits for none. *)
Lemma verdicts_handled ok enc ch ps ans : ∀ l c x e, judged ch c l ps x e →
  Forall (λ b, b = true) (Acknowledgements.spec_run l (answer_op <$> ans)).2 → Forall (fits ok enc x) (verdict_frames ch ans) →
  accepted ok enc (verdict_frames ch ans) x e ∧
  let r := Channels.handle_frames (verdict_frames ch ans) x e in
  ∃ c', judged ch c' (Acknowledgements.spec_run l (answer_op <$> ans)).1 ps (state_of r) (env_of r).
Proof.
  induction ans as [|an ans IH]; intros l c x e Hj Hok Hfit; [split; [apply Hj|by exists c]|].
  cbn [fmap list_fmap Acknowledgements.spec_run] in Hok |- *.
  destruct (Acknowledgements.spec_step l (answer_op an)) as [l1 b] eqn:Es.
  destruct (Acknowledgements.spec_run l1 (answer_op <$> ans)) as [l2 bs] eqn:Er. cbn [fst snd] in Hok |- *.
  apply Forall_cons in Hok as [-> Hok]. unfold verdict_frames in Hfit |- *. cbn [fmap list_fmap] in Hfit |- *. apply Forall_cons in Hfit as [[Hf1 Hf2] Hfit].
  destruct (verdict_handled ch c l ps an x e Hj) as (c1 & x1 & e1 & E & Hj1 & Hcf); [by rewrite Es|]. rewrite Es in Hj1. cbn [fst] in Hj1.
  destruct (IH l1 c1 x1 e1 Hj1) as [Ha H]; [by rewrite Er| |].
  { eapply Forall_impl; [exact Hfit|]. intros f. unfold fits. by rewrite Hcf. }
  rewrite Er in H. rewrite (handle_frames_cons _ _ _ _ _ _ E). split; [|exact H].
  cbn [accepted]. rewrite E. unfold result_of, state_of, env_of. cbn [fst snd]. split_and!; [apply Hj|done..].
Qed.

(** ** The round trip *)

Definition publish_on (ch : ChannelId) (ms : list Publication) : M t (res (list (Async (option PublisherConfirm.t)))) :=
  in_channels (Channels.with_channel ch (Err (error_from (InvalidChannel ch))) (publish_all ms)).

(** An open channel in confirm mode, on a loop with nothing to write; the messages published before have the verdicts [l]. *)
Record publishing (ch : ChannelId) (c : Channel.Chan) (l : list (option Acknowledgements.Verdict)) (ps : list (Resolver * Resolver))
    (s : t) (e : Env) : Prop := {
  pb_get : Channels.get_ ch (channels s) = Some c;
  pb_id : Channel.id c = ch;
  pb_confirming : confirming l ps (Channel.mk c (Channels.conn (channels s))) e;
  pb_reads : reads (channels s);
  pb_queued : queued (frames s) = [];
  pb_drained : drained s;
}.

Lemma publish_on_eq ch c l ps ms s e : publishing ch c l ps s e → Z.of_nat (length l + length ms) + 2 < 2 ^ 64 → let n := next_ref e in
  let es := publish_entries ch (Configuration.frame_max (Channel.configuration (Channels.conn (channels s)))) ms n in ∃ a f e1,
  publish_on ch ms s e = (Ok (futures ms n), set_channels (Channels.put_ ch (Channel.set_acks a c)
    (Channels.set_conn (Channel.set_frames_ f (Channels.conn (channels s))) (channels s))) s, e1) ∧
  queued f = es ∧ Frames.retry_frames f = [] ∧ Frames.frames f = [] ∧ Frames.publish_frames f ++ Frames.low_prio_frames f = es ∧
  promises e1 = promises e ∧ next_ref e1 = (3 * length ms + n)%nat ∧
  Acknowledgements.inv (l ++ replicate (length ms) None) (ps ++ confirms ms n) a e1.
Proof.
  intros Hp Hlen n es. destruct (publish_all_eq ms l ps _ e (pb_confirming _ _ _ _ _ _ Hp) Hlen) as (a & e1 & E & P & N & I).
  cbn [Channel.self Channel.conn] in E. rewrite (pb_id _ _ _ _ _ _ Hp) in E. fold n es in E.
  pose proof (pb_queued _ _ _ _ _ _ Hp) as Hq. unfold queued in Hq. apply app_eq_nil in Hq as [Q1 Hq]. apply app_eq_nil in Hq as [Q2 Hq].
  apply app_eq_nil in Hq as [Q3 Q4].
  exists a, (Frames.set_low_prio (Frames.low_prio_frames (frames s) ++ es) (frames s)), e1. split_and!; try done.
  - unfold publish_on, in_channels, zoom, Channels.with_channel. rewrite (pb_get _ _ _ _ _ _ Hp), E. done.
  - unfold queued. simpl. by rewrite Q1, Q2, Q3, Q4.
  - simpl. by rewrite Q2, Q4.
Qed.

Lemma flow_forall x : Channels.flow x = true ↔ ∀ i c, Channels.channels x !! i = Some c → ChannelStatus.send_flow (Channel.status c) = true.
Proof.
  unfold Channels.flow. rewrite forallb_forall. split.
  - intros H i c Hc. apply (H (i, c)). by apply list_elem_of_In, hash_order_elem.
  - intros H [i c] Hc%list_elem_of_In. apply (H i c). by apply hash_order_elem.
Qed.

Lemma flow_put ch c c' cn x : Channels.get_ ch x = Some c → Channel.status c' = Channel.status c → Channels.flow x = true →
  Channels.flow (Channels.put_ ch c' (Channels.set_conn cn x)) = true.
Proof.
  rewrite !flow_forall. unfold Channels.get_, Channels.put_. destruct (ch =? 0); simpl; [done|].
  intros Hg Hs H i d [[<- <-]|[_ Hd]]%lookup_insert_Some; [rewrite Hs|]; by eapply H.
Qed.

(** The messages are written, and their verdicts awaited. *)
Lemma publications_written ok enc sent W ch c l ps ms now fuel s e :
  codec_laws ok enc → transport_laws sent → willing W → publishing ch c l ps s e → writing ok enc W s →
  Z.of_nat (length l + length ms) + 2 < 2 ^ 64 →
  let n := next_ref e in
  let fs := ms ≫= publish_frames ch (Configuration.frame_max (Channel.configuration (Channels.conn (channels s)))) in
  Forall (λ f, ok f ∧ (length (enc f) ≤ Buffer.capacity (send_buffer s))%nat) fs →
  (length (encoded enc fs) < fuel)%nat →
  ∃ a s1 e1 s2 e2, publish_on ch ms s e = (Ok (futures ms n), s1, e1) ∧
    write fuel now s1 e1 = (Done (Ok tt), s2, e2) ∧ sent (stream s2) = sent (stream s) ++ encoded enc fs ∧
    (∀ p, p ∈ written_promises ms n → promises e2 !! p = Some (Ok VUnit)) ∧
    judged ch (Channel.set_acks a c) (l ++ replicate (length ms) None) (ps ++ confirms ms n) (channels s2) e2 ∧
    Channel.configuration (Channels.conn (channels s2)) = Channel.configuration (Channels.conn (channels s)) ∧
    receive_buffer s2 = receive_buffer s ∧ W (stream s2).
Proof.
  intros HC HT HW Hp Hwr Hlen n fs Hfs Hfuel.
  destruct (publish_on_eq ch c l ps ms s e Hp Hlen) as (a & f & e1 & E1 & Hq & Q1 & Q2 & Q3 & P1 & N1 & I1). fold n in E1, Hq, Q3, N1, I1.
  set (es := publish_entries _ _ ms n) in *. set (s1 := set_channels _ s) in E1.
  assert (Hf : frames s1 = f) by (unfold frames, s1; cbn [channels set_channels]; by rewrite conn_put).
  assert (Hfl : Channels.flow (channels s1) = true) by (apply (flow_put _ c); [apply Hp|done|apply Hwr]).
  assert (Hnext : next_frames s1 = es) by (unfold next_frames; rewrite Hfl, Hf, Hq; apply pops_low; [done..|lia]).
  assert (Hes : encs enc es = encoded enc fs) by (unfold es; by rewrite entries_encs, publish_entries_frames).
  assert (Hwr1 : writing ok enc W s1).
  { destruct Hwr as [W1 W2 W3 W4 W5 W6 W7]. split; try done; [|rewrite Hf, Q1; simpl; lia|unfold connection_status, s1; cbn [channels set_channels]; unfold Channels.connection_status; by rewrite conn_put].
    rewrite Hf, Hq. unfold es. apply (Forall_fmap Frames.frame (λ f, ok f ∧ (length (enc f) ≤ Buffer.capacity (send_buffer s))%nat)). by rewrite publish_entries_frames. }
  assert (Hd1 : drained s1) by (destruct (pb_drained _ _ _ _ _ _ Hp); by split).
  destruct (write_queue ok enc sent W now fuel s1 e1 HC HT HW Hwr1 Hd1) as (s2 & Hw & _ & _ & Hse & [(g & _ & Hch) Hrb _ _] & Hwr2);
    [by rewrite Hnext, Hes|].
  rewrite Hnext in Hw. unfold es in Hw. rewrite resolve_publishes in Hw. set (e2 := promise_sets _ e1) in Hw.
  rewrite Hnext, Hes in Hse. change (stream s1) with (stream s) in Hse. change (receive_buffer s1) with (receive_buffer s) in Hrb.
  pose proof (cf_inv _ _ _ _ (pb_confirming _ _ _ _ _ _ Hp)) as I0.
  assert (I2 : Acknowledgements.inv (l ++ replicate (length ms) None) (ps ++ confirms ms n) a e2).
  { apply inv_written; [done|lia|]. intros i q Hi. exact (Acknowledgements.in_old _ _ _ _ I0 i q Hi). }
  assert (Hj : judged ch (Channel.set_acks a c) (l ++ replicate (length ms) None) (ps ++ confirms ms n) (channels s2) e2).
  { rewrite Hch. pose proof (pb_confirming _ _ _ _ _ _ Hp) as [C1 C2 _ _]. split; [|by apply Generated.connected_can_receive|done| |done|rewrite length_app, length_replicate; lia].
    - unfold s1, set_frames_of. cbn [channels set_channels]. unfold Channels.get_, Channels.put_. destruct (ch =? 0); simpl; [done|]. by rewrite lookup_insert_eq.
    - unfold reads, Channels.connection_status, s1, set_frames_of. cbn [channels set_channels Channels.conn Channels.set_conn]. rewrite conn_put. apply Hp. }
  exists a, s1, e1, s2, e2. split_and!; [exact E1|exact Hw|exact Hse| |exact Hj| |exact Hrb|apply Hwr2].
  - intros p Hpw. apply promise_sets_lookup; rewrite <- ?list_fmap_compose, ?list_fmap_id; [apply written_promises_NoDup| |].
    + intros q (j & _ & ->)%written_promises_elem. rewrite P1. destruct (promises e !! _) eqn:Eq; [|done].
      apply (Acknowledgements.in_fresh _ _ _ _ I0) in Eq. unfold n in Eq. lia.
    + apply list_elem_of_fmap. by exists p.
  - rewrite Hch. unfold s1, set_frames_of. cbn [channels set_channels Channels.conn Channels.set_conn Channel.configuration Channel.set_frames_]. by rewrite conn_put.
Qed.

(** C3: publishing with confirms makes the round trip.  On an open channel in confirm mode, the application publishes messages; the loop
    writes them, the socket taking them in pieces of any size; the server answers with acks and nacks, of one
    message or of all up to one, each for a message that waits for its verdict, that arrive cut in any way.
    Then what the server got is exactly the messages, one after the other, each as its method, its header and its body cut to
    the negotiated frame size; each call of [basic_publish] returns once its message is written; and each
    confirm has the verdict the server gave its message, if it gave one, and none otherwise. *)
Theorem confirms_over_socket ok enc sent W ch c l ps ms ans rs m now fuel s e :
  codec_laws ok enc → transport_laws sent → willing W → publishing ch c l ps s e → writing ok enc W s →
  Z.of_nat (length l + length ms) + 2 < 2 ^ 64 →
  let n := next_ref e in
  let fs := ms ≫= publish_frames ch (Configuration.frame_max (Channel.configuration (Channels.conn (channels s)))) in
  let verdicts := Acknowledgements.spec_run (l ++ replicate (length ms) None) (answer_op <$> ans) in
  Forall (λ f, ok f ∧ (length (enc f) ≤ Buffer.capacity (send_buffer s))%nat) fs →
  (length (encoded enc fs) < fuel)%nat →
  Forall (λ b, b = true) verdicts.2 →
  Forall (λ f, fits ok enc (channels s) f ∧ (length (enc f) ≤ m)%nat) (verdict_frames ch ans) →
  (∀ st, W st → sent st = sent (stream s) ++ encoded enc fs → delivers st rs) →
  concat rs = encoded enc (verdict_frames ch ans) → Forall (λ z, z ≠ []) rs →
  Buffer.wf (receive_buffer s) → Buffer.avail (receive_buffer s) = O →
  Forall (λ z, (m + length z ≤ Buffer.capacity (receive_buffer s))%nat) rs →
  ∃ s1 e1 s2 e2 s3 e3, publish_on ch ms s e = (Ok (futures ms n), s1, e1) ∧
    write fuel now s1 e1 = (Done (Ok tt), s2, e2) ∧ sent (stream s2) = sent (stream s) ++ encoded enc fs ∧
    (∀ p, p ∈ written_promises ms n → promises e2 !! p = Some (Ok VUnit)) ∧
    turns (length rs) now s2 e2 = (Done (Ok tt), s3, e3) ∧
    ∀ i q, (ps ++ confirms ms n) !! i = Some q →
      (∀ v, verdicts.1 !! i = Some (Some v) → Acknowledgements.told v (promises e3 !! q.1)) ∧
      (verdicts.1 !! i = Some None → promises e3 !! q.1 = None).
Proof.
  intros HC HT HW Hp Hwr Hlen n fs verdicts Hfs Hfuel Hver Hans Hdel Hcat Hne Hrwf Hrav Hcap.
  destruct (publications_written ok enc sent W ch c l ps ms now fuel s e) as (a & s1 & e1 & s2 & e2 & E1 & Hw & Hse & Hwritten & Hj & Hcf & Hrb & Hst); [done..|].
  destruct (verdicts_handled ok enc ch _ ans _ _ (channels s2) e2 Hj Hver) as [Hacc (c' & Hj')].
  { eapply Forall_impl; [exact Hans|]. intros x [Hx _]. unfold fits in *. by rewrite Hcf. }
  assert (Hx : Buffer.contents (receive_buffer s) = []) by (apply nil_length_inv; by rewrite Buffer.length_contents).
  destruct (turns_eq ok enc HC now m rs (verdict_frames ch ans) s2 e2) as (s3 & Ht & Hc3 & _); try done; rewrite ?Hrb; try done.
  { rewrite Hx. by left. }
  { by rewrite Hx. }
  { by apply Hdel. }
  { eapply Forall_impl; [exact Hans|]. by intros x [_ ?]. }
  eexists s1, e1, s2, e2, s3, _. split_and!; [exact E1|exact Hw|exact Hse|exact Hwritten|exact Ht|].
  intros i q Hi. pose proof (Acknowledgements.in_agrees _ _ _ _ (jg_inv _ _ _ _ _ _ Hj')) as Hag. split.
  - intros v Hv. exact (Acknowledgements.ag_some _ _ _ _ Hag i q v Hv Hi).
  - intros Hv. exact (proj1 (Acknowledgements.ag_none _ _ _ _ Hag i q Hv Hi)).
Qed.

End Publishing.

(** ** A concrete publisher *)

Section Witnesses.
Import IoLoop Socket.
#[local] Existing Instances number_types number_protocol number_handle.
#[local] Existing Instances IoLoop.z_order IoLoop.s_order IoLoop.demo_codec IoLoop.demo_socket.

Definition demo_message : Publication := mkPublication "e" "k" false false [Byte.x07] 0%nat.
Definition demo_verdicts : list (list byte) := [[Byte.x01]; [Byte.x0d]].

(** Channel 1, open and in confirm mode. *)
Definition demo_chan_confirm : Channel.Chan :=
  let c := Channels.demo_chan 1 in Channel.set_status_ (ChannelStatus.ChannelStatus.set_confirm_ true (ChannelStatus.ChannelStatus.set_state_ ChConnected (Channel.status c))) c.
Definition demo_publisher : t :=
  demo_channel (λ st, ChannelStatus.ChannelStatus.set_confirm_ true (ChannelStatus.ChannelStatus.set_state_ ChConnected st)) (demo_io Frames.default demo_verdicts).

(** Two messages; the first is acked, the ack arriving cut in two. *)
Lemma confirms_over_socket_witness : ∃ s1 e1 s2 e2 s3 e3,
  publish_on 1 [demo_message; demo_message] demo_publisher env_empty = (Ok (futures [demo_message; demo_message] 0), s1, e1) ∧
  write 13 5 s1 e1 = (Done (Ok tt), s2, e2) ∧
  (stream s2).1 = [Byte.x01; Byte.x0c; Byte.x02; Byte.x01; Byte.x03; Byte.x07; Byte.x01; Byte.x0c; Byte.x02; Byte.x01; Byte.x03; Byte.x07] ∧
  turns 2 5 s2 e2 = (Done (Ok tt), s3, e3) ∧
  Acknowledgements.told (Acknowledgements.Confirmed true) (promises e3 !! 0%nat) ∧ promises e3 !! 3%nat = None.
Proof.
  destruct (confirms_over_socket (AT := number_types) (AP := number_protocol) (CH := number_handle) (TR := IoLoop.demo_socket) (FC := IoLoop.demo_codec)
    demo_ok demo_enc fst (demo_unread demo_verdicts) 1 demo_chan_confirm [] [] [demo_message; demo_message] [mkAnswer 1 false true] demo_verdicts 2%nat 5 13
    demo_publisher env_empty demo_laws demo_socket_laws (demo_willing demo_verdicts))
    as (s1 & e1 & s2 & e2 & s3 & e3 & H1 & H2 & H3 & H4 & H5 & H6).
  - split; try done; [|apply (bool_decide_unpack _); vm_compute; done|split; [apply Buffer.with_capacity_wf; lia|done..]].
    split; try done. apply Acknowledgements.inv_initial, env_empty_wf.
  - split; try done; simpl; lia.
  - done.
  - set (fs := _ ≫= _). vm_compute in fs. subst fs.
    repeat (apply Forall_cons; split; [split; [unfold demo_ok, demo_publish, demo_header, demo_ack; eauto 10|simpl; lia]|]). constructor.
  - vm_compute. lia.
  - by repeat constructor.
  - repeat constructor; simpl; try lia; unfold demo_ok, demo_ack; tauto || (right; vm_compute; discriminate).
  - intros st Hst _. unfold demo_unread in Hst. destruct st as [x y]. simpl in Hst. subst y.
    repeat (econstructor; [intros space Hs; simpl; rewrite decide_True by (simpl in Hs; lia); done|]). constructor.
  - done.
  - by repeat constructor.
  - apply Buffer.with_capacity_wf. lia.
  - done.
  - repeat constructor; simpl; lia.
  - exists s1, e1, s2, e2, s3, e3. split_and!; [exact H1|exact H2|rewrite H3; by vm_compute|exact H5| |].
    + destruct (H6 O (0, 1)%nat) as [Hv _]; [done|]. by apply Hv.
    + destruct (H6 1%nat (3, 4)%nat) as [_ Hv]; [done|]. by apply Hv.
Defined.

End Witnesses.
End Publishing.
