(* ===== verification/Supervisor.v ===== *)
(** The thread of the io loop ([IoLoop::start] of src/io_loop.rs): connecting, one session after
    the other, and what becomes of the connection when a session ends. *)
From S2P Require Import Prelude.
From S2P Require Import Buffer.
From S2P Require Import Types.
From S2P Require Import Env.
From S2P Require Import Frames.
From S2P Require Import ChannelStatus.
From S2P Require Import Connection.
From S2P Require Import Channel.
From S2P Require Import Generated.
From S2P Require Import Channels.
From S2P Require Import Heartbeat.
From S2P Require Import SocketState.
From S2P Require Import IoLoop.
Open Scope Z_scope.

Module Supervisor.
Import IoLoop.
Section Supervisor.
Context `{AT : AmqpTypes} `{AP : !AmqpProtocol} `{CH : !ConnectionHandle}
  `{HZ : !HashOrder Z} `{HS : !HashOrder string} `{TR : !Transport} `{FC : !FrameCodec}.

Notation Io A := (M t (Out A)) (only parsing).
Notation "'let*' x := m 'in' k" := (io_bind m (λ x, k)) (at level 200, x binder, k at level 200).

(** ** Connecting *)

(** [connect.retry(self.backoff)]: [tries] are the results of the attempts, [delays] the waits left
    between them; [None] when [tries] ends first. *)
Fixpoint connect_retry (delays : list Z) (tries : list (res Stream)) : option (res Stream) :=
  match tries with
  | [] => None
  | Ok st :: _ => Some (Ok st)
  | Err err :: tries => match delays with [] => Some (Err err) | _ :: delays => connect_retry delays tries end
  end.

(** Connecting is given up: the closure of [inspect_err]. *)
Definition abandon_connect (err : Error) : M Channels.t unit :=
  Channels.update_connection_status (ConnectionStatus.poison err);;
  Channels.clear_connection_steps err.

(** ** One session *)

(** What happens around a turn: what the other threads do to the connection before it, the clock and
    the event a wait receives. *)
Record Input := mkInput {
  i_others : M Channels.t unit;
  i_now : Z;
  i_event : SocketState.SocketEvent;
}.

(** The body of the [while]: the new [res], and whether the loop is left. *)
Definition turn (fuel : nat) (now : Z) (ev : SocketState.SocketEvent) (r : res unit) : Io (res unit * bool) :=
  io_catch (run fuel now ev) (λ x,
    match x with
    | Ok _ => io_ret (r, false)
    | Err err =>
      let io_err := is_io_error err in
      io_catch (critical_error err : Io unit) (λ r,
        s ← get; io_ret (r, connecting s && io_err))
    end).

(** [while self.should_continue(..)]. *)
Fixpoint session (fuel : nat) (inputs : list Input) (r : res unit) : Io (res unit) :=
  s ← get; e ← get_env;
  if negb (should_continue s e) then io_ret r else
  match inputs with
  | [] => mret OutOfFuel
  | i :: inputs =>
    in_channels (i_others i);;
    let* x := turn fuel (i_now i) (i_event i) r in
    if x.2 : bool then io_ret x.1 else session fuel inputs x.1
  end.

(** ** After a session *)

Inductive Next := Again | Exit (r : res unit).

Definition aborted : Error := error_from (IOError ConnectionAborted).

(** [self.frames.poison().or_else(|| res.clone().err()).unwrap_or(..)]. *)
Definition leftover_error (f : Frames.t) (r : res unit) : Error :=
  match Frames.poison f with
  | Some err => err
  | None => match r with Err err => err | Ok _ => error_from (InvalidConnectionState CoClosed) end
  end.

(** The handshake was cut before the first connection: the protocol header is queued again, or
    the connection fails. *)
Definition retry_handshake (version : Z * Z * Z) (r : res unit) : M t (res unit + res unit) :=
  s ← get;
  if first_connection s && connecting s && half_closed s && is_ok r then
    b ← in_frames (Frames.retry_connection_header version);
    if b : bool then mret (inl (Err aborted))
    else
      in_channels (Channels.set_connection_error aborted);;
      clear_serialized_frames aborted;;
      mret (inr (Err aborted))
  else mret (inl r).

(** The next attempt, or the end of them. *)
Definition throttle (r : res unit) : M t Next :=
  s ← get;
  match global_backoff s with
  | _ :: delays =>
    modify (set_global_backoff delays);;
    reset;;
    (if first_connection s then mret tt else rpc_start_channels_recovery);;
    mret Again
  | [] =>
    let err := match r with Err err => err | Ok _ => aborted end in
    in_channels (Channels.set_connection_error err);;
    mret (Exit (Err err))
  end.

Definition after_session (version : Z * Z * Z) (r : res unit) : M t Next :=
  s ← get;
  let going_on := connecting s || reconnecting s in
  x ← retry_handshake version r;
  match x with
  | inr r => mret (Exit r)
  | inl r =>
    s ← get;
    clear_serialized_frames (leftover_error (frames s) r);;
    if negb going_on then mret (Exit r) else throttle r
  end.

(** ** The thread *)

Record Round := mkRound { r_tries : list (res Stream); r_inputs : list Input }.

(** [start], up to the clean-up; [OutOfFuel] when [rounds] or the input of one of them ends first. *)
Fixpoint start (fuel : nat) (version : Z * Z * Z) (rounds : list Round) : Io unit :=
  match rounds with
  | [] => mret OutOfFuel
  | ro :: rounds =>
    s ← get;
    match connect_retry (backoff s) (r_tries ro) with
    | None => mret OutOfFuel
    | Some (Err err) => in_channels (abandon_connect err);; fail err
    | Some (Ok st) =>
      modify (set_stream st);;
      modify (set_half_closed false);;
      let* r := session fuel (r_inputs ro) (Ok tt) in
      n ← after_session version r;
      match n with
      | Exit r => mret (Done r)
      | Again => start fuel version rounds
      end
    end
  end.

(** ** The end of a session *)

(** Who waits for a frame written in part or not at all. *)
Definition sending_waiter (snd : Frames.FrameSending) : option Resolver :=
  match Frames.resolver snd with Some r => Some r | None => Frames.canceler snd end.

Definition told (l : list (FrameSize * Frames.FrameSending)) (e : Env) : Prop :=
  ∀ sz snd p, (sz, snd) ∈ l → sending_waiter snd = Some p → done p e.

Lemma told_later l e e' : (∀ p, done p e → done p e') → told l e → told l e'.
Proof. intros Hd Ht sz snd p Hin Hp. by eapply Hd, Ht. Qed.

Lemma clear_serialized_eq err s e : ∃ e', clear_serialized_frames err s e = (tt, set_serialized [] s, e') ∧
  told (serialized_frames s) e' ∧ (∀ p, done p e → done p e').
Proof.
  unfold clear_serialized_frames. rewrite bind_get, bind_modify. set (s1 := set_serialized [] s).
  set (m := for_each (serialized_frames s) (λ x : FrameSize * Frames.FrameSending, (Frames.sending_reject x.2 err : M t unit))).
  assert (Hk : ∀ x : FrameSize * Frames.FrameSending, keeps_done (Frames.sending_reject x.2 err : M t unit)).
  { intros. apply Frames.keeps_done_sending_reject. }
  pose proof (state_reject_all (serialized_frames s) err s1 e) as Hs. fold m in Hs.
  assert (Hd : ∀ p, done p e → done p (env_of (m s1 e))).
  { intros p [r Hr]. exists r. by apply (keeps_done_for_each _ _ Hk). }
  assert (Ht : told (serialized_frames s) (env_of (m s1 e))).
  { intros sz snd p Hin Hp. unfold m. clear m Hs Hd. revert e. generalize s1. induction (serialized_frames s) as [|x l IH]; intros s2 e.
    { by apply not_elem_of_nil in Hin. }
    cbn [for_each]. apply elem_of_cons in Hin as [<-|Hin].
    - apply bind_done_l; [by apply Frames.sending_reject_done|]. intros _. by apply keeps_done_for_each.
    - apply bind_done_r. intros _ s3 e3. by apply IH. }
  destruct (m s1 e) as [[[] s2] e2]. unfold state_of in Hs. simpl in *. subst s2. by exists e2.
Qed.

(** The handshake cut in the middle. *)
Lemma retry_handshake_eq v r s e : Channels.channels (channels s) !! 0 = None → ∃ x s' e',
  retry_handshake v r s e = (x, s', e') ∧ (∀ p, done p e → done p e') ∧
  match x with
  | inl _ => serialized_frames s' = serialized_frames s ∧ global_backoff s' = global_backoff s ∧
      first_connection s' = first_connection s ∧ Channels.channels (channels s') !! 0 = None
  | inr r' => serialized_frames s' = [] ∧ told (serialized_frames s) e' ∧
      ConnectionStatus.state (connection_status s') = CoError ∧ is_ok r' = false
  end.
Proof.
  intros H0. unfold retry_handshake. rewrite bind_get. destruct (_ && _); [|by eexists _, _, _].
  assert (Hr : ∃ b f', Frames.retry_connection_header v (frames s) e = (b, f', e)).
  { unfold Frames.retry_connection_header. rewrite bind_get. destruct (_ ≫= _); [|by eexists _, _]. by eexists _, _. }
  destruct Hr as (b & f' & Hr). set (s1 := set_channels (Channels.set_conn (Channel.set_frames_ f' (Channels.conn (channels s))) (channels s)) s).
  assert (E : in_frames (Frames.retry_connection_header v) s e = (b, s1, e)).
  { unfold in_frames, in_channels, Channels.in_frames, zoom. fold (frames s). by rewrite Hr. }
  rewrite (bind_eq _ _ _ _ _ _ _ E). destruct b; [by eexists _, _, _|].
  destruct (Channels.connection_error_keeps aborted (channels s1) e H0) as (c2 & e2 & E2 & Hst & Hd).
  assert (E3 : in_channels (Channels.set_connection_error aborted) s1 e = (tt, set_channels c2 s1, e2)).
  { unfold in_channels, zoom. by rewrite E2. }
  rewrite (bind_eq _ _ _ _ _ _ _ E3).
  destruct (clear_serialized_eq aborted (set_channels c2 s1) e2) as (e3 & E4 & Ht & Hd3).
  rewrite (bind_eq _ _ _ _ _ _ _ E4). eexists _, _, _. split; [done|]. split; [by intros p Hp; apply Hd3, Hd|done].
Qed.

Lemma throttle_eq r s e : Channels.channels (channels s) !! 0 = None → ∃ n s' e',
  throttle r s e = (n, s', e') ∧ (∀ p, done p e → done p e') ∧ serialized_frames s' = serialized_frames s ∧
  match n with
  | Again => (∃ d, global_backoff s = d :: global_backoff s') ∧ status s' = Initial ∧
      Buffer.available_data (send_buffer s') = 0%nat ∧ Buffer.available_data (receive_buffer s') = 0%nat ∧
      rpc e' = rpc e ++ (if first_connection s then [] else [CStartChannelsRecovery])
  | Exit r' => global_backoff s = [] ∧ ConnectionStatus.state (connection_status s') = CoError ∧ is_ok r' = false
  end.
Proof.
  intros H0. unfold throttle. rewrite bind_get. destruct (global_backoff s) as [|d ds] eqn:Hg.
  - set (err := match r with Ok _ => aborted | Err err => err end).
    destruct (Channels.connection_error_keeps err (channels s) e H0) as (c2 & e2 & E2 & Hst & Hd).
    assert (E3 : in_channels (Channels.set_connection_error err) s e = (tt, set_channels c2 s, e2)).
    { unfold in_channels, zoom. by rewrite E2. }
    rewrite (bind_eq _ _ _ _ _ _ _ E3). by eexists _, _, _.
  - rewrite bind_modify. unfold reset. rewrite bind_assoc, bind_modify. destruct (first_connection s);
      (eexists _, _, _; split; [reflexivity|]; split; [|split; [done|split; [by exists d|split_and!; try done]]]).
    + by intros p Hp.
    + simpl. by rewrite app_nil_r.
    + intros p [x Hp]. by exists x.
Qed.

(** C25: what the end of a session leaves behind.  Whatever the reason, no serialized frame is
    forgotten: their list is emptied and whoever waits for one of them is told.  The thread tries again
    only while connecting or reconnecting and while the backoff has a delay left, which it uses
    up; the loop is then back in its initial state with empty buffers, and the recovery of the
    channels is requested unless no connection was ever made.  Otherwise the
    thread ends: when it was still connecting or reconnecting, with an error, and the connection
    is in the error state. *)
Theorem session_end v r s e : Channels.channels (channels s) !! 0 = None →
  let n := result_of (after_session v r s e) in
  let s' := state_of (after_session v r s e) in
  let e' := env_of (after_session v r s e) in
  serialized_frames s' = [] ∧ told (serialized_frames s) e' ∧
  match n with
  | Again => connecting s || reconnecting s = true ∧ (∃ d, global_backoff s = d :: global_backoff s') ∧
      status s' = Initial ∧ Buffer.available_data (send_buffer s') = 0%nat ∧
      Buffer.available_data (receive_buffer s') = 0%nat ∧ (CStartChannelsRecovery ∈ rpc e' ∨ first_connection s = true)
  | Exit r' => connecting s || reconnecting s = true →
      ConnectionStatus.state (connection_status s') = CoError ∧ is_ok r' = false
  end.
Proof.
  intros H0. cbv zeta. unfold after_session. rewrite bind_get.
  destruct (retry_handshake_eq v r s e H0) as (x & s1 & e1 & E1 & Hd1 & Hx). rewrite (bind_eq _ _ _ _ _ _ _ E1).
  destruct x as [r1|r1]; [|by destruct Hx as (? & ? & ? & ?)]. destruct Hx as (Hs1 & Hg1 & Hf1 & H1).
  rewrite bind_get. destruct (clear_serialized_eq (leftover_error (frames s1) r1) s1 e1) as (e2 & E2 & Ht & Hd2).
  rewrite (bind_eq _ _ _ _ _ _ _ E2), Hs1 in *. destruct (connecting s || reconnecting s); simpl; [|done].
  destruct (throttle_eq r1 (set_serialized [] s1) e2 H1) as (n & s3 & e3 & E3 & Hd3 & Hs3 & Hn). rewrite E3.
  unfold result_of, state_of, env_of. simpl. split; [done|]. split; [by eapply told_later|].
  destruct n as [|r']; [|by destruct Hn as (_ & ? & ?)]. destruct Hn as ([d Hd] & ? & ? & ? & Hr). simpl in Hd.
  split_and!; try done. { exists d. by rewrite <- Hd. }
  rewrite Hr, <- Hf1. simpl. destruct (first_connection s1); [by right|left; set_solver].
Qed.
(** ** Attempts are bounded *)

(** [s'] is later in the same attempt: unless the connection was set up, which leaves the
    initial status, the delays left are the same. *)
Definition attempt (s s' : t) : Prop :=
  backoff s' = backoff s ∧ (status s' = Initial → status s = Initial ∧ global_backoff s' = global_backoff s).

#[local] Instance attempt_preorder : PreOrder attempt.
Proof.
  split; [by intros s|]. intros s1 s2 s3 [H1 H2] [H3 H4]. split; [congruence|]. intros H.
  destruct (H4 H) as [H5 H6]. destruct (H2 H5) as [H7 H8]. split; congruence.
Qed.

Definition keeps_attempt {A} (m : M t A) : Prop := ∀ s e, attempt s (state_of (m s e)).

Lemma keeps_attempt_ret {A} (a : A) : keeps_attempt (mret a).
Proof. by intros s e. Qed.
Lemma keeps_attempt_bind {A B} (m : M t A) (k : A → M t B) : keeps_attempt m → (∀ a, keeps_attempt (k a)) → keeps_attempt (m ≫= k).
Proof.
  intros Hm Hk s e. unfold mbind, M_bind. specialize (Hm s e). destruct (m s e) as [[a s1] e1].
  etrans; [exact Hm|]. apply Hk.
Qed.
Lemma keeps_attempt_io_bind {A B} (m : Io A) (k : A → Io B) : keeps_attempt m → (∀ a, keeps_attempt (k a)) → keeps_attempt (io_bind m k).
Proof. intros Hm Hk. apply keeps_attempt_bind; [done|]. by intros [[]| |]. Qed.
Lemma keeps_attempt_io_catch {A B} (m : Io A) (k : res A → Io B) : keeps_attempt m → (∀ a, keeps_attempt (k a)) → keeps_attempt (io_catch m k).
Proof. intros Hm Hk. apply keeps_attempt_bind; [done|]. by intros [| |]. Qed.
Lemma keeps_attempt_modify (f : t → t) : (∀ s, attempt s (f s)) → keeps_attempt (modify f).
Proof. intros Hf s e. apply Hf. Qed.
Lemma keeps_attempt_env (f : Env → Env) : keeps_attempt (modify_env f).
Proof. by intros s e. Qed.
Lemma keeps_attempt_get : keeps_attempt get.
Proof. by intros s e. Qed.
Lemma keeps_attempt_get_env : keeps_attempt get_env.
Proof. by intros s e. Qed.
Lemma keeps_attempt_in_channels {A} (m : M Channels.t A) : keeps_attempt (in_channels m).
Proof. intros s e. unfold in_channels, zoom. by destruct (m (channels s) e) as [[a c] e']. Qed.
Lemma keeps_attempt_in_socket {A} (m : M SocketState.t A) : keeps_attempt (in_socket m).
Proof. intros s e. unfold in_socket, zoom. by destruct (m (socket_state s) e) as [[a c] e']. Qed.
Lemma keeps_attempt_in_heartbeat {A} (m : M Heartbeat.t A) : keeps_attempt (in_heartbeat m).
Proof. intros s e. unfold in_heartbeat, zoom. by destruct (m (heartbeat s) e) as [[a c] e']. Qed.
Lemma keeps_attempt_state {A} (m : M t A) : keeps_state m → keeps_attempt m.
Proof. intros Hm s e. by rewrite Hm. Qed.
Lemma keeps_attempt_unwrap {A} (x : option A) : keeps_attempt (unwrap x).
Proof. by destruct x. Qed.
Lemma keeps_attempt_for_each {A} (l : list A) (f : A → M t unit) : (∀ x, keeps_attempt (f x)) → keeps_attempt (for_each l f).
Proof. intros Hf. induction l as [|x l IH]; [by intros s e|]. by apply keeps_attempt_bind. Qed.
Lemma keeps_attempt_kill k : keeps_attempt (kill k).
Proof. by intros s e. Qed.
Lemma keeps_attempt_rpc c : keeps_attempt (rpc_send c).
Proof. by intros s e. Qed.
Lemma keeps_attempt_stop : keeps_attempt stop.
Proof. by intros s e. Qed.

#[local] Hint Resolve keeps_attempt_ret keeps_attempt_env keeps_attempt_get keeps_attempt_get_env keeps_attempt_in_channels
  keeps_attempt_in_socket keeps_attempt_in_heartbeat keeps_attempt_unwrap keeps_attempt_kill keeps_attempt_rpc keeps_attempt_stop : keeps_attempt.

Ltac keeps_attempt :=
  unfold_rpc;
  repeat match goal with
  | |- keeps_attempt (_ ≫= _) => apply keeps_attempt_bind; [|intros]
  | |- keeps_attempt (io_bind _ _) => apply keeps_attempt_io_bind; [|intros]
  | |- keeps_attempt (io_catch _ _) => apply keeps_attempt_io_catch; [|intros]
  | |- keeps_attempt (for_each _ _) => apply keeps_attempt_for_each; intros
  | |- keeps_attempt (modify _) => apply keeps_attempt_modify; by intros
  | |- keeps_attempt (in_frames _) => apply keeps_attempt_in_channels
  | |- keeps_attempt (if ?x then _ else _) => destruct x
  | |- keeps_attempt (match ?x with _ => _ end) => destruct x
  | |- keeps_attempt (let _ := _ in _) => cbv zeta
  | |- keeps_attempt _ => solve [eauto with keeps_attempt]
  end.

Lemma keeps_attempt_finish_setup : keeps_attempt finish_setup.
Proof.
  intros s e. unfold finish_setup. rewrite bind_get. destruct (ConnectionStatus.connected _); [|done].
  cbv zeta. rewrite bind_modify. unfold unwrap.
  destruct (Buffer.grow (receive_buffer s) _) as [r|]; [|done]. rewrite (io_bind_ok (io_ret r) _ _ _ _ _ _ eq_refl), bind_modify.
  destruct (Buffer.grow (send_buffer s) _) as [w|]; [|done]. rewrite (io_bind_ok (io_ret w) _ _ _ _ _ _ eq_refl), bind_modify.
  by destruct (_ =? _).
Qed.

Lemma keeps_attempt_clear err : keeps_attempt (clear_serialized_frames err).
Proof. unfold clear_serialized_frames. keeps_attempt. apply keeps_attempt_state, Frames.keeps_state_sending_reject. Qed.
#[local] Hint Resolve keeps_attempt_finish_setup keeps_attempt_clear : keeps_attempt.

Lemma keeps_attempt_critical {A} err : keeps_attempt (critical_error err : Io A).
Proof. unfold critical_error, fail. keeps_attempt. Qed.
#[local] Hint Resolve keeps_attempt_critical : keeps_attempt.

Lemma keeps_attempt_io_result r : keeps_attempt (handle_io_result r).
Proof. unfold handle_io_result, io_ret. keeps_attempt. Qed.
Lemma keeps_attempt_flush : keeps_attempt flush.
Proof.
  intros s e. unfold flush. rewrite bind_get. destruct (poll_flush (stream s)) as [r st]. rewrite bind_modify.
  destruct r; [|done]. unfold in_socket, zoom, mbind, M_bind. by destruct (SocketState.handle_write_poll _ _ _) as [[]].
Qed.
#[local] Hint Resolve keeps_attempt_io_result keeps_attempt_flush : keeps_attempt.

Lemma keeps_attempt_serialize fuel : keeps_attempt (serialize_loop fuel).
Proof. induction fuel as [|fuel IH]; cbn [serialize_loop]; unfold io_ret; keeps_attempt. Qed.
Lemma keeps_attempt_settle l : ∀ w, keeps_attempt (settle_written w l).
Proof.
  induction l as [|[n snd] l IH]; intros w; cbn [settle_written]; keeps_attempt.
  apply keeps_attempt_state, Frames.keeps_state_sending_resolve.
Qed.
Lemma keeps_attempt_poll_write : keeps_attempt poll_write_to.
Proof.
  unfold poll_write_to. keeps_attempt; unfold io_ret, fail; keeps_attempt.
Qed.
#[local] Hint Resolve keeps_attempt_serialize keeps_attempt_settle keeps_attempt_poll_write : keeps_attempt.

Lemma keeps_attempt_write fuel now : keeps_attempt (write fuel now).
Proof.
  induction fuel as [|fuel IH]; cbn [write]; unfold io_ret, write_to_stream, serialize; keeps_attempt.
Qed.

Lemma keeps_attempt_parse : keeps_attempt parse.
Proof. unfold parse, io_ret. keeps_attempt. Qed.
#[local] Hint Resolve keeps_attempt_write keeps_attempt_parse : keeps_attempt.

Lemma keeps_attempt_handle_frames fuel : ∀ b, keeps_attempt (handle_frames_loop fuel b).
Proof. induction fuel as [|fuel IH]; intros b; cbn [handle_frames_loop]; unfold io_ret, fail; keeps_attempt. Qed.
Lemma keeps_attempt_half_closed : keeps_attempt handle_half_closed_connection.
Proof. unfold handle_half_closed_connection, io_ret, fail. keeps_attempt. Qed.
Lemma keeps_attempt_poll_read : keeps_attempt poll_read_from.
Proof. unfold poll_read_from, io_ret, fail. keeps_attempt. Qed.
#[local] Hint Resolve keeps_attempt_handle_frames keeps_attempt_half_closed keeps_attempt_poll_read : keeps_attempt.

Lemma keeps_attempt_read fuel now : keeps_attempt (read fuel now).
Proof.
  induction fuel as [|fuel IH]; cbn [read]; unfold io_ret, fail, read_from_stream, handle_frames; keeps_attempt.
Qed.
#[local] Hint Resolve keeps_attempt_read : keeps_attempt.

Lemma keeps_attempt_run fuel now ev : keeps_attempt (run fuel now ev).
Proof. unfold run, ensure_setup, check_connection_state, attempt_flush, handle_frames, io_ret. keeps_attempt. Qed.
#[local] Hint Resolve keeps_attempt_run : keeps_attempt.

Lemma keeps_attempt_session fuel inputs : ∀ r, keeps_attempt (session fuel inputs r).
Proof. induction inputs as [|i inputs IH]; intros r; cbn [session]; unfold turn, io_ret; keeps_attempt. Qed.

(** [k] sessions in a row on fresh streams, none of which got as far as a connection, and after
    each of which the thread tried again. *)
Inductive retried (fuel : nat) (v : Z * Z * Z) : nat → t → Env → t → Env → Prop :=
| retried_none s e : retried fuel v 0 s e s e
| retried_once k s e st inputs r s1 e1 s2 e2 s3 e3 :
    session fuel inputs (Ok tt) (set_half_closed false (set_stream st s)) e = (Done (Ok r), s1, e1) → status s1 = Initial →
    after_session v r s1 e1 = (Again, s2, e2) → retried fuel v k s2 e2 s3 e3 → retried fuel v (S k) s e s3 e3.

Lemma retry_handshake_backoff v r s e : global_backoff (state_of (retry_handshake v r s e)) = global_backoff s.
Proof.
  unfold retry_handshake. rewrite bind_get. destruct (_ && _); [|done].
  unfold in_frames, in_channels, zoom, mbind, M_bind. destruct (Channels.in_frames _ _ _) as [[[] c] e1]; [done|].
  destruct (Channels.set_connection_error _ _ _) as [[[] c'] e2].
  destruct (clear_serialized_eq aborted (set_channels c' (set_channels c s)) e2) as (e3 & E & _). by rewrite E.
Qed.

Lemma again_backoff v r s e s' e' : after_session v r s e = (Again, s', e') → ∃ d, global_backoff s = d :: global_backoff s'.
Proof.
  unfold after_session. rewrite bind_get. unfold mbind at 1, M_bind at 1.
  pose proof (retry_handshake_backoff v r s e) as Hb. destruct (retry_handshake v r s e) as [[[r1|r1] s1] e1]; [|done].
  unfold state_of in Hb. simpl in Hb. rewrite <- Hb, bind_get.
  destruct (clear_serialized_eq (leftover_error (frames s1) r1) s1 e1) as (e2 & E & _). rewrite (bind_eq _ _ _ _ _ _ _ E).
  destruct (negb _); [done|]. unfold throttle. rewrite bind_get. cbn [global_backoff set_serialized].
  destruct (global_backoff s1) as [|d ds].
  - unfold in_channels, zoom, mbind, M_bind. by destruct (Channels.set_connection_error _ _ _) as [[[] c'] e3].
  - rewrite bind_modify. unfold reset. rewrite bind_assoc, bind_modify. intros H. exists d. f_equal.
    destruct (first_connection _); injection H as <- _; done.
Qed.

(** C28: reconnecting comes to an end.  Of sessions that follow one another without any of them
    reaching a set-up connection there are at most as many as the backoff has delays, each
    uses up one of them, and when none is left the end of the next session, whatever its
    result, ends the thread. *)
Theorem attempts_bounded fuel v k s e s' e' : retried fuel v k s e s' e' →
  (k + length (global_backoff s') = length (global_backoff s))%nat ∧
  (k = length (global_backoff s) → ∀ r s1 e1, global_backoff s1 = global_backoff s' →
     ∃ r', result_of (after_session v r s1 e1) = Exit r').
Proof.
  intros H. assert (Hk : (k + length (global_backoff s') = length (global_backoff s))%nat).
  { induction H as [|k s e st inputs r s1 e1 s2 e2 s3 e3 E1 Hi E2 _ IH]; [done|].
    pose proof (keeps_attempt_session fuel inputs (Ok tt) (set_half_closed false (set_stream st s)) e) as [_ Ha].
    rewrite E1 in Ha. destruct (Ha Hi) as [_ Hg]. cbn [state_of fst snd global_backoff set_half_closed set_stream] in Hg.
    destruct (again_backoff _ _ _ _ _ _ E2) as [d Hd]. rewrite <- Hg, Hd. simpl. lia. }
  split; [done|]. intros -> r s1 e1 Hg. destruct (after_session v r s1 e1) as [[[|r'] s2] e2] eqn:E; [|by exists r'].
  destruct (again_backoff _ _ _ _ _ _ E) as [d Hd]. rewrite Hg in Hd.
  destruct (global_backoff s'); [done|]. simpl in Hk. lia.
Qed.

(** ** A connection lost while writing *)

(** An error the client would recover from. *)
Definition lost (err : Error) : Prop := can_be_recovered err = true ∧ interrupted err = false ∧ wouldblock err = false.

(** Streams that stay broken: nothing is written or delivered any more. *)
Record breaks (P : Stream → Prop) : Prop := {
  br_flush : ∀ st, P st → P (poll_flush st).2 ∧ ∀ k, (poll_flush st).1 = Err k → lost (io_error k);
  br_write : ∀ st l, P st → P (poll_write st l).2 ∧
    ((poll_write st l).1 = Ok Pending ∨ ∃ k, (poll_write st l).1 = Err k ∧ lost (io_error k));
  br_read : ∀ st n, P st → P (poll_read st n).2 ∧
    ((poll_read st n).1 = Ok Pending ∨ (poll_read st n).1 = Ok (Ready []) ∨ ∃ k, (poll_read st n).1 = Err k ∧ lost (io_error k));
}.

Section Broken.
Variable P : Stream → Prop.
Hypothesis HP : breaks P.

(** The connection is being recovered, the stream is broken and a frame has not been written whole. *)
Record stalled (s : t) : Prop := {
  sl_status : status s = Connected;
  sl_serialized : serialized_frames s ≠ [];
  sl_state : ConnectionStatus.state (connection_status s) = CoReconnecting;
  sl_recover : Channel.auto_recover (Channels.conn (channels s)) = true;
  sl_queues : Frames.has_pending (frames s) = false;
  sl_send : Buffer.wf (send_buffer s);
  sl_receive : Buffer.wf (receive_buffer s);
  sl_received : Buffer.avail (receive_buffer s) = 0%nat;
  sl_stream : P (stream s);
}.

(** [m] ends, leaves the loop stalled, and fails only with an error to recover from. *)
Definition stalls {A} (m : Io A) (Q : A → t → Prop) (s : t) (e : Env) : Prop :=
  ∃ r s' e', m s e = (Done r, s', e') ∧ stalled s' ∧ match r with Ok a => Q a s' | Err err => lost err end.

Lemma stalls_ret {A} (a : A) (Q : A → t → Prop) s e : stalled s → Q a s → stalls (io_ret a) Q s e.
Proof. intros Hs Hq. by exists (Ok a), s, e. Qed.

Lemma stalls_fail {A} err (Q : A → t → Prop) s e : stalled s → lost err → stalls (fail err) Q s e.
Proof. intros Hs Hl. by exists (Err err), s, e. Qed.

Lemma stalls_bind {A B} (m : Io A) (k : A → Io B) (Q : A → t → Prop) (R : B → t → Prop) s e :
  stalls m Q s e → (∀ a s' e', stalled s' → Q a s' → stalls (k a) R s' e') → stalls (io_bind m k) R s e.
Proof.
  intros (r & s' & e' & E & Hs & Hr) Hk. destruct r as [a|err].
  - unfold stalls. rewrite (io_bind_ok _ _ _ _ _ _ _ E). by apply Hk.
  - unfold stalls. rewrite (io_bind_err _ _ _ _ _ _ _ E). by eexists _, _, _.
Qed.

Lemma stalls_catch {A B} (m : Io A) (k : res A → Io B) (Q : A → t → Prop) (R : B → t → Prop) s e :
  stalls m Q s e → (∀ a s' e', stalled s' → Q a s' → stalls (k (Ok a)) R s' e') →
  (∀ err s' e', stalled s' → lost err → stalls (k (Err err)) R s' e') → stalls (io_catch m k) R s e.
Proof.
  intros (r & s' & e' & E & Hs & Hr) Hk Hf. unfold stalls, io_catch. rewrite (bind_eq _ _ _ _ _ _ _ E).
  destruct r as [a|err]; [by apply Hk|by apply Hf].
Qed.

Lemma stalls_weaken {A} (m : Io A) (Q R : A → t → Prop) s e : stalls m Q s e → (∀ a s, Q a s → R a s) → stalls m R s e.
Proof. intros (r & s' & e' & E & Hs & Hr) H. exists r, s', e'. split_and!; try done. destruct r; auto. Qed.

Lemma stalled_socket x s : stalled s → stalled (set_socket_state x s).
Proof. by intros []. Qed.
Lemma stalled_stream st s : stalled s → P st → stalled (set_stream st s).
Proof. by intros []. Qed.
Lemma stalled_half_closed b s : stalled s → stalled (set_half_closed b s).
Proof. by intros []. Qed.
#[local] Hint Resolve stalled_socket stalled_stream stalled_half_closed : core.

Lemma stalls_critical {A} err (Q : A → t → Prop) s e : stalled s → lost err → stalls (critical_error err) Q s e.
Proof.
  intros Hs Hl. pose proof Hl as [Hr _]. unfold stalls, critical_error. rewrite bind_get.
  assert (E : ∃ e', (if is_io_error err then kill (connection_killswitch s);; mret tt else mret tt) s e = (tt, s, e')).
  { destruct (is_io_error err); by eexists. }
  destruct E as [e' E]. rewrite (bind_eq _ _ _ _ _ _ _ E), (sl_recover _ Hs). unfold can_recover. rewrite Hr. cbn [andb].
  by exists (Err err), s; eexists.
Qed.

Lemma stalls_io_result r s e : stalled s → match r with Ok _ => True | Err err => lost err end →
  stalls (handle_io_result r) (λ _ s', is_ok r = true ∧ s' = s) s e.
Proof.
  intros Hs Hr. unfold handle_io_result. destruct r as [[]|err].
  - destruct s. by apply stalls_ret.
  - destruct Hr as (H1 & H2 & H3). unfold stalls, SocketState.handle_io_result, in_socket, zoom. unfold mbind at 1, M_bind at 1.
    rewrite H2, H3. assert (Hc : ∀ x e, stalls (A := unit) (critical_error err) (λ _ s', false = true ∧ s' = s) (set_socket_state x s) e).
    { intros. by apply stalls_critical; auto. }
    destruct (is_io_error err); apply Hc.
Qed.

Lemma stalls_flush s e : stalled s →
  stalls flush (λ _ s', half_closed s' = half_closed s ∧ SocketState.readable (socket_state s') = SocketState.readable (socket_state s)) s e.
Proof.
  intros Hs. destruct (br_flush _ HP _ (sl_stream _ Hs)) as [Hp Hk]. unfold stalls, flush. rewrite bind_get.
  destruct (poll_flush (stream s)) as [r st]. rewrite bind_modify. cbn [fst snd] in *.
  destruct r as [[[]|]|k].
  - eexists (Ok tt), _, _. split; [reflexivity|]. split; [by apply stalled_socket; auto|done].
  - eexists (Ok tt), _, _. split; [reflexivity|]. split; [by apply stalled_socket; auto|done].
  - exists (Err (io_error k)), (set_stream st s), e. split_and!; auto.
Qed.

Lemma serialize_stalled s e : stalled s → serialize s e = (Done (Ok tt), s, e).
Proof.
  intros Hs. apply serialize_idle. pose proof (sl_queues _ Hs) as Hq. unfold Frames.has_pending in Hq.
  unfold Frames.pop_. destruct (Frames.retry_frames (frames s)); [|done]. destruct (Frames.publish_frames (frames s)); [|done].
  destruct (Frames.frames (frames s)); [|done]. destruct (Frames.low_prio_frames (frames s)); [|done]. by destruct (Channels.flow _).
Qed.

Lemma stalls_poll_write s e : stalled s → stalls poll_write_to (λ p _, p = Ready O ∨ p = Pending) s e.
Proof.
  intros Hs. unfold stalls, poll_write_to. rewrite bind_get.
  destruct (Buffer.write_slices_spec _ (sl_send _ Hs)) as (ss & Hss & _). rewrite Hss. cbn [unwrap].
  rewrite (io_bind_ok (io_ret ss) _ _ _ _ _ _ eq_refl). destruct ss as [|x ss]; [apply stalls_ret; auto|].
  destruct (br_write _ HP _ (x :: ss) (sl_stream _ Hs)) as [Hp Hk]. destruct (poll_write (stream s) (x :: ss)) as [r st].
  rewrite bind_modify. cbn [fst snd] in *. destruct Hk as [->|(k & -> & Hl)]; [apply stalls_ret|apply stalls_fail]; auto.
Qed.

(** A write marks the socket not writable, or fails. *)
Lemma stalls_write_to now s e : stalled s →
  stalls (write_to_stream now) (λ _ s', SocketState.writable (socket_state s') = false) s e.
Proof.
  intros Hs. unfold write_to_stream. eapply stalls_bind; [by apply stalls_flush|]. intros _ s1 e1 Hs1 _.
  unfold stalls. rewrite (io_bind_ok _ _ _ _ _ _ _ (serialize_stalled s1 e1 Hs1)).
  eapply stalls_bind; [by apply stalls_poll_write|]. intros p s2 e2 Hs2 [-> | ->].
  - eexists (Ok tt), _, _. split; [reflexivity|]. split; [by do 2 apply stalled_socket|done].
  - eexists (Ok tt), _, _. split; [reflexivity|]. split; [by apply stalled_socket|done].
Qed.

Lemma stalls_write fuel now s e : stalled s → stalls (write (S (S fuel)) now) (λ _ _, True) s e.
Proof.
  intros Hs. cbn [write]. unfold stalls. rewrite bind_get. destruct (can_write s) eqn:Hc; [|by apply stalls_ret].
  eapply (stalls_bind _ _ (λ _ s', SocketState.writable (socket_state s') = false)).
  - eapply stalls_catch; [by apply stalls_write_to|..].
    + intros [] s1 e1 Hs1 Hw. eapply stalls_weaken; [by apply stalls_io_result|]. by intros _ ? [_ ->].
    + intros err s1 e1 Hs1 Hl. eapply stalls_weaken; [by apply stalls_io_result|]. by intros _ ? [? _].
  - intros _ s1 e1 Hs1 Hw. unfold stalls. rewrite bind_get. unfold can_write. rewrite Hw. by apply stalls_ret.
Qed.

Lemma stalls_handle_frames s e : stalled s → handle_frames s e = (Done (Ok false), s, e).
Proof.
  intros Hs. unfold handle_frames. rewrite bind_get. cbn [handle_frames_loop]. rewrite bind_get. unfold can_parse, Buffer.available_data.
  by rewrite (sl_received _ Hs).
Qed.

Lemma half_closed_stalled s e : stalled s → handle_half_closed_connection s e = (Done (Ok true), s, e).
Proof.
  intros Hs. unfold handle_half_closed_connection, reconnecting, ConnectionStatus.reconnecting.
  rewrite bind_get, bind_get_env. by rewrite (sl_state _ Hs), bool_decide_true.
Qed.

(** A read delivers nothing. *)
Lemma stalls_poll_read s e : stalled s →
  stalls poll_read_from (λ p s', (p = Ready O ∨ p = Pending) ∧ half_closed s' = half_closed s) s e.
Proof.
  intros Hs. unfold stalls, poll_read_from. rewrite bind_get.
  pose proof (sl_receive _ Hs) as Hwf. pose proof Hwf as [_ Hpos _ _].
  unfold Buffer.available_space, usub. rewrite (sl_received _ Hs), decide_True, Nat.sub_0_r by lia. cbn [unwrap].
  rewrite (io_bind_ok (io_ret _) _ _ _ _ _ _ eq_refl). destruct (Buffer.capacity (receive_buffer s)) as [|n] eqn:Hcap; [lia|].
  destruct (br_read _ HP _ (S n) (sl_stream _ Hs)) as [Hp Hk]. destruct (poll_read (stream s) (S n)) as [r st].
  rewrite bind_modify. cbn [fst snd] in *. destruct Hk as [->|[->|(k & -> & Hl)]].
  - apply stalls_ret; auto.
  - destruct (Buffer.read_fill_spec (receive_buffer s) [] Hwf) as (b & Hb & Hwf' & _ & _ & Hav & _). rewrite Hb. cbn [unwrap].
    rewrite (io_bind_ok (io_ret _) _ _ _ _ _ _ eq_refl), bind_modify. apply stalls_ret; [|by auto].
    destruct Hs. split; try done. simpl in *. lia.
  - apply stalls_fail; auto.
Qed.

(** A turn of the reading loop stops it, marks the socket not readable or sees it half closed. *)
Lemma stalls_read_from now s e : stalled s →
  stalls (read_from_stream now) (λ b s', b = true ∨ SocketState.readable (socket_state s') = false ∨
    (half_closed s = false ∧ half_closed s' = true)) s e.
Proof.
  intros Hs. unfold stalls, read_from_stream. rewrite bind_get, (sl_state _ Hs).
  eapply stalls_bind; [by apply stalls_poll_read|]. intros p s1 e1 Hs1 [Hp Hh]. unfold stalls.
  destruct Hp as [-> | ->]; [|eexists (Ok false), _, _; split; [reflexivity|]; split; [by apply stalled_socket|by right; left]].
  assert (E : in_socket (SocketState.handle_read_poll (Ready O)) s1 e1 = (Some O, s1, e1)) by by destruct s1.
  rewrite (bind_eq _ _ _ _ _ _ _ E), bind_get. destruct (half_closed s1) eqn:Hh1.
  - exists (Ok true), s1, e1. rewrite half_closed_stalled by done. auto.
  - rewrite bind_modify. rewrite (io_bind_ok _ _ _ _ _ _ _ (stalls_handle_frames (set_half_closed true s1) e1 ltac:(auto))), bind_get_env.
    destruct (negb false && rpc_is_empty e1).
    + exists (Ok true), (set_half_closed true s1), e1. rewrite half_closed_stalled by auto. auto.
    + apply stalls_ret; [by auto|]. right; right. by rewrite <- Hh.
Qed.

Lemma stalls_read_once (m : Io unit) now s e : stalled s →
  (∀ s' e', stalled s' → SocketState.readable (socket_state s') = false ∨ (half_closed s = false ∧ half_closed s' = true) →
    stalls m (λ _ _, True) s' e') →
  stalls (io_catch (read_from_stream now) (λ r,
    io_bind (handle_io_result (match r with Ok _ => Ok tt | Err err => Err err end))
      (λ _, match r with Ok true => io_ret tt | _ => m end))) (λ _ _, True) s e.
Proof.
  intros Hs Hm. eapply stalls_catch; [by apply stalls_read_from|..].
  - intros b s1 e1 Hs1 Hb. eapply stalls_bind; [by apply stalls_io_result|]. intros _ s2 e2 Hs2 [_ ->].
    destruct b; [by apply stalls_ret|]. apply Hm; [done|]. by destruct Hb.
  - intros err s1 e1 Hs1 Hl. eapply stalls_bind; [by apply stalls_io_result|]. by intros _ s2 e2 Hs2 [? _].
Qed.

Lemma stalls_read_done fuel now s e : stalled s → SocketState.readable (socket_state s) = false →
  stalls (read (S fuel) now) (λ _ _, True) s e.
Proof. intros Hs Hr. cbn [read]. unfold stalls. rewrite bind_get. unfold can_read. rewrite Hr. by apply stalls_ret. Qed.

Lemma stalls_read_half fuel now s e : stalled s → half_closed s = true → stalls (read (S (S fuel)) now) (λ _ _, True) s e.
Proof.
  intros Hs Hh. change (read (S (S fuel)) now) with (s ← get; if can_read s then io_catch (read_from_stream now) (λ r,
    io_bind (handle_io_result (match r with Ok _ => Ok tt | Err err => Err err end))
      (λ _, match r with Ok true => io_ret tt | _ => read (S fuel) now end)) else io_ret tt).
  unfold stalls. rewrite bind_get. destruct (can_read s); [|by apply stalls_ret].
  apply stalls_read_once; [done|]. intros s1 e1 Hs1 [Hr|[H _]]; [by apply stalls_read_done|congruence].
Qed.

Lemma stalls_read fuel now s e : stalled s → stalls (read (S (S (S fuel))) now) (λ _ _, True) s e.
Proof.
  intros Hs. change (read (S (S (S fuel))) now) with (s ← get; if can_read s then io_catch (read_from_stream now) (λ r,
    io_bind (handle_io_result (match r with Ok _ => Ok tt | Err err => Err err end))
      (λ _, match r with Ok true => io_ret tt | _ => read (S (S fuel)) now end)) else io_ret tt).
  unfold stalls. rewrite bind_get. destruct (can_read s); [|by apply stalls_ret].
  apply stalls_read_once; [done|]. intros s1 e1 Hs1 [Hr|[_ H]]; [by apply stalls_read_done|by apply stalls_read_half].
Qed.

Lemma stalls_socket {A B} (m : M SocketState.t B) (k : B → Io A) (Q : A → t → Prop) s e :
  (∀ b x e', stalls (k b) Q (set_socket_state x s) e') → stalls (in_socket m ≫= k) Q s e.
Proof.
  intros Hk. unfold stalls, in_socket, zoom, mbind, M_bind. destruct (m (socket_state s) e) as [[b x] e']. apply Hk.
Qed.

Lemma stalled_check s e : stalled s → check_connection_state s e = (tt, s, e).
Proof.
  intros Hs. unfold check_connection_state. rewrite bind_get. unfold ConnectionStatus.closed. rewrite (sl_state _ Hs).
  by rewrite bool_decide_false.
Qed.

Lemma stalled_continues s e : stalled s → should_continue s e = true.
Proof.
  intros Hs. unfold should_continue, ConnectionStatus.errored. rewrite (sl_state _ Hs), bool_decide_false by done.
  rewrite (sl_status _ Hs), (bool_decide_false (serialized_frames s = [])) by apply (sl_serialized _ Hs).
  by rewrite orb_true_r.
Qed.

Lemma stalls_run fuel now ev s e : stalled s → stalls (run (S (S (S fuel))) now ev) (λ _ _, True) s e.
Proof.
  intros Hs. unfold run. apply stalls_socket. intros _ x1 e1. apply (stalled_socket x1) in Hs. revert Hs. generalize (set_socket_state x1 s).
  clear s. intros s Hs.
  assert (E : ensure_setup s e1 = (Done (Ok true), s, e1)) by (unfold ensure_setup; by rewrite bind_get, (sl_status _ Hs)).
  unfold stalls. rewrite (io_bind_ok _ _ _ _ _ _ _ E). cbn [negb].
  rewrite (bind_eq _ _ _ _ _ _ _ (stalled_check s e1 Hs)), bind_get, bind_get_env.
  match goal with |- context [if ?b then in_socket (SocketState.wait ev) else mret tt] =>
    change (if b then in_socket (SocketState.wait ev) else mret tt) with (if b then in_socket (SocketState.wait ev) else (mret tt : M t unit));
    assert (Hw : ∃ x e', (if b then in_socket (SocketState.wait ev) else (mret tt : M t unit)) s e1 = (tt, set_socket_state x s, e')) end.
  { destruct (_ && _).
    - unfold in_socket, zoom. destruct (SocketState.wait ev (socket_state s) e1) as [[[] x] e']. by exists x, e'.
    - exists (socket_state s), e1. by destruct s. }
  destruct Hw as (x2 & e2 & Hw). rewrite (bind_eq _ _ _ _ _ _ _ Hw). apply (stalled_socket x2) in Hs. revert Hs.
  generalize (set_socket_state x2 s). clear s E Hw. intros s Hs.
  apply stalls_socket. intros _ x3 e3. apply (stalled_socket x3) in Hs. revert Hs. generalize (set_socket_state x3 s). clear s. intros s Hs.
  eapply (stalls_bind _ _ (λ _ _, True)).
  { unfold attempt_flush. eapply stalls_catch; [by apply stalls_flush|..].
    - intros [] s1 e4 Hs1 _. eapply stalls_weaken; [by apply stalls_io_result|done].
    - intros err s1 e4 Hs1 Hl. eapply stalls_weaken; [by apply stalls_io_result|done]. }
  clear s Hs. intros _ s e4 Hs _. eapply stalls_bind; [by apply stalls_write|]. clear s Hs. intros _ s e5 Hs _.
  unfold stalls. rewrite (bind_eq _ _ _ _ _ _ _ (stalled_check s e5 Hs)), bind_get, bind_get_env, stalled_continues by done.
  eapply stalls_bind; [by apply stalls_read|]. clear s Hs. intros _ s e6 Hs _.
  unfold stalls. rewrite (io_bind_ok _ _ _ _ _ _ _ (stalls_handle_frames s e6 Hs)).
  rewrite (bind_eq _ _ _ _ _ _ _ (stalled_check s e6 Hs)). by apply stalls_ret.
Qed.

(** The loop is not left. *)
Lemma stalls_turn fuel now ev r s e : stalled s → ∃ r' s' e',
  turn (S (S (S fuel))) now ev r s e = (Done (Ok (r', false)), s', e') ∧ stalled s'.
Proof.
  intros Hs. unfold turn, io_catch. destruct (stalls_run fuel now ev s e Hs) as (x & s1 & e1 & E & Hs1 & Hx).
  rewrite (bind_eq _ _ _ _ _ _ _ E). destruct x as [[]|err]; [by eexists _, _, _|]. cbv zeta.
  destruct (stalls_critical (A := unit) err (λ _ _, False) s1 e1 Hs1 Hx) as (r2 & s2 & e2 & E2 & Hs2 & _).
  rewrite (bind_eq _ _ _ _ _ _ _ E2), bind_get. eexists _, _, _. split; [|done].
  unfold connecting. by rewrite (sl_status _ Hs2).
Qed.

(** What the other threads see and do while the connection is being recovered. *)
Definition recovering (c : Channels.t) : Prop :=
  ConnectionStatus.state (Channels.connection_status c) = CoReconnecting ∧
  Channel.auto_recover (Channels.conn c) = true ∧ Frames.has_pending (Channel.frames (Channels.conn c)) = false.

Definition keeps_recovering (m : M Channels.t unit) : Prop := ∀ c e, recovering c → recovering (state_of (m c e)).

Lemma stalled_others m s e : keeps_recovering m → stalled s → ∃ s' e', in_channels m s e = (tt, s', e') ∧ stalled s'.
Proof.
  intros Hm [? ? ? ? ? ? ? ? ?]. unfold in_channels, zoom. pose proof (Hm (channels s) e) as Hr.
  destruct (m (channels s) e) as [[[] c] e']. destruct Hr as (? & ? & ?); [done|]. by eexists _, _.
Qed.

Lemma session_stalled fuel inputs : Forall (λ i, keeps_recovering (i_others i)) inputs → ∀ r s e, stalled s →
  let x := session (S (S (S fuel))) inputs r s e in result_of x = OutOfFuel ∧ stalled (state_of x).
Proof.
  induction 1 as [|i inputs Hi _ IH]; intros r s e Hs; cbn [session]; rewrite bind_get, bind_get_env, stalled_continues by done; [done|].
  cbn [negb]. destruct (stalled_others (i_others i) s e Hi Hs) as (s1 & e1 & E1 & Hs1). rewrite (bind_eq _ _ _ _ _ _ _ E1).
  destruct (stalls_turn fuel (i_now i) (i_event i) r s1 e1 Hs1) as (r2 & s2 & e2 & E2 & Hs2).
  rewrite (io_bind_ok _ _ _ _ _ _ _ E2). by apply IH.
Qed.

End Broken.

(** C29: a connection lost in the middle of a write is never recovered.  Suppose the stream is
    broken, the connection is waiting to be recovered and some frame has been serialized but
    not written whole.  Whatever the number of turns, the events and what the other threads do
    while recovering, the session does not end: the serialized frames, which only its end would clear,
    keep the loop going, so no new stream is ever connected and the callers of these frames
    are never told. *)
Theorem broken_write_never_recovers (P : Stream → Prop) fuel inputs r s e :
  breaks P → stalled P s → Forall (λ i, keeps_recovering (i_others i)) inputs → (3 ≤ fuel)%nat →
  let x := session fuel inputs r s e in
  result_of x = OutOfFuel ∧ should_continue (state_of x) (env_of x) = true ∧
  serialized_frames (state_of x) ≠ [] ∧ reconnecting (state_of x) = true.
Proof.
  intros HP Hs Hi Hf. destruct fuel as [|[|[|fuel]]]; [lia..|]. destruct (session_stalled P HP fuel inputs Hi r s e Hs) as [Hx Hx'].
  cbv zeta. split; [done|]. split; [by eapply stalled_continues|]. split; [by eapply sl_serialized|].
  unfold reconnecting, ConnectionStatus.reconnecting. by rewrite (sl_state _ _ Hx'), bool_decide_true.
Qed.

End Supervisor.

Section Witnesses.
#[local] Existing Instances number_types number_protocol number_handle IoLoop.demo_codec.
#[local] Instance z_order : HashOrder Z := canonical_order Z.
#[local] Instance s_order : HashOrder string := canonical_order string.

(** A connection of two channels whose stream has delivered and taken all it will. *)
#[local] Instance broken_socket : Transport := {|
  Stream := unit;
  poll_flush st := (Ok (Ready tt), st);
  poll_write st _ := (Err (OtherIo 32), st);
  poll_read st _ := (Ok (Ready []), st);
  is_shutdown _ := false;
|}.

Definition demo_connected : Channels.t :=
  let c := Channels.demo 2 1 in
  Channels.set_conn (Channel.mkConn (Configuration.mk 2 4096 0) (ConnectionStatus.mk CoConnected false None)
    IoLoop.demo_queue "/" true) c.
Definition demo_io : t :=
  mk demo_connected SocketState.default (Heartbeat.demo 0 0) Connected 4096
    (Buffer.with_capacity 8) (Buffer.with_capacity 8) [] false false [1; 2] [1; 2] tt.

(** A failed turn, then the recovery the dispatcher starts. *)
Definition demo_lost : t * Env :=
  let '(_, s, e) := (turn 3 0 SocketState.Wake (Ok tt);; in_channels (Channels.init_connection_recovery aborted;; mret tt)) demo_io env_empty in
  (s, e).

Lemma broken_write_never_recovers_witness :
  result_of (session 3 (replicate 5 (mkInput (mret tt) 0 SocketState.Wake)) (Ok tt) demo_lost.1 demo_lost.2) = OutOfFuel ∧
  length (serialized_frames demo_lost.1) = 2%nat.
Proof.
  split; [|by vm_compute].
  apply (broken_write_never_recovers (AT := number_types) (AP := number_protocol) (TR := broken_socket) (FC := IoLoop.demo_codec)
    (λ _, True) 3 (replicate 5 (mkInput (mret tt) 0 SocketState.Wake)) (Ok tt) demo_lost.1 demo_lost.2).
  - split; [done| |].
    + intros st l _. split; [done|]. right. by exists (OtherIo 32).
    + intros st n _. split; [done|]. right. by left.
  - split; try (by vm_compute).
    + split; vm_compute; [reflexivity|lia|lia|reflexivity].
    + split; vm_compute; [reflexivity|lia|lia|reflexivity].
  - repeat (constructor; [by intros c e|]). constructor.
  - lia.
Defined.

(** The end of a session of a connection to recover, with a frame not written whole. *)
Lemma session_end_witness :
  result_of (after_session (0, 9, 1) (Err aborted) demo_lost.1 demo_lost.2) = Again ∧
  serialized_frames (state_of (after_session (0, 9, 1) (Err aborted) demo_lost.1 demo_lost.2)) = [] ∧
  done 2%nat (env_of (after_session (0, 9, 1) (Err aborted) demo_lost.1 demo_lost.2)).
Proof.
  destruct (session_end (AT := number_types) (TR := broken_socket) (0, 9, 1) (Err aborted) demo_lost.1 demo_lost.2)
    as (H1 & H2 & _); [by vm_compute|].
  split; [by vm_compute|]. split; [exact H1|]. apply (H2 2 (Frames.mkSending None (Some 2%nat))); [|done].
  vm_compute. by right; left.
Defined.

(** A session the server cuts at once. *)
Definition demo_connecting : Channels.t :=
  Channels.set_conn (Channel.mkConn (Configuration.mk 2 4096 0) (ConnectionStatus.mk CoConnecting false None)
    (Frames.set_expected {[ 0 := [mkExpectedReply (RConnectionStep (StepProtocolHeader 3%nat 0%nat)) 3%nat] ]} Frames.default) "/" true)
    (Channels.demo 2 1).
Definition demo_initial : t := set_first_connection true (set_status Initial (set_channels demo_connecting demo_io)).

Lemma attempts_bounded_witness : ∃ k s e s' e', retried 3 (0, 9, 1) k s e s' e' ∧
  (k + length (global_backoff s') = length (global_backoff s))%nat.
Proof.
  assert (H : ∃ s' e', retried (AT := number_types) (AP := number_protocol) (TR := broken_socket) (FC := IoLoop.demo_codec)
    3 (0, 9, 1) 1 demo_initial env_empty s' e').
  { eexists _, _. eapply (retried_once 3 (0, 9, 1) 0 demo_initial env_empty tt [mkInput (mret tt) 0 SocketState.Wake]).
    - vm_compute. reflexivity.
    - reflexivity.
    - vm_compute. reflexivity.
    - constructor. }
  destruct H as (s' & e' & H). exists 1%nat, demo_initial, env_empty, s', e'. split; [exact H|].
  apply (attempts_bounded (AT := number_types) (AP := number_protocol) (TR := broken_socket) (FC := IoLoop.demo_codec)
    3 (0, 9, 1) 1 demo_initial env_empty s' e' H).
Defined.

End Witnesses.
End Supervisor.
