(* ===== verification/InternalRPC.v ===== *)
(** The dispatcher of internal commands (src/internal_rpc.rs) and the futures it hands to
    the runtime.  A future runs up to its first wait when it is polled first; when the promise
    it waits for is completed it goes on to its end.  Handles on channels that were removed
    from the connection are not followed ([PGone]). *)
From S2P Require Import Prelude.
From S2P Require Import Buffer.
From S2P Require Import Types.
From S2P Require Import Env.
From S2P Require Import Frames.
From S2P Require Import Registry.
From S2P Require Import ChannelStatus.
From S2P Require Import Messages.
From S2P Require Import Consumers.
From S2P Require Import Connection.
From S2P Require Import Channel.
From S2P Require Import Generated.
From S2P Require Import Channels.
From S2P Require Import Heartbeat.
Open Scope Z_scope.

Module InternalRPC.
Section InternalRPC.
Context `{AT : AmqpTypes} `{AP : !AmqpProtocol} `{CH : !ConnectionHandle}
  `{HZ : !HashOrder Z} `{HS : !HashOrder string}.

(** The asynchronous blocks of [run]; [found] tells whether [get_channel] found the channel
    when the command was dispatched. *)
Inductive Future :=
| FSettle (ch : ChannelId) (found : bool) (tag : DeliveryTag) (o : Messages.Settle) (err : option ErrorHolder)
| FCancelConsumer (ch : ChannelId) (found : bool) (consumer_tag : ShortString) (c : ConsumerRef)
| FCloseChannel (ch : ChannelId) (found : bool) (code : ReplyCode) (text : ShortString)
| FCloseConnection (code : ReplyCode) (text : ShortString) (class_id method_id : Identifier)
| FOpenChannel (ch : ChannelId)
| FRemoveChannel (ch : ChannelId) (err : Error)
| FConnectionCloseOk (err : Error)
| FAwait (p : Resolver)
| FTask (x : Task)
| FChannelsRecovery
| FUpdateSecret (secret : LongString) (reason : ShortString).

(** What a future does when its promise is completed. *)
Inductive After :=
| Finish
| ThenOpen (vhost : ShortString) (c : ConnectionRef) (resolver : Resolver)
| ThenChannels (chs : list ChannelId)
| ThenReopened (ch : ChannelId) (d : Registry.ChannelDefinition) (chs : list ChannelId)
| ThenRequests (ch : ChannelId) (l : list Registry.Request) (chs : list ChannelId).

Inductive Progress := PDone (r : res PVal) | PAwait (p : Resolver) (a : After) | PGone.

(** [tasks] are the futures spawned and not yet polled, [waiting] those waiting for a promise;
    both with the resolver of [register_internal_future_with_resolver].  [timers] and
    [refreshers] are the kill switches the heartbeat and the secret tasks were
    started with. *)
Record t := mk {
  channels : Channels.t;
  channels_status : gmap Z KillSwitch;
  heartbeat : Heartbeat.t;
  secret_update : SecretUpdate.t;
  tasks : list (Future * option Resolver);
  waiting : list (Resolver * After * option Resolver);
  timers : list KillSwitch;
  refreshers : list KillSwitch;
}.

Definition set_channels x s := mk x (channels_status s) (heartbeat s) (secret_update s) (tasks s) (waiting s) (timers s) (refreshers s).
Definition set_channels_status x s := mk (channels s) x (heartbeat s) (secret_update s) (tasks s) (waiting s) (timers s) (refreshers s).
Definition set_heartbeat x s := mk (channels s) (channels_status s) x (secret_update s) (tasks s) (waiting s) (timers s) (refreshers s).
Definition set_secret_update x s := mk (channels s) (channels_status s) (heartbeat s) x (tasks s) (waiting s) (timers s) (refreshers s).
Definition set_tasks x s := mk (channels s) (channels_status s) (heartbeat s) (secret_update s) x (waiting s) (timers s) (refreshers s).
Definition set_waiting x s := mk (channels s) (channels_status s) (heartbeat s) (secret_update s) (tasks s) x (timers s) (refreshers s).
Definition set_timers x s := mk (channels s) (channels_status s) (heartbeat s) (secret_update s) (tasks s) (waiting s) x (refreshers s).
Definition set_refreshers x s := mk (channels s) (channels_status s) (heartbeat s) (secret_update s) (tasks s) (waiting s) (timers s) x.

Definition in_channels {A} : M Channels.t A → M t A := zoom channels set_channels.
Definition in_heartbeat {A} : M Heartbeat.t A → M t A := zoom heartbeat set_heartbeat.
Definition in_secret {A} : M SecretUpdate.t A → M t A := zoom secret_update set_secret_update.

Definition channel_ok (ch : ChannelId) (s : t) (e : Env) : bool :=
  match channels_status s !! ch with Some k => negb (killed k e) | None => false end.

Definition found (ch : ChannelId) (s : t) : bool :=
  match Channels.get_ ch (channels s) with Some _ => true | None => false end.

Definition register_internal_future (f : Future) : M t unit :=
  modify (λ s, set_tasks (tasks s ++ [(f, None)]) s).
Definition register_internal_future_with_resolver (f : Future) (r : Resolver) : M t unit :=
  modify (λ s, set_tasks (tasks s ++ [(f, Some r)]) s).

(** One command of [run]; the result tells whether the turn ends with a wake-up ([continue]
    skips it). *)
Definition dispatch (now : Z) (c : InternalCommand) : M t bool :=
  s ← get; e ← get_env;
  match c with
  | CBasicAck ch tag m r err =>
    if negb (channel_ok ch s e) then mret false else
    register_internal_future_with_resolver (FSettle ch (found ch s) tag (Messages.SAck m) err) r;; mret true
  | CBasicNack ch tag m q r err =>
    if negb (channel_ok ch s e) then mret false else
    register_internal_future_with_resolver (FSettle ch (found ch s) tag (Messages.SNack m q) err) r;; mret true
  | CBasicReject ch tag q r err =>
    if negb (channel_ok ch s e) then mret false else
    register_internal_future_with_resolver (FSettle ch (found ch s) tag (Messages.SReject q) err) r;; mret true
  | CCancelConsumer ch tag c =>
    if negb (channel_ok ch s e) then mret false else
    register_internal_future (FCancelConsumer ch (found ch s) tag c);; mret true
  | CCloseChannel ch code text =>
    if negb (channel_ok ch s e) then mret false else
    register_internal_future (FCloseChannel ch (found ch s) code text);; mret true
  | CCloseConnection code text class_id method_id r =>
    match r with
    | Some r => register_internal_future_with_resolver (FCloseConnection code text class_id method_id) r
    | None => register_internal_future (FCloseConnection code text class_id method_id)
    end;; mret true
  | CCreateChannel r =>
    c ← in_channels Channels.create;
    match c with
    | Some (Ok c) => register_internal_future_with_resolver (FOpenChannel (Channel.id c)) r
    | Some (Err err) => reject r err
    | None => mret tt
    end;; mret true
  | CDeregisterConsumer ch tag =>
    in_channels (Channels.with_channel ch tt (Channel.deregister_consumer tag));; mret true
  | CFinishConnectionShutdown => in_channels Channels.finish_connection_shutdown;; mret true
  | CInitConnectionRecovery err =>
    in_heartbeat (Heartbeat.reset now);;
    in_secret SecretUpdate.reset;;
    in_channels (Channels.init_connection_recovery err);; mret true
  | CInitConnectionShutdown err r => in_channels (Channels.init_connection_shutdown err r);; mret true
  | CRemoveChannel ch err =>
    if negb (channel_ok ch s e) then mret false else
    register_internal_future (FRemoveChannel ch err);; mret true
  | CSendConnectionCloseOk err => register_internal_future (FConnectionCloseOk err);; mret true
  | CSendHeartbeat =>
    p ← promise_new;
    in_channels (Channels.in_channel0 (Channel.send_frame HeartbeatFrame p None (Some p)));;
    register_internal_future (FAwait p);; mret true
  | CSetChannelStatus ch k => modify (λ s, set_channels_status (<[ch := k]> (channels_status s)) s);; mret true
  | CSetConnectionClosing =>
    in_heartbeat Heartbeat.cancel;;
    in_secret SecretUpdate.cancel;;
    in_channels Channels.set_connection_closing;; mret true
  | CSetConnectionClosed err =>
    in_channels (Channels.in_frames (Frames.clear_all_expected_replies err));;
    in_channels (Channels.set_connection_closed err);; mret true
  | CSetConnectionError err =>
    if can_recover (Channel.auto_recover (Channels.conn (channels s))) err then
      b ← in_channels Channels.should_init_connection_recovery;
      (if b : bool then rpc_init_connection_recovery err else mret tt);; mret true
    else in_channels (Channels.set_connection_error err);; mret true
  | CSpawn x => register_internal_future (FTask x);; mret true
  | CStartChannelsRecovery => register_internal_future FChannelsRecovery;; mret true
  | CStartHeartbeat ms =>
    in_heartbeat (Heartbeat.set_timeout (from_millis ms));;
    modify (λ s, set_timers (timers s ++ [Heartbeat.poison (heartbeat s)]) s);;
    modify (λ s, set_refreshers (refreshers s ++ [SecretUpdate.killswitch (secret_update s)]) s);; mret true
  | CUpdateSecret secret reason r =>
    register_internal_future_with_resolver (FUpdateSecret secret reason) r;; mret true
  end.

(** One turn of [run]: [false] when no command is queued. *)
Definition run_next (now : Z) : M t bool :=
  e ← get_env;
  match rpc e with
  | [] => mret false
  | c :: l =>
    modify_env (set_rpc l);;
    b ← dispatch now c;
    (if b : bool then wake else mret tt);;
    mret true
  end.

(** ** The futures *)

(** A method of the channel [ch], up to its wait. *)
Definition call_channel (ch : ChannelId) (k : M Channel.t (res Resolver)) (a : After) : M t Progress :=
  r ← in_channels (Channels.with_channel ch None (x ← k; mret (Some x)));
  mret (match r with
        | None => PGone
        | Some (Ok p) => PAwait p a
        | Some (Err err) => PDone (Err err)
        end).

Definition invalid_channel (ch : ChannelId) : Progress := PDone (Err (error_from (InvalidChannel ch))).

Definition settle_method (tag : DeliveryTag) (o : Messages.Settle) : M Channel.t (res Resolver) :=
  match o with
  | Messages.SAck m => Generated.basic_ack tag m
  | Messages.SNack m q => Generated.basic_nack tag m q
  | Messages.SReject q => Generated.basic_reject tag q
  end.

(** The asynchronous blocks other components spawn (src/channel.rs, src/consumer.rs); what a delegate
    does is the application's. *)
Definition first_poll_task (x : Task) : M t Progress :=
  match x with
  | TChannelFlowOk ch active => call_channel ch (Generated.channel_flow_ok active) Finish
  | TChannelCloseOk ch err => call_channel ch (Generated.channel_close_ok err) Finish
  | TBasicCancelOk ch tag => call_channel ch (Generated.basic_cancel_ok tag) Finish
  | TChannelClose ch code text class_id method_id =>
    call_channel ch (Generated.do_channel_close code text class_id method_id) Finish
  | TConnectionStartOk props mech response locale r c =>
    call_channel 0 (Generated.connection_start_ok props mech response locale r c) Finish
  | TConnectionSecureOk response r c => call_channel 0 (Generated.connection_secure_ok response r c) Finish
  | TConnectionTuneOk vhost r c =>
    s ← get;
    let conf := Channel.configuration (Channels.conn (channels s)) in
    call_channel 0 (Generated.connection_tune_ok (Configuration.channel_max conf) (Configuration.frame_max conf)
      (Configuration.heartbeat conf)) (ThenOpen vhost c r)
  | TNewDelivery _ _ | TDropPrefetched _ => mret (PDone (Ok VUnit))
  end.

(** The first poll; [version] and [c] are those of the connection a recovery starts. *)
Definition first_poll (version : Z * Z * Z) (c : ConnectionRef) (f : Future) : M t Progress :=
  e ← get_env;
  match f with
  | FSettle ch fnd tag o err =>
    match (match err with Some h => holder_check h e | None => Ok tt end) with
    | Err err => mret (PDone (Err err))
    | Ok _ => if fnd then call_channel ch (settle_method tag o) Finish else mret (invalid_channel ch)
    end
  | FCancelConsumer ch fnd tag co =>
    if negb fnd then mret (invalid_channel ch) else
    s ← get;
    let active := match consumers e !! co with Some x => is_active (c_state x) | None => false end in
    if match Channels.get_ ch (channels s) with
       | Some x => ChannelStatus.connected (Channel.status x) && active
       | None => false
       end
    then call_channel ch (Generated.basic_cancel tag false) Finish
    else mret (PDone (Ok VUnit))
  | FCloseChannel ch fnd code text =>
    if fnd then call_channel ch (Generated.do_channel_close code text 0 0) Finish else mret (invalid_channel ch)
  | FCloseConnection code text class_id method_id =>
    call_channel 0 (Generated.connection_close code text class_id method_id) Finish
  | FOpenChannel ch => call_channel ch (Generated.channel_open ch) Finish
  | FRemoveChannel ch err =>
    r ← in_channels (Channels.remove ch err);
    mret (PDone (match r with Ok _ => Ok VUnit | Err err => Err err end))
  | FConnectionCloseOk err => call_channel 0 (Generated.connection_close_ok err) Finish
  | FAwait p => mret (PAwait p Finish)
  | FTask x => first_poll_task x
  | FChannelsRecovery =>
    s ← get;
    r ← in_channels (Channels.start_recovery version c);
    mret (match r with
          | Ok p => PAwait p (ThenChannels (hash_order (Channels.channels (channels s))).*1)
          | Err err => PDone (Err err)
          end)
  | FUpdateSecret secret reason => call_channel 0 (Generated.connection_update_secret secret reason) Finish
  end.

(** [for channel in channels { channel.start_recovery().await? }] of [Channels::start_recovery],
    up to the next wait; [chs] are the channels still to recover. *)
Definition recover_channels (chs : list ChannelId) : M t Progress :=
  match chs with
  | [] => mret (PDone (Ok VUnit))
  | ch :: chs =>
    r ← in_channels (Channels.with_channel ch None (x ← Generated.begin_recovery; mret (Some x)));
    mret (match r with
          | None => PGone
          | Some (Ok (p, d)) => PAwait p (ThenReopened ch d chs)
          | Some (Err err) => PDone (Err err)
          end)
  end.

(** The next request of [Channel::start_recovery] of [ch]. *)
Definition next_request (ch : ChannelId) (l : list Registry.Request) (chs : list ChannelId) : M t Progress :=
  match l with
  | [] => recover_channels chs
  | q :: l => call_channel ch (Generated.send_request q) (ThenRequests ch l chs)
  end.

(** Once the channel is open again, what it asks depends on its confirm mode. *)
Definition replay_topology (ch : ChannelId) (d : Registry.ChannelDefinition) (chs : list ChannelId) : M t Progress :=
  s ← get;
  match Channels.get_ ch (channels s) with
  | None => mret PGone
  | Some c => next_request ch (tail (Registry.start_recovery (ChannelStatus.confirm (Channel.status c)) d)) chs
  end.

(** The end of a future: its resolver gets the result; without one, an error is the
    connection's. *)
Definition finish (r : option Resolver) (x : res PVal) : M t unit :=
  match r, x with
  | Some r, _ => complete r x
  | None, Err err => rpc_set_connection_error err
  | None, Ok _ => mret tt
  end.

Definition progress (r : option Resolver) (p : Progress) : M t unit :=
  match p with
  | PDone x => finish r x
  | PAwait p a => modify (λ s, set_waiting (waiting s ++ [(p, a, r)]) s)
  | PGone => mret tt
  end.

(** The runtime polls a spawned future, the oldest first. *)
Definition poll_task (version : Z * Z * Z) (c : ConnectionRef) : M t unit :=
  s ← get;
  match tasks s with
  | [] => mret tt
  | (f, r) :: l =>
    modify (set_tasks l);;
    p ← first_poll version c f;
    progress r p
  end.

(** What a future that ends early still held: the connection it was to open. *)
Definition drop_after (a : After) : M t unit :=
  match a with ThenOpen _ c _ => in_channels (Channels.drop_connection c) | _ => mret tt end.

(** The runtime polls a waiting future whose promise is completed; an error of the promise
    is the future's. *)
Definition poll_waiting (n : nat) : M t unit :=
  s ← get;
  match waiting s !! n with
  | None => mret tt
  | Some (p, a, r) =>
    x ← try_wait p;
    match x with
    | None => mret tt
    | Some x =>
      modify (λ s, set_waiting (delete n (waiting s)) s);;
      match x, a with
      | Err err, _ => drop_after a;; finish r (Err err)
      | Ok v, Finish => finish r (Ok v)
      | Ok _, ThenOpen vhost c cr =>
        p ← call_channel 0 (Generated.connection_open vhost c cr) Finish; progress r p
      | Ok _, ThenChannels chs => p ← recover_channels chs; progress r p
      | Ok _, ThenReopened ch d chs => p ← replay_topology ch d chs; progress r p
      | Ok _, ThenRequests ch l chs => p ← next_request ch l chs; progress r p
      end
    end
  end.

(** ** Acknowledging a message, from the delivery to the wire *)

(** The acker can be used, and its consumer has not failed. *)
Definition can_settle (a : Acker) (e : Env) : Prop :=
  Messages.usable a e = true ∧ ack_rpc a = true ∧
  is_ok (match ack_error a with Some h => holder_check h e | None => Ok tt end) = true.

(** The store after the command is queued. *)
Definition settling (a : Acker) (o : Messages.Settle) (e : Env) : Env :=
  let e := set_killed ({[ack_killswitch a]} ∪ killed_set e) e in
  set_wakes (S (wakes e)) (set_rpc (rpc e ++ [Messages.settle_command a o (next_ref e)]) (set_next_ref (S (next_ref e)) e)).

Lemma settle_eq {S} a o (s : S) e : can_settle a e →
  Messages.settle a o s e = (Await (next_ref e) true, s, settling a o e).
Proof.
  intros (Hu & Hr & He). unfold Messages.settle, Messages.rpc_, Messages.usable in *.
  apply andb_true_iff in Hu as [Hp Hk]. apply negb_true_iff in Hp, Hk. rewrite bind_get_env, Hp, bind_kill, Hk.
  cbn [negb]. rewrite bind_get_env.
  assert (Hc : (match ack_error a with Some h => holder_check h (set_killed ({[ack_killswitch a]} ∪ killed_set e) e) | None => Ok tt end)
             = (match ack_error a with Some h => holder_check h e | None => Ok tt end)) by by destruct (ack_error a).
  rewrite Hc. clear Hc. revert He. unfold settling, Messages.settle_command.
  destruct (ack_error a) as [h|]; [destruct (holder_check h e); [|done]|]; intros _;
  rewrite Hr; by destruct o.
Qed.

(** The method on the wire, and the queues with it. *)
Definition settle_class (tag : DeliveryTag) (o : Messages.Settle) : AMQPClass :=
  match o with
  | Messages.SAck m => BasicAck tag m
  | Messages.SNack m q => BasicNack tag m q
  | Messages.SReject q => BasicReject tag q
  end.

Definition queue_method (i : ChannelId) (m : AMQPClass) (p : Resolver) (f : Frames.t) : Frames.t :=
  Frames.set_frames (Frames.frames f ++ [Frames.mkEntry (Method i m) (Frames.mkSending (Some p) (Some p))]) f.

Lemma push_alone i f c r s e : Frames.check_poison s i = None →
  Frames.push i f c None r s e =
  (tt, Frames.set_frames (Frames.frames s ++ [Frames.mkEntry f (Frames.mkSending (Some c) r)]) s, e).
Proof. intros Hp. unfold Frames.push. by rewrite bind_get, Hp. Qed.

Lemma cast_eq m s e : Frames.check_poison (Channel.frames (Channel.conn s)) (Channel.id (Channel.self s)) = None →
  Generated.cast m s e =
  (next_ref e, Generated.map_frames (queue_method (Channel.id (Channel.self s)) m (next_ref e)) s, Generated.after_call e).
Proof.
  intros Hp. unfold Generated.cast, promise_new, fresh, Channel.send_method_frame, Channel.send_frame, Channel.this_id,
    Channel.in_frames, zoom, mbind, M_bind, mret, M_ret, get. by rewrite push_alone.
Qed.

Lemma settle_method_eq tag o s e :
  ChannelStatus.connected (Channel.status (Channel.self s)) = true →
  Frames.check_poison (Channel.frames (Channel.conn s)) (Channel.id (Channel.self s)) = None →
  ∃ e', settle_method tag o s e =
    (Ok (next_ref e),
     Generated.map_frames (queue_method (Channel.id (Channel.self s)) (settle_class tag o) (next_ref e)) s, e') ∧
    promises e' = promises e.
Proof.
  intros Hc Hp. destruct o as [m|m q|q]; unfold settle_method, Generated.basic_ack, Generated.basic_nack, Generated.basic_reject;
    rewrite Generated.connected_eq, Hc.
  - unfold mbind at 1, M_bind at 1. rewrite cast_eq by done. unfold Channel.on_basic_ack_sent.
    destruct (m && (tag =? 0)); [|by eexists].
    destruct (Generated.drop_prefetched_eq (Generated.map_frames (queue_method (Channel.id (Channel.self s)) (BasicAck tag m) (next_ref e)) s)
      (Generated.after_call e)) as (e' & He & Hpr & _). exists e'. unfold mbind at 1, M_bind at 1. by rewrite He.
  - unfold mbind at 1, M_bind at 1. rewrite cast_eq by done. unfold Channel.on_basic_nack_sent.
    destruct (m && (tag =? 0)); [|by eexists].
    destruct (Generated.drop_prefetched_eq (Generated.map_frames (queue_method (Channel.id (Channel.self s)) (BasicNack tag m q) (next_ref e)) s)
      (Generated.after_call e)) as (e' & He & Hpr & _). exists e'. unfold mbind at 1, M_bind at 1. by rewrite He.
  - unfold Generated.waiting, mbind at 1, M_bind at 1. rewrite cast_eq by done. by eexists.
Qed.

(** The connection after a frame joined the queues. *)
Definition map_conn_frames (g : Frames.t → Frames.t) (s : Channels.t) : Channels.t :=
  Channels.set_conn (Channel.set_frames_ (g (Channel.frames (Channels.conn s))) (Channels.conn s)) s.

Lemma settle_channel_eq ch tag o s e c :
  Channels.get_ ch (channels s) = Some c → Channel.id c = ch →
  ChannelStatus.connected (Channel.status c) = true →
  Frames.check_poison (Channel.frames (Channels.conn (channels s))) ch = None →
  ∃ e', call_channel ch (settle_method tag o) Finish s e =
    (PAwait (next_ref e) Finish,
     set_channels (map_conn_frames (queue_method ch (settle_class tag o) (next_ref e)) (channels s)) s, e') ∧
    promises e' = promises e.
Proof.
  intros Hg Hid Hc Hp.
  destruct (settle_method_eq tag o (Channel.mk c (Channels.conn (channels s))) e) as (e' & E & Hpr);
    [done|simpl; by rewrite Hid|].
  exists e'. split; [|done]. unfold call_channel, in_channels, zoom, Channels.with_channel.
  unfold mbind at 1, M_bind at 1. rewrite Hg. unfold mbind at 1, M_bind at 1. rewrite E. simpl. rewrite Hid.
  unfold mret, M_ret. do 3 f_equal. unfold Channels.put_, Channels.get_ in *.
  destruct (ch =? 0); [injection Hg as <-; done|].
  unfold Channels.set_channels. simpl. by rewrite insert_id.
Qed.

(** Dispatching the command and polling its future, on a live channel. *)
Lemma settle_dispatched a o s e now version cr c r l :
  let ch := ack_channel_id a in
  rpc e = Messages.settle_command a o r :: l → tasks s = [] →
  channel_ok ch s e = true → Channels.get_ ch (channels s) = Some c → Channel.id c = ch →
  ChannelStatus.connected (Channel.status c) = true →
  Frames.check_poison (Channel.frames (Channels.conn (channels s))) ch = None →
  is_ok (match ack_error a with Some h => holder_check h e | None => Ok tt end) = true →
  ∃ e', (run_next now;; poll_task version cr) s e =
    (tt, set_waiting (waiting s ++ [(next_ref e, Finish, Some r)])
      (set_channels (map_conn_frames (queue_method ch (settle_class (ack_delivery_tag a) o) (next_ref e)) (channels s)) s), e') ∧
    promises e' = promises e.
Proof.
  cbv zeta. intros Hrpc Ht Hok Hg Hid Hc Hp Herr.
  set (e1 := set_wakes (S (wakes e)) (set_rpc l e)).
  assert (Hrun : run_next now s e =
    (true, set_tasks [(FSettle (ack_channel_id a) true (ack_delivery_tag a) o (ack_error a), Some r)] s, e1)).
  { unfold run_next. rewrite bind_get_env, Hrpc.
    assert (Hok' : channel_ok (ack_channel_id a) s (set_rpc l e) = true) by done.
    assert (Hf : found (ack_channel_id a) s = true) by (unfold found; by rewrite Hg).
    destruct o; cbn [Messages.settle_command]; unfold mbind at 1, M_bind at 1, modify_env at 1;
      unfold dispatch, mbind, M_bind, get, get_env; rewrite Hok', Hf; simpl; by rewrite Ht. }
  erewrite bind_eq by exact Hrun. unfold poll_task. rewrite bind_get. cbn [tasks set_tasks]. rewrite bind_modify.
  destruct (settle_channel_eq (ack_channel_id a) (ack_delivery_tag a) o
    (set_tasks [] (set_tasks [(FSettle (ack_channel_id a) true (ack_delivery_tag a) o (ack_error a), Some r)] s)) e1 c)
    as (e' & E & Hpr); [done..|].
  assert (Hfp : ∀ x, first_poll version cr (FSettle (ack_channel_id a) true (ack_delivery_tag a) o (ack_error a)) x e1 =
    call_channel (ack_channel_id a) (settle_method (ack_delivery_tag a) o) Finish x e1).
  { intros x. unfold first_poll. rewrite bind_get_env.
    assert (Hh : is_ok (match ack_error a with Some h => holder_check h e1 | None => Ok tt end) = true) by done.
    by destruct (ack_error a) as [h|]; [destruct (holder_check h e1); [|done]|]. }
  exists e'. split; [|by rewrite Hpr]. erewrite bind_eq by (rewrite Hfp; exact E).
  simpl. unfold modify. do 2 f_equal. destruct s; simpl in *. by subst.
Qed.

Lemma settling_error a o e :
  match ack_error a with Some h => holder_check h (settling a o e) | None => Ok tt end =
  match ack_error a with Some h => holder_check h e | None => Ok tt end.
Proof. by destruct (ack_error a). Qed.

(** C24: an acknowledgement reaches the queues, and its caller learns what became of it.  On a
    live channel, acking, nacking or rejecting a delivery queues one internal command; its
    dispatch and its future queue exactly the matching method of the channel, behind
    everything queued, and leave the caller waiting; when the frame is written, or
    dropped with an error, the caller gets exactly that result. *)
Theorem settlement_sent a o s e now version cr c k :
  let ch := ack_channel_id a in
  env_wf e → can_settle a e → rpc e = [] → tasks s = [] → waiting s = [] →
  channels_status s !! ch = Some k → killed k e = false → k ≠ ack_killswitch a →
  Channels.get_ ch (channels s) = Some c → Channel.id c = ch →
  ChannelStatus.connected (Channel.status c) = true →
  Frames.check_poison (Channel.frames (Channels.conn (channels s))) ch = None →
  let p := next_ref e in let q := S (next_ref e) in
  result_of (Messages.settle a o s e) = Await p true ∧
  ∃ s2 e2, (run_next now;; poll_task version cr) s (env_of (Messages.settle a o s e)) = (tt, s2, e2) ∧
    channels s2 = map_conn_frames (queue_method ch (settle_class (ack_delivery_tag a) o) q) (channels s) ∧
    promises e2 !! p = None ∧
    ∀ r, promises (env_of ((complete q r;; poll_waiting 0) s2 e2)) !! p = Some r.
Proof.
  cbv zeta. intros Hwf Hs Hrpc Ht Hw Hk Hlive Hne Hg Hid Hc Hp. rewrite settle_eq by done. split; [done|].
  destruct (settle_dispatched a o s (settling a o e) now version cr c (next_ref e) []) as (e2 & E & Hpr); try done.
  - unfold settling. simpl. by rewrite Hrpc.
  - unfold channel_ok. rewrite Hk. apply negb_true_iff. apply bool_decide_eq_false in Hlive. apply bool_decide_eq_false.
    simpl. set_solver.
  - rewrite settling_error. apply Hs.
  - eexists _, e2. split; [exact E|]. split; [done|].
    assert (Hnone : ∀ x, (next_ref e ≤ x)%nat → promises e2 !! x = None).
    { intros x Hx. rewrite Hpr. simpl. destruct (promises e !! x) eqn:Ex; [|done].
      apply (wf_promises e Hwf) in Ex. lia. }
    split; [by apply Hnone|]. intros r. unfold poll_waiting.
    erewrite (bind_eq (complete _ r) _ tt _ _ _ (promise_set (S (next_ref e)) r e2)) by done.
    rewrite bind_get. cbn [waiting set_waiting set_channels]. rewrite Hw.
    cbn [app lookup list_lookup].
    assert (Hq : promises (promise_set (S (next_ref e)) r e2) !! S (next_ref e) = Some r).
    { by rewrite promise_set_lookup, decide_True, Hnone by (done || lia). }
    change (next_ref (settling a o e)) with (S (next_ref e)).
    unfold try_wait, mbind, M_bind. rewrite Hq. unfold modify.
    assert (Hx : ∀ e3, promises e3 = delete (S (next_ref e)) (promises (promise_set (S (next_ref e)) r e2)) →
      promises (promise_set (next_ref e) r e3) !! next_ref e = Some r).
    { intros e3 E3. rewrite promise_set_lookup, decide_True, E3, lookup_delete_ne by lia.
      by rewrite promise_set_lookup, decide_False, Hnone by lia. }
    destruct r; apply Hx; done.
Qed.

(** C36: an acknowledgement can be lost without a word.  When the channel loses the
    connection between the moment the application acknowledges and the moment the command is
    dispatched, the dispatcher drops the command: no frame, no future, and the
    promise the application awaits is never completed, as nothing holds its resolver any more. *)
Theorem lost_settlement_hangs a o s e now k :
  env_wf e → can_settle a e → rpc e = [] → channels_status s !! ack_channel_id a = Some k →
  let r := Messages.settle a o s e in
  let e1 := env_of (kill k s (env_of r)) in
  ∃ p, result_of r = Await p true ∧ run_next now s e1 = (true, s, set_rpc [] e1) ∧
       promises (set_rpc [] e1) !! p = None.
Proof.
  cbv zeta. intros Hwf Hs Hrpc Hk. rewrite settle_eq by done. exists (next_ref e). split; [done|]. split.
  - set (e1 := env_of _).
    assert (Hr : rpc e1 = [Messages.settle_command a o (next_ref e)]) by (unfold e1; simpl; by rewrite Hrpc).
    assert (Hok : channel_ok (ack_channel_id a) s (set_rpc [] e1) = false).
    { unfold channel_ok. rewrite Hk. apply negb_false_iff, bool_decide_eq_true. unfold e1. simpl. set_solver. }
    unfold run_next. rewrite bind_get_env, Hr.
    destruct o; cbn [Messages.settle_command]; unfold dispatch, mbind, M_bind, modify_env, get, get_env;
      rewrite Hok; done.
  - simpl. destruct (promises e !! next_ref e) eqn:Ex; [|done]. apply (wf_promises e Hwf) in Ex. lia.
Qed.

End InternalRPC.

Section Witnesses.
#[local] Existing Instances number_types number_protocol number_handle.
#[local] Instance z_order : HashOrder Z := canonical_order Z.
#[local] Instance s_order : HashOrder string := canonical_order string.

(** Channel 1 open with kill switch 0, and a delivery received on it. *)
Definition demo : t :=
  mk Channels.demo_receiving {[ 1 := 0%nat ]} (Heartbeat.demo 0 0) (SecretUpdate.mk 3%nat) [] [] [] [].
Definition demo_env : Env := set_next_ref 8 env_empty.
Definition demo_acker : Acker := mkAcker 1 9 true None 7%nat 0%nat.

Lemma demo_env_wf : env_wf demo_env.
Proof. split; simpl; set_solver. Qed.

Lemma settlement_sent_witness :
  ∃ s2 e2, (run_next 0;; poll_task (0, 9, 1) 0%nat) demo
      (env_of (Messages.settle demo_acker (Messages.SAck false) demo demo_env)) = (tt, s2, e2) ∧
    Frames.frames (Channel.frames (Channels.conn (channels s2))) =
      [Frames.mkEntry (Method 1 (BasicAck 9 false)) (Frames.mkSending (Some 9%nat) (Some 9%nat))] ∧
    promises (env_of ((complete 9%nat (Ok VUnit);; poll_waiting 0) s2 e2)) !! 8%nat = Some (Ok VUnit).
Proof.
  destruct (settlement_sent (AT := number_types) (AP := number_protocol)
    demo_acker (Messages.SAck false) demo demo_env 0 (0, 9, 1) 0%nat Channels.demo_consuming 0%nat)
    as (_ & s2 & e2 & H1 & H2 & _ & H3); try done.
  exists s2, e2. split; [exact H1|]. split; [by rewrite H2|apply H3].
Defined.

Lemma lost_settlement_hangs_witness : ∃ p,
  result_of (Messages.settle demo_acker (Messages.SReject true) demo demo_env) = Await p true ∧
  rpc (env_of (run_next 0 demo (env_of (kill 0%nat demo
    (env_of (Messages.settle demo_acker (Messages.SReject true) demo demo_env)))))) = [].
Proof.
  destruct (lost_settlement_hangs (AT := number_types)
    demo_acker (Messages.SReject true) demo demo_env 0 0%nat) as (p & H1 & H2 & _); try done.
  exists p. split; [exact H1|]. by rewrite H2.
Defined.

End Witnesses.
End InternalRPC.
