(* ===== verification/Recovery.v ===== *)
(** Recovering the channels of a connection ([Channels::start_recovery] of src/channels.rs
    and [Channel::start_recovery] of src/channel.rs): once the connection is up again
    the future of the recovery opens each channel again and replays its topology, one
    request at a time, each answered before the next. *)
From S2P Require Import Prelude.
From S2P Require Import IdSequence.
From S2P Require Import Buffer.
From S2P Require Import Types.
From S2P Require Import Env.
From S2P Require Import Frames.
From S2P Require Import Registry.
From S2P Require Import ChannelStatus.
From S2P Require Import Messages.
From S2P Require Import Acknowledgements.
From S2P Require Import Consumers.
From S2P Require Import Connection.
From S2P Require Import Channel.
From S2P Require Import Generated.
From S2P Require Import Channels.
From S2P Require Import Heartbeat.
From S2P Require Import InternalRPC.
Open Scope Z_scope.

Module Recovery.
Section Recovery.
Context `{AT : AmqpTypes} `{AP : !AmqpProtocol} `{CH : !ConnectionHandle}
  `{HZ : !HashOrder Z} `{HS : !HashOrder string}.

(** ** Requests on one channel *)

(** The answer of a server that agrees to a request; [tags] are the tags of the
    consumers. *)
Definition accept (tags : ConsumerRef → ShortString) (q : Registry.Request) : AMQPClass :=
  match q with
  | Registry.QChannelOpen => ChannelOpenOk
  | Registry.QConfirmSelect => ConfirmSelectOk
  | Registry.QExchangeDeclare _ _ _ _ => ExchangeDeclareOk
  | Registry.QExchangeBind _ _ _ _ => ExchangeBindOk
  | Registry.QQueueDeclare name _ _ => QueueDeclareOk name 0 0
  | Registry.QQueueBind _ _ _ _ => QueueBindOk
  | Registry.QBasicConsume c => BasicConsumeOk (tags c)
  end.

(** The method a request puts on the wire. *)
Definition request_method (cs : gmap nat Consumer) (q : Registry.Request) : option AMQPClass :=
  match q with
  | Registry.QChannelOpen => Some ChannelOpen
  | Registry.QConfirmSelect => Some (ConfirmSelect false)
  | Registry.QExchangeDeclare name kind o args => Some (ExchangeDeclare name (kind_str kind) o args)
  | Registry.QExchangeBind dest src key args => Some (ExchangeBind dest src key false args)
  | Registry.QQueueDeclare name o args => Some (QueueDeclare name o args)
  | Registry.QQueueBind dest src key args => Some (QueueBind dest src key false args)
  | Registry.QBasicConsume c =>
    (λ x, BasicConsume (c_queue x) (c_tag x) (c_options x) (c_arguments x)) <$> cs !! c
  end.

(** Requests recorded with the nowait flag are answered by the client itself. *)
Definition awaited (cs : gmap nat Consumer) (q : Registry.Request) : bool :=
  match q with
  | Registry.QExchangeDeclare _ _ o _ => negb (edo_nowait o)
  | Registry.QQueueDeclare _ o _ => negb (qdo_nowait o)
  | Registry.QBasicConsume c => match cs !! c with Some x => negb (bco_nowait (c_options x)) | None => false end
  | _ => true
  end.

(** The request of the public interface that replays a part of the topology. *)
Definition call_of (cs : gmap nat Consumer) (q : Registry.Request) : option Generated.Call :=
  match q with
  | Registry.QChannelOpen | Registry.QConfirmSelect => None
  | Registry.QExchangeDeclare name kind o args => Some (Generated.KExchangeDeclare name kind o args)
  | Registry.QExchangeBind dest src key args => Some (Generated.KExchangeBind dest src key false args)
  | Registry.QQueueDeclare name o args => Some (Generated.KQueueDeclare name o args)
  | Registry.QQueueBind dest src key args => Some (Generated.KQueueBind dest src key false args)
  | Registry.QBasicConsume c =>
    (λ x, Generated.KConsume (c_queue x) (c_tag x) (c_options x) (c_arguments x) (Some c)) <$> cs !! c
  end.

(** What a consumer keeps of its declaration. *)
Definition declaration (x : Consumer) : ShortString * ShortString * BasicConsumeOptions * FieldTable :=
  (c_queue x, c_tag x, c_options x, c_arguments x).

Definition same_declarations (m m' : gmap nat Consumer) : Prop :=
  ∀ c, declaration <$> m !! c = declaration <$> m' !! c.

#[local] Instance same_declarations_equiv : Equivalence same_declarations.
Proof.
  split.
  - by intros m c.
  - intros m m' H c. symmetry. apply H.
  - intros m1 m2 m3 H H' c. etransitivity; [apply H|apply H'].
Qed.

Lemma request_method_same m m' q : same_declarations m m' → request_method m q = request_method m' q.
Proof.
  intros H. destruct q as [| | | | | |c]; try done. simpl. specialize (H c).
  destruct (m !! c), (m' !! c); unfold declaration in H; simpl in *; try done.
  injection H as ? ? ? ?. congruence.
Qed.

Lemma awaited_same m m' q : same_declarations m m' → awaited m q = awaited m' q.
Proof.
  intros H. destruct q as [| | | | | |c]; try done. simpl. specialize (H c).
  destruct (m !! c), (m' !! c); unfold declaration in H; simpl in *; try done.
  injection H as ? ? ? ?. congruence.
Qed.

(** [Consumer::reset] keeps the declarations, and touches neither the state nor the
    promises. *)
Record consumer_only (e e' : Env) : Prop := {
  co_promises : promises e' = promises e;
  co_next_ref : next_ref e' = next_ref e;
  co_notified : notified e' = notified e;
  co_declarations : same_declarations (consumers e') (consumers e);
}.

#[local] Instance consumer_only_trans : Transitive consumer_only.
Proof.
  intros e1 e2 e3 [] []. split; [congruence..|]. etransitivity; eassumption.
Qed.

Definition consumer_quiet {S} (m : M S unit) : Prop := ∀ s e, ∃ e', m s e = (tt, s, e') ∧ consumer_only e e'.

Lemma consumer_quiet_bind {S} (m : M S unit) (k : unit → M S unit) :
  consumer_quiet m → consumer_quiet (k tt) → consumer_quiet (m ≫= k).
Proof.
  intros Hm Hk s e. destruct (Hm s e) as (e1 & E1 & H1). destruct (Hk s e1) as (e2 & E2 & H2).
  exists e2. rewrite (bind_eq _ _ _ _ _ _ _ E1). split; [done|]. by transitivity e1.
Qed.

Lemma consumer_quiet_update {S} c f : (∀ x, declaration (f x) = declaration x) →
  consumer_quiet (Consumer.update c f : M S unit).
Proof.
  intros Hf s e. eexists. split; [done|]. split; try done. intros i. simpl.
  destruct (decide (i = c)) as [->|Hne].
  - rewrite lookup_alter_eq. destruct (consumers e !! c); simpl; [by rewrite Hf|done].
  - by rewrite lookup_alter_ne.
Qed.

Lemma consumer_quiet_for_each {S A} (l : list A) (f : A → M S unit) :
  (∀ x, consumer_quiet (f x)) → consumer_quiet (for_each l f).
Proof.
  intros Hf. induction l as [|x l IH]; [by intros s e; exists e; split; [|split]|].
  by apply consumer_quiet_bind.
Qed.

Lemma consumer_quiet_same {S} (m : M S unit) : (∀ s e, m s e = (tt, s, e)) → consumer_quiet m.
Proof. intros H s e. exists e. split; [apply H|by split]. Qed.

Lemma consumer_quiet_with {S} c (k : Consumer → M S unit) : (∀ x, consumer_quiet (k x)) →
  consumer_quiet (Consumer.with_consumer c tt k).
Proof.
  intros Hk s e. unfold Consumer.with_consumer. rewrite bind_get_env.
  destruct (consumers e !! c); [apply Hk|]. by apply (consumer_quiet_same (mret tt)).
Qed.

Lemma consumer_quiet_reset {S} c : consumer_quiet (Consumer.reset c : M S unit).
Proof.
  unfold Consumer.reset. apply consumer_quiet_with. intros x.
  apply consumer_quiet_bind; [|by apply consumer_quiet_update].
  destruct (bco_no_ack _); [by apply consumer_quiet_same|].
  apply consumer_quiet_with. intros y. apply consumer_quiet_bind.
  - destruct (c_delegate y); [|by apply consumer_quiet_same]. intros s e. by eexists.
  - apply consumer_quiet_bind; [by apply consumer_quiet_update|]. apply consumer_quiet_for_each.
    intros [[d|]|err]; [|by apply consumer_quiet_same..]. intros s e. by eexists.
Qed.

(** A channel that can send its next request. *)
Record ready (x : Channel.t) (e : Env) : Prop := {
  rd_connected : ChannelStatus.connected (Channel.status (Channel.self x)) = true;
  rd_poison : Frames.check_poison (Channel.frames (Channel.conn x)) (Channel.id (Channel.self x)) = None;
  rd_expected : Generated.expected x = [];
  rd_fresh : ∀ p, (next_ref e ≤ p)%nat → promises e !! p = None;
}.

(** The consumers a channel holds after requests. *)
Definition reconsume (tags : ConsumerRef → ShortString) (m : Consumers.t) (q : Registry.Request) : Consumers.t :=
  match q with Registry.QBasicConsume c => <[tags c := c]> m | _ => m end.

Definition queued_methods (f : Frames.t) : list AMQPFrame := Frames.frame <$> Frames.frames f.

(** The accepted requests [qs] took the channel from [x] to [x']. *)
Record replayed (tags : ConsumerRef → ShortString) (qs : list Registry.Request)
    (x : Channel.t) (e : Env) (x' : Channel.t) (e' : Env) : Prop := {
  rp_id : Channel.id (Channel.self x') = Channel.id (Channel.self x);
  rp_confirm : ChannelStatus.confirm (Channel.status (Channel.self x')) = ChannelStatus.confirm (Channel.status (Channel.self x));
  rp_registry : Channel.local_registry (Channel.self x') = Registry.replay qs (Channel.local_registry (Channel.self x));
  rp_consumers : Channel.consumers_ (Channel.self x') = foldl (reconsume tags) (Channel.consumers_ (Channel.self x)) qs;
  rp_queue : Some <$> queued_methods (Channel.frames (Channel.conn x')) =
    (Some <$> queued_methods (Channel.frames (Channel.conn x))) ++
    ((λ q, Method (Channel.id (Channel.self x)) <$> request_method (consumers e) q) <$> qs);
  rp_poison : Frames.poison (Channel.frames (Channel.conn x')) = Frames.poison (Channel.frames (Channel.conn x));
  rp_other : ∀ j, j ≠ Channel.id (Channel.self x) →
    Frames.expected_replies (Channel.frames (Channel.conn x')) !! j = Frames.expected_replies (Channel.frames (Channel.conn x)) !! j;
  rp_declarations : same_declarations (consumers e') (consumers e);
  rp_notified : notified e ⊆ notified e';
  rp_next_ref : (next_ref e ≤ next_ref e')%nat;
}.

Lemma replayed_trans tags qs qs' x e x1 e1 x2 e2 :
  replayed tags qs x e x1 e1 → replayed tags qs' x1 e1 x2 e2 → replayed tags (qs ++ qs') x e x2 e2.
Proof.
  intros [H1 H2 H3 H4 H5 H6 H7 H8 H9 H10] [K1 K2 K3 K4 K5 K6 K7 K8 K9 K10]. split.
  - by rewrite K1.
  - by rewrite K2.
  - rewrite K3, H3. unfold Registry.replay. by rewrite foldl_app.
  - rewrite K4, H4. by rewrite foldl_app.
  - rewrite K5, H5, fmap_app, <- app_assoc, H1. do 2 f_equal. apply list_fmap_ext. intros _ q _.
    by rewrite (request_method_same _ _ _ H8).
  - by rewrite K6.
  - intros j Hj. rewrite K7 by by rewrite H1. by apply H7.
  - by transitivity (consumers e1).
  - by transitivity (notified e1).
  - lia.
Qed.

(** A request and its answer. *)
Definition exchanged (tags : ConsumerRef → ShortString) (q : Registry.Request) (x : Channel.t) (e : Env)
    (x' : Channel.t) (e' : Env) : Prop :=
  ∃ p x1 e1 v, Generated.send_request q x e = (Ok p, x1, e1) ∧
    Generated.receive_method (accept tags q) x1 e1 = (Ok tt, x', e') ∧ promises e' !! p = Some (Ok v) ∧
    Channel.id (Channel.self x1) = Channel.id (Channel.self x).

Lemma reset_eq {S A} c (k : unit → M S A) s e : ∃ e', (Consumer.reset c ≫= k) s e = k tt s e' ∧ consumer_only e e'.
Proof.
  destruct (consumer_quiet_reset (S := S) c s e) as (e' & E & H). exists e'. by rewrite (bind_eq _ _ _ _ _ _ _ E).
Qed.

(** A request of the topology is the request of the public interface. *)
Lemma send_request_call q k x e : call_of (consumers e) q = Some k → awaited (consumers e) q = true → ∃ e',
  Generated.send_request q x e = Generated.run_call k x e' ∧ consumer_only e e' ∧ Generated.call_nowait k = false ∧
  request_method (consumers e) q = Some (Generated.call_method k).
Proof.
  intros Hk Ha. destruct q as [| |n kd o a| |n o a| |c]; simpl in *; try done.
  1-4: injection Hk as <-; exists e; split_and!; [done|by split| |done]; simpl;
    solve [done|by apply negb_true_iff].
  destruct (reset_eq c (λ _, e ← get_env;
    match consumers e !! c with
    | Some x => Generated.do_basic_consume (c_queue x) (c_tag x) (c_options x) (c_arguments x) (Some c)
    | None => mret (Err (error_from (InvalidChannel 0)))
    end) x e) as (e' & E & Hco).
  exists e'. rewrite E, bind_get_env. pose proof (co_declarations _ _ Hco c) as Hd. unfold declaration in Hd.
  destruct (consumers e !! c) as [y|]; [|done]. destruct (consumers e' !! c) as [y'|]; [|done].
  simpl in *. injection Hk as <-. injection Hd as -> -> -> ->. simpl. split_and!; try done. by apply negb_true_iff.
Qed.

(** What the server answers, as an answer to that request. *)
Lemma accept_answer tags q k cs : call_of cs q = Some k → ∃ a,
  accept tags q = Generated.answer_method k a ∧
  (∀ r, Generated.answer_registry k a r = Registry.on_ok r q) ∧
  match k with Generated.KConsume _ _ _ _ (Some c) => q = Registry.QBasicConsume c ∧ Generated.a_name a = tags c
             | Generated.KConsume _ _ _ _ None | Generated.KRecover _ => False
             | _ => ∀ m, reconsume tags m q = m end.
Proof.
  intros Hk. destruct q as [| |n kd o a|d sr ky a|n o a|d sr ky a|c]; simpl in *; try done.
  - injection Hk as <-. by exists (Generated.mkAnswer "" 0 0 true).
  - injection Hk as <-. by exists (Generated.mkAnswer "" 0 0 true).
  - injection Hk as <-. by exists (Generated.mkAnswer n 0 0 true).
  - injection Hk as <-. by exists (Generated.mkAnswer "" 0 0 true).
  - destruct (cs !! c); [|done]. injection Hk as <-. by exists (Generated.mkAnswer (tags c) 0 0 true).
Qed.

Lemma consumer_only_ready x e e' : consumer_only e e' → ready x e → ready x e'.
Proof. intros [Hp Hn _] [H1 H2 H3 H4]. split; try done. intros p. rewrite Hp, Hn. apply H4. Qed.

(** Every awaited request of the topology that the server accepts goes through. *)
Lemma request_exchanged tags q k x e :
  call_of (consumers e) q = Some k → awaited (consumers e) q = true → ready x e →
  ∃ x' e', exchanged tags q x e x' e' ∧ ready x' e' ∧ replayed tags [q] x e x' e' ∧
    Channel.status (Channel.self x') = Channel.status (Channel.self x).
Proof.
  intros Hk Ha Hrd. destruct (send_request_call q k x e Hk Ha) as (e0 & E0 & Hco & Hn & Hm).
  pose proof (consumer_only_ready _ _ _ Hco Hrd) as [Rc Rp Rx Rf].
  rewrite (Generated.call_eq_run k x e0 Hn Rp), Rc in E0. set (x1 := Generated.map_frames _ x) in E0.
  destruct (accept_answer tags q k _ Hk) as (a & Hacc & Hreg & Hcons).
  destruct (Generated.answer_step k a (Channel.closer (Channel.self x)) (next_ref e0) [] x1 (Generated.after_call e0))
    as (Hr & (v & Hv & _) & Hrg & Hexp & Hid & Hst & Hconn & Hnr & Hno & Hc).
  { by apply Generated.connected_can_receive. }
  { apply Generated.expected_cons.
    unfold x1. by rewrite Generated.expected_requested, Rx. }
  { by apply Rf. }
  rewrite <- Hacc in *. clear Hacc.
  destruct (Generated.receive_method (accept tags q) x1 (Generated.after_call e0)) as [[r x2] e2] eqn:Er.
  unfold result_of, state_of, env_of in *. cbn [fst snd] in *. subst r.
  assert (Hfresh : ∀ p, (next_ref e2 ≤ p)%nat → promises e2 !! p = None).
  { intros p Hp. rewrite Hv, lookup_insert_ne by (cbn in Hnr; lia). apply Rf. cbn in Hnr. lia. }
  assert (Hx : consumers e2 = consumers e0 ∧
    Channel.consumers_ (Channel.self x2) = reconsume tags (Channel.consumers_ (Channel.self x)) q).
  { destruct k as [| ? ? ? ? [c|]| | | | | | | | | | | | | | | |]; try contradiction;
      try (rewrite Hcons; exact Hc).
    destruct Hcons as [Hq Hna], Hc as [Hc1 Hc2]. split; [done|]. rewrite Hc2, Hq, Hna. done. }
  destruct Hx as [Hx1 Hx2].
  exists x2, e2. split_and!.
  - exists (next_ref e0), x1, (Generated.after_call e0), v. split_and!; try done.
    rewrite Hv. apply lookup_insert_eq.
  - split; [by rewrite Hst| | |done].
    + rewrite Hid, Hconn. exact Rp.
    + unfold Generated.expected. by rewrite Hid, lookup_total_alt, Hexp.
  - split; simpl; try done.
    + by rewrite Hst.
    + rewrite Hrg, Hreg. done.
    + rewrite Hconn, Hm. unfold queued_methods. simpl. by rewrite !fmap_app.
    + by rewrite Hconn.
    + intros j Hj. rewrite Hconn. simpl. by rewrite !lookup_insert_ne by done.
    + rewrite Hx1. apply (co_declarations _ _ Hco).
    + rewrite Hno. simpl. by rewrite (co_notified _ _ Hco).
    + cbn in Hnr. rewrite <- (co_next_ref _ _ Hco). lia.
  - by rewrite Hst.
Qed.

(** ** Opening the channel again *)

(** A channel whose connection was lost: [ctx] is what it remembers.  What waits for its
    confirms and replies was allocated. *)
Record lost (ctx : RecoveryContext.t) (c : Channel.Chan) (f : Frames.t) (e : Env) : Prop := {
  ls_state : ChannelStatus.state (Channel.status c) = ChReconnecting;
  ls_context : ChannelStatus.recovery_context (Channel.status c) = Some ctx;
  ls_poison : Frames.poison f = None;
  ls_confirms : ∀ tag p q, Acknowledgements.pending (Channel.acknowledgements c) !! tag = Some (p, q) →
    (p < next_ref e ∧ q < next_ref e)%nat;
  ls_replies : ∀ er, er ∈ Frames.expected_replies f !!! Channel.id c → (Frames.reply_waiter er < next_ref e)%nat;
  ls_fresh : ∀ p, (next_ref e ≤ p)%nat → promises e !! p = None;
}.

(** The same channel, asking for channel.open with the promise [p]. *)
Record reopening (ctx : RecoveryContext.t) (p : Resolver) (x : Channel.t) (e : Env) : Prop := {
  ro_state : ChannelStatus.state (Channel.status (Channel.self x)) = ChReconnecting;
  ro_context : ∃ l, ChannelStatus.recovery_context (Channel.status (Channel.self x)) =
                      Some (RecoveryContext.set_expected_replies l ctx) ∧
                    ∀ er, er ∈ default [] l → (Frames.reply_waiter er < p)%nat;
  ro_poison : Frames.check_poison (Channel.frames (Channel.conn x)) (Channel.id (Channel.self x)) = None;
  ro_expected : Generated.expected x =
    [mkExpectedReply (RChannelOpenOk p (Channel.id (Channel.self x))) p];
  ro_fresh : ∀ q, (p ≤ q)%nat → promises e !! q = None;
  ro_next : next_ref e = S p;
}.

Lemma promise_sets_fresh l e n : (∀ p, p ∈ l.*1 → (p < n)%nat) → (∀ p, (n ≤ p)%nat → promises e !! p = None) →
  ∀ p, (n ≤ p)%nat → promises (promise_sets l e) !! p = None.
Proof. intros Hl He p Hp. rewrite promise_sets_other; [by apply He|]. intros Hin. specialize (Hl p Hin). lia. Qed.

(** What [update_recovery] does. *)
Definition reset_acks (a : Acknowledgements.t) : Acknowledgements.t :=
  Acknowledgements.set_returned (ReturnedMessages.set_dropped [] (Acknowledgements.returned_messages a))
    (Acknowledgements.set_pending ∅ (Acknowledgements.set_delivery_tag (IdSequence.new false) a)).

Definition updated (ctx : RecoveryContext.t) (c : Channel.Chan) (cn : Channel.Conn) : Channel.t :=
  let f := Channel.frames cn in
  Channel.mk
    (Channel.set_acks (reset_acks (Channel.acknowledgements c))
      (Channel.set_status_ (ChannelStatus.set_context
        (Some (RecoveryContext.set_expected_replies (Frames.expected_replies f !! Channel.id c) ctx)) (Channel.status c)) c))
    (Channel.set_frames_ (Frames.set_channels_poison (delete (Channel.id c) (Frames.channels_poison f))
      (Frames.set_expected (delete (Channel.id c) (Frames.expected_replies f)) f)) cn).

Lemma update_recovery_eq ctx c cn e :
  ChannelStatus.recovery_context (Channel.status c) = Some ctx →
  Channel.update_recovery (Channel.mk c cn) e =
  (Some (RecoveryContext.rc_topology ctx), updated ctx c cn,
   promise_sets (Acknowledgements.failures (RecoveryContext.rc_cause ctx) (IdSequence.current (IdSequence.new false))
     (hash_order (Acknowledgements.pending (Channel.acknowledgements c)))) e).
Proof.
  intros Hctx. unfold Channel.update_recovery. rewrite bind_get. cbn [Channel.self Channel.status]. rewrite Hctx.
  unfold Channel.in_frames, Channel.in_status, Channel.in_acks, Frames.take_expected_replies, Acknowledgements.reset,
    Frames.drop_channel_poison.
  cbv beta delta [mbind M_bind get put mret M_ret modify zoom].
  cbn [Channel.self Channel.conn Channel.set_self Channel.set_conn Channel.acknowledgements Channel.set_status_].
  by rewrite Acknowledgements.on_channel_error_eq.
Qed.

Lemma channel_open_eq x e :
  ChannelStatus.initializing (Channel.status (Channel.self x)) = true →
  Frames.check_poison (Channel.frames (Channel.conn x)) (Channel.id (Channel.self x)) = None →
  Generated.send_request Registry.QChannelOpen x e =
  (Ok (next_ref e),
   Generated.map_frames (Generated.requested (Channel.id (Channel.self x)) ChannelOpen
     (RChannelOpenOk (next_ref e) (Channel.id (Channel.self x))) (next_ref e)) x, Generated.after_call e).
Proof.
  intros Hi Hp. unfold Generated.send_request, Channel.this_id. rewrite bind_assoc, bind_get.
  unfold mbind, M_bind, mret, M_ret. unfold Generated.channel_open. rewrite Generated.guarded_eq, Hi.
  unfold Generated.waiting. by rewrite (bind_eq _ _ _ _ _ _ _ (Generated.call_eq _ _ _ _ Hp)).
Qed.

Lemma begin_recovery_eq tags ctx c cn e : lost ctx c (Channel.frames cn) e → ∃ p x e1,
  Generated.begin_recovery (Channel.mk c cn) e = (Ok (p, RecoveryContext.rc_topology ctx), x, e1) ∧
  reopening ctx p x e1 ∧ replayed tags [Registry.QChannelOpen] (Channel.mk c cn) e x e1 ∧
  (∀ tag r q, Acknowledgements.pending (Channel.acknowledgements c) !! tag = Some (r, q) → done r e1).
Proof.
  intros [Hst Hctx Hp Hcf Hrep Hfr].
  set (cs := Acknowledgements.failures (RecoveryContext.rc_cause ctx) (IdSequence.current (IdSequence.new false))
     (hash_order (Acknowledgements.pending (Channel.acknowledgements c)))).
  destruct (Acknowledgements.failures_spec (RecoveryContext.rc_cause ctx) (IdSequence.current (IdSequence.new false))
     (hash_order (Acknowledgements.pending (Channel.acknowledgements c)))) as (F1 & _ & F3). fold cs in F1, F3.
  assert (Hcs : ∀ p, p ∈ cs.*1 → (p < next_ref e)%nat).
  { intros p Hin. eapply elem_of_sublist in Hin; [|exact F3].
    apply Acknowledgements.elem_of_resolvers in Hin as (k & [r q] & Hk%hash_order_elem & Hr).
    destruct (Hcf k r q Hk), Hr as [->| ->]; done. }
  set (e0 := promise_sets cs e). set (x0 := updated ctx c cn).
  assert (Hn0 : next_ref e0 = next_ref e) by apply promise_sets_next_ref.
  assert (Hf0 : ∀ p, (next_ref e ≤ p)%nat → promises e0 !! p = None) by by apply promise_sets_fresh.
  assert (Hp0 : Frames.check_poison (Channel.frames (Channel.conn x0)) (Channel.id (Channel.self x0)) = None).
  { unfold Frames.check_poison. simpl. by rewrite lookup_delete_eq. }
  assert (Hi0 : ChannelStatus.initializing (Channel.status (Channel.self x0)) = true).
  { unfold ChannelStatus.initializing. simpl. by rewrite Hst. }
  eexists (next_ref e0), _, _. split.
  { unfold Generated.begin_recovery. rewrite (bind_eq _ _ _ _ _ _ _ (update_recovery_eq ctx c cn e Hctx)).
    fold cs e0 x0. erewrite try_bind_ok; [done|]. by apply channel_open_eq. }
  split_and!.
  - split; simpl; try done.
    + eexists. split; [done|]. intros er Her. rewrite Hn0. apply Hrep. rewrite lookup_total_alt. by destruct (_ !! _).
    + unfold Generated.expected. simpl. rewrite lookup_total_insert_eq, lookup_total_alt, lookup_delete_eq. done.
    + by rewrite Hn0.
  - split; simpl; try done.
    + unfold queued_methods. simpl. by rewrite !fmap_app.
    + intros j Hj. by rewrite lookup_insert_ne, lookup_delete_ne by done.
    + unfold e0. by rewrite promise_sets_only.
    + unfold e0. by rewrite promise_sets_only.
    + lia.
  - intros tag r q Hq. apply Channels.promise_sets_done. right. apply list_elem_of_fmap.
    exists (r, Err (RecoveryContext.rc_cause ctx)). split; [done|]. by eapply F1, hash_order_elem.
Qed.

(** A channel in confirm mode is not open for requests before confirm.select is answered. *)
Record confirming (ctx : RecoveryContext.t) (x : Channel.t) (e : Env) : Prop := {
  cf_state : ChannelStatus.state (Channel.status (Channel.self x)) = ChReconnecting;
  cf_context : ∃ l, ChannelStatus.recovery_context (Channel.status (Channel.self x)) =
                      Some (RecoveryContext.set_expected_replies l ctx) ∧
                    ∀ er, er ∈ default [] l → (Frames.reply_waiter er < next_ref e)%nat;
  cf_poison : Frames.check_poison (Channel.frames (Channel.conn x)) (Channel.id (Channel.self x)) = None;
  cf_expected : Generated.expected x = [];
  cf_fresh : ∀ p, (next_ref e ≤ p)%nat → promises e !! p = None;
}.

(** The recovery is announced as finished. *)
Record announced (ctx : RecoveryContext.t) (x : Channel.t) (e : Env) : Prop := {
  an_context : ChannelStatus.recovery_context (Channel.status (Channel.self x)) = None;
  an_notified : notifier_ready (RecoveryContext.rc_notifier ctx) e = true;
}.

(** The channel with the replies [l] expected. *)
Definition expect (l : list ExpectedReply) (x : Channel.t) : Channel.t :=
  Generated.map_frames (λ f, Frames.set_expected (<[Channel.id (Channel.self x) := l]> (Frames.expected_replies f)) f) x.

Definition finalized (confirm : bool) (x : Channel.t) : Channel.t :=
  Channel.set_self (λ c, Channel.set_status_ (ChannelStatus.set_context None (ChannelStatus.set_state_ ChConnected
    (if confirm then ChannelStatus.set_confirm_ true (Channel.status c) else Channel.status c))) c) x.

Definition finalized_env (ctx : RecoveryContext.t) (l : option (list ExpectedReply)) (x : Channel.t) (e : Env) : Env :=
  let st := Channel.status (Channel.self x) in
  promise_sets (Frames.cancellation (RecoveryContext.rc_cause ctx) <$> default [] l)
    (set_notified ({[RecoveryContext.rc_notifier ctx]} ∪ notified e)
      (env_of (rpc_send (CSetChannelStatus (ChannelStatus.id st) (ChannelStatus.killswitch st)) tt e))).

Lemma finalize_channel ctx l x e :
  ChannelStatus.recovery_context (Channel.status (Channel.self x)) = Some (RecoveryContext.set_expected_replies l ctx) →
  Channel.finalize_connection x e = (tt, finalized false x, finalized_env ctx l x e) ∧
  Channel.in_status ChannelStatus.set_confirm x e = (tt, finalized true x, finalized_env ctx l x e).
Proof.
  intros Hctx. unfold Channel.finalize_connection, Channel.in_status, zoom, ChannelStatus.set_confirm.
  rewrite bind_modify. split; [rewrite (ChannelStatus.finalize_eq _ _ _ Hctx); reflexivity|].
  rewrite (ChannelStatus.finalize_eq (ChannelStatus.set_confirm_ true (Channel.status (Channel.self x))) _ _ Hctx).
  reflexivity.
Qed.

(** What the announcement leaves as it was. *)
Lemma finalized_replayed tags b ctx l x e v p : (b = true → ChannelStatus.confirm (Channel.status (Channel.self x)) = true) →
  replayed tags [] x e (finalized b (expect [] x)) (promise_set p v (finalized_env ctx l (expect [] x) e)).
Proof.
  intros Hb. rewrite promise_set_only. unfold finalized_env. rewrite promise_sets_only.
  split; simpl; try done.
  - destruct b; [by rewrite Hb|done].
  - by rewrite app_nil_r.
  - intros j Hj. by rewrite lookup_insert_ne.
  - set_solver.
Qed.

Lemma finalized_ready b ctx l x e v p :
  Frames.check_poison (Channel.frames (Channel.conn x)) (Channel.id (Channel.self x)) = None →
  (∀ er, er ∈ default [] l → (Frames.reply_waiter er < next_ref e)%nat) → (p < next_ref e)%nat →
  (∀ q, (next_ref e ≤ q)%nat → promises e !! q = None) →
  ready (finalized b (expect [] x)) (promise_set p v (finalized_env ctx l (expect [] x) e)) ∧
  announced ctx (finalized b (expect [] x)) (promise_set p v (finalized_env ctx l (expect [] x) e)).
Proof.
  intros Hp Hl Hlt Hf. set (e1 := finalized_env ctx l (expect [] x) e).
  assert (Hn1 : next_ref e1 = next_ref e) by (unfold e1, finalized_env; by rewrite promise_sets_next_ref).
  split; split; simpl; try done.
  - unfold Generated.expected. simpl. by rewrite lookup_total_insert_eq.
  - rewrite promise_set_next_ref, Hn1. intros q Hq. rewrite promise_set_lookup, decide_False by lia.
    apply (promise_sets_fresh _ _ (next_ref e)); [|done|done].
    intros r Hr. rewrite <- list_fmap_compose in Hr. apply list_elem_of_fmap in Hr as (er & -> & Her). by apply Hl.
  - apply bool_decide_eq_true_2. rewrite promise_set_only. unfold e1, finalized_env. rewrite promise_sets_only.
    simpl. set_solver.
Qed.

(** The server accepts the channel. *)
Lemma channel_reopened tags ctx p x e : reopening ctx p x e → ∃ x' e' v,
  Generated.receive_method ChannelOpenOk x e = (Ok tt, x', e') ∧ promises e' !! p = Some (Ok v) ∧
  replayed tags [] x e x' e' ∧
  if ChannelStatus.confirm (Channel.status (Channel.self x)) then confirming ctx x' e'
  else ready x' e' ∧ announced ctx x' e'.
Proof.
  intros [Hst (l & Hctx & Hl) Hp Hx Hf Hn].
  assert (Hlt : ∀ er, er ∈ default [] l → (Frames.reply_waiter er < next_ref e)%nat).
  { intros er Her. specialize (Hl er Her). lia. }
  assert (Hinit : ChannelStatus.initializing (Channel.status (Channel.self x)) = true).
  { unfold ChannelStatus.initializing. by rewrite Hst. }
  cbn [Generated.receive_method]. unfold Generated.receive_channel_open_ok.
  rewrite Generated.guarded_eq, Hinit. rewrite (Generated.expecting_first _ _ _ _ _ _ _ _ (Generated.expected_cons _ _ _ Hx) eq_refl).
  fold (expect [] x). unfold Channel.on_channel_open_ok_received, if_, Channel.confirm. rewrite !bind_assoc, bind_get.
  unfold mret at 1, M_ret at 1. unfold mbind at 1, M_bind at 1.
  change (ChannelStatus.confirm (Channel.status (Channel.self (expect [] x))))
    with (ChannelStatus.confirm (Channel.status (Channel.self x))).
  destruct (ChannelStatus.confirm (Channel.status (Channel.self x))) eqn:Hc.
  - eexists (expect [] x), _, _. split; [done|]. split; [apply Generated.set_complete; by apply Hf|]. split.
    + rewrite promise_set_only. split; simpl; try done; [by rewrite app_nil_r|].
      intros j Hj. by rewrite lookup_insert_ne.
    + split; simpl; try done.
      * exists l. by rewrite promise_set_next_ref.
      * unfold Generated.expected. simpl. by rewrite lookup_total_insert_eq.
      * rewrite promise_set_next_ref. intros q Hq. rewrite promise_set_lookup, decide_False by lia. apply Hf. lia.
  - destruct (finalize_channel ctx l (expect [] x) e Hctx) as [E _].
    unfold mbind, M_bind, mret, M_ret. rewrite E. eexists _, _, _. split; [done|]. split.
    + apply Generated.set_complete. apply (promise_sets_fresh _ _ p); [|exact Hf|lia].
      intros r Hr. rewrite <- list_fmap_compose in Hr. apply list_elem_of_fmap in Hr as (er & -> & Her). by apply Hl.
    + split; [by apply finalized_replayed|]. apply finalized_ready; try done; [lia|]. intros q Hq. apply Hf. lia.
Qed.

(** And its confirm mode. *)
Lemma channel_confirmed tags ctx x e : confirming ctx x e →
  ChannelStatus.confirm (Channel.status (Channel.self x)) = true → ∃ x' e',
  exchanged tags Registry.QConfirmSelect x e x' e' ∧ replayed tags [Registry.QConfirmSelect] x e x' e' ∧
  ready x' e' ∧ announced ctx x' e'.
Proof.
  intros [Hst (l & Hctx & Hl) Hp Hx Hf] Hc.
  set (p := next_ref e). set (x1 := Generated.map_frames (Generated.requested (Channel.id (Channel.self x))
    (ConfirmSelect false) (RConfirmSelectOk p) p) x). set (e1 := Generated.after_call e).
  assert (E1 : Generated.send_request Registry.QConfirmSelect x e = (Ok p, x1, e1)).
  { unfold Generated.send_request, Generated.confirm_select. rewrite Generated.guarded_eq.
    unfold ChannelStatus.connected_or_recovering. rewrite Hst. unfold Generated.waiting.
    by rewrite (bind_eq _ _ _ _ _ _ _ (Generated.call_eq _ _ _ _ Hp)). }
  assert (Hx1 : Generated.expected x1 = [mkExpectedReply (RConfirmSelectOk p) p]).
  { unfold x1. by rewrite Generated.expected_requested, Hx. }
  destruct (finalize_channel ctx l (expect [] x1) e1 Hctx) as [_ E2].
  assert (E3 : Generated.receive_method ConfirmSelectOk x1 e1 =
    (Ok tt, finalized true (expect [] x1), promise_set p (Ok VUnit) (finalized_env ctx l (expect [] x1) e1))).
  { cbn [Generated.receive_method]. unfold Generated.receive_confirm_select_ok. rewrite Generated.can_receive_eq.
    2: { unfold ChannelStatus.can_receive_messages. simpl. by rewrite Hst. }
    rewrite (Generated.expecting_first _ _ _ _ _ _ _ _ (Generated.expected_cons _ _ _ Hx1) eq_refl). fold (expect [] x1).
    unfold Generated.completing, Channel.on_confirm_select_ok_received. rewrite bind_assoc.
    by rewrite (bind_eq _ _ _ _ _ _ _ E2). }
  assert (Hl1 : ∀ er, er ∈ default [] l → (Frames.reply_waiter er < next_ref e1)%nat).
  { intros er Her. specialize (Hl er Her). cbn. lia. }
  assert (Hf1 : ∀ q, (next_ref e1 ≤ q)%nat → promises e1 !! q = None).
  { intros q Hq. apply Hf. cbn in Hq. lia. }
  eexists _, _. split; [|split].
  - exists p, x1, e1, VUnit. split_and!; [done|exact E3| |done].
    apply Generated.set_complete, (promise_sets_fresh _ _ p); [|exact Hf|lia].
    intros r Hr. rewrite <- list_fmap_compose in Hr. apply list_elem_of_fmap in Hr as (er & -> & Her). by apply Hl.
  - apply (replayed_trans tags [Registry.QConfirmSelect] [] x e x1 e1); [|by apply finalized_replayed].
    split; simpl; try done; [unfold queued_methods; simpl; by rewrite !fmap_app| |lia].
    intros j Hj. by rewrite lookup_insert_ne.
  - apply finalized_ready; try done. unfold p. cbn. lia.
Qed.

(** ** The future of the recovery *)

Import InternalRPC.

(** The server answers on the channel, then the runtime polls the future. *)
Definition turn (ch : ChannelId) (m : AMQPClass) : M t (res unit) :=
  let! _ := in_channels (Channels.handle_frame (Method ch m)) in poll_waiting 0;; mret (Ok tt).

Fixpoint turns (l : list (ChannelId * AMQPClass)) : M t (res unit) :=
  match l with
  | [] => mret (Ok tt)
  | (ch, m) :: l => let! _ := turn ch m in turns l
  end.

(** Going on with the channels still to recover. *)
Definition go_on (r : option Resolver) (m : M t Progress) : M t unit := p ← m; progress r p.

Definition with_chan (ch : ChannelId) (x : Channel.t) (s : t) : t :=
  set_channels (Channels.put_ ch (Channel.self x) (Channels.set_conn (Channel.conn x) (channels s))) s.

Definition chan (c : Channel.Chan) (s : t) : Channel.t := Channel.mk c (Channels.conn (channels s)).

Lemma call_lift ch k a s e c p x e' : Channels.get_ ch (channels s) = Some c →
  k (chan c s) e = (Ok p, x, e') → call_channel ch k a s e = (PAwait p a, with_chan ch x s, e').
Proof.
  intros Hc E. unfold call_channel, in_channels, zoom, Channels.with_channel, mbind, M_bind. rewrite Hc.
  unfold chan in E. by rewrite E.
Qed.

Lemma receive_lift ch m s e c r x e' : Channels.get_ ch (channels s) = Some c →
  Generated.receive_method m (chan c s) e = (r, x, e') →
  in_channels (Channels.handle_frame (Method ch m)) s e = (r, with_chan ch x s, e').
Proof.
  intros Hc E. unfold in_channels, zoom, Channels.handle_frame, Channels.receive_method, Channels.with_channel.
  rewrite Hc. unfold chan in E. by rewrite E.
Qed.

Lemma get_with_chan ch x s : Channels.get_ ch (channels (with_chan ch x s)) = Some (Channel.self x).
Proof. apply Channels.put_get. Qed.

Lemma get_with_chan_ne ch j x s : j ≠ ch →
  Channels.get_ j (channels (with_chan ch x s)) = Channels.get_ j (channels s).
Proof.
  intros Hne. unfold with_chan, Channels.get_, Channels.put_. simpl.
  destruct (Z.eqb_spec j 0) as [->|]; destruct (Z.eqb_spec ch 0) as [->|]; try done. simpl. by rewrite lookup_insert_ne.
Qed.

Lemma conn_with_chan ch x s : Channels.conn (channels (with_chan ch x s)) = Channel.conn x.
Proof. unfold with_chan, Channels.put_. simpl. by destruct (ch =? 0). Qed.

Lemma chan_with_chan ch x s : chan (Channel.self x) (with_chan ch x s) = x.
Proof.
  destruct x as [c cn]. unfold chan, with_chan. simpl. f_equal. unfold Channels.put_. by destruct (ch =? 0).
Qed.

Lemma with_with_chan ch x y s : with_chan ch y (with_chan ch x s) = with_chan ch y s.
Proof.
  unfold with_chan. simpl. unfold set_channels. simpl. f_equal. unfold Channels.put_.
  destruct (ch =? 0); [done|]. unfold Channels.set_channels, Channels.set_conn. simpl. by rewrite insert_insert_eq.
Qed.

(** The future waiting for [p] goes on when [p] is completed. *)
Definition resume (a : After) (r : option Resolver) : M t unit :=
  match a with
  | Finish => finish r (Ok VUnit)
  | ThenOpen vhost c cr => go_on r (call_channel 0 (Generated.connection_open vhost c cr) Finish)
  | ThenChannels chs => go_on r (recover_channels chs)
  | ThenReopened ch d chs => go_on r (replay_topology ch d chs)
  | ThenRequests ch l chs => go_on r (next_request ch l chs)
  end.

(** Waiting for a promise takes its result. *)
Definition taken (p : Resolver) (e : Env) : Env := set_promises (delete p (promises e)) e.

Lemma taken_fresh p e n : (∀ q, (n ≤ q)%nat → promises e !! q = None) →
  ∀ q, (n ≤ q)%nat → promises (taken p e) !! q = None.
Proof. intros H q Hq. apply lookup_delete_None. right. by apply H. Qed.

Lemma resume_eq p a r s e v : a ≠ Finish → promises e !! p = Some (Ok v) → waiting s = [(p, a, r)] →
  poll_waiting 0 s e = resume a r (set_waiting [] s) (taken p e).
Proof.
  intros Ha Hp Hw. unfold poll_waiting. rewrite bind_get, Hw. cbn [lookup list_lookup].
  assert (E : try_wait p s e = (Some (Ok v), s, taken p e)) by (unfold try_wait, taken; do 2 f_equal; exact Hp).
  rewrite (bind_eq _ _ _ _ _ _ _ E), bind_modify, Hw. by destruct a.
Qed.

(** A completed future that is answered goes on. *)
Lemma turn_eq ch m p a r v s e c x e' :
  Channels.get_ ch (channels s) = Some c → Generated.receive_method m (chan c s) e = (Ok tt, x, e') →
  a ≠ Finish → promises e' !! p = Some (Ok v) → waiting s = [(p, a, r)] →
  turn ch m s e = (resume a r;; mret (Ok tt)) (set_waiting [] (with_chan ch x s)) (taken p e').
Proof.
  intros Hc E Ha Hp Hw. unfold turn. rewrite (try_bind_ok _ _ _ _ _ _ _ (receive_lift _ _ _ _ _ _ _ _ Hc E)).
  unfold mbind, M_bind. by rewrite (resume_eq p a r _ _ v Ha Hp).
Qed.

Lemma ready_taken p x e : ready x e → ready x (taken p e).
Proof. intros [H1 H2 H3 H4]. split; try done. by apply taken_fresh. Qed.

Lemma replayed_taken tags qs x e x' e' p : replayed tags qs x e x' e' → replayed tags qs x e x' (taken p e').
Proof. by intros []. Qed.

Lemma go_on_await r m s e p a s' e' : m s e = (PAwait p a, s', e') →
  go_on r m s e = (tt, set_waiting (waiting s' ++ [(p, a, r)]) s', e').
Proof. intros E. unfold go_on. by rewrite (bind_eq _ _ _ _ _ _ _ E). Qed.

(** A request can be replayed: its consumer exists and an answer is awaited. *)
Definition replayable (cs : gmap nat Consumer) (q : Registry.Request) : Prop :=
  is_Some (call_of cs q) ∧ awaited cs q = true.

Lemma replayable_same cs cs' q : same_declarations cs cs' → replayable cs q → replayable cs' q.
Proof.
  intros H [Hk Ha]. split; [|by rewrite <- (awaited_same _ _ _ H)].
  destruct q as [| | | | | |c]; try done. simpl in *. apply fmap_is_Some. apply fmap_is_Some in Hk.
  specialize (H c). by destruct (cs !! c), (cs' !! c).
Qed.

Lemma replayables_later cs cs' l : Forall (replayable cs) l → same_declarations cs' cs → Forall (replayable cs') l.
Proof. intros H Hs. eapply Forall_impl; [exact H|]. intros q. apply replayable_same. by symmetry. Qed.

Lemma with_chan_id ch c s : Channels.get_ ch (channels s) = Some c → with_chan ch (chan c s) s = s.
Proof.
  destruct s as [[cs seq c0 cn k] ? ? ? ? ? ? ?]. unfold with_chan, chan, Channels.get_, Channels.put_. simpl.
  destruct (ch =? 0); [by intros [= ->]|]. intros Hc. unfold set_channels, Channels.set_channels, Channels.set_conn. simpl.
  by rewrite insert_id.
Qed.

(** The state in which the future of [turn] is polled. *)
Lemma resumed ch x1 x w s : waiting s = [] →
  set_waiting [] (with_chan ch x (set_waiting w (with_chan ch x1 s))) = with_chan ch x s.
Proof.
  intros Hw. change (with_chan ch x (set_waiting w (with_chan ch x1 s)))
    with (set_waiting w (with_chan ch x (with_chan ch x1 s))).
  rewrite with_with_chan. unfold with_chan, set_waiting, set_channels. simpl. by rewrite Hw.
Qed.

Lemma turn_then ch m (k : M t (res unit)) s e (n : M t unit) s' e' : turn ch m s e = (n;; mret (Ok tt)) s' e' →
  (let! _ := turn ch m in k) s e = (n;; k) s' e'.
Proof.
  intros E. unfold try_bind. unfold mbind at 1, M_bind at 1. rewrite E. unfold mbind, M_bind.
  by destruct (n s' e') as [[[] s3] e3].
Qed.

(** All the requests of a list, answered one after the other. *)
Lemma requests_run tags ch chs r rest l : ∀ s e c,
  waiting s = [] → Channels.get_ ch (channels s) = Some c → ready (chan c s) e → Forall (replayable (consumers e)) l →
  ∃ x e', ready x e' ∧ replayed tags l (chan c s) e x e' ∧
    Channel.status (Channel.self x) = Channel.status c ∧
    (go_on r (next_request ch l chs);; turns (((λ q, (ch, accept tags q)) <$> l) ++ rest)) s e =
    (go_on r (recover_channels chs);; turns rest) (with_chan ch x s) e'.
Proof.
  induction l as [|q l IH]; intros s e c Hw Hc Hrd Hl.
  { exists (chan c s), e. rewrite with_chan_id by done. split_and!; try done.
    split; simpl; try done; by rewrite app_nil_r. }
  apply Forall_cons in Hl as [[[k Hk] Ha] Hl].
  destruct (request_exchanged tags q k (chan c s) e Hk Ha Hrd) as (x & e1 & (p & x1 & e0 & v & E1 & E2 & Hp & Hid) & Hrd1 & Hrp & Hst).
  cbn [next_request fmap list_fmap app turns].
  set (s1 := set_waiting [(p, ThenRequests ch l chs, r)] (with_chan ch x1 s)).
  assert (Hs1 : go_on r (call_channel ch (Generated.send_request q) (ThenRequests ch l chs)) s e = (tt, s1, e0)).
  { rewrite (go_on_await _ _ _ _ _ _ _ _ (call_lift _ _ _ _ _ _ _ _ _ Hc E1)). simpl. by rewrite Hw. }
  rewrite (bind_eq _ _ _ _ _ _ _ Hs1).
  assert (Ht : turn ch (accept tags q) s1 e0 =
    (go_on r (next_request ch l chs);; mret (Ok tt)) (with_chan ch x s) (taken p e1)).
  { rewrite (turn_eq ch _ p (ThenRequests ch l chs) r v s1 e0 (Channel.self x1) x e1); try done.
    - unfold s1. by rewrite resumed.
    - apply get_with_chan.
    - change (chan (Channel.self x1) s1) with (chan (Channel.self x1) (with_chan ch x1 s)). by rewrite chan_with_chan. }
  destruct (IH (with_chan ch x s) (taken p e1) (Channel.self x)) as (x2 & e2 & H1 & H2 & H3 & H4).
  { done. }
  { apply get_with_chan. }
  { rewrite chan_with_chan. by apply ready_taken. }
  { by eapply replayables_later, (rp_declarations _ _ _ _ _ _ Hrp). }
  rewrite chan_with_chan in H2. rewrite with_with_chan in H4. exists x2, e2. split_and!; [done| | |].
  - apply (replayed_trans tags [q] l _ _ x (taken p e1)); [by apply replayed_taken|done].
  - by rewrite H3, Hst.
  - rewrite <- H4. by apply turn_then.
Qed.

(** The part of the topology among the requests. *)
Definition topology_requests (d : Registry.ChannelDefinition) : list Registry.Request :=
  tail (Registry.start_recovery false d).

Lemma start_recovery_eq b d : Registry.start_recovery b d =
  Registry.QChannelOpen :: (if b then [Registry.QConfirmSelect] else []) ++ topology_requests d.
Proof. done. Qed.

Lemma announced_later tags ctx qs x e x' e' : announced ctx x e → replayed tags qs x e x' e' →
  Channel.status (Channel.self x') = Channel.status (Channel.self x) → announced ctx x' e'.
Proof.
  intros [H1 H2] Hr Hst. split; [by rewrite Hst|]. apply bool_decide_eq_true_1 in H2. apply bool_decide_eq_true_2.
  by apply (rp_notified _ _ _ _ _ _ Hr).
Qed.

(** Once the channel is open for requests, what is left of its topology. *)
Lemma topology_run tags ctx ch chs r rest d s e x :
  waiting s = [] → ready x e → announced ctx x e → Forall (replayable (consumers e)) (topology_requests d) →
  ∃ x' e', ready x' e' ∧ announced ctx x' e' ∧ replayed tags (topology_requests d) x e x' e' ∧
    (go_on r (next_request ch (topology_requests d) chs);;
     turns (((λ q, (ch, accept tags q)) <$> topology_requests d) ++ rest)) (with_chan ch x s) e =
    (go_on r (recover_channels chs);; turns rest) (with_chan ch x' s) e'.
Proof.
  intros Hw Hrd Han Hq.
  destruct (requests_run tags ch chs r rest (topology_requests d) (with_chan ch x s) e (Channel.self x))
    as (x' & e' & H1 & H2 & H3 & H4); [done|apply get_with_chan|by rewrite chan_with_chan|done|].
  rewrite chan_with_chan in H2. rewrite with_with_chan in H4. exists x', e'. split_and!; try done.
  by eapply announced_later.
Qed.

Lemma replay_topology_eq ch d chs r (k : M t (res unit)) s e c : Channels.get_ ch (channels s) = Some c →
  (go_on r (replay_topology ch d chs);; k) s e =
  (go_on r (next_request ch (tail (Registry.start_recovery (ChannelStatus.confirm (Channel.status c)) d)) chs);; k) s e.
Proof. intros Hc. unfold go_on, replay_topology, mbind, M_bind, get. by rewrite Hc. Qed.

(** The channel is open again. *)
Lemma reopen_run tags ctx ch chs r s e c : let d := RecoveryContext.rc_topology ctx in
  waiting s = [] → Channels.get_ ch (channels s) = Some c → lost ctx c (Channel.frames (Channels.conn (channels s))) e →
  ∃ x e', replayed tags [Registry.QChannelOpen] (chan c s) e x e' ∧
    (if ChannelStatus.confirm (Channel.status c) then confirming ctx x e' else ready x e' ∧ announced ctx x e') ∧
    ∀ k : M t (res unit), (go_on r (recover_channels (ch :: chs));; let! _ := turn ch ChannelOpenOk in k) s e =
    (go_on r (next_request ch (tail (Registry.start_recovery (ChannelStatus.confirm (Channel.status c)) d)) chs);; k)
      (with_chan ch x s) e'.
Proof.
  intros d Hw Hc Hlost.
  destruct (begin_recovery_eq tags ctx c (Channels.conn (channels s)) e Hlost) as (p & x1 & e1 & E1 & Hro & Hrp1 & _).
  set (s1 := set_waiting [(p, ThenReopened ch d chs, r)] (with_chan ch x1 s)).
  assert (Hs1 : go_on r (recover_channels (ch :: chs)) s e = (tt, s1, e1)).
  { erewrite go_on_await; [|]. 2: { cbn [recover_channels]. unfold in_channels, zoom, Channels.with_channel, mbind, M_bind.
      rewrite Hc, E1. reflexivity. } unfold s1. simpl. by rewrite Hw. }
  destruct (channel_reopened tags ctx p x1 e1 Hro) as (x2 & e2 & v & E2 & Hp & Hrp2 & Hnext).
  assert (Hcf : ChannelStatus.confirm (Channel.status (Channel.self x1)) = ChannelStatus.confirm (Channel.status c))
    by exact (rp_confirm _ _ _ _ _ _ Hrp1).
  assert (Hcf2 : ChannelStatus.confirm (Channel.status (Channel.self x2)) = ChannelStatus.confirm (Channel.status c))
    by (rewrite <- Hcf; exact (rp_confirm _ _ _ _ _ _ Hrp2)).
  exists x2, (taken p e2). split_and!.
  - exact (replayed_taken _ _ _ _ _ _ p (replayed_trans _ _ _ _ _ _ _ _ _ Hrp1 Hrp2)).
  - rewrite Hcf in Hnext. destruct (ChannelStatus.confirm _).
    + destruct Hnext as [? ? ? ? ?]. split; try done. by apply taken_fresh.
    + destruct Hnext as [? []]. split; [by apply ready_taken|done].
  - intros k. rewrite (bind_eq _ _ _ _ _ _ _ Hs1), <- Hcf2.
    rewrite <- (replay_topology_eq ch d chs r k (with_chan ch x2 s) (taken p e2) (Channel.self x2)) by apply get_with_chan.
    apply turn_then. rewrite (turn_eq ch _ p (ThenReopened ch d chs) r v s1 e1 (Channel.self x1) x2 e2); try done.
    + unfold s1. by rewrite resumed.
    + apply get_with_chan.
    + change (chan (Channel.self x1) s1) with (chan (Channel.self x1) (with_chan ch x1 s)). by rewrite chan_with_chan.
Qed.

(** Its confirm mode, when it had it. *)
Lemma confirm_run tags ctx ch chs r l s e x :
  waiting s = [] → confirming ctx x e → ChannelStatus.confirm (Channel.status (Channel.self x)) = true →
  ∃ x' e', replayed tags [Registry.QConfirmSelect] x e x' e' ∧ ready x' e' ∧ announced ctx x' e' ∧
    ∀ k : M t (res unit), (go_on r (next_request ch (Registry.QConfirmSelect :: l) chs);; let! _ := turn ch ConfirmSelectOk in k)
      (with_chan ch x s) e = (go_on r (next_request ch l chs);; k) (with_chan ch x' s) e'.
Proof.
  intros Hw Hcf Hc.
  destruct (channel_confirmed tags ctx x e Hcf Hc) as (x2 & e2 & (p & x1 & e1 & v & E1 & E2 & Hp & _) & Hrp & Hrd & Han).
  exists x2, (taken p e2). split_and!; [by apply replayed_taken|by apply ready_taken|by destruct Han|].
  intros k. set (s1 := set_waiting [(p, ThenRequests ch l chs, r)] (with_chan ch x1 s)).
  assert (Hs1 : go_on r (next_request ch (Registry.QConfirmSelect :: l) chs) (with_chan ch x s) e = (tt, s1, e1)).
  { cbn [next_request]. rewrite (go_on_await _ _ _ _ _ _ _ _ (call_lift _ _ _ (with_chan ch x s) e _ _ _ _ (get_with_chan _ _ _)
      ltac:(rewrite chan_with_chan; exact E1))). rewrite with_with_chan. unfold s1. simpl. by rewrite Hw. }
  rewrite (bind_eq _ _ _ _ _ _ _ Hs1). apply turn_then.
  rewrite (turn_eq ch _ p (ThenRequests ch l chs) r v s1 e1 (Channel.self x1) x2 e2); try done.
  - unfold s1. by rewrite resumed.
  - apply get_with_chan.
  - change (chan (Channel.self x1) s1) with (chan (Channel.self x1) (with_chan ch x1 s)). by rewrite chan_with_chan.
Qed.

(** One channel, from the loss of its connection to the end of its recovery. *)
Lemma channel_run tags ctx ch chs r rest s e c :
  waiting s = [] → Channels.get_ ch (channels s) = Some c → lost ctx c (Channel.frames (Channels.conn (channels s))) e →
  Forall (replayable (consumers e)) (topology_requests (RecoveryContext.rc_topology ctx)) →
  let qs := Registry.start_recovery (ChannelStatus.confirm (Channel.status c)) (RecoveryContext.rc_topology ctx) in
  ∃ x e', ready x e' ∧ announced ctx x e' ∧ replayed tags qs (chan c s) e x e' ∧
    (go_on r (recover_channels (ch :: chs));; turns (((λ q, (ch, accept tags q)) <$> qs) ++ rest)) s e =
    (go_on r (recover_channels chs);; turns rest) (with_chan ch x s) e'.
Proof.
  intros Hw Hc Hlost Hq qs. set (d := RecoveryContext.rc_topology ctx) in *.
  destruct (reopen_run tags ctx ch chs r s e c Hw Hc Hlost) as (x1 & e1 & Hrp1 & Hnext & Hrun).
  fold d in Hrun. unfold qs. rewrite start_recovery_eq in *. cbn [fmap list_fmap accept app turns tail] in *.
  rewrite Hrun. clear Hrun.
  destruct (ChannelStatus.confirm (Channel.status c)) eqn:Hcf; cbn [app fmap list_fmap turns accept].
  - destruct (confirm_run tags ctx ch chs r (topology_requests d) s e1 x1) as (x2 & e2 & Hrp2 & Hrd & Han & Hrun);
      [done..|by rewrite (rp_confirm _ _ _ _ _ _ Hrp1)|]. rewrite Hrun.
    destruct (topology_run tags ctx ch chs r rest d s e2 x2 Hw Hrd Han) as (x3 & e3 & H1 & H2 & H3 & H4).
    { eapply replayables_later, (rp_declarations _ _ _ _ _ _ Hrp2). eapply replayables_later, (rp_declarations _ _ _ _ _ _ Hrp1). done. }
    exists x3, e3. split_and!; try done. apply (replayed_trans _ [_] (_ :: _) _ _ x1 e1); [done|].
    by apply (replayed_trans _ [_] _ _ _ x2 e2).
  - destruct Hnext as [Hrd Han].
    destruct (topology_run tags ctx ch chs r rest d s e1 x1 Hw Hrd Han) as (x3 & e3 & H1 & H2 & H3 & H4).
    { by eapply replayables_later, (rp_declarations _ _ _ _ _ _ Hrp1). }
    exists x3, e3. split_and!; try done. by apply (replayed_trans _ [_] _ _ _ x1 e1).
Qed.

(** ** All the channels *)

(** What a channel asks to be recovered. *)
Definition requests_of (c : Channel.Chan) : list Registry.Request :=
  match ChannelStatus.recovery_context (Channel.status c) with
  | Some ctx => Registry.start_recovery (ChannelStatus.confirm (Channel.status c)) (RecoveryContext.rc_topology ctx)
  | None => []
  end.

(** The answers of a server that accepts everything, and the requests. *)
Definition script (tags : ConsumerRef → ShortString) (l : list (ChannelId * Channel.Chan)) : list (ChannelId * AMQPClass) :=
  l ≫= λ x, (λ q, (x.1, accept tags q)) <$> requests_of x.2.

Definition asked (cs : gmap nat Consumer) (l : list (ChannelId * Channel.Chan)) : list (option AMQPFrame) :=
  l ≫= λ x, (λ q, Method x.1 <$> request_method cs q) <$> requests_of x.2.

(** A channel of the connection that lost its connection and can be recovered. *)
Definition lost_channel (s : t) (e : Env) (x : ChannelId * Channel.Chan) : Prop :=
  Channels.get_ x.1 (channels s) = Some x.2 ∧ Channel.id x.2 = x.1 ∧ ∃ ctx,
    lost ctx x.2 (Channel.frames (Channels.conn (channels s))) e ∧
    Forall (replayable (consumers e)) (topology_requests (RecoveryContext.rc_topology ctx)).

(** The channel [c] after its recovery. *)
Record recovered (tags : ConsumerRef → ShortString) (c c' : Channel.Chan) (e' : Env) : Prop := {
  rc_connected : ChannelStatus.connected (Channel.status c') = true;
  rc_no_context : ChannelStatus.recovery_context (Channel.status c') = None;
  rc_notified : ∀ ctx, ChannelStatus.recovery_context (Channel.status c) = Some ctx →
    notifier_ready (RecoveryContext.rc_notifier ctx) e' = true;
  rc_registry : Channel.local_registry c' = Registry.replay (requests_of c) (Channel.local_registry c);
  rc_consumers : Channel.consumers_ c' = foldl (reconsume tags) (Channel.consumers_ c) (requests_of c);
}.

Lemma recovered_later tags c c' e e' : notified e ⊆ notified e' → recovered tags c c' e → recovered tags c c' e'.
Proof.
  intros Hn [H1 H2 H3 H4 H5]. split; try done. intros ctx Hctx. specialize (H3 ctx Hctx).
  apply bool_decide_eq_true_1 in H3. apply bool_decide_eq_true_2. set_solver.
Qed.

(** Other channels wait unchanged. *)
Lemma lost_later tags qs ch c s e x e' y : Channels.get_ ch (channels s) = Some c → Channel.id c = ch →
  replayed tags qs (chan c s) e x e' → ready x e' → y.1 ≠ ch →
  lost_channel s e y → lost_channel (with_chan ch x s) e' y.
Proof.
  intros Hc Hid Hrp Hrd Hne (Hy & Hiy & ctx & [H1 H2 H3 H4 H5 H6] & Hq).
  split_and!; [|done|exists ctx; split].
  - by rewrite get_with_chan_ne.
  - rewrite conn_with_chan. pose proof (rp_next_ref _ _ _ _ _ _ Hrp) as Hn. split; try done.
    + by rewrite (rp_poison _ _ _ _ _ _ Hrp).
    + intros tag p q Hp. specialize (H4 tag p q Hp). lia.
    + intros er Her. rewrite lookup_total_alt, (rp_other _ _ _ _ _ _ Hrp), <- lookup_total_alt in Her by (simpl; congruence).
      specialize (H5 er Her). lia.
    + apply (rd_fresh _ _ Hrd).
  - by eapply replayables_later, (rp_declarations _ _ _ _ _ _ Hrp).
Qed.

Lemma channels_run tags r l : ∀ s e, waiting s = [] → NoDup l.*1 → Forall (lost_channel s e) l →
  ∃ s' e', (go_on r (recover_channels l.*1);; turns (script tags l)) s e = (finish r (Ok VUnit);; mret (Ok tt)) s' e' ∧
    waiting s' = [] ∧ notified e ⊆ notified e' ∧ same_declarations (consumers e') (consumers e) ∧
    (∀ ch, ch ∉ l.*1 → Channels.get_ ch (channels s') = Channels.get_ ch (channels s)) ∧
    (∀ ch c, (ch, c) ∈ l → ∃ c', Channels.get_ ch (channels s') = Some c' ∧ recovered tags c c' e') ∧
    Some <$> queued_methods (Channel.frames (Channels.conn (channels s'))) =
      (Some <$> queued_methods (Channel.frames (Channels.conn (channels s)))) ++ asked (consumers e) l.
Proof.
  induction l as [|[ch c] l IH]; intros s e Hw Hnd Hl.
  { exists s, e. split_and!; try done; [by intros ?? ?%not_elem_of_nil|by rewrite app_nil_r]. }
  apply NoDup_cons in Hnd as [Hch Hnd]. apply Forall_cons in Hl as [(Hc & Hid & ctx & Hlost & Hq) Hl].
  cbn [fst snd] in *. change (((ch, c) :: l).*1) with (ch :: l.*1) in *.
  assert (Hreq : requests_of c = Registry.start_recovery (ChannelStatus.confirm (Channel.status c)) (RecoveryContext.rc_topology ctx)).
  { unfold requests_of. by rewrite (ls_context _ _ _ _ Hlost). }
  destruct (channel_run tags ctx ch l.*1 r (script tags l) s e c Hw Hc Hlost Hq) as (x & e1 & Hrd & Han & Hrp & Hrun).
  rewrite <- Hreq in Hrp, Hrun.
  destruct (IH (with_chan ch x s) e1) as (s' & e' & E & H1 & H2 & H3 & H4 & H5 & H6); [done|done| |].
  { apply Forall_forall. intros y Hy. eapply lost_later; try done.
    - intros Hy1. apply Hch. rewrite <- Hy1. by apply list_elem_of_fmap_2.
    - by eapply Forall_forall in Hl. }
  exists s', e'. change (script tags ((ch, c) :: l)) with (((λ q, (ch, accept tags q)) <$> requests_of c) ++ script tags l).
  rewrite Hrun, E.
  split_and!; try done.
  - etransitivity; [apply (rp_notified _ _ _ _ _ _ Hrp)|done].
  - etransitivity; [done|]. apply (rp_declarations _ _ _ _ _ _ Hrp).
  - intros j [Hj1 Hj2]%not_elem_of_cons. rewrite H4 by done. by apply get_with_chan_ne.
  - intros j cj [[= -> ->]|Hj]%elem_of_cons; [|by apply H5].
    exists (Channel.self x). rewrite H4 by done. split; [apply get_with_chan|].
    eapply recovered_later; [exact H2|]. destruct Han as [Ha1 Ha2]. split; try done.
    + apply (rd_connected _ _ Hrd).
    + intros ctx'. rewrite (ls_context _ _ _ _ Hlost). by intros [= <-].
    + by rewrite (rp_registry _ _ _ _ _ _ Hrp).
    + by rewrite (rp_consumers _ _ _ _ _ _ Hrp).
  - rewrite H6, conn_with_chan, (rp_queue _ _ _ _ _ _ Hrp). rewrite <- app_assoc. cbn [chan Channel.conn Channel.self].
    rewrite Hid. change (asked (consumers e) ((ch, c) :: l)) with
      (((λ q, Method ch <$> request_method (consumers e) q) <$> requests_of c) ++ asked (consumers e) l).
    do 2 f_equal. apply list_bind_ext; [|done]. intros y. apply list_fmap_ext. intros _ q _.
    by rewrite (request_method_same _ _ _ (rp_declarations _ _ _ _ _ _ Hrp)).
Qed.

(** C16: a recovery restores every channel.  When the handshake of the new connection is
    done, none of the requests to replay was recorded with nowait, and the server accepts what it is asked, the future of the recovery asks, channel
    after channel and one request at a time, exactly for the channel, its confirm mode, its
    exchanges, their bindings, its queues, their bindings and its consumers, in that
    order; it then completes, with every channel connected, its waiters notified, its
    registry updated by all the requests and its consumers registered again. *)
Theorem recovery_completes tags l r p v s e :
  waiting s = [(p, ThenChannels l.*1, r)] → promises e !! p = Some (Ok v) →
  NoDup l.*1 → Forall (lost_channel (set_waiting [] s) (taken p e)) l →
  ∃ s' e', (poll_waiting 0;; turns (script tags l)) s e = (finish r (Ok VUnit);; mret (Ok tt)) s' e' ∧
    waiting s' = [] ∧
    (∀ ch c, (ch, c) ∈ l → ∃ c', Channels.get_ ch (channels s') = Some c' ∧ recovered tags c c' e') ∧
    Some <$> queued_methods (Channel.frames (Channels.conn (channels s'))) =
      (Some <$> queued_methods (Channel.frames (Channels.conn (channels s)))) ++ asked (consumers e) l.
Proof.
  intros Hw Hp Hnd Hl.
  destruct (channels_run tags r l (set_waiting [] s) (taken p e)) as (s' & e' & E & H1 & _ & _ & _ & H5 & H6); [done..|].
  exists s', e'. split_and!; try done. unfold mbind at 1, M_bind at 1.
  rewrite (resume_eq p (ThenChannels l.*1) r s e v) by done. exact E.
Qed.

(** C35: a channel without confirms is announced as recovered before its topology is.  When
    channel.open is answered the channel is connected and the notifier of the recovery, which
    [wait_for_recovery] waits for, has fired, although channel.open is all the
    channel has asked for: none of its exchanges, queues, bindings and consumers. *)
Theorem announced_before_topology ctx ch chs r s e c :
  waiting s = [] → Channels.get_ ch (channels s) = Some c → Channel.id c = ch →
  lost ctx c (Channel.frames (Channels.conn (channels s))) e → ChannelStatus.confirm (Channel.status c) = false →
  ∃ p s1 e1 x e2, go_on r (recover_channels (ch :: chs)) s e = (tt, s1, e1) ∧
    waiting s1 = [(p, ThenReopened ch (RecoveryContext.rc_topology ctx) chs, r)] ∧
    in_channels (Channels.handle_frame (Method ch ChannelOpenOk)) s1 e1 = (Ok tt, with_chan ch x s1, e2) ∧
    ChannelStatus.connected (Channel.status (Channel.self x)) = true ∧
    notifier_ready (RecoveryContext.rc_notifier ctx) e2 = true ∧
    queued_methods (Channel.frames (Channel.conn x)) =
      queued_methods (Channel.frames (Channels.conn (channels s))) ++ [Method ch ChannelOpen] ∧
    Channel.local_registry (Channel.self x) = Channel.local_registry c.
Proof.
  intros Hw Hc Hid Hlost Hcf. set (tags := λ _ : ConsumerRef, EmptyString).
  destruct (begin_recovery_eq tags ctx c (Channels.conn (channels s)) e Hlost) as (p & x1 & e1 & E1 & Hro & Hrp1 & _).
  destruct (channel_reopened tags ctx p x1 e1 Hro) as (x2 & e2 & v & E2 & Hp & Hrp2 & Hnext).
  pose proof (rp_confirm _ _ _ _ _ _ Hrp1) as Hcf1. simpl in Hcf1. rewrite Hcf1, Hcf in Hnext.
  destruct Hnext as [[Hrd _ _ _] [_ Han]].
  pose proof (replayed_trans _ _ _ _ _ _ _ _ _ Hrp1 Hrp2) as Hrp.
  exists p, (set_waiting [(p, ThenReopened ch (RecoveryContext.rc_topology ctx) chs, r)] (with_chan ch x1 s)), e1, x2, e2.
  split_and!; try done.
  - erewrite go_on_await; [|]. 2: { cbn [recover_channels]. unfold in_channels, zoom, Channels.with_channel, mbind, M_bind.
      rewrite Hc, E1. reflexivity. } simpl. by rewrite Hw.
  - rewrite (receive_lift ch ChannelOpenOk _ _ (Channel.self x1) (Ok tt) x2 e2); [done|apply get_with_chan|].
    transitivity (Generated.receive_method ChannelOpenOk (chan (Channel.self x1) (with_chan ch x1 s)) e1);
      [done|by rewrite chan_with_chan].
  - pose proof (rp_queue _ _ _ _ _ _ Hrp) as Hqu. simpl in Hqu. rewrite Hid in Hqu.
    apply (inj (fmap Some)). by rewrite Hqu, fmap_app.
  - by rewrite (rp_registry _ _ _ _ _ _ Hrp).
Qed.

End Recovery.

Section Witnesses.
Import InternalRPC.
#[local] Existing Instances number_types number_protocol number_handle.
#[local] Instance z_order : HashOrder Z := canonical_order Z.
#[local] Instance s_order : HashOrder string := canonical_order string.

Definition demo_consumer : Consumer :=
  mkConsumer "ct" None [] Active false "q" (mkBasicConsumeOptions false false false false) [] 6%nat.
Definition demo_env : Env :=
  set_promises {[ 7%nat := Ok (VConnection 0%nat) ]} (Consumer.put_consumer 5%nat demo_consumer (set_next_ref 9 env_empty)).

(** A channel with a queue bound to an exchange and a consumer on it, lost and to be recovered. *)
Definition demo_registry : Registry.t :=
  Registry.register_queue_binding "q" "x" "k" [] (Registry.register_queue "q" QueueDeclareOptions_default [] Registry.empty).
Definition demo_context : RecoveryContext.t :=
  RecoveryContext.mk (error_from (IOError ConnectionAborted))
    (Registry.mkChannelDefinition (Registry.exchanges_topology demo_registry) (Registry.queues_topology demo_registry) [5%nat])
    None 8%nat.
Definition demo_chan (confirm : bool) : Channel.Chan :=
  let c := result_of (Channel.new 1 tt env_empty) in
  Channel.set_consumers_ {[ "ct" := 5%nat ]} (Channel.set_registry demo_registry
    (Channel.set_status_ (ChannelStatus.set_context (Some demo_context) (ChannelStatus.set_confirm_ confirm
      (ChannelStatus.set_state_ ChReconnecting (Channel.status c)))) c)).
Definition demo (confirm : bool) (w : list (Resolver * After * option Resolver)) : t :=
  let c0 := result_of (Channel.new 0 tt env_empty) in
  mk (Channels.mk {[ 1 := demo_chan confirm ]} (IdSequence.new false) c0
       (Channel.mkConn (Configuration.mk 10 4096 0) (ConnectionStatus.mk CoConnected false None) Frames.default "/" true) 0%nat)
     ∅ (result_of (Heartbeat.new 0 tt env_empty)) (result_of (SecretUpdate.new tt env_empty)) [] w [] [].
Definition demo_tags (c : ConsumerRef) : ShortString := "ct".

Lemma demo_lost b e : promises e = ∅ → next_ref e = 9%nat →
  lost demo_context (demo_chan b) Frames.default e.
Proof.
  intros Hp Hn. split; [done..| | |].
  - intros tag p q H. change (Acknowledgements.pending (Channel.acknowledgements (demo_chan b))) with (∅ : gmap Z (nat * nat)) in H.
    by rewrite lookup_empty in H.
  - intros er Her. by apply not_elem_of_nil in Her.
  - intros p _. by rewrite Hp.
Qed.

Lemma recovery_completes_witness : ∃ s' e' c',
  (poll_waiting 0;; turns (script demo_tags [(1, demo_chan true)])) (demo true [(7%nat, ThenChannels [1], None)]) demo_env =
    (Ok tt, s', e') ∧
  Channels.get_ 1 (channels s') = Some c' ∧ recovered demo_tags (demo_chan true) c' e' ∧
  length (queued_methods (Channel.frames (Channels.conn (channels s')))) = 5%nat.
Proof.
  destruct (recovery_completes (AT := number_types) (AP := number_protocol) (CH := number_handle) demo_tags [(1, demo_chan true)]
    None 7%nat (VConnection 0%nat) (demo true [(7%nat, ThenChannels [1], None)]) demo_env)
    as (s' & e' & E & _ & H & Hq); [done|done|by repeat constructor; set_solver| |].
  - repeat constructor. exists demo_context. split; [by apply demo_lost|].
    repeat (constructor; [by split; [eexists|]|]). constructor.
  - destruct (H 1 (demo_chan true)) as (c' & H1 & H2); [by left|]. exists s', e', c'. split; [exact E|]. split; [done|].
    split; [done|]. apply (f_equal length) in Hq. rewrite length_fmap in Hq. rewrite Hq. by vm_compute.
Defined.

Lemma announced_before_topology_witness : ∃ x e2,
  notifier_ready 8%nat e2 = true ∧ ChannelStatus.connected (Channel.status (Channel.self x)) = true ∧
  queued_methods (Channel.frames (Channel.conn x)) = [Method 1 ChannelOpen].
Proof.
  destruct (announced_before_topology (AT := number_types) (AP := number_protocol) (CH := number_handle) demo_context 1 [] None
    (demo false []) (taken 7%nat demo_env) (demo_chan false)) as (p & s1 & e1 & x & e2 & _ & _ & _ & H1 & H2 & H3 & _);
    [done|done|done|by apply demo_lost|done|]. by exists x, e2.
Defined.

End Witnesses.
End Recovery.
