(* ===== verification/Handles.v ===== *)
(** The handles an application holds: what dropping the last handle of a channel, of a consumer or
    of a connection does (src/channel_closer.rs, src/consumer_canceler.rs, and [ConnectionCloser] of
    Connection.v), and the requests of a [Connection] (src/connection.rs).  Each only
    queues internal commands; the theorems follow the commands to their end. *)
From S2P Require Import Prelude.
From S2P Require Import IdSequence.
From S2P Require Import Buffer.
From S2P Require Import Types.
From S2P Require Import Env.
From S2P Require Import Frames.
From S2P Require Import Registry.
From S2P Require Import ChannelStatus.
From S2P Require Import Messages.
From S2P Require Import Acknowledgements.
From S2P Require Import Consumers.
From S2P Require Import Connection.
From S2P Require Import Channel.
From S2P Require Import Generated.
From S2P Require Import Channels.
From S2P Require Import Heartbeat.
From S2P Require Import InternalRPC.
From S2P Require Import Recovery.
Open Scope Z_scope.

(** * Drops *)

Module ChannelCloser.
Section ChannelCloser.
Context `{AT : AmqpTypes}.

(** The state is the status the closer shares with the channel. *)
Definition drop (i : ChannelId) : M ChannelStatus.t unit :=
  s ← get;
  if ChannelStatus.auto_close i s then rpc_close_channel i REPLY_SUCCESS "OK" else mret tt.

End ChannelCloser.
End ChannelCloser.

Module ConsumerCanceler.
Section ConsumerCanceler.
Context `{AT : AmqpTypes}.

Definition drop {S} (i : ChannelId) (tag : ShortString) (c : ConsumerRef) : M S unit :=
  Consumer.with_consumer c tt (λ x,
    if bool_decide (c_state x = Active) then rpc_cancel_consumer i tag c else mret tt).

End ConsumerCanceler.
End ConsumerCanceler.

(** * Requests of a connection *)

(** Each is its part up to the wait for the promise it returns. *)
Module Connection.
Section Connection.
Context `{AT : AmqpTypes}.

Definition if_connected (k : M ConnectionStatus.t Resolver) : M ConnectionStatus.t (res Resolver) :=
  s ← get;
  match ConnectionStatus.ensure_connected s with
  | Err err => mret (Err err)
  | Ok _ => p ← k; mret (Ok p)
  end.

Definition create_channel : M ConnectionStatus.t (res Resolver) :=
  if_connected rpc_create_channel.

Definition close (code : ReplyCode) (text : ShortString) : M ConnectionStatus.t (res Resolver) :=
  if_connected (rpc_close_connection_checked code text 0 0).

Definition update_secret (new_secret : LongString) (reason : ShortString) : M ConnectionStatus.t (res Resolver) :=
  if_connected (rpc_update_secret new_secret reason).

End Connection.
End Connection.

(** * From the handle to the server *)

Module Handles.
Section Handles.
Context `{AT : AmqpTypes} `{AP : !AmqpProtocol} `{CH : !ConnectionHandle}
  `{HZ : !HashOrder Z} `{HS : !HashOrder string}.
Import InternalRPC Recovery.

(** The application drops its last handle on the channel [ch]. *)
Definition drop_channel (ch : ChannelId) : M t unit :=
  in_channels (Channels.with_channel ch tt (Channel.in_status (ChannelCloser.drop ch))).

(** The dispatcher takes the oldest command, and the runtime polls the oldest future. *)
Definition step (now : Z) (v : Z * Z * Z) (c : ConnectionRef) : M t unit := run_next now;; poll_task v c.

Definition frames (s : t) : Frames.t := Channel.frames (Channels.conn (channels s)).

(** ** The consumers of a closing channel *)

(** The consumers [l], without delegate any more, then at the end of their streams. *)
Definition canceling (l : list ConsumerRef) (m : gmap nat Consumer) : gmap nat Consumer :=
  foldl (λ m c, alter Consumer.status_start_cancel c m) m l.

Definition end_stream (x : Consumer) : Consumer :=
  Consumer.status_cancel (Consumer.set_deliveries (c_deliveries x ++ [Ok None]) x).

Definition ended (l : list ConsumerRef) (m : gmap nat Consumer) : gmap nat Consumer :=
  foldl (λ m c, alter end_stream c m) m l.

Lemma start_cancel_loop {S} l : ∀ (s : S) e,
  for_each l Consumer.start_cancel s e = (tt, s, set_consumers (canceling l (consumers e)) e).
Proof.
  induction l as [|c l IH]; intros s e; [by destruct e|]. cbn [for_each].
  erewrite bind_eq by reflexivity. by rewrite IH.
Qed.

Definition no_delegates (m : gmap nat Consumer) (l : list ConsumerRef) : Prop :=
  ∀ c x, c ∈ l → m !! c = Some x → c_delegate x = false.

Lemma alter_lookup f c (m : gmap nat Consumer) i : alter f c m !! i = if decide (i = c) then f <$> m !! i else m !! i.
Proof. case_decide as H; [subst; apply lookup_alter_eq|by apply lookup_alter_ne]. Qed.

Lemma no_delegates_alter f c m l : (∀ x, c_delegate (f x) = false) → no_delegates m l → no_delegates (alter f c m) (c :: l).
Proof.
  intros Hf Hm i x Hi. rewrite alter_lookup. case_decide as Hc.
  - intros (y & _ & ->)%fmap_Some. apply Hf.
  - apply Hm. set_solver.
Qed.

Lemma canceling_no_delegates l : ∀ m l', no_delegates m l' → no_delegates (canceling l m) (l' ++ l).
Proof.
  induction l as [|c l IH]; intros m l' Hm; [by rewrite app_nil_r|]. simpl.
  intros i x Hi. apply (IH _ (c :: l')); [by apply no_delegates_alter|]. set_solver.
Qed.

Lemma cancel_eq {S} c (s : S) e : no_delegates (consumers e) [c] →
  Consumer.cancel c s e = (tt, s, set_consumers (alter end_stream c (consumers e)) e).
Proof.
  intros Hd. destruct (consumers e !! c) as [x|] eqn:Hx.
  - specialize (Hd c x ltac:(by left) Hx). unfold Consumer.cancel. rewrite (Consumer.with_consumer_eq _ _ _ _ _ x Hx), Hd.
    unfold Consumer.dispatch. rewrite (bind_eq _ _ _ _ _ _ _ (Consumer.update_eq _ _ _ _ x Hx)).
    rewrite (Consumer.update_eq _ _ _ _ _ (Consumer.put_consumer_lookup _ _ _)), Consumer.put_put_consumer.
    unfold Consumer.put_consumer. do 2 f_equal. apply map_eq. intros i. rewrite alter_lookup.
    case_decide as Hi; [subst; by rewrite lookup_insert_eq, Hx|by rewrite lookup_insert_ne].
  - unfold Consumer.cancel, Consumer.with_consumer. rewrite bind_get_env, Hx.
    unfold mret, M_ret. f_equal. rewrite alter_id by (intros ?; by rewrite Hx). by destruct e.
Qed.

Lemma cancel_loop {S} l : ∀ (s : S) e, no_delegates (consumers e) l →
  for_each l Consumer.cancel s e = (tt, s, set_consumers (ended l (consumers e)) e).
Proof.
  induction l as [|c l IH]; intros s e Hd; [by destruct e|]. cbn [for_each].
  erewrite bind_eq; [|apply cancel_eq; intros i x Hi; apply Hd; set_solver].
  rewrite IH; [done|]. intros i x Hi. apply (no_delegates_alter end_stream c (consumers e) l); [done| |by right].
  intros j y Hj. apply Hd. by right.
Qed.

(** The stream of a consumer ends. *)
Definition stream_ended (x : Consumer) : Prop := c_state x = Canceled ∧ last (c_deliveries x) = Some (Ok None).

Lemma ended_spec l : ∀ m i x, ended l m !! i = Some x → i ∈ l ∨ (∃ y, m !! i = Some y ∧ stream_ended y) → stream_ended x.
Proof.
  induction l as [|c l IH]; intros m i x Hx Hi.
  - destruct Hi as [[]%not_elem_of_nil|(y & Hy & Hs)]. simpl in Hx. congruence.
  - simpl in Hx. apply (IH _ _ _ Hx). destruct (decide (i ∈ l)) as [|Hn]; [by left|right].
    assert (Hend : ∀ y, stream_ended (end_stream y)) by (intros y; split; [done|apply last_snoc]).
    rewrite alter_lookup. destruct (decide (i = c)) as [->|Hne].
    + assert (Hs : is_Some (m !! c)).
      { destruct (m !! c) eqn:E; [done|]. exfalso.
        assert (Hnone : ∀ l m, m !! c = None → ended l m !! c = None).
        { clear. induction l as [|d l IH]; intros m Hm; [done|]. apply IH. rewrite alter_lookup. case_decide; by rewrite Hm. }
        rewrite Hnone in Hx; [done|]. rewrite alter_lookup, decide_True, E by done. done. }
      destruct Hs as [y ->]. by exists (end_stream y).
    + destruct Hi as [Hi|Hi]; [set_solver|done].
Qed.

(** ** Asking for the close *)

Definition refs (c : Channel.Chan) : list ConsumerRef := Consumers.values (Channel.consumers_ c).

Definition with_state (st : ChannelState) (c : Channel.Chan) : Channel.Chan :=
  Channel.set_status_ (ChannelStatus.set_state_ st (Channel.status c)) c.

(** The channel once channel.close is queued. *)
Definition closing (c : Channel.Chan) (cn : Channel.Conn) (m : AMQPClass) (p : Resolver) : Channel.t :=
  Generated.map_frames (Generated.requested (Channel.id c) m (RChannelCloseOk p) p) (Channel.mk (with_state ChClosing c) cn).

Lemma close_eq code text class_id method_id c cn e :
  ChannelStatus.connected (Channel.status c) = true → Frames.check_poison (Channel.frames cn) (Channel.id c) = None →
  Generated.do_channel_close code text class_id method_id (Channel.mk c cn) e =
  (Ok (next_ref e), closing c cn (ChannelClose code text class_id method_id) (next_ref e),
   Generated.after_call (set_consumers (canceling (refs c) (consumers e)) e)).
Proof.
  intros Hc Hp. unfold Generated.do_channel_close. rewrite Generated.connected_eq. cbn [Channel.self]. rewrite Hc.
  assert (E : Channel.before_channel_close (Channel.mk c cn) e =
    (tt, Channel.mk (with_state ChClosing c) cn, set_consumers (canceling (refs c) (consumers e)) e)).
  { unfold Channel.before_channel_close, Channel.set_closing, Channel.set_state, Channel.in_status, Channel.in_consumers,
      Consumers.start_cancel, mbind, M_bind, zoom, get. cbn -[for_each]. rewrite start_cancel_loop. by destruct c. }
  rewrite (bind_eq _ _ _ _ _ _ _ E). unfold Generated.waiting.
  erewrite bind_eq by (apply Generated.call_eq; exact Hp). done.
Qed.

(** ** The answer *)

Definition is_close_ok (er : ExpectedReply) : bool := match er_reply er with RChannelCloseOk _ => true | _ => false end.

Lemma close_ok_loop_eq err p c l : Forall (λ er, is_close_ok er = false) l → ∀ f e,
  Frames.close_ok_loop (l ++ [mkExpectedReply (RChannelCloseOk p) c]) err f e =
  ((Some (RChannelCloseOk p), []), f, promise_sets (Frames.cancellation err <$> l) e).
Proof.
  intros Hl. induction Hl as [|er l Her Hl IH]; intros f e; [done|]. cbn [app Frames.close_ok_loop].
  unfold is_close_ok in Her. cbn [fmap list_fmap promise_sets].
  unfold Frames.cancellation at 1, Frames.reply_waiter. destruct (er_reply er); try done;
    (erewrite bind_eq by reflexivity); apply IH.
Qed.

Definition closed_error : Error := error_from (InvalidChannelState ChClosed "channel.close-ok received").
Definition aborted_error : Error := error_from (InvalidChannelState ChClosed "unexpected channel.close-ok received").

Definition closed_acks (a : Acknowledgements.t) : Acknowledgements.t :=
  Acknowledgements.set_returned (ReturnedMessages.set_dropped [] (Acknowledgements.returned_messages a))
    (Acknowledgements.set_pending ∅ a).

Definition closed (c : Channel.Chan) : Channel.Chan :=
  Channel.set_consumers_ ∅ (Channel.set_acks (closed_acks (Channel.acknowledgements c)) (with_state ChClosed c)).

Definition sent (c : InternalCommand) (e : Env) : Env := set_wakes (S (wakes e)) (set_rpc (rpc e ++ [c]) e).

(** The promises of the pending confirms of a channel that fails. *)
Definition unconfirmed (err : Error) (c : Channel.Chan) : list (Resolver * res PVal) :=
  Acknowledgements.failures err (IdSequence.current (Acknowledgements.delivery_tag (Channel.acknowledgements c)))
    (hash_order (Acknowledgements.pending (Channel.acknowledgements c))).

Lemma confirms_error_eq err c cn e : Channel.error_publisher_confirms err (Channel.mk c cn) e =
  (tt, Channel.mk (Channel.set_acks (closed_acks (Channel.acknowledgements c)) c) cn, promise_sets (unconfirmed err c) e).
Proof. unfold Channel.error_publisher_confirms, Channel.in_acks, zoom. by rewrite Acknowledgements.on_channel_error_eq. Qed.

Lemma set_closed_eq err c cn e : no_delegates (consumers e) (refs c) →
  Channel.set_closed err (Channel.mk c cn) e =
  (tt, Channel.mk (closed c) cn, sent (CRemoveChannel (Channel.id c) err) (set_consumers (ended (refs c) (consumers e))
    (promise_sets (unconfirmed err c) e))).
Proof.
  intros Hd. unfold Channel.set_closed. erewrite bind_eq by reflexivity.
  set (c1 := Channel.set_acks (closed_acks (Channel.acknowledgements c)) (with_state ChClosed c)). set (e1 := promise_sets _ e).
  assert (E1 : Channel.error_publisher_confirms err (Channel.mk (with_state ChClosed c) cn) e = (tt, Channel.mk c1 cn, e1))
    by apply confirms_error_eq.
  erewrite bind_eq by exact E1.
  assert (Hc : consumers e1 = consumers e) by (unfold e1; by rewrite promise_sets_only).
  assert (E2 : Channel.cancel_consumers (Channel.mk c1 cn) e1 =
    (tt, Channel.mk (closed c) cn, set_consumers (ended (refs c) (consumers e)) e1)).
  { unfold Channel.cancel_consumers, Channel.in_consumers, Consumers.cancel, zoom, mbind, M_bind, get, put.
    rewrite cancel_loop by (rewrite Hc; exact Hd). by rewrite Hc. }
  by rewrite (bind_eq _ _ _ _ _ _ _ E2).
Qed.

(** The promises the answer completes before that of the close: the requests that were not
    answered, then the pending confirms. *)
Definition settled (l : list ExpectedReply) (c : Channel.Chan) : list (Resolver * res PVal) :=
  (Frames.cancellation aborted_error <$> l) ++ unconfirmed closed_error c.

Lemma close_ok_eq l p q c cn e :
  ChannelStatus.state (Channel.status c) = ChClosing →
  Frames.expected_replies (Channel.frames cn) !! Channel.id c = Some (l ++ [mkExpectedReply (RChannelCloseOk p) q]) →
  Forall (λ er, is_close_ok er = false) l → no_delegates (consumers e) (refs c) →
  Generated.receive_method ChannelCloseOk (Channel.mk c cn) e =
  (Ok tt, Channel.mk (closed c) (Channel.set_frames_
     (Frames.set_expected (<[Channel.id c := []]> (Frames.expected_replies (Channel.frames cn))) (Channel.frames cn)) cn),
   promise_set p (Ok VUnit) (sent (CRemoveChannel (Channel.id c) closed_error)
     (set_consumers (ended (refs c) (consumers e)) (promise_sets (settled l c) e)))).
Proof.
  intros Hst He Hl Hd. cbn [Generated.receive_method]. unfold Generated.receive_channel_close_ok.
  rewrite Generated.can_receive_eq by (unfold ChannelStatus.can_receive_messages; cbn [Channel.self]; by rewrite Hst).
  set (cn' := Channel.set_frames_ _ cn).
  assert (E : Channel.next_expected_close_ok_reply (Channel.mk c cn) e =
    (Some (RChannelCloseOk p), Channel.mk c cn', promise_sets (Frames.cancellation aborted_error <$> l) e)).
  { unfold Channel.next_expected_close_ok_reply, Channel.this_id. rewrite bind_assoc, bind_get.
    unfold Channel.in_frames, zoom, mbind, M_bind, mret, M_ret. cbn [Channel.self Channel.conn].
    unfold Frames.next_expected_close_ok_reply. rewrite bind_get, He.
    erewrite bind_eq by (apply close_ok_loop_eq; exact Hl). done. }
  rewrite (bind_eq _ _ _ _ _ _ _ E). unfold Generated.completing.
  assert (Hc : consumers (promise_sets (Frames.cancellation aborted_error <$> l) e) = consumers e) by by rewrite promise_sets_only.
  erewrite bind_eq; [|unfold Channel.on_channel_close_ok_received; erewrite bind_eq;
    [reflexivity|apply set_closed_eq; rewrite Hc; exact Hd]].
  unfold settled. rewrite promise_sets_app, Hc. done.
Qed.

(** ** The whole close *)

(** An open channel of a client with nothing else under way; what waits for its confirms and
    replies was allocated. *)
Record live (ch : ChannelId) (c : Channel.Chan) (s : t) (e : Env) : Prop := {
  lv_nonzero : ch ≠ 0;
  lv_get : Channels.get_ ch (channels s) = Some c;
  lv_id : Channel.id c = ch;
  lv_connected : ChannelStatus.connected (Channel.status c) = true;
  lv_poison : Frames.check_poison (frames s) ch = None;
  lv_ok : channel_ok ch s e = true;
  lv_rpc : rpc e = [];
  lv_tasks : tasks s = [];
  lv_waiting : waiting s = [];
  lv_fresh : ∀ p, (next_ref e ≤ p)%nat → promises e !! p = None;
  lv_confirms : ∀ tag p q, Acknowledgements.pending (Channel.acknowledgements c) !! tag = Some (p, q) →
    (p < next_ref e ∧ q < next_ref e)%nat;
  lv_replies : ∀ er, er ∈ Frames.expected_replies (frames s) !!! ch → (Frames.reply_waiter er < next_ref e)%nat;
  lv_no_close : Forall (λ er, is_close_ok er = false) (Frames.expected_replies (frames s) !!! ch);
}.

(** Its only command was taken. *)
Definition taken_command (e : Env) : Env := set_wakes (S (wakes e)) (set_rpc [] e).

Lemma with_chan_same ch c s : Channels.get_ ch (channels s) = Some c → with_chan ch (chan c s) s = s.
Proof.
  intros Hg. unfold with_chan, chan. simpl. destruct s as [[chs seq ch0 cn k] ? ? ? ? ? ? ?].
  unfold Channels.get_, Channels.put_, set_channels in *. simpl in *. destruct (ch =? 0).
  - injection Hg as ->. done.
  - unfold Channels.set_channels, Channels.set_conn. simpl. by rewrite insert_id.
Qed.

Lemma drop_eq ch c s e : Channels.get_ ch (channels s) = Some c →
  drop_channel ch s e = (tt, s, if ChannelStatus.auto_close ch (Channel.status c) then sent (CCloseChannel ch REPLY_SUCCESS "OK") e else e).
Proof.
  intros Hg. pose proof (with_chan_same ch c s Hg) as Hs.
  unfold drop_channel, in_channels, zoom, Channels.with_channel. rewrite Hg.
  unfold Channel.in_status, zoom, ChannelCloser.drop. rewrite bind_get. cbn [Channel.self Channel.status].
  unfold with_chan, chan in Hs. simpl in Hs.
  destruct (ChannelStatus.auto_close _ _); simpl; unfold Channel.set_self; simpl;
    (replace (Channel.set_status_ (Channel.status c) c) with c by by destruct c); by rewrite Hs.
Qed.

(** A command that becomes a future, and the first poll of the future. *)
Lemma step_eq now v cr c f r s e p s0 e0 s' e' l : rpc e = c :: l → tasks s0 = [] →
  dispatch now c s (set_rpc l e) = (true, set_tasks [(f, r)] s0, e0) →
  first_poll v cr f s0 (set_wakes (S (wakes e0)) e0) = (p, s', e') →
  step now v cr s e = progress r p s' e'.
Proof.
  intros Hr Ht Hd Hf.
  assert (E : run_next now s e = (true, set_tasks [(f, r)] s0, set_wakes (S (wakes e0)) e0)).
  { unfold run_next. rewrite bind_get_env, Hr. erewrite bind_eq by reflexivity.
    by rewrite (bind_eq _ _ _ _ _ _ _ Hd). }
  unfold step. rewrite (bind_eq _ _ _ _ _ _ _ E).
  unfold poll_task. rewrite bind_get. cbn [tasks set_tasks]. rewrite bind_modify.
  assert (Hs : set_tasks [] (set_tasks [(f, r)] s0) = s0) by (destruct s0; simpl in *; by subst).
  rewrite Hs. by rewrite (bind_eq _ _ _ _ _ _ _ Hf).
Qed.

Definition close_method : AMQPClass := ChannelClose REPLY_SUCCESS "OK" 0 0.

(** The store once channel.close is queued. *)
Definition asked_close (ch : ChannelId) (c : Channel.Chan) (e : Env) : Env :=
  Generated.after_call (set_consumers (canceling (refs c) (consumers e))
    (taken_command (sent (CCloseChannel ch REPLY_SUCCESS "OK") e))).

Lemma found_get ch c s : Channels.get_ ch (channels s) = Some c → found ch s = true.
Proof. intros H. unfold found. by rewrite H. Qed.

Lemma close_dispatched ch c now s e e' : live ch c s e → killed_set e' = killed_set e →
  dispatch now (CCloseChannel ch REPLY_SUCCESS "OK") s e' = (true, set_tasks [(FCloseChannel ch true REPLY_SUCCESS "OK", None)] s, e').
Proof.
  intros Hl Hk. unfold dispatch. rewrite bind_get, bind_get_env.
  assert (Hok : channel_ok ch s e' = true) by (pose proof (lv_ok _ _ _ _ Hl) as H; unfold channel_ok, killed in *; by rewrite Hk).
  rewrite Hok, (found_get ch c s (lv_get _ _ _ _ Hl)). cbn [negb]. unfold register_internal_future. rewrite bind_modify.
  by rewrite (lv_tasks _ _ _ _ Hl).
Qed.

Lemma live_auto_close ch c s e : live ch c s e → ChannelStatus.auto_close ch (Channel.status c) = true.
Proof.
  intros Hl. unfold ChannelStatus.auto_close. rewrite (lv_connected _ _ _ _ Hl), andb_true_r. apply negb_true_iff.
  by apply Z.eqb_neq, (lv_nonzero _ _ _ _ Hl).
Qed.

Lemma drop_closing ch c now v cr s e : live ch c s e →
  (drop_channel ch;; step now v cr) s e =
  (tt, set_waiting [(next_ref e, Finish, None)] (with_chan ch (closing c (Channels.conn (channels s)) close_method (next_ref e)) s),
   asked_close ch c e).
Proof.
  intros Hl. pose proof Hl as [_ Hg Hid Hc Hp _ Hr Ht Hw _ _ _ _].
  rewrite (bind_eq _ _ _ _ _ _ _ (drop_eq ch c s e Hg)), (live_auto_close ch c s e Hl).
  etransitivity; [eapply (step_eq now v cr _ (FCloseChannel ch true REPLY_SUCCESS "OK") None s _ _ s _ _ _ [])|].
  - simpl. by rewrite Hr.
  - done.
  - by apply (close_dispatched ch c now s e).
  - unfold first_poll. rewrite bind_get_env. apply (call_lift _ _ _ _ _ c); [done|].
    unfold chan. by apply close_eq; [|rewrite Hid].
  - cbn [progress]. unfold modify. cbn [waiting with_chan set_channels]. by rewrite Hw.
Qed.

(** The store once channel.close-ok is received. *)
Definition answered_close (l : list ExpectedReply) (ch : ChannelId) (c : Channel.Chan) (e : Env) : Env :=
  promise_set (next_ref e) (Ok VUnit) (sent (CRemoveChannel ch closed_error)
    (set_consumers (ended (refs c) (canceling (refs c) (consumers e))) (promise_sets (settled l c) (asked_close ch c e)))).

Definition without_replies (ch : ChannelId) (f : Frames.t) : Frames.t :=
  Frames.set_expected (<[ch := []]> (Frames.expected_replies f)) f.

Lemma closing_answered ch c w s e : live ch c s e →
  let x := closing c (Channels.conn (channels s)) close_method (next_ref e) in
  let l := Frames.expected_replies (frames s) !!! ch in
  in_channels (Channels.handle_frame (Method ch ChannelCloseOk)) (set_waiting w (with_chan ch x s)) (asked_close ch c e) =
  (Ok tt, set_waiting w (with_chan ch (Channel.mk (closed c)
     (Channel.set_frames_ (without_replies ch (Channel.frames (Channel.conn x))) (Channel.conn x))) s), answered_close l ch c e).
Proof.
  intros [Hz Hg Hid Hc Hp Hok Hr Ht Hw _ _ _ Hl]. cbv zeta.
  set (x := closing _ _ _ _). set (l := _ !!! ch).
  assert (E : Generated.receive_method ChannelCloseOk (chan (Channel.self x) (set_waiting w (with_chan ch x s))) (asked_close ch c e) =
    (Ok tt, Channel.mk (closed c) (Channel.set_frames_ (without_replies ch (Channel.frames (Channel.conn x))) (Channel.conn x)),
     answered_close l ch c e)).
  { transitivity (Generated.receive_method ChannelCloseOk (Channel.mk (with_state ChClosing c) (Channel.conn x)) (asked_close ch c e)).
    { f_equal. apply (chan_with_chan ch x s). }
    erewrite (close_ok_eq l (next_ref e) (next_ref e)); [|done| |exact Hl|].
    - cbn [Channel.id with_state Channel.set_status_]. rewrite Hid. done.
    - simpl. rewrite Hid, lookup_insert_eq. done.
    - apply (canceling_no_delegates (refs c) (consumers e) []). by intros ?? ?%not_elem_of_nil. }
  rewrite (receive_lift ch ChannelCloseOk (set_waiting w (with_chan ch x s)) _ (Channel.self x) _ _ _ (get_with_chan ch x s) E).
  match goal with |- (_, with_chan _ ?y _, _) = _ =>
    change (with_chan ch y (set_waiting w (with_chan ch x s))) with (set_waiting w (with_chan ch y (with_chan ch x s))) end.
  by rewrite with_with_chan.
Qed.

(** The channel is gone. *)
Definition removed (ch : ChannelId) (x : Channel.t) (s : t) : t :=
  let f := Channel.frames (Channel.conn x) in
  set_channels (Channels.set_channels (delete ch (Channels.channels (channels s)))
    (Channels.set_conn (Channel.set_frames_ (Frames.set_expected (delete ch (Frames.expected_replies f)) f) (Channel.conn x))
      (channels s))) s.

(** Those who wait for an answer on the channel. *)
Definition unanswered (err : Error) (ch : ChannelId) (f : Frames.t) : list (Resolver * res PVal) :=
  Frames.cancellation err <$> Frames.expected_replies f !!! ch.

Lemma remove_eq ch err x s e : ch ≠ 0 →
  in_channels (Channels.remove ch err) (with_chan ch x s) e =
  (Ok tt, removed ch x s, promise_sets (unanswered err ch (Channel.frames (Channel.conn x))) e).
Proof.
  intros Hz. unfold in_channels, zoom, Channels.remove. set (f := Channel.frames (Channel.conn x)).
  assert (E : Channels.in_frames (Frames.clear_expected_replies ch err) (channels (with_chan ch x s)) e =
    (tt, channels (with_chan ch (Channel.set_conn (Channel.set_frames_
      (Frames.set_expected (delete ch (Frames.expected_replies f)) f)) x) s), promise_sets (unanswered err ch f) e)).
  { unfold Channels.in_frames, zoom, Frames.clear_expected_replies, Frames.take_expected_replies, unanswered.
    rewrite conn_with_chan, bind_assoc, bind_get, bind_assoc. fold f. unfold mbind at 1, M_bind at 1, put.
    unfold mbind, M_bind, mret, M_ret. rewrite lookup_total_alt.
    destruct (Frames.expected_replies f !! ch); [rewrite Frames.cancel_replies_eq|]; do 2 f_equal;
      simpl; unfold Channels.put_; by destruct (ch =? 0). }
  rewrite (bind_eq _ _ _ _ _ _ _ E). apply Z.eqb_neq in Hz. rewrite Hz. rewrite bind_get.
  simpl. unfold Channels.put_. rewrite Hz. simpl. rewrite lookup_insert_eq.
  unfold mbind, M_bind, put, mret, M_ret. do 2 f_equal. unfold removed, Channels.set_channels, Channels.set_conn. simpl.
  by rewrite delete_insert_eq.
Qed.

(** The confirms of [c] were allocated before [b]. *)
Definition confirms_below (b : nat) (c : Channel.Chan) : Prop :=
  ∀ tag p q, Acknowledgements.pending (Channel.acknowledgements c) !! tag = Some (p, q) → (p < b ∧ q < b)%nat.

Lemma unconfirmed_below err b c : confirms_below b c → ∀ p, p ∈ (unconfirmed err c).*1 → (p < b)%nat.
Proof.
  intros Hl p Hp. unfold unconfirmed in Hp. match type of Hp with p ∈ (Acknowledgements.failures ?err ?cur ?xs).*1 =>
    destruct (Acknowledgements.failures_spec err cur xs) as (_ & _ & F) end.
  eapply elem_of_sublist in Hp; [|exact F].
  apply Acknowledgements.elem_of_resolvers in Hp as (k & [r q] & Hk%hash_order_elem & Hr).
  destruct (Hl k r q Hk), Hr as [->| ->]; done.
Qed.

Lemma unconfirmed_waiters err ch c s e : live ch c s e → ∀ p, p ∈ (unconfirmed err c).*1 → (p < next_ref e)%nat.
Proof. intros Hl. apply unconfirmed_below. exact (lv_confirms _ _ _ _ Hl). Qed.

Lemma settled_waiters ch c s e : live ch c s e →
  ∀ p, p ∈ (settled (Frames.expected_replies (frames s) !!! ch) c).*1 → (p < next_ref e)%nat.
Proof.
  intros Hl p. unfold settled. rewrite fmap_app, elem_of_app. intros [Hp|Hp].
  - apply list_elem_of_fmap in Hp as ([q r] & -> & Hq). apply list_elem_of_fmap in Hq as (er & [= -> _] & Her).
    by apply (lv_replies _ _ _ _ Hl).
  - by apply (unconfirmed_waiters closed_error ch c s e).
Qed.

(** Completing promises leaves the rest of the store alone. *)
Lemma promise_set_others p r e : rpc (promise_set p r e) = rpc e ∧ killed_set (promise_set p r e) = killed_set e ∧
  consumers (promise_set p r e) = consumers e.
Proof. by rewrite promise_set_only. Qed.

Lemma promise_sets_others l e : rpc (promise_sets l e) = rpc e ∧ killed_set (promise_sets l e) = killed_set e.
Proof. by rewrite promise_sets_only. Qed.

Lemma answered_others l ch c e : let e2 := answered_close l ch c e in
  rpc e2 = [CRemoveChannel ch closed_error] ∧ killed_set e2 = killed_set e ∧
  consumers e2 = ended (refs c) (canceling (refs c) (consumers e)).
Proof.
  cbv zeta. unfold answered_close.
  destruct (promise_sets_others (settled l c) (asked_close ch c e)) as [Hr1 Hk1].
  match goal with |- context [promise_set ?p ?r ?e'] => destruct (promise_set_others p r e') as (-> & -> & ->) end.
  cbn [rpc killed_set consumers sent set_consumers set_wakes set_rpc]. by rewrite Hr1, Hk1.
Qed.

Lemma answered_promises ch c s e : live ch c s e →
  let e2 := answered_close (Frames.expected_replies (frames s) !!! ch) ch c e in
  promises e2 !! next_ref e = Some (Ok VUnit) ∧
  ∀ p, p ∈ (settled (Frames.expected_replies (frames s) !!! ch) c).*1 → done p e2.
Proof.
  intros Hl e2. pose proof (settled_waiters ch c s e Hl) as Hs. split.
  - unfold e2, answered_close. apply Generated.set_complete. simpl. rewrite promise_sets_other.
    + by apply (lv_fresh _ _ _ _ Hl).
    + intros Hin%Hs. lia.
  - intros p Hp. destruct (Channels.promise_sets_done (settled (Frames.expected_replies (frames s) !!! ch) c) (asked_close ch c e) p)
      as [r Hr]; [by right|].
    unfold done, e2, answered_close. rewrite promise_set_lookup. case_decide; subst; simpl; rewrite Hr; by eexists.
Qed.

Lemma remove_step ch c now v cr w x s e : live ch c s e → Frames.expected_replies (Channel.frames (Channel.conn x)) !! ch = Some [] →
  let e2 := answered_close (Frames.expected_replies (frames s) !!! ch) ch c e in
  step now v cr (set_waiting w (with_chan ch x s)) e2 = (tt, set_waiting w (removed ch x s), taken_command e2).
Proof.
  intros Hl He e2.
  destruct (answered_others (Frames.expected_replies (frames s) !!! ch) ch c e) as (Hr & Hk & _). fold e2 in Hr, Hk.
  etransitivity; [eapply (step_eq now v cr _ (FRemoveChannel ch closed_error) None _ _ _ (set_waiting w (with_chan ch x s)) _ _ _ [])|].
  - exact Hr.
  - apply (lv_tasks _ _ _ _ Hl).
  - unfold dispatch. rewrite bind_get, bind_get_env.
    assert (Hok : channel_ok ch (set_waiting w (with_chan ch x s)) (set_rpc [] e2) = true).
    { pose proof (lv_ok _ _ _ _ Hl) as Hok. unfold channel_ok, killed in *. cbn [killed_set set_rpc]. by rewrite Hk. }
    rewrite Hok. cbn [negb]. unfold register_internal_future. rewrite bind_modify. cbn [tasks set_waiting with_chan set_channels].
    by rewrite (lv_tasks _ _ _ _ Hl).
  - unfold first_poll. rewrite bind_get_env.
    erewrite bind_eq by (apply (remove_eq ch closed_error x (set_waiting w s)), (lv_nonzero _ _ _ _ Hl)).
    unfold unanswered. rewrite lookup_total_alt, He. reflexivity.
  - done.
Qed.

(** C19: dropping the last handle of a channel closes it.  An open channel whose handle is
    dropped asks the server for channel.close with code 200, as the last frame queued; once the server
    agrees the channel is forgotten, and every other channel is as it was.  Nobody is left waiting:
    the requests and publisher confirms of the channel that had no answer are completed, the
    streams of its consumers end, and the future of the close ends without any command
    left, so that the connection goes on. *)
Theorem dropped_channel_closes ch c now v cr s e : live ch c s e → ∃ s1 e1 s2 e2 s3 e3,
  (drop_channel ch;; step now v cr) s e = (tt, s1, e1) ∧
  queued_methods (frames s1) = queued_methods (frames s) ++ [Method ch close_method] ∧
  in_channels (Channels.handle_frame (Method ch ChannelCloseOk)) s1 e1 = (Ok tt, s2, e2) ∧
  (step now v cr;; poll_waiting 0) s2 e2 = (tt, s3, e3) ∧
  Channels.get_ ch (channels s3) = None ∧
  (∀ j, j ≠ ch → Channels.get_ j (channels s3) = Channels.get_ j (channels s)) ∧
  Frames.expected_replies (frames s3) = delete ch (Frames.expected_replies (frames s)) ∧
  (∀ er, er ∈ Frames.expected_replies (frames s) !!! ch → done (Frames.reply_waiter er) e3) ∧
  (∀ tag p q, Acknowledgements.pending (Channel.acknowledgements c) !! tag = Some (p, q) → done p e3) ∧
  (∀ i x, i ∈ refs c → consumers e3 !! i = Some x → stream_ended x) ∧
  waiting s3 = [] ∧ tasks s3 = [] ∧ rpc e3 = [] ∧ killed_set e3 = killed_set e.
Proof.
  intros Hl. set (x := closing c (Channels.conn (channels s)) close_method (next_ref e)).
  set (l := Frames.expected_replies (frames s) !!! ch). set (w := [(next_ref e, Finish, None : option Resolver)]).
  set (y := Channel.mk (closed c) (Channel.set_frames_ (without_replies ch (Channel.frames (Channel.conn x))) (Channel.conn x))).
  set (e2 := answered_close l ch c e).
  destruct (answered_promises ch c s e Hl) as [Hp Hd]. fold l e2 in Hp, Hd.
  assert (Hdone : ∀ p, p ∈ (settled l c).*1 → done p (taken (next_ref e) (taken_command e2))).
  { intros p Hin. destruct (Hd p Hin) as [r Hr]. exists r. simpl. apply lookup_delete_Some. split; [|exact Hr].
    apply (settled_waiters ch c s e Hl) in Hin. lia. }
  destruct (answered_others l ch c e) as (_ & Hk2 & Hc2). fold e2 in Hk2, Hc2.
  exists (set_waiting w (with_chan ch x s)), (asked_close ch c e), (set_waiting w (with_chan ch y s)), e2,
    (set_waiting [] (removed ch y s)), (taken (next_ref e) (taken_command e2)). split_and!.
  - by apply drop_closing.
  - unfold frames, queued_methods. cbn [channels set_waiting]. rewrite conn_with_chan. simpl. rewrite fmap_app. simpl.
    by rewrite (lv_id _ _ _ _ Hl).
  - by apply closing_answered.
  - rewrite (bind_eq _ _ _ _ _ _ _ (remove_step ch c now v cr w y s e Hl ltac:(simpl; apply lookup_insert_eq))).
    unfold poll_waiting. rewrite bind_get. cbn [waiting set_waiting lookup list_lookup w].
    assert (Ht : ∀ s' : t, try_wait (next_ref e) s' (taken_command e2) = (Some (Ok VUnit), s', taken (next_ref e) (taken_command e2))).
    { intros s'. unfold try_wait, taken. do 2 f_equal. exact Hp. }
    rewrite (bind_eq _ _ _ _ _ _ _ (Ht _)), bind_modify. done.
  - unfold Channels.get_. rewrite (proj2 (Z.eqb_neq ch 0) (lv_nonzero _ _ _ _ Hl)). simpl. apply lookup_delete_eq.
  - intros j Hj. unfold Channels.get_. simpl. destruct (j =? 0); [done|]. by apply lookup_delete_ne.
  - unfold frames, removed. simpl. rewrite (lv_id _ _ _ _ Hl). by rewrite !delete_insert_eq.
  - intros er Her. apply Hdone. unfold settled. rewrite fmap_app, elem_of_app. left. apply list_elem_of_fmap.
    exists (Frames.cancellation aborted_error er). split; [done|]. apply list_elem_of_fmap. by exists er.
  - intros tag p q Hq. apply Hdone. unfold settled. rewrite fmap_app, elem_of_app. right. apply list_elem_of_fmap.
    exists (p, Err closed_error). split; [done|]. eapply (proj1 (Acknowledgements.failures_spec _ _ _)), hash_order_elem, Hq.
  - intros i z Hi Hz. change (consumers e2 !! i = Some z) in Hz. rewrite Hc2 in Hz. eapply ended_spec; [exact Hz|by left].
  - done.
  - apply (lv_tasks _ _ _ _ Hl).
  - done.
  - exact Hk2.
Qed.

(** ** A close that crosses the server's *)

(** What a channel.close of the server means. *)
Definition close_error (code : ReplyCode) (text : ShortString) : option Error :=
  (λ err, error_from (ProtocolError err)) <$> amqp_error_of_close code text.

(** [c] closing for that reason, and the confirms that fail with it. *)
Definition server_closing (code : ReplyCode) (text : ShortString) (c : Channel.Chan) : Channel.Chan :=
  match close_error code text with
  | Some _ => Channel.set_consumers_ ∅ (Channel.set_acks (closed_acks (Channel.acknowledgements c)) (with_state ChClosing c))
  | None => with_state ChClosing c
  end.
Definition server_failures (code : ReplyCode) (text : ShortString) (c : Channel.Chan) : list (Resolver * res PVal) :=
  match close_error code text with Some err => unconfirmed err c | None => [] end.

(** The server closes a channel without consumers. *)
Lemma server_close_eq code text class_id method_id c cn e :
  ChannelStatus.can_receive_messages (Channel.status c) = true → Channel.consumers_ c = ∅ →
  Generated.receive_method (ChannelClose code text class_id method_id) (Channel.mk c cn) e =
  (Ok tt, Channel.mk (server_closing code text c) cn,
   sent (CSpawn (TChannelCloseOk (Channel.id c) (close_error code text))) (promise_sets (server_failures code text c) e)).
Proof.
  intros Hc Hcs. cbn [Generated.receive_method]. unfold Generated.receive_channel_close. rewrite Generated.can_receive_eq by done.
  unfold Channel.on_channel_close_received, server_closing, server_failures. fold (close_error code text).
  unfold Channel.set_closing. set (c1 := with_state ChClosing c).
  rewrite bind_assoc, (bind_eq (Channel.set_state ChClosing) _ tt _ _ (Channel.mk c1 cn) e) by reflexivity.
  assert (Hv : Consumers.values (Channel.consumers_ c1) = []).
  { unfold Consumers.values. change (Channel.consumers_ c1) with (Channel.consumers_ c). rewrite Hcs.
    change (((hash_order (∅ : gmap string ConsumerRef)).*2) = []). by rewrite hash_order_empty. }
  destruct (close_error code text) as [err|].
  - pose proof (confirms_error_eq err c1 cn e) as E1.
    set (e1 := promise_sets _ e) in E1. set (c2 := Channel.set_acks _ c1) in E1.
    assert (E2 : Channel.error_consumers err (Channel.mk c2 cn) e1 = (tt, Channel.mk (Channel.set_consumers_ ∅ c2) cn, e1)).
    { unfold Channel.error_consumers, Channel.can_recover_, Channel.in_consumers, Consumers.error, zoom, mbind, M_bind, get, put, mret, M_ret.
      change (Channel.consumers_ (Channel.self (Channel.mk c2 cn))) with (Channel.consumers_ c1). by rewrite Hv. }
    by rewrite bind_assoc, (bind_eq _ _ _ _ _ _ _ E1), (bind_eq _ _ _ _ _ _ _ E2).
  - assert (E2 : Channel.in_consumers Consumers.start_cancel (Channel.mk c1 cn) e = (tt, Channel.mk c1 cn, e)).
    { unfold Channel.in_consumers, Consumers.start_cancel, zoom, mbind, M_bind, get.
      change (Channel.consumers_ (Channel.self (Channel.mk c1 cn))) with (Channel.consumers_ c1). rewrite Hv. by destruct c. }
    by rewrite (bind_eq _ _ _ _ _ _ _ E2).
Qed.

Lemma server_closing_state code text c : ChannelStatus.state (Channel.status (server_closing code text c)) = ChClosing ∧
  Channel.id (server_closing code text c) = Channel.id c.
Proof. unfold server_closing. by destruct (close_error code text). Qed.

(** A future that fails without anybody waiting for it is an error of the connection. *)
Lemma failed_future v cr f l s e err : tasks s = [(f, None)] → rpc e = l →
  first_poll v cr f (set_tasks [] s) e = (PDone (Err err), set_tasks [] s, e) →
  poll_task v cr s e = (tt, set_tasks [] s, sent (CSetConnectionError err) e).
Proof.
  intros Ht Hr Hf. unfold poll_task. rewrite bind_get, Ht, bind_modify.
  by rewrite (bind_eq _ _ _ _ _ _ _ Hf).
Qed.

Lemma run_next_eq now c l s e s' e' : rpc e = c :: l → dispatch now c s (set_rpc l e) = (true, s', e') →
  run_next now s e = (true, s', set_wakes (S (wakes e')) e').
Proof.
  intros Hr Hd. unfold run_next. rewrite bind_get_env, Hr. erewrite bind_eq by reflexivity.
  by rewrite (bind_eq _ _ _ _ _ _ _ Hd).
Qed.

(** The failure of the stale future. *)
Definition stale_error (code : ReplyCode) (text : ShortString) (c : Channel.Chan) : Error :=
  ChannelStatus.state_error "channel.close" (Channel.status (server_closing code text c)).

(** The race up to the dispatch of that failure. *)
Lemma drop_race ch c code text class_id method_id now v cr s e :
  live ch c s e → Channel.consumers_ c = ∅ → ∃ s1 e1 s2 e2 s3 e3,
  (drop_channel ch;; run_next now) s e = (true, s1, e1) ∧
  in_channels (Channels.handle_frame (Method ch (ChannelClose code text class_id method_id))) s1 e1 = (Ok tt, s2, e2) ∧
  (poll_task v cr;; run_next now) s2 e2 = (true, s3, e3) ∧
  rpc e3 = [CSetConnectionError (stale_error code text c)] ∧
  channels s3 = Channels.set_channels (<[ch := server_closing code text c]> (Channels.channels (channels s))) (channels s).
Proof.
  intros Hl Hcs. pose proof Hl as [Hz Hg Hid Hc _ _ Hr _ _ _ _ _ _]. unfold stale_error.
  set (f := FCloseChannel ch true REPLY_SUCCESS "OK"). set (s1 := set_tasks [(f, None)] s).
  set (e0 := sent (CCloseChannel ch REPLY_SUCCESS "OK") e). set (e1 := set_wakes (S (wakes e0)) (set_rpc [] e0)).
  assert (E1 : (drop_channel ch;; run_next now) s e = (true, s1, e1)).
  { rewrite (bind_eq _ _ _ _ _ _ _ (drop_eq ch c s e Hg)), (live_auto_close ch c s e Hl).
    apply (run_next_eq now (CCloseChannel ch REPLY_SUCCESS "OK") [] s e0 s1 (set_rpc [] e0)); [simpl; by rewrite Hr|].
    by apply (close_dispatched ch c now s e). }
  pose proof (server_close_eq code text class_id method_id c (Channels.conn (channels s)) e1
    (Generated.connected_can_receive _ Hc) Hcs) as E2.
  destruct (server_closing_state code text c) as [Hc' _]. set (c' := server_closing code text c) in *.
  set (err := close_error code text) in *. set (e2 := sent _ (promise_sets _ e1)) in E2.
  assert (Hr2 : rpc e2 = [CSpawn (TChannelCloseOk (Channel.id c) err)]).
  { unfold e2. cbn [sent rpc set_wakes set_rpc]. by rewrite (proj1 (promise_sets_others _ _)). }
  set (s2 := with_chan ch (Channel.mk c' (Channels.conn (channels s))) s1).
  set (stale := ChannelStatus.state_error "channel.close" (Channel.status c')).
  assert (E3 : poll_task v cr s2 e2 = (tt, set_tasks [] s2, sent (CSetConnectionError stale) e2)).
  { apply (failed_future v cr f (rpc e2)); [done..|]. unfold first_poll. rewrite bind_get_env.
    unfold f, call_channel, in_channels, zoom, Channels.with_channel, mbind, M_bind.
    assert (Hg2 : Channels.get_ ch (channels (set_tasks [] s2)) = Some c') by apply get_with_chan. rewrite Hg2.
    unfold Generated.do_channel_close. rewrite Generated.connected_eq. cbn [Channel.self].
    assert (Hn : ChannelStatus.connected (Channel.status c') = false) by (unfold ChannelStatus.connected; by rewrite Hc').
    rewrite Hn. unfold mret, M_ret. do 2 f_equal. exact (with_chan_same ch c' _ Hg2). }
  assert (Hr3 : rpc (sent (CSetConnectionError stale) e2) = [CSpawn (TChannelCloseOk ch err); CSetConnectionError stale]).
  { unfold sent. cbn [rpc set_wakes set_rpc]. by rewrite Hr2, Hid. }
  set (e3 := sent (CSetConnectionError stale) e2) in *.
  set (s3 := set_tasks [(FTask (TChannelCloseOk ch err), None)] s2).
  assert (E4 : run_next now (set_tasks [] s2) e3 = (true, s3, set_wakes (S (wakes e3)) (set_rpc [CSetConnectionError stale] e3)))
    by by apply (run_next_eq now _ _ _ _ s3 (set_rpc [CSetConnectionError stale] e3) Hr3).
  set (e4 := set_wakes _ (set_rpc _ e3)) in E4.
  exists s1, e1, s2, e2, s3, e4. split_and!; [done| | |done|].
  - apply (receive_lift ch _ s1 e1 c); [done|exact E2].
  - by rewrite (bind_eq _ _ _ _ _ _ _ E3).
  - unfold s3, s2, with_chan, Channels.put_. simpl. rewrite (proj2 (Z.eqb_neq ch 0) Hz). by destruct (channels s).
Qed.

(** C31: a close of the server that crosses the drop of the channel breaks the connection.  When the
    application drops an open channel that has no consumers, on a connected connection, and the server's
    channel.close, a matter of that channel only, is received after the command of the drop was dispatched
    and before its future runs, the future finds the channel closing and fails; as nobody waits for it its
    failure is dispatched as one of the connection.  Without automatic recovery the connection
    ends in the error state with every channel failed; with it, the connection is cut (its kill
    switch is set) and a recovery of all of its channels is requested of the dispatcher. *)
Theorem drop_race_fails_connection ch c code text class_id method_id now v cr s e :
  live ch c s e → Channel.consumers_ c = ∅ → Channels.channels (channels s) !! 0 = None →
  ConnectionStatus.state (Channels.connection_status (channels s)) = CoConnected → ∃ s1 e1 s2 e2 s3 e3,
  (drop_channel ch;; run_next now) s e = (true, s1, e1) ∧
  in_channels (Channels.handle_frame (Method ch (ChannelClose code text class_id method_id))) s1 e1 = (Ok tt, s2, e2) ∧
  (poll_task v cr;; run_next now;; run_next now) s2 e2 = (true, s3, e3) ∧
  if Channel.auto_recover (Channels.conn (channels s)) then
    rpc e3 = [CInitConnectionRecovery (stale_error code text c)] ∧
    killed (Channels.connection_killswitch (channels s)) e3 = true
  else
    ConnectionStatus.state (Channels.connection_status (channels s3)) = CoError ∧
    ∀ j d, Channels.channels (channels s) !! j = Some d →
      ∃ d', Channels.channels (channels s3) !! j = Some d' ∧ Channels.failed_channel d'.
Proof.
  intros Hl Hcs H0 Hst. pose proof (lv_nonzero _ _ _ _ Hl) as Hz.
  destruct (drop_race ch c code text class_id method_id now v cr s e Hl Hcs) as (s1 & e1 & s2 & e2 & s3 & e3 & E1 & E2 & E3 & Hr & Hch).
  set (c' := server_closing code text c) in *. set (stale := stale_error code text c) in *.
  assert (Hstale : can_be_recovered stale = true) by (unfold stale, stale_error, ChannelStatus.state_error; by case_decide).
  destruct (Channel.auto_recover (Channels.conn (channels s))) eqn:Har.
  - set (e4 := set_rpc [] e3). set (k := Channels.connection_killswitch (channels s)).
    assert (E4 : in_channels Channels.should_init_connection_recovery s3 e4 = (true, s3, set_killed ({[k]} ∪ killed_set e4) e4)).
    { unfold in_channels, zoom, Channels.should_init_connection_recovery. rewrite bind_get, Hch.
      unfold ConnectionStatus.connected. change (Channels.connection_status (Channels.set_channels _ _)) with (Channels.connection_status (channels s)).
      rewrite bool_decide_true by done. rewrite bind_kill. unfold mret, M_ret. do 2 f_equal. rewrite <- Hch. by destruct s3. }
    eexists s1, e1, s2, e2, s3, _. split_and!; [done..| | |].
    + rewrite <- bind_assoc, (bind_eq _ _ _ _ _ _ _ E3). 
      eapply (run_next_eq now (CSetConnectionError stale) [] s3 e3 s3); [exact Hr|].
      unfold dispatch. rewrite bind_get, bind_get_env, Hch. cbn [Channels.conn Channels.set_channels]. rewrite Har.
      unfold can_recover. rewrite Hstale. cbn [andb]. rewrite (bind_eq _ _ _ _ _ _ _ E4). reflexivity.
    + done.
    + unfold killed. apply bool_decide_eq_true. cbn. set_solver.
  - destruct (Channels.connection_error_channels stale (channels s3) (set_rpc [] e3)) as (x & e5 & E5 & Hx1 & _ & Hx2).
    { rewrite Hch. simpl. by rewrite lookup_insert_ne. }
    exists s1, e1, s2, e2, (set_channels x s3), (set_wakes (S (wakes e5)) e5). split_and!; [done|done| |exact Hx1|].
    + rewrite <- bind_assoc, (bind_eq _ _ _ _ _ _ _ E3). 
      apply (run_next_eq now (CSetConnectionError stale) [] s3 e3 (set_channels x s3) e5 Hr).
      unfold dispatch. rewrite bind_get, bind_get_env, Hch. cbn [Channels.conn Channels.set_channels]. rewrite Har.
      unfold can_recover. cbn [andb]. unfold in_channels, zoom, mbind, M_bind. by rewrite E5.
    + intros j d Hd. rewrite Hch in Hx2. cbn [Channels.channels Channels.set_channels] in Hx2.
      assert (Hne : ConnectionStatus.state (Channels.connection_status (channels s)) ≠ CoError) by (by rewrite Hst).
      destruct (decide (j = ch)) as [->|Hj]; eapply (Hx2 Hne); [apply lookup_insert_eq|by rewrite lookup_insert_ne].
Qed.

(** ** A drop while the connection is recovered *)

(** A channel dropped while its connection is being recovered is never closed.  The drop does
    nothing, as the channel is not connected; the recovery then opens the channel again, as it does for
    every other: it ends connected, on the server and in the client, without any handle that could
    close it. *)
Theorem dropped_while_recovering_stays tags l r p x s e ch c :
  waiting s = [(p, ThenChannels l.*1, r)] → promises e !! p = Some (Ok x) →
  NoDup l.*1 → Forall (lost_channel (set_waiting [] s) (taken p e)) l → (ch, c) ∈ l →
  drop_channel ch s e = (tt, s, e) ∧ ∃ s' e' c',
  (drop_channel ch;; poll_waiting 0;; turns (script tags l)) s e = (finish r (Ok VUnit);; mret (Ok tt)) s' e' ∧
  Channels.get_ ch (channels s') = Some c' ∧ ChannelStatus.connected (Channel.status c') = true.
Proof.
  intros Hw Hp Hnd Hl Hin.
  assert (Hd : drop_channel ch s e = (tt, s, e)).
  { destruct (proj1 (Forall_forall _ _) Hl _ Hin) as (Hg & _ & ctx & Hlost & _). cbn [fst snd] in *. rewrite (drop_eq ch c s e Hg).
    unfold ChannelStatus.auto_close, ChannelStatus.connected. rewrite (ls_state _ _ _ _ Hlost). by rewrite andb_false_r. }
  split; [done|].
  destruct (channels_run tags r l (set_waiting [] s) (taken p e)) as (s' & e' & E & _ & _ & _ & _ & H5 & _); [done..|].
  destruct (H5 ch c Hin) as (c' & Hc' & Hrec). exists s', e', c'. split_and!; [|done|apply (rc_connected _ _ _ _ Hrec)].
  rewrite (bind_eq _ _ _ _ _ _ _ Hd). unfold mbind at 1, M_bind at 1.
  rewrite (resume_eq p (ThenChannels l.*1) r s e x) by done. exact E.
Qed.

End Handles.

Section Witnesses.
Import InternalRPC Recovery.
#[local] Existing Instances number_types number_protocol number_handle.
#[local] Instance z_order : HashOrder Z := canonical_order Z.
#[local] Instance s_order : HashOrder string := canonical_order string.

(** Channel 1 of a connected client, open, with a consumer, an unanswered request and a pending
    confirm; and the same channel with nothing under way. *)
Definition demo_acks : Acknowledgements.t :=
  Acknowledgements.set_pending {[ 1 := (3%nat, 4%nat) ]} (Acknowledgements.new 1).
Definition demo_busy : Channel.Chan :=
  Channel.set_acks demo_acks (Channel.set_consumers_ {[ "ct" := 5%nat ]} (with_state ChConnected (result_of (Channel.new 1 tt env_empty)))).
Definition demo_idle : Channel.Chan := with_state ChConnected (result_of (Channel.new 1 tt env_empty)).
Definition demo_client (c : Channel.Chan) (l : list ExpectedReply) : t :=
  mk (Channels.mk {[ 1 := c ]} (IdSequence.new false) (result_of (Channel.new 0 tt env_empty))
       (Channel.mkConn (Configuration.mk 10 4096 0) (ConnectionStatus.mk CoConnected false None)
         (Frames.set_expected {[ 1 := l ]} Frames.default) "/" false) 0%nat)
     {[ 1 := 0%nat ]} (result_of (Heartbeat.new 0 tt env_empty)) (result_of (SecretUpdate.new tt env_empty)) [] [] [] [].
Definition demo_store : Env := Consumer.put_consumer 5%nat demo_consumer (set_next_ref 9 env_empty).
Definition demo_reply : ExpectedReply := mkExpectedReply (RTxSelectOk 2%nat) 2%nat.

Lemma dropped_channel_closes_witness : ∃ s1 e1 s2 e2 s3 e3,
  (drop_channel 1;; step 0 (0, 9, 1) 0%nat) (demo_client demo_busy [demo_reply]) demo_store = (tt, s1, e1) ∧
  queued_methods (frames s1) = [Method 1 (ChannelClose 200 "OK" 0 0)] ∧
  in_channels (Channels.handle_frame (Method 1 ChannelCloseOk)) s1 e1 = (Ok tt, s2, e2) ∧
  (step 0 (0, 9, 1) 0%nat;; poll_waiting 0) s2 e2 = (tt, s3, e3) ∧
  Channels.get_ 1 (channels s3) = None ∧ done 2%nat e3 ∧ done 3%nat e3.
Proof.
  destruct (dropped_channel_closes (AT := number_types) (AP := number_protocol) (CH := number_handle) 1 demo_busy 0 (0, 9, 1) 0%nat
    (demo_client demo_busy [demo_reply]) demo_store)
    as (s1 & e1 & s2 & e2 & s3 & e3 & H1 & H2 & H3 & H4 & H5 & _ & _ & H6 & H7 & _).
  - split; try done.
    + intros tag p q Hq. change (({[ 1 := (3%nat, 4%nat) ]} : gmap Z (nat * nat)) !! tag = Some (p, q)) in Hq.
      apply lookup_singleton_Some in Hq as [_ [= <- <-]]. simpl. lia.
    + intros er [->|[]%not_elem_of_nil]%elem_of_cons. vm_compute. lia.
    + by repeat constructor.
  - exists s1, e1, s2, e2, s3, e3. split_and!; try done.
    + apply (H6 demo_reply). by left.
    + by apply (H7 1 3%nat 4%nat).
Defined.

Lemma drop_race_fails_connection_witness : ∃ s1 e1 s2 e2 s3 e3,
  (drop_channel 1;; run_next 0) (demo_client demo_idle []) demo_store = (true, s1, e1) ∧
  in_channels (Channels.handle_frame (Method 1 (ChannelClose 404 "NOT_FOUND" 0 0))) s1 e1 = (Ok tt, s2, e2) ∧
  (poll_task (0, 9, 1) 0%nat;; run_next 0;; run_next 0) s2 e2 = (true, s3, e3) ∧
  ConnectionStatus.state (Channels.connection_status (channels s3)) = CoError.
Proof.
  destruct (drop_race_fails_connection (AT := number_types) (AP := number_protocol) (CH := number_handle) 1 demo_idle 404 "NOT_FOUND" 0 0
    0 (0, 9, 1) 0%nat (demo_client demo_idle []) demo_store)
    as (s1 & e1 & s2 & e2 & s3 & e3 & H1 & H2 & H3 & H4 & _); try done.
  - split; try done. by intros er ?%not_elem_of_nil.
  - exists s1, e1, s2, e2, s3, e3. done.
Defined.

Lemma dropped_while_recovering_stays_witness : ∃ s' e' c',
  (drop_channel 1;; poll_waiting 0;; turns (script demo_tags [(1, Recovery.demo_chan true)]))
    (Recovery.demo true [(7%nat, ThenChannels [1], None)]) Recovery.demo_env = (Ok tt, s', e') ∧
  Channels.get_ 1 (channels s') = Some c' ∧ ChannelStatus.connected (Channel.status c') = true.
Proof.
  destruct (dropped_while_recovering_stays (AT := number_types) (AP := number_protocol) (CH := number_handle) demo_tags
    [(1, Recovery.demo_chan true)] None 7%nat (VConnection 0%nat) (Recovery.demo true [(7%nat, ThenChannels [1], None)])
    Recovery.demo_env 1 (Recovery.demo_chan true)) as (_ & s' & e' & c' & E & H); [done|done|by repeat constructor; set_solver| |by left|].
  - repeat constructor. exists demo_context. split; [by apply demo_lost|].
    repeat (constructor; [by split; [eexists|]|]). constructor.
  - exists s', e', c'. split; [exact E|exact H].
Defined.

End Witnesses.
End Handles.
