(* ===== verification/Cancelling.v ===== *)
(** Dropping a consumer: the last handle of a [Consumer] (src/consumer_canceler.rs) cancels it on the server; followed through the
    dispatcher (src/internal_rpc.rs), the channel and the answer, to the end of its stream. *)
From S2P Require Import Prelude.
From S2P Require Import Buffer.
From S2P Require Import Types.
From S2P Require Import Env.
From S2P Require Import Frames.
From S2P Require Import ChannelStatus.
From S2P Require Import Consumers.
From S2P Require Import Connection.
From S2P Require Import Channel.
From S2P Require Import Generated.
From S2P Require Import Channels.
From S2P Require Import Heartbeat.
From S2P Require Import InternalRPC.
From S2P Require Import Recovery.
From S2P Require Import Handles.
Open Scope Z_scope.

Module Cancelling.
Section Cancelling.
Context `{AT : AmqpTypes} `{AP : !AmqpProtocol} `{CH : !ConnectionHandle}
  `{HZ : !HashOrder Z} `{HS : !HashOrder string}.
Import InternalRPC Recovery Handles.

(** The consumer [r], registered as [tag] on the channel [ch], which waits for no reply; it is polled as a stream. *)
Record consuming (ch : ChannelId) (c : Channel.Chan) (tag : ShortString) (r : ConsumerRef) (x : Consumer) (s : t) (e : Env) : Prop := {
  cs_live : live ch c s e;
  cs_tag : Channel.consumers_ c !! tag = Some r;
  cs_consumer : consumers e !! r = Some x;
  cs_active : c_state x = Active;
  cs_expected : Frames.expected_replies (frames s) !!! ch = [];
}.

(** The channel with basic.cancel queued. *)
Definition cancelling (tag : ShortString) (p : Resolver) (x : Channel.t) : Channel.t :=
  Generated.map_frames (Generated.requested (Channel.id (Channel.self x)) (BasicCancel tag false) (RBasicCancelOk p) p) x.

Lemma basic_cancel_eq tag r x y e : ChannelStatus.connected (Channel.status (Channel.self y)) = true →
  Frames.check_poison (Channel.frames (Channel.conn y)) (Channel.id (Channel.self y)) = None →
  Channel.consumers_ (Channel.self y) !! tag = Some r → consumers e !! r = Some x →
  Generated.basic_cancel tag false y e =
  (Ok (next_ref e), cancelling tag (next_ref e) y, Generated.after_call (Consumer.put_consumer r (Consumer.status_start_cancel x) e)).
Proof.
  intros Hc Hp Ht Hx. unfold Generated.basic_cancel. rewrite Generated.connected_eq, Hc.
  assert (E : Channel.before_basic_cancel tag y e = (tt, y, Consumer.put_consumer r (Consumer.status_start_cancel x) e)).
  { unfold Channel.before_basic_cancel, Channel.in_consumers, Consumers.start_cancel_one, Consumers.with_tag, zoom. rewrite bind_get, Ht.
    unfold Consumer.start_cancel. rewrite (Consumer.update_eq _ _ _ _ x Hx). by destruct y as [[] ?]. }
  rewrite (bind_eq _ _ _ _ _ _ _ E). erewrite bind_eq by (apply Generated.call_eq; exact Hp). done.
Qed.

(** ** The drop *)

Definition cancel_asked (ch : ChannelId) (tag : ShortString) (r : ConsumerRef) (x : Consumer) (e : Env) : Env :=
  Generated.after_call (Consumer.put_consumer r (Consumer.status_start_cancel x) (taken_command (sent (CCancelConsumer ch tag r) e))).

Lemma drop_cancelling ch c tag r x now v cr s e : consuming ch c tag r x s e →
  (ConsumerCanceler.drop ch tag r;; step now v cr) s e =
  (tt, set_waiting [(next_ref e, Finish, None)] (with_chan ch (cancelling tag (next_ref e) (chan c s)) s), cancel_asked ch tag r x e).
Proof.
  intros [Hl Ht Hx Ha Hex]. pose proof Hl as [Hz Hg Hid Hc Hp Hok Hr Htk Hw _ _ _ _].
  assert (E : ConsumerCanceler.drop ch tag r s e = (tt, s, sent (CCancelConsumer ch tag r) e)).
  { unfold ConsumerCanceler.drop. rewrite (Consumer.with_consumer_eq _ _ _ _ _ x Hx), Ha. done. }
  rewrite (bind_eq _ _ _ _ _ _ _ E).
  etransitivity; [eapply (step_eq now v cr _ (FCancelConsumer ch true tag r) None s _ _ s _ _ _ [])|].
  - simpl. by rewrite Hr.
  - done.
  - unfold dispatch. rewrite bind_get, bind_get_env.
    change (channel_ok ch s _) with (channel_ok ch s e). rewrite Hok, (found_get ch c s Hg). cbn [negb].
    unfold register_internal_future. rewrite bind_modify, Htk. reflexivity.
  - unfold first_poll. rewrite bind_get_env. cbn [negb]. rewrite bind_get. cbn [consumers set_wakes set_rpc sent]. rewrite Hx, Hg, Hc, Ha. cbn [is_active andb].
    apply (call_lift _ _ _ _ _ c); [done|]. apply (basic_cancel_eq tag r x); [done|by simpl; rewrite Hid|done|done].
  - cbn [progress]. unfold modify. cbn [waiting with_chan set_channels]. by rewrite Hw.
Qed.

(** ** The answer *)

Lemma cancel_answered tag r x p y e : ChannelStatus.can_receive_messages (Channel.status (Channel.self y)) = true →
  Frames.expected_replies (Channel.frames (Channel.conn y)) !! Channel.id (Channel.self y) = Some [mkExpectedReply (RBasicCancelOk p) p] →
  Channel.consumers_ (Channel.self y) !! tag = Some r → consumers e !! r = Some x → c_delegate x = false →
  Generated.receive_method (BasicCancelOk tag) y e =
  (Ok tt, Channel.mk (Channel.set_consumers_ (delete tag (Channel.consumers_ (Channel.self y))) (Channel.self y))
     (Channel.set_frames_ (without_replies (Channel.id (Channel.self y)) (Channel.frames (Channel.conn y))) (Channel.conn y)),
   promise_set p (Ok VUnit) (set_consumers (alter end_stream r (consumers e)) e)).
Proof.
  intros Hst Hex Ht Hx Hd. cbn [Generated.receive_method]. unfold Generated.receive_basic_cancel_ok. rewrite Generated.can_receive_eq by done.
  rewrite (Generated.expecting_first _ _ _ (mkExpectedReply (RBasicCancelOk p) p) [] (Generated.completing p (Channel.on_basic_cancel_ok_received tag))) by done.
  unfold Generated.completing. set (y' := Generated.map_frames _ y).
  assert (E : Channel.on_basic_cancel_ok_received tag y' e =
    (Ok tt, Channel.mk (Channel.set_consumers_ (delete tag (Channel.consumers_ (Channel.self y))) (Channel.self y)) (Channel.conn y'),
     set_consumers (alter end_stream r (consumers e)) e)).
  { unfold Channel.on_basic_cancel_ok_received, Channel.deregister_consumer. erewrite bind_eq; [reflexivity|].
    unfold Channel.in_consumers, Consumers.deregister, zoom. rewrite bind_get. change (Channel.consumers_ (Channel.self y')) with (Channel.consumers_ (Channel.self y)).
    rewrite Ht. unfold put. unfold mbind, M_bind. rewrite cancel_eq; [done|]. intros i z Hi%list_elem_of_singleton Hz. congruence. }
  rewrite (bind_eq _ _ _ _ _ _ _ E). done.
Qed.

(** C21: a dropped consumer is cancelled.  Dropping the last handle of a consumer that is polled as a stream, on an open channel, sends one frame, the basic.cancel of its
    tag; when the server answers, the consumer is no longer registered under its tag, its stream holds what was delivered before and then
    ends, the other consumers of the channel and the other channels are untouched, and no command and no future is left.  The documentation of
    [basic_cancel] says otherwise: a drop would only discard what was delivered. *)
Theorem dropped_consumer_cancels ch c tag r x now v cr s e : consuming ch c tag r x s e → ∃ s1 e1 s2 e2 s3 e3 c',
  (ConsumerCanceler.drop ch tag r;; step now v cr) s e = (tt, s1, e1) ∧
  Frames.frames (frames s1) = Frames.frames (frames s) ++ [Frames.mkEntry (Method ch (BasicCancel tag false)) (Frames.mkSending (Some (next_ref e)) None)] ∧
  in_channels (Channels.handle_frame (Method ch (BasicCancelOk tag))) s1 e1 = (Ok tt, s2, e2) ∧
  poll_waiting 0 s2 e2 = (tt, s3, e3) ∧ rpc e3 = [] ∧ tasks s3 = [] ∧ waiting s3 = [] ∧
  Channels.get_ ch (channels s3) = Some c' ∧ Channel.consumers_ c' = delete tag (Channel.consumers_ c) ∧
  (∀ j, j ≠ ch → Channels.get_ j (channels s3) = Channels.get_ j (channels s)) ∧
  (∃ y, consumers e3 !! r = Some y ∧ c_state y = Canceled ∧ c_deliveries y = c_deliveries x ++ [Ok None]) ∧
  ∀ q, q ≠ r → consumers e3 !! q = consumers e !! q.
Proof.
  intros Hcs. pose proof Hcs as [Hl Ht Hx Ha Hex]. pose proof Hl as [Hz Hg Hid Hc Hp Hok Hr Htk Hw Hfr _ _ _].
  set (p := next_ref e). set (y := cancelling tag p (chan c s)). set (s1 := set_waiting [(p, Finish, None)] (with_chan ch y s)).
  set (e1 := cancel_asked ch tag r x e). set (x1 := Consumer.status_start_cancel x).
  pose proof (drop_cancelling ch c tag r x now v cr s e Hcs) as E1.
  assert (Hx1 : consumers e1 !! r = Some x1) by apply lookup_insert_eq.
  assert (Hex1 : Frames.expected_replies (Channel.frames (Channel.conn y)) !! Channel.id (Channel.self y) = Some [mkExpectedReply (RBasicCancelOk p) p]).
  { simpl. rewrite Hid, lookup_insert_eq. f_equal. change (Frames.expected_replies (frames s) !!! ch ++ [mkExpectedReply (RBasicCancelOk p) p] = [mkExpectedReply (RBasicCancelOk p) p]).
    by rewrite Hex. }
  pose proof (cancel_answered tag r x1 p y e1 (Generated.connected_can_receive _ Hc) Hex1 Ht Hx1 eq_refl) as E2.
  set (z := Channel.mk _ _) in E2. set (e2 := promise_set _ _ _) in E2.
  assert (E2' : in_channels (Channels.handle_frame (Method ch (BasicCancelOk tag))) s1 e1 = (Ok tt, with_chan ch z s1, e2)).
  { apply (receive_lift ch (BasicCancelOk tag) s1 e1 (Channel.self y)); [exact (get_with_chan ch y s)|].
    replace (chan (Channel.self y) s1) with y; [exact E2|]. symmetry. exact (chan_with_chan ch y s). }
  assert (Hp2 : promises e2 !! p = Some (Ok VUnit)) by (apply Generated.set_complete; simpl; apply Hfr; unfold p; lia).
  assert (Hc2 : consumers e2 = alter end_stream r (consumers e1)) by (unfold e2; by rewrite (proj1 (proj2 (Generated.promise_set_rest _ _ _)))).
  exists s1, e1, (with_chan ch z s1), e2, (set_waiting [] (with_chan ch z s1)), (set_promises (delete p (promises e2)) e2), (Channel.self z).
  split_and!; [exact E1| |exact E2'| | |exact Htk|done|exact (get_with_chan ch z s1)|done| | |].
  - unfold frames at 1. change (channels s1) with (channels (with_chan ch y s)). rewrite conn_with_chan. simpl. by rewrite Hid.
  - assert (Et : try_wait p (with_chan ch z s1) e2 = (Some (Ok VUnit), with_chan ch z s1, set_promises (delete p (promises e2)) e2))
      by (unfold try_wait; do 2 f_equal; exact Hp2).
    unfold poll_waiting. rewrite bind_get. cbn [waiting with_chan set_channels set_waiting s1 lookup list_lookup].
    rewrite (bind_eq _ _ _ _ _ _ _ Et). cbv beta iota. by rewrite bind_modify.
  - simpl. unfold e2. rewrite (proj1 (promise_set_others _ _ _)). done.
  - intros j Hj. etransitivity; [exact (get_with_chan_ne ch j z s1 Hj)|exact (get_with_chan_ne ch j y s Hj)].
  - simpl. rewrite Hc2, lookup_alter_eq, Hx1. eexists. split; [reflexivity|done].
  - intros q Hq. simpl. rewrite Hc2, lookup_alter_ne by done. simpl. by rewrite lookup_insert_ne.
Qed.

End Cancelling.

(** ** A concrete client *)
Section Witnesses.
Import InternalRPC Recovery Handles.
#[local] Existing Instances number_types number_protocol number_handle.
#[local] Instance z_order : HashOrder Z := canonical_order Z.
#[local] Instance s_order : HashOrder string := canonical_order string.

Lemma dropped_consumer_cancels_witness : ∃ s1 e1 s2 e2 s3 e3 c',
  (ConsumerCanceler.drop 1 "ct" 5%nat;; step 0 (0, 9, 1) 0%nat) (demo_client demo_busy []) demo_store = (tt, s1, e1) ∧
  queued_methods (frames s1) = [Method 1 (BasicCancel "ct" false)] ∧
  in_channels (Channels.handle_frame (Method 1 (BasicCancelOk "ct"))) s1 e1 = (Ok tt, s2, e2) ∧
  poll_waiting 0 s2 e2 = (tt, s3, e3) ∧
  Channels.get_ 1 (channels s3) = Some c' ∧ Channel.consumers_ c' = ∅ ∧
  ∃ y, consumers e3 !! 5%nat = Some y ∧ c_state y = Canceled ∧ c_deliveries y = c_deliveries demo_consumer ++ [Ok None].
Proof.
  destruct (dropped_consumer_cancels (AT := number_types) (AP := number_protocol) (CH := number_handle) 1 demo_busy "ct" 5%nat demo_consumer
    0 (0, 9, 1) 0%nat (demo_client demo_busy []) demo_store)
    as (s1 & e1 & s2 & e2 & s3 & e3 & c' & H1 & H2 & H3 & H4 & _ & _ & _ & H5 & H6 & _ & H7 & _).
  - split; try done. split; try done.
    + intros tag p q Hq. change (({[ 1 := (3%nat, 4%nat) ]} : gmap Z (nat * nat)) !! tag = Some (p, q)) in Hq.
      apply lookup_singleton_Some in Hq as [_ [= <- <-]]. simpl. lia.
    + by intros er ?%not_elem_of_nil.
  - exists s1, e1, s2, e2, s3, e3, c'. split_and!; try done.
    unfold queued_methods. rewrite H2. reflexivity.
Defined.

End Witnesses.
End Cancelling.
