(* ===== verification/Opening.v ===== *)
(** Opening channels: [Connection::create_channel] (src/connection.rs) from the request to the
    answer of the server, and what becomes of the id of a channel that the server
    closed (src/channel.rs, src/channels.rs, src/frames.rs). *)
From S2P Require Import Prelude.
From S2P Require Import IdSequence.
From S2P Require Import Buffer.
From S2P Require Import Types.
From S2P Require Import Env.
From S2P Require Import Frames.
From S2P Require Import Registry.
From S2P Require Import ChannelStatus.
From S2P Require Import Messages.
From S2P Require Import Acknowledgements.
From S2P Require Import Consumers.
From S2P Require Import Connection.
From S2P Require Import Channel.
From S2P Require Import Generated.
From S2P Require Import Channels.
From S2P Require Import Heartbeat.
From S2P Require Import InternalRPC.
From S2P Require Import Recovery.
From S2P Require Import Handles.
Open Scope Z_scope.

Module Opening.
Section Opening.
Context `{AT : AmqpTypes} `{AP : !AmqpProtocol} `{CH : !ConnectionHandle}
  `{HZ : !HashOrder Z} `{HS : !HashOrder string}.
Import InternalRPC Recovery Handles.

(** A request of the connection's handle, which shares its status. *)
Definition request {A} (k : M ConnectionStatus.t A) : M t A :=
  in_channels (zoom Channels.connection_status
    (λ x s, Channels.set_conn (Channel.set_connection_status x (Channels.conn s)) s) k).

(** A connected client with nothing under way. *)
Record idle (s : t) (e : Env) : Prop := {
  id_connected : ConnectionStatus.ensure_connected (Channels.connection_status (channels s)) = Ok tt;
  id_rpc : rpc e = [];
  id_tasks : tasks s = [];
  id_fresh : ∀ p, (next_ref e ≤ p)%nat → promises e !! p = None;
  id_poison : Frames.poison (frames s) = None;
}.

Definition requested (e : Env) : Env := sent (CCreateChannel (next_ref e)) (set_next_ref (S (next_ref e)) e).

Lemma create_requested s e : idle s e →
  request Connection.create_channel s e = (Ok (next_ref e), s, requested e).
Proof.
  intros Hi. unfold request, in_channels, zoom, Connection.create_channel, Connection.if_connected. rewrite bind_get, (id_connected _ _ Hi).
  unfold mbind, M_bind. cbn. do 2 f_equal. by destruct s as [[? ? ? []] ? ? ? ? ? ? ?].
Qed.

(** ** The future of channel.open *)

Lemma open_eq x e : ChannelStatus.initializing (Channel.status (Channel.self x)) = true →
  Frames.check_poison (Channel.frames (Channel.conn x)) (Channel.id (Channel.self x)) = None →
  Generated.channel_open (Channel.id (Channel.self x)) x e =
  (Ok (next_ref e), Generated.map_frames (Generated.requested (Channel.id (Channel.self x)) ChannelOpen
     (RChannelOpenOk (next_ref e) (Channel.id (Channel.self x))) (next_ref e)) x, Generated.after_call e).
Proof.
  intros Hi Hp. rewrite <- (channel_open_eq x e Hi Hp).
  unfold Generated.send_request, Channel.this_id. rewrite bind_assoc, bind_get. done.
Qed.

(** On a poisoned channel the promise fails at once. *)
Lemma open_poisoned err x e : ChannelStatus.initializing (Channel.status (Channel.self x)) = true →
  Frames.check_poison (Channel.frames (Channel.conn x)) (Channel.id (Channel.self x)) = Some err →
  promises e !! next_ref e = None →
  Generated.channel_open (Channel.id (Channel.self x)) x e =
  (Ok (next_ref e), x, Generated.after_call (set_promises (<[next_ref e := Err err]> (promises e)) e)).
Proof.
  intros Hi Hp Hn. unfold Generated.channel_open. rewrite Generated.guarded_eq, Hi.
  unfold Generated.waiting, Generated.call, promise_new, fresh, Channel.send_method_frame, Channel.send_frame, Channel.this_id,
    Channel.in_frames, Frames.push, zoom.
  cbv beta delta [mbind M_bind mret M_ret get]. cbn [Channel.self Channel.conn]. rewrite Hp.
  unfold Frames.cancel_expected_reply, Frames.sending_reject, reject, complete, modify_env, promise_set, wake.
  cbn [er_reply er_cancel Frames.resolver Frames.canceler promises set_next_ref]. rewrite Hn. cbn [promises set_promises set_next_ref].
  rewrite lookup_insert_eq. by destruct x as [c []].
Qed.

(** ** The request and its dispatch *)

(** The client with the new channel [i]. *)
Definition created (i : ChannelId) (k : KillSwitch) (q : IdSequence.t) (s : t) : t :=
  set_channels (Channels.opened i k q (channels s)) s.

(** The store when its future is polled first. *)
Definition creating (i : ChannelId) (e : Env) : Env :=
  let e := Channels.new_env i (set_rpc [] (requested e)) in set_wakes (S (wakes e)) e.

Lemma create_step m now v cr s e : idle s e → Channels.ids_wf m (channels s) →
  Z.of_nat (size (Channels.channels (channels s))) < m → ∃ i q,
  1 ≤ i ≤ m ∧ Channels.channels (channels s) !! i = None ∧
  ∀ a s' e', call_channel i (Generated.channel_open i) Finish (created i (S (next_ref e)) q s) (creating i e) = (a, s', e') →
  (request Connection.create_channel;; step now v cr) s e = progress (Some (next_ref e)) a s' e'.
Proof.
  intros Hi Hwf Hsz.
  destruct (Channels.create_below m (channels s) (set_rpc [] (requested e)) Hwf Hsz) as (i & q & E & Hm & Hfree & _).
  exists i, q. split_and!; [lia..|done|]. intros a s' e' Ha. rewrite (bind_eq _ _ _ _ _ _ _ (create_requested s e Hi)).
  eapply (step_eq now v cr (CCreateChannel (next_ref e)) (FOpenChannel i) (Some (next_ref e)) s (requested e) a
    (created i (S (next_ref e)) q s) (Channels.new_env i (set_rpc [] (requested e))) s' e' []).
  - simpl. by rewrite (id_rpc _ _ Hi).
  - apply (id_tasks _ _ Hi).
  - unfold dispatch. rewrite bind_get, bind_get_env.
    assert (E' : in_channels Channels.create s (set_rpc [] (requested e)) =
      (Some (Ok (Channels.new_chan i (S (next_ref e)))), created i (S (next_ref e)) q s, Channels.new_env i (set_rpc [] (requested e))))
      by (unfold in_channels, zoom; by rewrite E).
    rewrite (bind_eq _ _ _ _ _ _ _ E'). unfold register_internal_future_with_resolver. rewrite bind_modify.
    cbn [tasks created set_channels]. by rewrite (id_tasks _ _ Hi).
  - unfold first_poll. rewrite bind_get_env. exact Ha.
Qed.

Lemma created_get i k q s : i ≠ 0 →
  Channels.get_ i (channels (created i k q s)) = Some (Channel.clone_internal (Channels.new_chan i k)).
Proof. intros Hi. unfold Channels.get_. rewrite (proj2 (Z.eqb_neq i 0) Hi). simpl. apply lookup_insert_eq. Qed.

Lemma created_get_ne i j k q s : j ≠ i → Channels.get_ j (channels (created i k q s)) = Channels.get_ j (channels s).
Proof. intros Hj. unfold Channels.get_. simpl. destruct (j =? 0); [done|]. by rewrite lookup_insert_ne. Qed.

(** ** The answer *)

Lemma open_answered i k cn p e : Frames.expected_replies (Channel.frames cn) !! i = Some [mkExpectedReply (RChannelOpenOk p i) p] →
  Generated.receive_method ChannelOpenOk (Channel.mk (Channel.clone_internal (Channels.new_chan i k)) cn) e =
  (Ok tt, Channel.mk (with_state ChConnected (Channel.clone_internal (Channels.new_chan i k)))
     (Channel.set_frames_ (without_replies i (Channel.frames cn)) cn),
   promise_set p (Ok (VChannel i)) (sent (CSetChannelStatus i k) e)).
Proof.
  intros He. cbn [Generated.receive_method]. unfold Generated.receive_channel_open_ok. rewrite Generated.guarded_eq.
  cbn [Channel.self Channel.status Channel.clone_internal Channels.new_chan].
  change (ChannelStatus.initializing _) with true. cbv iota.
  set (x := Channel.mk _ cn). erewrite (Generated.expecting_first _ _ _ _ _ _ x e He eq_refl). done.
Qed.

(** C22: asking a connection for a channel opens one.  On a connected client with fewer channels than
    the negotiated limit, whose free ids are not poisoned and have no replies left to expect ([closed_id_refused] is about a
    poisoned one), the request puts one channel.open on the
    wire, for an id within the limit that no other channel has; once the server agrees the caller
    gets that channel, connected, and the other channels are as they were. *)
Theorem created_channel_opens m now v cr s e :
  idle s e → waiting s = [] → Channels.ids_wf m (channels s) → Z.of_nat (size (Channels.channels (channels s))) < m →
  (∀ i, 1 ≤ i → Channels.channels (channels s) !! i = None →
     Frames.channels_poison (frames s) !! i = None ∧ Frames.expected_replies (frames s) !!! i = []) →
  ∃ i s1 e1 s2 e2 s3 e3 c, 1 ≤ i ≤ m ∧ Channels.channels (channels s) !! i = None ∧
  result_of (request Connection.create_channel s e) = Ok (next_ref e) ∧
  (request Connection.create_channel;; step now v cr) s e = (tt, s1, e1) ∧
  queued_methods (frames s1) = queued_methods (frames s) ++ [Method i ChannelOpen] ∧
  in_channels (Channels.handle_frame (Method i ChannelOpenOk)) s1 e1 = (Ok tt, s2, e2) ∧
  poll_waiting 0 s2 e2 = (tt, s3, e3) ∧ promises e3 !! next_ref e = Some (Ok (VChannel i)) ∧
  Channels.get_ i (channels s3) = Some c ∧ Channel.id c = i ∧ ChannelStatus.connected (Channel.status c) = true ∧
  (∀ j, j ≠ i → Channels.get_ j (channels s3) = Channels.get_ j (channels s)) ∧ waiting s3 = [].
Proof.
  intros Hi Hw Hwf Hsz Hfr. destruct (create_step m now v cr s e Hi Hwf Hsz) as (i & q & Hm & Hfree & Hstep).
  destruct (Hfr i) as [Hpo Hex]; [lia|done|]. set (r := next_ref e) in *. set (p := S (S r)).
  set (s0 := created i (S r) q s) in *. set (c0 := Channel.clone_internal (Channels.new_chan i (S r))).
  assert (Hg0 : Channels.get_ i (channels s0) = Some c0) by (apply created_get; lia).
  set (x := Generated.map_frames (Generated.requested i ChannelOpen (RChannelOpenOk p i) p) (chan c0 s0)).
  assert (E0 : call_channel i (Generated.channel_open i) Finish s0 (creating i e) =
    (PAwait p Finish, with_chan i x s0, Generated.after_call (creating i e))).
  { apply (call_lift i _ _ _ _ c0); [done|]. apply (open_eq (chan c0 s0) (creating i e)); [done|].
    unfold Frames.check_poison. cbn. unfold frames in Hpo. rewrite Hpo. apply (id_poison _ _ Hi). }
  apply Hstep in E0. set (s1 := set_waiting [(p, Finish, Some r)] (with_chan i x s0)).
  assert (E1 : (request Connection.create_channel;; step now v cr) s e = (tt, s1, Generated.after_call (creating i e))).
  { rewrite E0. cbn [progress]. unfold modify. cbn [waiting with_chan set_channels s0 created]. by rewrite Hw. }
  set (e1 := Generated.after_call (creating i e)) in *.
  set (x2 := Channel.mk (with_state ChConnected c0) (Channel.set_frames_ (without_replies i (Channel.frames (Channel.conn x))) (Channel.conn x))).
  set (e2 := promise_set p (Ok (VChannel i)) (sent (CSetChannelStatus i (S r)) e1)).
  assert (E2 : in_channels (Channels.handle_frame (Method i ChannelOpenOk)) s1 e1 = (Ok tt, set_waiting (waiting s1) (with_chan i x2 s0), e2)).
  { rewrite (receive_lift i ChannelOpenOk s1 e1 c0 (Ok tt) x2 e2).
    - rewrite <- (with_with_chan i x x2 s0). done.
    - apply (get_with_chan i x s0).
    - transitivity (Generated.receive_method ChannelOpenOk (Channel.mk c0 (Channel.conn x)) e1);
        [f_equal; apply (chan_with_chan i x s0)|]. apply open_answered. simpl. rewrite lookup_insert_eq.
      unfold frames in Hex. by rewrite Hex. }
  assert (Hn : ∀ z, (r ≤ z)%nat → promises (sent (CSetChannelStatus i (S r)) e1) !! z = None) by (intros z Hz; by apply (id_fresh _ _ Hi)).
  assert (Hp2 : promises e2 = <[p := Ok (VChannel i)]> (promises (sent (CSetChannelStatus i (S r)) e1)))
    by (unfold e2, promise_set; rewrite (Hn p) by lia; done).
  exists i, s1, e1, (set_waiting (waiting s1) (with_chan i x2 s0)), e2, (set_waiting [] (with_chan i x2 s0)),
    (promise_set r (Ok (VChannel i)) (taken p e2)), (with_state ChConnected c0).
  split_and!; try done; try lia.
  - by rewrite (create_requested s e Hi).
  - unfold frames, queued_methods, s1. cbn [channels set_waiting]. rewrite conn_with_chan. simpl. by rewrite fmap_app.
  - unfold poll_waiting. rewrite bind_get. cbn [waiting set_waiting s1 lookup list_lookup].
    assert (Ht : ∀ z : t, try_wait p z e2 = (Some (Ok (VChannel i)), z, taken p e2)).
    { intros z. unfold try_wait, taken. do 2 f_equal. rewrite Hp2. apply lookup_insert_eq. }
    rewrite (bind_eq _ _ _ _ _ _ _ (Ht _)), bind_modify. done.
  - apply Generated.set_complete. simpl. rewrite Hp2, lookup_delete_ne, lookup_insert_ne by lia. by apply Hn.
  - apply (get_with_chan i x2 s0).
  - intros j Hj. etransitivity; [apply (get_with_chan_ne i j x2 s0 Hj)|]. by apply created_get_ne.
Qed.

(** ** A channel closed by the server *)

(** The error the channel is closed with. *)
Definition final_error (code : ReplyCode) (text : ShortString) : Error :=
  default (error_from (InvalidChannelState ChClosing "channel.close-ok sent")) (close_error code text).

(** The queues with channel.close-ok, closed to the channel from then on. *)
Definition poisoned (ch : ChannelId) (err : Error) (p : Resolver) (f : Frames.t) : Frames.t :=
  let f := queue_method ch ChannelCloseOk p f in Frames.set_channels_poison (<[ch := err]> (Frames.channels_poison f)) f.

Lemma close_ok_sent_eq code text c cn e :
  ChannelStatus.state (Channel.status c) = ChClosing → Frames.check_poison (Channel.frames cn) (Channel.id c) = None →
  Channel.consumers_ c = ∅ → ∃ ev, 
  Generated.channel_close_ok (close_error code text) (Channel.mk c cn) e =
  (Ok (next_ref e), Channel.mk (closed c)
     (Channel.set_frames_ (poisoned (Channel.id c) (final_error code text) (next_ref e) (Channel.frames cn)) cn),
   set_events ev (sent (CRemoveChannel (Channel.id c) (final_error code text))
     (promise_sets (unconfirmed (final_error code text) c) (Generated.after_call e)))).
Proof.
  intros Hst Hp Hcs.
  assert (Hv : refs c = []) by (unfold refs, Consumers.values; rewrite Hcs; change ((hash_order (∅ : gmap string ConsumerRef)).*2 = []);
    by rewrite hash_order_empty).
  unfold Generated.channel_close_ok. rewrite Generated.guarded_eq. cbn [Channel.self].
  assert (Hc : ChannelStatus.closing (Channel.status c) = true) by (unfold ChannelStatus.closing; by rewrite Hst). rewrite Hc.
  rewrite (bind_eq _ _ _ _ _ _ _ (cast_eq ChannelCloseOk (Channel.mk c cn) e Hp)).
  unfold Channel.on_channel_close_ok_sent. fold (final_error code text). rewrite bind_assoc.
  set (cn' := Channel.set_frames_ (poisoned (Channel.id c) (final_error code text) (next_ref e) (Channel.frames cn)) cn).
  rewrite (bind_eq (Channel.poison (final_error code text)) _ tt _ _ (Channel.mk c cn') (Generated.after_call e)) by by destruct cn.
  pose proof (set_closed_eq (final_error code text) c cn' (Generated.after_call e)) as E.
  rewrite Hv in E. specialize (E ltac:(by intros ?? ?%not_elem_of_nil)).
  rewrite bind_assoc, (bind_eq _ _ _ _ _ _ _ E).
  set (e1 := promise_sets _ _). replace (set_consumers (ended [] (consumers (Generated.after_call e))) e1) with e1.
  2: { unfold e1. rewrite promise_sets_only. by destruct e. }
  destruct (close_error code text) as [err|].
  - unfold send_event, modify_env, mbind, M_bind, mret, M_ret. case_decide; eexists; [reflexivity|].
    instantiate (1 := events e1). by destruct e1.
  - eexists (events e1). unfold mbind, M_bind, mret, M_ret. by destruct e1.
Qed.

Lemma spawned_dispatch now x s e : tasks s = [] → dispatch now (CSpawn x) s e = (true, set_tasks [(FTask x, None)] s, e).
Proof. intros Ht. unfold dispatch. rewrite bind_get, bind_get_env. unfold register_internal_future. rewrite bind_modify. by rewrite Ht. Qed.

Lemma remove_dispatch now ch err s e : tasks s = [] → channel_ok ch s e = true →
  dispatch now (CRemoveChannel ch err) s e = (true, set_tasks [(FRemoveChannel ch err, None)] s, e).
Proof.
  intros Ht Hok. unfold dispatch. rewrite bind_get, bind_get_env, Hok. cbn [negb].
  unfold register_internal_future. rewrite bind_modify. by rewrite Ht.
Qed.

(** The client once the server has closed the channel [ch], which it has forgotten. *)
Record forgotten (ch : ChannelId) (err : Error) (s : t) (e : Env) (s' : t) (e' : Env) : Prop := {
  fg_channels : Channels.channels (channels s') = delete ch (Channels.channels (channels s));
  fg_sequence : Channels.channel_id (channels s') = Channels.channel_id (channels s);
  fg_config : Channel.configuration (Channels.conn (channels s')) = Channel.configuration (Channels.conn (channels s));
  fg_connection : Channels.connection_status (channels s') = Channels.connection_status (channels s);
  fg_poisoned : Frames.channels_poison (frames s') !! ch = Some err;
  fg_poison : Frames.poison (frames s') = Frames.poison (frames s);
  fg_queue : queued_methods (frames s') = queued_methods (frames s) ++ [Method ch ChannelCloseOk];
  fg_rpc : rpc e' = [];
  fg_tasks : tasks s' = [];
  fg_waiting : waiting s' = [(next_ref e, Finish, None)];
  fg_fresh : ∀ p, (next_ref e' ≤ p)%nat → promises e' !! p = None;
}.

Lemma closed_waiters ch c code text s e : live ch c s e →
  (∀ p, p ∈ (server_failures code text c).*1 → (p < next_ref e)%nat) ∧
  (∀ p, p ∈ (unconfirmed (final_error code text) (server_closing code text c)).*1 → (p < next_ref e)%nat).
Proof.
  intros Hl. unfold server_failures, server_closing. destruct (close_error code text) as [err|]; split; intros p Hp.
  - by apply (unconfirmed_waiters err ch c s e).
  - unfold unconfirmed in Hp. cbn [Channel.acknowledgements Channel.set_consumers_ Channel.set_acks closed_acks
      Acknowledgements.pending Acknowledgements.set_returned Acknowledgements.set_pending] in Hp.
    rewrite hash_order_empty in Hp. by apply not_elem_of_nil in Hp.
  - by apply not_elem_of_nil in Hp.
  - by apply (unconfirmed_waiters (final_error code text) ch c s e).
Qed.

(** The stages of the close: announced, answered by the client, the channel removed. *)
Definition close_announced (ch : ChannelId) (c : Channel.Chan) (code : ReplyCode) (text : ShortString) (e : Env) : Env :=
  sent (CSpawn (TChannelCloseOk ch (close_error code text))) (promise_sets (server_failures code text c) e).
Definition close_acknowledged (ch : ChannelId) (c : Channel.Chan) (code : ReplyCode) (text : ShortString) (ev : list Event) (e : Env) : Env :=
  set_events ev (sent (CRemoveChannel ch (final_error code text))
    (promise_sets (unconfirmed (final_error code text) (server_closing code text c))
      (Generated.after_call (taken_command (close_announced ch c code text e))))).
Definition poisoned_channel (ch : ChannelId) (c : Channel.Chan) (code : ReplyCode) (text : ShortString) (s : t) (e : Env) : Channel.t :=
  Channel.mk (closed (server_closing code text c))
    (Channel.set_frames_ (poisoned ch (final_error code text) (next_ref e) (frames s)) (Channels.conn (channels s))).

Lemma announced_others ch c code text e : let e1 := close_announced ch c code text e in
  next_ref e1 = next_ref e ∧ killed_set e1 = killed_set e ∧
  rpc e1 = rpc e ++ [CSpawn (TChannelCloseOk ch (close_error code text))].
Proof.
  cbv zeta. unfold close_announced. destruct (promise_sets_others (server_failures code text c) e) as [Hr Hk].
  split_and!; [apply promise_sets_next_ref|exact Hk|]. cbn [sent rpc set_wakes set_rpc]. by rewrite Hr.
Qed.

Lemma acknowledged_others ch c code text ev e : let e2 := close_acknowledged ch c code text ev e in
  next_ref e2 = S (next_ref e) ∧ killed_set e2 = killed_set e ∧ rpc e2 = [CRemoveChannel ch (final_error code text)].
Proof.
  cbv zeta. destruct (announced_others ch c code text e) as (Hn & Hk & _). unfold close_acknowledged.
  set (ps := unconfirmed _ _). set (e1 := Generated.after_call _).
  destruct (promise_sets_others ps e1) as [Hr1 Hk1]. pose proof (promise_sets_next_ref ps e1) as Hn1.
  split_and!; cbn [sent rpc next_ref killed_set set_events set_wakes set_rpc].
  - rewrite Hn1. unfold e1. cbn [next_ref Generated.after_call set_wakes set_next_ref taken_command set_rpc]. by rewrite Hn.
  - by rewrite Hk1.
  - by rewrite Hr1.
Qed.

Lemma close_ok_step ch c code text now v cr s e : live ch c s e → Channel.consumers_ c = ∅ → ∃ ev,
  step now v cr (with_chan ch (Channel.mk (server_closing code text c) (Channels.conn (channels s))) s) (close_announced ch c code text e) =
  (tt, set_waiting [(next_ref e, Finish, None)] (with_chan ch (poisoned_channel ch c code text s e) s),
   close_acknowledged ch c code text ev e).
Proof.
  intros [Hz Hg Hid Hc Hp Hok Hr Ht Hw _ _ _ _] Hcs. set (cn := Channels.conn (channels s)).
  destruct (server_closing_state code text c) as [Hst' Hid']. destruct (announced_others ch c code text e) as (Hn1 & _ & Hr1).
  set (c' := server_closing code text c) in *. set (e1 := close_announced ch c code text e) in *.
  destruct (close_ok_sent_eq code text c' cn (taken_command e1)) as (ev & E2); [done|by rewrite Hid', Hid| |].
  { unfold c', server_closing. by destruct (close_error code text). }
  rewrite Hid', Hid in E2. change (next_ref (taken_command e1)) with (next_ref e1) in E2. rewrite Hn1 in E2.
  set (s1 := with_chan ch (Channel.mk c' cn) s). set (task := TChannelCloseOk ch (close_error code text)) in *. exists ev.
  etransitivity; [eapply (step_eq now v cr (CSpawn task) (FTask task) None s1 e1 _ s1 (set_rpc [] e1) _ _ [])|].
  - by rewrite Hr1, Hr.
  - done.
  - by apply spawned_dispatch.
  - unfold first_poll. rewrite bind_get_env. apply (call_lift ch _ _ s1 _ c'); [apply get_with_chan|].
    transitivity (Generated.channel_close_ok (close_error code text) (Channel.mk c' cn) (taken_command e1)); [|exact E2].
    f_equal. apply (chan_with_chan ch (Channel.mk c' cn) s).
  - cbn [progress]. unfold modify, s1. rewrite with_with_chan. cbn [waiting with_chan set_channels]. by rewrite Hw.
Qed.

(** The store once the channel is removed. *)
Definition channel_removed (ch : ChannelId) (c : Channel.Chan) (code : ReplyCode) (text : ShortString) (ev : list Event) (s : t) (e : Env) : Env :=
  promise_sets (unanswered (final_error code text) ch (frames s)) (taken_command (close_acknowledged ch c code text ev e)).

Lemma remove_future ch c code text ev w now v cr s e : live ch c s e →
  let x := poisoned_channel ch c code text s e in
  step now v cr (set_waiting w (with_chan ch x s)) (close_acknowledged ch c code text ev e) =
  (tt, set_waiting w (removed ch x s), channel_removed ch c code text ev s e).
Proof.
  intros Hl x. destruct (acknowledged_others ch c code text ev e) as (_ & Hk & Hr). set (e2 := close_acknowledged _ _ _ _ _ _) in *.
  set (err := final_error code text) in *. pose proof (lv_tasks _ _ _ _ Hl) as Ht.
  etransitivity; [eapply (step_eq now v cr (CRemoveChannel ch err) (FRemoveChannel ch err) None _ e2 _
    (set_waiting w (with_chan ch x s)) (set_rpc [] e2) _ _ [])|].
  - exact Hr.
  - done.
  - apply remove_dispatch; [done|]. pose proof (lv_ok _ _ _ _ Hl) as Hok. unfold channel_ok, killed in *.
    cbn [killed_set set_rpc]. by rewrite Hk.
  - unfold first_poll. rewrite bind_get_env.
    by erewrite bind_eq by apply (remove_eq ch err x (set_waiting w s) _ (lv_nonzero _ _ _ _ Hl)).
  - done.
Qed.

Lemma server_closes ch c code text class_id method_id now v cr s e : live ch c s e → Channel.consumers_ c = ∅ → ∃ s1 e1 s' e',
  in_channels (Channels.handle_frame (Method ch (ChannelClose code text class_id method_id))) s e = (Ok tt, s1, e1) ∧
  (step now v cr;; step now v cr) s1 e1 = (tt, s', e') ∧ forgotten ch (final_error code text) s e s' e'.
Proof.
  intros Hl Hcs. pose proof (server_close_eq code text class_id method_id c (Channels.conn (channels s)) e
    (Generated.connected_can_receive _ (lv_connected _ _ _ _ Hl)) Hcs) as E1. rewrite (lv_id _ _ _ _ Hl) in E1.
  destruct (close_ok_step ch c code text now v cr s e Hl Hcs) as (ev & E2).
  set (w := [(next_ref e, Finish, None : option Resolver)]) in *. set (x := poisoned_channel ch c code text s e) in *.
  eexists _, _, (set_waiting w (removed ch x s)), (channel_removed ch c code text ev s e). split_and!.
  - by apply (receive_lift ch _ s e c); [apply (lv_get _ _ _ _ Hl)|].
  - rewrite (bind_eq _ _ _ _ _ _ _ E2). by apply remove_future.
  - destruct (closed_waiters ch c code text s e Hl) as [Hw1 Hw2].
    destruct (acknowledged_others ch c code text ev e) as (Hn2 & _ & _).
    split; try done.
    + simpl. apply lookup_insert_eq.
    + unfold frames, queued_methods. simpl. by rewrite fmap_app.
    + unfold channel_removed. by rewrite (proj1 (promise_sets_others _ _)).
    + apply (lv_tasks _ _ _ _ Hl).
    + unfold channel_removed. rewrite promise_sets_next_ref. cbn [next_ref taken_command set_wakes set_rpc]. rewrite Hn2.
      apply promise_sets_fresh.
      * intros p Hin. apply list_elem_of_fmap in Hin as ([q r] & -> & Hq). apply list_elem_of_fmap in Hq as (er & [= -> _] & Her).
        pose proof (lv_replies _ _ _ _ Hl er Her). cbn [fst]. lia.
      * simpl. apply promise_sets_fresh; [intros p Hin; specialize (Hw2 p Hin); lia|]. simpl.
        apply promise_sets_fresh; [intros p Hin; specialize (Hw1 p Hin); lia|]. intros p Hin. apply (lv_fresh _ _ _ _ Hl). lia.
Qed.

Lemma ids_size m s : Channels.ids_wf m s → Z.of_nat (size (Channels.channels s)) ≤ m.
Proof.
  intros [Hm _ _ _ Ho]. set (l := (λ k, 1 + Z.of_nat k) <$> seq 0 (Z.to_nat m)).
  assert (Hsub : dom (Channels.channels s) ⊆ list_to_set (C := gset Z) l).
  { intros i Hi%elem_of_dom%Ho. apply elem_of_list_to_set, list_elem_of_fmap. exists (Z.to_nat (i - 1)).
    split; [lia|]. apply elem_of_seq. lia. }
  apply subseteq_size in Hsub. rewrite size_dom, size_list_to_set in Hsub.
  - unfold l in Hsub. rewrite length_fmap, length_seq in Hsub. lia.
  - apply NoDup_fmap_2; [intros ???; lia|apply NoDup_seq].
Qed.

(** A client that forgot a channel has room for one. *)
Lemma forgotten_ids m ch c err s e s' e' : forgotten ch err s e s' e' → Channels.channels (channels s) !! ch = Some c →
  Channels.ids_wf m (channels s) →
  Channels.ids_wf m (channels s') ∧ Z.of_nat (size (Channels.channels (channels s'))) < m.
Proof.
  intros [F1 F2 F3 _ _ _ _ _ _ _ _] Hc Hwf. pose proof (ids_size m _ Hwf) as Hsz. split.
  - destruct Hwf as [W1 W2 W3 W4 W5]. split; rewrite ?F2, ?F3; try done. intros i. rewrite F1. intros [d [_ Hd]%lookup_delete_Some].
    apply W5. by exists d.
  - rewrite F1, map_size_delete_Some by by eexists.
    assert (size (Channels.channels (channels s)) ≠ 0%nat) by (apply map_size_ne_0_lookup; exists ch; by eexists). lia.
Qed.

(** When the only free id is poisoned the request fails, and the id is used up. *)
Lemma create_refused m ch err w now v cr s e :
  idle s e → Channels.ids_wf m (channels s) → Z.of_nat (size (Channels.channels (channels s))) < m → waiting s = [w] → ch ≠ 0 →
  (∀ i, 1 ≤ i ≤ m → Channels.channels (channels s) !! i = None → i = ch) → Frames.channels_poison (frames s) !! ch = Some err →
  ∃ s3 e3 c', result_of (request Connection.create_channel s e) = Ok (next_ref e) ∧
  (request Connection.create_channel;; step now v cr;; poll_waiting 1) s e = (tt, s3, e3) ∧
  promises e3 !! next_ref e = Some (Err err) ∧ queued_methods (frames s3) = queued_methods (frames s) ∧
  Channels.get_ ch (channels s3) = Some c' ∧ ChannelStatus.state (Channel.status c') = ChInitial.
Proof.
  intros Hi Hwf Hsz Hw Hz Honly Hpo. destruct (create_step m now v cr s e Hi Hwf Hsz) as (i & q & Hmi & Hfree & Hstep).
  apply Honly in Hfree as ->; [|done].
  set (r := next_ref e) in *. set (p := S (S r)). set (s0 := created ch (S r) q s) in *.
  set (c0 := Channel.clone_internal (Channels.new_chan ch (S r))).
  assert (Hg0 : Channels.get_ ch (channels s0) = Some c0) by by apply created_get.
  set (e3 := Generated.after_call (set_promises (<[p := Err err]> (promises (creating ch e))) (creating ch e))).
  assert (E0 : call_channel ch (Generated.channel_open ch) Finish s0 (creating ch e) = (PAwait p Finish, s0, e3)).
  { etransitivity; [apply (call_lift ch _ _ _ _ c0 p (chan c0 s0) e3 Hg0)|].
    - apply (open_poisoned err (chan c0 s0) (creating ch e)); [done| |apply (id_fresh _ _ Hi); simpl; lia].
      unfold Frames.check_poison. cbn. unfold frames in Hpo. by rewrite Hpo.
    - by rewrite with_chan_same. }
  apply Hstep in E0.
  assert (Hr : promises e3 !! r = None) by (simpl; rewrite lookup_insert_ne by lia; by apply (id_fresh _ _ Hi)).
  assert (E3 : (request Connection.create_channel;; step now v cr) s e = (tt, set_waiting [w; (p, Finish, Some r)] s0, e3)).
  { rewrite E0. cbn [progress]. unfold modify. cbn [waiting s0 created set_channels]. by rewrite Hw. }
  exists (set_waiting [w] s0), (promise_set r (Err err) (taken p e3)), c0. split_and!; try done.
  - by rewrite (create_requested s e Hi).
  - rewrite <- bind_assoc, (bind_eq _ _ _ _ _ _ _ E3). unfold poll_waiting. rewrite bind_get. cbn [waiting set_waiting lookup list_lookup].
    assert (Ht : ∀ z : t, try_wait p z e3 = (Some (Err err), z, taken p e3)).
    { intros z. unfold try_wait, taken. do 2 f_equal. simpl. apply lookup_insert_eq. }
    by rewrite (bind_eq _ _ _ _ _ _ _ (Ht _)), bind_modify.
  - apply Generated.set_complete. simpl. rewrite lookup_delete_ne by lia. exact Hr.
Qed.

(** C23: the id of a channel that the server closed is lost.  On a client that uses every id its
    limit allows, the server closes the channel [ch]; the client answers and forgets the
    channel.  The next request for a channel is given the id [ch], but the queues still refuse
    everything for it: nothing is sent, the caller gets the error of the old channel, and the
    channel that was never opened keeps the id. *)
Theorem closed_id_refused m ch c code text class_id method_id now v cr s e :
  live ch c s e → Channel.consumers_ c = ∅ → Channels.ids_wf m (channels s) → 1 ≤ ch ≤ m →
  (∀ i, 1 ≤ i ≤ m → i ≠ ch → is_Some (Channels.channels (channels s) !! i)) →
  ConnectionStatus.ensure_connected (Channels.connection_status (channels s)) = Ok tt → Frames.poison (frames s) = None →
  ∃ s1 e1 s2 e2 p s3 e3 c', 
  in_channels (Channels.handle_frame (Method ch (ChannelClose code text class_id method_id))) s e = (Ok tt, s1, e1) ∧
  (step now v cr;; step now v cr) s1 e1 = (tt, s2, e2) ∧ Channels.get_ ch (channels s2) = None ∧
  result_of (request Connection.create_channel s2 e2) = Ok p ∧
  (request Connection.create_channel;; step now v cr;; poll_waiting 1) s2 e2 = (tt, s3, e3) ∧
  promises e3 !! p = Some (Err (final_error code text)) ∧ queued_methods (frames s3) = queued_methods (frames s2) ∧
  Channels.get_ ch (channels s3) = Some c' ∧ ChannelStatus.state (Channel.status c') = ChInitial.
Proof.
  intros Hl Hcs Hwf Hm Hfull Hco Hpo. pose proof (lv_nonzero _ _ _ _ Hl) as Hz.
  destruct (server_closes ch c code text class_id method_id now v cr s e Hl Hcs) as (s1 & e1 & s2 & e2 & E1 & E2 & Hfg).
  pose proof Hfg as [F1 _ _ F4 F5 F6 _ F8 F9 F10 F11].
  assert (Hget : Channels.channels (channels s) !! ch = Some c).
  { pose proof (lv_get _ _ _ _ Hl) as Hg. unfold Channels.get_ in Hg. by rewrite (proj2 (Z.eqb_neq ch 0) Hz) in Hg. }
  destruct (forgotten_ids m ch c _ s e s2 e2 Hfg Hget Hwf) as [Hwf2 Hsz].
  destruct (create_refused m ch (final_error code text) (next_ref e, Finish, None) now v cr s2 e2) as (s3 & e3 & c' & H); try done.
  - split; [by rewrite F4|done..|by rewrite F6].
  - intros i Hi. rewrite F1. destruct (decide (i = ch)) as [|Hne]; [done|]. destruct (Hfull i Hi Hne) as [d Hd].
    rewrite lookup_delete_ne by done. congruence.
  - exists s1, e1, s2, e2, (next_ref e2), s3, e3, c'. split; [done|]. split; [done|]. split; [|done].
    unfold Channels.get_. rewrite (proj2 (Z.eqb_neq ch 0) Hz), F1. apply lookup_delete_eq.
Qed.

End Opening.

Section Witnesses.
Import InternalRPC Recovery Handles.
#[local] Existing Instances number_types number_protocol number_handle.
#[local] Instance z_order : HashOrder Z := canonical_order Z.
#[local] Instance s_order : HashOrder string := canonical_order string.

(** A connected client limited to [cmax] channels, with channel 1 open. *)
Definition demo_limited (cmax : Z) : t :=
  let s := demo_client demo_idle [] in
  set_channels (Channels.set_conn (Channel.set_configuration (Configuration.mk cmax 4096 0) (Channels.conn (channels s))) (channels s)) s.

Lemma demo_ids cmax : 1 ≤ cmax < 2 ^ 16 → Channels.ids_wf cmax (channels (demo_limited cmax)).
Proof.
  intros Hc. split; simpl; try done; try lia. intros i [c Hi%lookup_singleton_Some]. lia.
Qed.

Lemma created_channel_opens_witness : ∃ i s1 e1 s2 e2 s3 e3,
  (request Connection.create_channel;; step 0 (0, 9, 1) 0%nat) (demo_limited 2) demo_store = (tt, s1, e1) ∧
  in_channels (Channels.handle_frame (Method i ChannelOpenOk)) s1 e1 = (Ok tt, s2, e2) ∧
  poll_waiting 0 s2 e2 = (tt, s3, e3) ∧ promises e3 !! 9%nat = Some (Ok (VChannel i)).
Proof.
  destruct (created_channel_opens (AT := number_types) (AP := number_protocol) (CH := number_handle) 2 0 (0, 9, 1) 0%nat
    (demo_limited 2) demo_store) as (i & s1 & e1 & s2 & e2 & s3 & e3 & c & _ & _ & _ & H1 & _ & H2 & H3 & H4 & _).
  - by split.
  - done.
  - by apply demo_ids.
  - vm_compute. done.
  - intros i Hi Hfree. split; [done|]. change (Channels.channels (channels (demo_limited 2))) with ({[ 1 := demo_idle ]} : gmap Z Channel.Chan) in Hfree.
    apply lookup_singleton_None in Hfree. rewrite lookup_total_alt.
    change (Frames.expected_replies (frames (demo_limited 2))) with ({[ 1 := [] ]} : gmap Z (list ExpectedReply)).
    by rewrite lookup_singleton_ne.
  - by exists i, s1, e1, s2, e2, s3, e3.
Defined.

Lemma closed_id_refused_witness : ∃ s1 e1 s2 e2 p s3 e3,
  in_channels (Channels.handle_frame (Method 1 (ChannelClose 404 "NOT_FOUND" 0 0))) (demo_limited 1) demo_store = (Ok tt, s1, e1) ∧
  (step 0 (0, 9, 1) 0%nat;; step 0 (0, 9, 1) 0%nat) s1 e1 = (tt, s2, e2) ∧
  (request Connection.create_channel;; step 0 (0, 9, 1) 0%nat;; poll_waiting 1) s2 e2 = (tt, s3, e3) ∧
  promises e3 !! p = Some (Err (final_error 404 "NOT_FOUND")).
Proof.
  destruct (closed_id_refused (AT := number_types) (AP := number_protocol) (CH := number_handle) 1 1 demo_idle 404 "NOT_FOUND" 0 0 0 (0, 9, 1)
    0%nat (demo_limited 1) demo_store) as (s1 & e1 & s2 & e2 & p & s3 & e3 & c' & H1 & H2 & _ & _ & H3 & H4 & _).
  - split; try done. by intros er ?%not_elem_of_nil.
  - done.
  - by apply demo_ids.
  - done.
  - intros i Hi Hne. lia.
  - done.
  - done.
  - by exists s1, e1, s2, e2, p, s3, e3.
Defined.

End Witnesses.
End Opening.
