(* ===== verification/Closing.v ===== *)
(** Closing the connection: [Connection::close] (src/connection.rs) followed through the commands of
    the dispatcher (src/internal_rpc.rs), the transitions of all the channels (src/channels.rs) and the answer
    of the server. *)
From S2P Require Import Prelude.
From S2P Require Import IdSequence.
From S2P Require Import Buffer.
From S2P Require Import Types.
From S2P Require Import Env.
From S2P Require Import Frames.
From S2P Require Import ChannelStatus.
From S2P Require Import Messages.
From S2P Require Import Acknowledgements.
From S2P Require Import Consumers.
From S2P Require Import Connection.
From S2P Require Import Channel.
From S2P Require Import Generated.
From S2P Require Import Channels.
From S2P Require Import Heartbeat.
From S2P Require Import InternalRPC.
From S2P Require Import Recovery.
From S2P Require Import Handles.
From S2P Require Import Opening.
Open Scope Z_scope.

Module Closing.
Section Closing.
Context `{AT : AmqpTypes} `{AP : !AmqpProtocol} `{CH : !ConnectionHandle}
  `{HZ : !HashOrder Z} `{HS : !HashOrder string}.
Import InternalRPC Recovery Handles Opening.

(** What waits for a reply or a confirm was allocated before [b]. *)
Record waits_below (b : nat) (s : t) : Prop := {
  wb_replies : ∀ ch l er, Frames.expected_replies (frames s) !! ch = Some l → er ∈ l → (Frames.reply_waiter er < b)%nat;
  wb_confirms : ∀ i c, Channels.channels (channels s) !! i = Some c → confirms_below b c;
}.

(** A connected client with nothing under way on channel 0; its channels may have requests, confirms and consumers. *)
Record open_connection (s : t) (e : Env) : Prop := {
  oc_idle : idle s e;
  oc_waiting : waiting s = [];
  oc_zero : Channels.channels (channels s) !! 0 = None;
  oc_id : Channel.id (Channels.channel0 (channels s)) = 0;
  oc_receives : ChannelStatus.can_receive_messages (Channel.status (Channels.channel0 (channels s))) = true;
  oc_poison : Frames.channels_poison (frames s) !! 0 = None;
  oc_replies : Frames.expected_replies (frames s) !!! 0 = [];
  oc_waits : waits_below (next_ref e) s;
}.

(** The application asks: two commands. *)
Definition asked (code : ReplyCode) (text : ShortString) (e : Env) : Env :=
  sent (CCloseConnection code text 0 0 (Some (next_ref e))) (set_next_ref (S (next_ref e)) (sent CSetConnectionClosing e)).

Lemma close_requested code text s e : idle s e →
  request (Connection.close code text) s e = (Ok (next_ref e), s, asked code text e).
Proof.
  intros Hi. unfold request, in_channels, zoom, Connection.close, Connection.if_connected. rewrite bind_get, (id_connected _ _ Hi).
  unfold mbind, M_bind. cbn. do 2 f_equal. by destruct s as [[? ? ? []] ? ? ? ? ? ? ?].
Qed.

Lemma connected_auto_close s : ConnectionStatus.ensure_connected s = Ok tt → ConnectionStatus.auto_close s = true.
Proof. unfold ConnectionStatus.ensure_connected, ConnectionStatus.connected, ConnectionStatus.auto_close. intros H. apply bool_decide_eq_true. case_bool_decide; set_solver. Qed.

(** ** The channels stop *)

(** Promises, commands and references are the same. *)
Definition same_waits (e e' : Env) : Prop := promises e' = promises e ∧ rpc e' = rpc e ∧ next_ref e' = next_ref e.

#[local] Instance same_waits_order : PreOrder same_waits.
Proof. split; [done|]. intros e1 e2 e3 (A1 & A2 & A3) (B1 & B2 & B3). unfold same_waits. by rewrite B1, B2, B3. Qed.

Lemma set_closing_eq c cn e : True → ∃ c' e', Channel.set_closing None (Channel.mk c cn) e = (tt, Channel.mk c' cn, e') ∧
  c' = with_state ChClosing c ∧ same_waits e e' ∧ True.
Proof.
  intros _. eexists _, (set_consumers (canceling (refs c) (consumers e)) e). split; [|split; [done|done]].
  unfold Channel.set_closing, Channel.set_state, Channel.in_status, Channel.in_consumers,
    Consumers.start_cancel, mbind, M_bind, zoom, get. cbn -[for_each]. rewrite start_cancel_loop. by destruct c.
Qed.

(** The first command: the connection and its channels are closing, the periodic tasks are stopped. *)
Record stopping (s : t) (e : Env) (s1 : t) (e1 : Env) : Prop := {
  sg_waits : promises e1 = promises e ∧ next_ref e1 = next_ref e;
  sg_tasks : tasks s1 = tasks s;
  sg_waiting : waiting s1 = waiting s;
  sg_conn : Channels.conn (channels s1) = Channel.set_connection_status
    (ConnectionStatus.set_state CoClosing (Channels.connection_status (channels s))).2 (Channels.conn (channels s));
  sg_zero : Channels.channel0 (channels s1) = Channels.channel0 (channels s);
  sg_channels : ∀ i c, Channels.channels (channels s) !! i = Some c →
    Channels.channels (channels s1) !! i = Some (with_state ChClosing c);
  sg_none : ∀ i, Channels.channels (channels s) !! i = None → Channels.channels (channels s1) !! i = None;
}.

Lemma stop_step now l s e : Channels.channels (channels s) !! 0 = None → rpc e = CSetConnectionClosing :: l → ∃ s1 e1,
  run_next now s e = (true, s1, e1) ∧ rpc e1 = l ∧ stopping s e s1 e1.
Proof.
  intros H0 Hr. set (e' := set_killed ({[SecretUpdate.killswitch (secret_update s)]} ∪ ({[Heartbeat.poison (heartbeat s)]} ∪ killed_set e)) (set_rpc l e)).
  set (c1 := Channels.set_conn (Channel.set_connection_status
    (ConnectionStatus.set_state CoClosing (Channels.connection_status (channels s))).2 (Channels.conn (channels s))) (channels s)).
  destruct (Channels.for_channels_eq (Channel.set_closing None) (λ _, True) (λ c c', c' = with_state ChClosing c) same_waits (λ _ _, True)
    same_waits_order) with (s := c1) (e := e') as (c2 & e2 & E & H1 & H2 & (W1 & W2 & W3) & H4 & H5); [done|apply set_closing_eq|done|done|].
  set (s1 := set_heartbeat (Heartbeat.set_timeout_ None (heartbeat s)) s).
  assert (Hd : dispatch now CSetConnectionClosing s (set_rpc l e) = (true, set_channels c2 s1, e2)).
  { unfold dispatch. rewrite bind_get, bind_get_env. erewrite bind_eq by reflexivity. erewrite bind_eq by reflexivity.
    erewrite bind_eq; [reflexivity|]. unfold in_channels, zoom, Channels.set_connection_closing.
    unfold Channels.update_connection_status. rewrite bind_modify.
    match goal with |- context [Channels.for_channels _ ?a ?b] => change a with c1; change b with e' end. rewrite E.
    by destruct s. }
  exists (set_channels c2 s1), (set_wakes (S (wakes e2)) e2). split_and!; [by apply (run_next_eq now CSetConnectionClosing l)|exact W2|].
  split; try done.
  - intros i c Hc. destruct (H4 i c Hc) as (c' & Hc' & -> & _). exact Hc'.
Qed.

(** ** The request and its answer *)

(** What [connection.close] queues and expects on channel 0. *)
Definition closing_frames (code : ReplyCode) (text : ShortString) (p : Resolver) : Frames.t → Frames.t :=
  Generated.requested 0 (ConnectionClose code text 0 0) (RConnectionCloseOk p) p.

Lemma close_step code text o l now v cr s e : rpc e = CCloseConnection code text 0 0 o :: l → tasks s = [] → waiting s = [] →
  Channel.id (Channels.channel0 (channels s)) = 0 → Frames.check_poison (frames s) 0 = None →
  step now v cr s e = (tt, set_waiting [(next_ref e, Finish, o)]
    (with_chan 0 (Generated.map_frames (closing_frames code text (next_ref e)) (chan (Channels.channel0 (channels s)) s)) s),
    Generated.after_call (set_wakes (S (wakes e)) (set_rpc l e))).
Proof.
  intros Hr Ht Hw Hi Hp.
  etransitivity; [eapply (step_eq now v cr _ (FCloseConnection code text 0 0) o s _ _ s _ _ _ l)|].
  - exact Hr.
  - exact Ht.
  - unfold dispatch. rewrite bind_get, bind_get_env. destruct o; (erewrite bind_eq by reflexivity); by rewrite Ht.
  - unfold first_poll. rewrite bind_get_env. apply (call_lift _ _ _ _ _ (Channels.channel0 (channels s))); [done|].
    unfold Generated.connection_close, Generated.waiting. erewrite bind_eq; [reflexivity|]. apply Generated.call_eq.
    unfold chan. cbn [Channel.self Channel.conn]. rewrite Hi. exact Hp.
  - cbn [progress]. unfold modify. cbn [waiting with_chan set_channels]. rewrite Hw. unfold chan. cbn [Channel.self]. by rewrite Hi.
Qed.

Definition lost_error : Error := error_from (InvalidConnectionState CoClosed).

Lemma close_answered p c cn e : Channel.id c = 0 → ChannelStatus.can_receive_messages (Channel.status c) = true →
  Frames.expected_replies (Channel.frames cn) !! 0 = Some [mkExpectedReply (RConnectionCloseOk p) p] →
  Generated.receive_method ConnectionCloseOk (Channel.mk c cn) e =
  (Ok tt, Channel.mk c (Channel.set_frames_ (without_replies 0 (Channel.frames cn)) cn),
   promise_set p (Ok VUnit) (sent (CSetConnectionClosed lost_error) e)).
Proof.
  intros Hi Hst Hx. cbn [Generated.receive_method]. unfold Generated.receive_connection_close_ok, Generated.on_channel0, Channel.assert_channel0, Channel.this_id.
  unfold try_bind. rewrite !bind_assoc, bind_get. unfold mret at 1, M_ret at 1. erewrite bind_eq by reflexivity. cbn [Channel.self]. rewrite Hi. cbn [Z.eqb].
  erewrite bind_eq by reflexivity. cbv beta iota. rewrite Generated.can_receive_eq by done.
  rewrite (Generated.expecting_first _ _ _ (mkExpectedReply (RConnectionCloseOk p) p) [] (Generated.completing p Channel.on_connection_close_ok_received));
    [|cbn [Channel.conn Channel.self]; by rewrite Hi|done].
  unfold Generated.completing, Channel.on_connection_close_ok_received. erewrite bind_eq by reflexivity. cbv iota.
  unfold Generated.map_frames. cbn [Channel.self Channel.conn]. rewrite Hi. done.
Qed.

(** ** The channels are closed *)

(** Results stay, no promise from [b] on is completed, and commands are only added. *)
Record kept (b : nat) (e e' : Env) : Prop := {
  kp_done : ∀ p r, promises e !! p = Some r → promises e' !! p = Some r;
  kp_new : ∀ p, (b ≤ p)%nat → promises e' !! p = promises e !! p;
  kp_rpc : rpc e `prefix_of` rpc e';
}.

#[local] Instance kept_order b : PreOrder (kept b).
Proof.
  split; [done|]. intros e1 e2 e3 [A1 A2 A3] [B1 B2 B3]. split; [eauto| |by etrans]. intros p Hp. by rewrite B2, A2.
Qed.

Definition closed_channel (c : Channel.Chan) : Prop :=
  ChannelStatus.state (Channel.status c) = ChClosed ∧ Channel.consumers_ c = ∅ ∧
  Acknowledgements.pending (Channel.acknowledgements c) = ∅.

(** What the close does for a channel: its confirms are completed and its removal is queued. *)
Definition let_go (c : Channel.Chan) (e : Env) : Prop :=
  Channels.confirms_done c e ∧ CRemoveChannel (Channel.id c) lost_error ∈ rpc e.

Lemma let_go_kept b c e e' : let_go c e → kept b e e' → let_go c e'.
Proof.
  intros [Hc Hr] [Hp _ [l Hl]]. split; [|rewrite Hl; set_solver]. intros tag p q H. destruct (Hc tag p q H) as [r Hp']. exists r. by apply Hp.
Qed.

Lemma sets_kept b l e : (∀ p, p ∈ l.*1 → (p < b)%nat) → kept b e (promise_sets l e).
Proof.
  intros Hl. split; [| |by rewrite (proj1 (promise_sets_others l e))].
  - clear Hl. revert e. induction l as [|[q r] l IH]; intros e p x Hp; [done|].
    cbn [promise_sets fold_left]. apply IH. rewrite promise_set_lookup. case_decide; [subst; by rewrite Hp|done].
  - intros p Hp. apply promise_sets_other. intros Hin. apply Hl in Hin. lia.
Qed.

Lemma set_closed_spec b c cn e : confirms_below b c → ∃ c' e', Channel.set_closed lost_error (Channel.mk c cn) e = (tt, Channel.mk c' cn, e') ∧
  closed_channel c' ∧ kept b e e' ∧ let_go c e'.
Proof.
  intros Hb. unfold Channel.set_closed. erewrite bind_eq by reflexivity.
  set (c1 := with_state ChClosed c). pose proof (confirms_error_eq lost_error c1 cn e) as E1.
  rewrite (bind_eq _ _ _ _ _ _ _ E1). set (e1 := promise_sets _ e).
  destruct (Channels.quiet_for_each (S := Consumers.t) (refs c) Consumer.cancel Channels.quiet_cancel ∅ e1) as ([] & e2 & E2 & P2 & R2).
  assert (E3 : ∀ x, Channel.consumers_ x = Channel.consumers_ c → Channel.cancel_consumers (Channel.mk x cn) e1 = (tt, Channel.mk (Channel.set_consumers_ ∅ x) cn, e2)).
  { intros x Hx. unfold Channel.cancel_consumers, Channel.in_consumers, Consumers.cancel, zoom, mbind, M_bind, get, put.
    cbn [Channel.self]. rewrite Hx. fold (refs c). by rewrite E2. }
  erewrite bind_eq by (apply E3; done). eexists _, _. split; [reflexivity|]. split; [done|].
  assert (Hk : kept b e (sent (CRemoveChannel (Channel.id c) lost_error) e2)).
  { destruct (sets_kept b (unconfirmed lost_error c1) e (unconfirmed_below lost_error b c1 Hb)) as [S1 S2 S3]. split.
    - intros p r Hp. simpl. rewrite P2. by apply S1.
    - intros p Hp. simpl. rewrite P2. by apply S2.
    - simpl. etransitivity; [exact S3|]. etransitivity; [exact R2|]. by apply prefix_app_r. }
  split; [exact Hk|]. split; [|simpl; set_solver]. intros tag p q Hq.
  assert (Hd : done p e1).
  { apply Channels.promise_sets_done. right. destruct (Acknowledgements.failures_spec lost_error
      (IdSequence.current (Acknowledgements.delivery_tag (Channel.acknowledgements c1))) (hash_order (Acknowledgements.pending (Channel.acknowledgements c1)))) as (H1 & _ & _).
    apply list_elem_of_fmap. eexists (_, _). split; [|by eapply H1, hash_order_elem]. done. }
  destruct Hd as [r Hr]. exists r. simpl. by rewrite P2.
Qed.

(** The completions of all the replies given up. *)
Definition given_up (err : Error) (m : gmap Z (list ExpectedReply)) : list (Resolver * res PVal) :=
  hash_order m ≫= λ x, Frames.cancellation err <$> x.2.

Lemma clear_all_eq err f e : Frames.clear_all_expected_replies err f e =
  (tt, Frames.set_expected ∅ f, promise_sets (given_up err (Frames.expected_replies f)) e).
Proof.
  unfold Frames.clear_all_expected_replies, given_up. rewrite bind_get. generalize (hash_order (Frames.expected_replies f)). intros l.
  erewrite bind_eq; [reflexivity|]. revert e. induction l as [|[ch rs] l IH]; intros e; [done|]. cbn [for_each].
  rewrite (bind_eq _ _ _ _ _ _ _ (Frames.cancel_replies_eq rs err f e)), IH. simpl. by rewrite promise_sets_app.
Qed.

Lemma given_up_elem err m p : p ∈ (given_up err m).*1 ↔ ∃ ch l er, m !! ch = Some l ∧ er ∈ l ∧ p = Frames.reply_waiter er.
Proof.
  unfold given_up. rewrite list_elem_of_fmap. split.
  - intros ([q r] & -> & Hq). apply list_elem_of_bind in Hq as ([ch l] & Hq & Hl%hash_order_elem).
    apply list_elem_of_fmap in Hq as (er & [= -> _] & Her). by exists ch, l, er.
  - intros (ch & l & er & Hl & Her & ->). exists (Frames.cancellation err er). split; [done|]. apply list_elem_of_bind.
    exists (ch, l). split; [by apply list_elem_of_fmap_2|by apply hash_order_elem].
Qed.

(** The last command: every reply is given up, the connection and its channels are closed. *)
Record ended_connection (b : nat) (s : t) (e : Env) (s1 : t) (e1 : Env) : Prop := {
  ec_kept : kept b e e1;
  ec_waiting : waiting s1 = waiting s;
  ec_closed : ConnectionStatus.closed (Channels.connection_status (channels s1)) = true;
  ec_replies : Frames.expected_replies (frames s1) = ∅;
  ec_told : ∀ ch l er, Frames.expected_replies (frames s) !! ch = Some l → er ∈ l → done (Frames.reply_waiter er) e1;
  ec_channels : ∀ i c, Channels.channels (channels s) !! i = Some c →
    ∃ c', Channels.channels (channels s1) !! i = Some c' ∧ closed_channel c' ∧ let_go c e1;
  ec_none : ∀ i, Channels.channels (channels s) !! i = None → Channels.channels (channels s1) !! i = None;
}.

Lemma closed_step b now l s e : Channels.channels (channels s) !! 0 = None → waits_below b s → rpc e = CSetConnectionClosed lost_error :: l → ∃ s1 e1,
  run_next now s e = (true, s1, e1) ∧ ended_connection b s (set_rpc l e) s1 e1.
Proof.
  intros H0 Hb Hr. pose proof (clear_all_eq lost_error (frames s) (set_rpc l e)) as E1. set (e' := promise_sets _ _) in E1.
  assert (Hk' : kept b (set_rpc l e) e').
  { apply sets_kept. intros p (ch & rs & er & Hl & Her & ->)%given_up_elem. by apply (wb_replies _ _ Hb ch rs). }
  set (c1 := Channels.set_conn (Channel.set_frames_ (Frames.set_expected ∅ (frames s)) (Channels.conn (channels s))) (channels s)).
  set (c2 := Channels.set_conn (Channel.set_connection_status (ConnectionStatus.set_state CoClosed (Channels.connection_status c1)).2 (Channels.conn c1)) c1).
  destruct (Channels.for_channels_eq (Channel.set_closed lost_error) (confirms_below b) (λ _, closed_channel) (kept b) let_go (kept_order b) (let_go_kept b)
    (set_closed_spec b) c2 e' H0 (wb_confirms _ _ Hb)) as (c3 & e3 & E3 & H1 & _ & K & H4 & H5).
  assert (Hd : dispatch now (CSetConnectionClosed lost_error) s (set_rpc l e) = (true, set_channels c3 s, e3)).
  { unfold dispatch. rewrite bind_get, bind_get_env.
    erewrite bind_eq; [|unfold in_channels, Channels.in_frames, zoom; cbn [channels]; fold (frames s); rewrite E1; reflexivity].
    erewrite bind_eq; [reflexivity|]. unfold in_channels, zoom, Channels.set_connection_closed, Channels.update_connection_status. rewrite bind_modify.
    match goal with |- context [Channels.for_channels _ ?a _] => change a with c2 end. rewrite E3. done. }
  exists (set_channels c3 s), (set_wakes (S (wakes e3)) e3). split; [by apply (run_next_eq now (CSetConnectionClosed lost_error) l)|].
  split; try done.
  - destruct (transitivity Hk' K) as [A1 A2 A3]. by split.
  - unfold Channels.connection_status. cbn [channels set_channels]. rewrite H1. done.
  - unfold frames. cbn [channels set_channels]. rewrite H1. done.
  - intros ch l0 er Hl Her. destruct (Channels.promise_sets_done (given_up lost_error (Frames.expected_replies (frames s))) (set_rpc l e) (Frames.reply_waiter er)) as [r Hd'].
    { right. apply given_up_elem. by exists ch, l0, er. }
    exists r. simpl. by apply (kp_done _ _ _ K).
Qed.

(** From the commands to the end, whoever asked; [o] is the promise of the one who waits. *)
Record closed_down (b : nat) (code : ReplyCode) (text : ShortString) (o : option Resolver) (s : t) (e : Env) (s2 s4 : t) (e4 : Env) : Prop := {
  cd_frames : Frames.frames (frames s2) = Frames.frames (frames s) ++
    [Frames.mkEntry (Method 0 (ConnectionClose code text 0 0)) (Frames.mkSending (Some (next_ref e)) None)];
  cd_closed : ConnectionStatus.closed (Channels.connection_status (channels s4)) = true;
  cd_told : ∀ ch l er, ch ≠ 0 → Frames.expected_replies (frames s) !! ch = Some l → er ∈ l → done (Frames.reply_waiter er) e4;
  cd_channels : ∀ i c, Channels.channels (channels s) !! i = Some c →
    ∃ c', Channels.channels (channels s4) !! i = Some c' ∧ closed_channel c' ∧ let_go c e4;
  cd_waiting : waiting s4 = [(next_ref e, Finish, o)];
  cd_answer : promises e4 !! next_ref e = Some (Ok VUnit);
  cd_fresh : ∀ p, (b ≤ p)%nat → p ≠ next_ref e → promises e4 !! p = None;
}.

Lemma stopped_below b s e s1 e1 : stopping s e s1 e1 → waits_below b s → ∀ i c, Channels.channels (channels s1) !! i = Some c → confirms_below b c.
Proof.
  intros [_ _ _ _ _ L M] Hb i c Hc. destruct (Channels.channels (channels s) !! i) as [c0|] eqn:Ei.
  - rewrite (L i c0 Ei) in Hc. simplify_eq. exact (wb_confirms _ _ Hb i c0 Ei).
  - rewrite (M i Ei) in Hc. done.
Qed.

Lemma closing_exchange b code text o now v cr s e : rpc e = [CSetConnectionClosing; CCloseConnection code text 0 0 o] →
  tasks s = [] → waiting s = [] → Channels.channels (channels s) !! 0 = None → Channel.id (Channels.channel0 (channels s)) = 0 →
  ChannelStatus.can_receive_messages (Channel.status (Channels.channel0 (channels s))) = true →
  Frames.check_poison (frames s) 0 = None → Frames.expected_replies (frames s) !!! 0 = [] → waits_below b s →
  (b ≤ next_ref e)%nat → (∀ p, (b ≤ p)%nat → promises e !! p = None) → ∃ s1 e1 s2 e2 s3 e3 s4 e4,
  run_next now s e = (true, s1, e1) ∧ stopping s e s1 e1 ∧ step now v cr s1 e1 = (tt, s2, e2) ∧
  in_channels (Channels.handle_frame (Method 0 ConnectionCloseOk)) s2 e2 = (Ok tt, s3, e3) ∧
  run_next now s3 e3 = (true, s4, e4) ∧ closed_down b code text o s e s2 s4 e4.
Proof.
  intros Hr Ht Hw H0 Hid Hrec Hpo Hx Hwb Hbe Hfresh.
  destruct (stop_step now [CCloseConnection code text 0 0 o] s e H0 Hr) as (s1 & e1 & E1 & R1 & Hs1).
  pose proof Hs1 as [[P1 N1] T1 W1 C1 Z1 L1 M1]. rewrite Ht in T1. rewrite Hw in W1.
  assert (Hfr : frames s1 = frames s) by (unfold frames; by rewrite C1).
  pose proof (close_step code text o [] now v cr s1 e1 R1 T1 W1 ltac:(by rewrite Z1) ltac:(by rewrite Hfr)) as E2. rewrite N1 in E2.
  set (q := next_ref e) in *. set (x := Generated.map_frames _ _) in E2. set (s2 := set_waiting _ (with_chan 0 x s1)) in E2.
  set (e2 := Generated.after_call _) in E2.
  assert (Hx3 : Frames.expected_replies (Channel.frames (Channel.conn x)) !! 0 = Some [mkExpectedReply (RConnectionCloseOk q) q]).
  { simpl. rewrite lookup_insert_eq. f_equal.
    change (Frames.expected_replies (frames s1) !!! 0 ++ [mkExpectedReply (RConnectionCloseOk q) q] = [mkExpectedReply (RConnectionCloseOk q) q]). by rewrite Hfr, Hx. }
  pose proof (close_answered q (Channel.self x) (Channel.conn x) e2 ltac:(by simpl; rewrite Z1) ltac:(by simpl; rewrite Z1) Hx3) as E3.
  set (y := Channel.mk (Channel.self x) (Channel.set_frames_ _ _)) in E3. set (e3 := promise_set _ _ _) in E3.
  assert (E3' : in_channels (Channels.handle_frame (Method 0 ConnectionCloseOk)) s2 e2 = (Ok tt, with_chan 0 y s2, e3)).
  { apply (receive_lift 0 ConnectionCloseOk s2 e2 (Channel.self x)); [exact (get_with_chan 0 x s1)|].
    replace (chan (Channel.self x) s2) with x; [exact E3|]. symmetry. exact (chan_with_chan 0 x s1). }
  assert (Hreplies : ∀ ch, ch ≠ 0 → Frames.expected_replies (frames (with_chan 0 y s2)) !! ch = Frames.expected_replies (frames s) !! ch).
  { intros ch Hch. simpl. rewrite !lookup_insert_ne by done. change (Frames.expected_replies (frames s1) !! ch = Frames.expected_replies (frames s) !! ch). by rewrite Hfr. }
  destruct (closed_step b now [] (with_chan 0 y s2) e3) as (s4 & e4 & E4 & [K4 W4 F4 R4 T4 L4 _]).
  { exact (M1 0 H0). }
  { split; [|exact (stopped_below b s e s1 e1 Hs1 Hwb)]. intros ch l er Hl Her. destruct (decide (ch = 0)) as [->|Hch].
    - simpl in Hl. rewrite lookup_insert_eq in Hl. simplify_eq. by apply not_elem_of_nil in Her.
    - rewrite Hreplies in Hl by done. by apply (wb_replies _ _ Hwb ch l). }
  { unfold e3. rewrite (proj1 (promise_set_others _ _ _)). done. }
  assert (Hp3 : ∀ p, p ≠ q → promises e3 !! p = promises e !! p).
  { intros p Hp. unfold e3. rewrite promise_set_lookup, decide_False by lia. simpl. by rewrite P1. }
  exists s1, e1, s2, e2, (with_chan 0 y s2), e3, s4, e4. split_and!; [exact E1|exact Hs1|exact E2|exact E3'|exact E4|]. split; [|exact F4|..].
  - change (Frames.frames (frames s2)) with (Frames.frames (frames s1) ++ [Frames.mkEntry (Method 0 (ConnectionClose code text 0 0)) (Frames.mkSending (Some q) None)]).
    by rewrite Hfr.
  - intros ch l er Hch Hl Her. apply (T4 ch l er); [by rewrite Hreplies|done].
  - intros i c Hc. apply (L4 i (with_state ChClosing c)). exact (L1 i c Hc).
  - exact W4.
  - apply (kp_done _ _ _ K4). simpl. unfold e3. apply Generated.set_complete. simpl. rewrite P1. by apply Hfresh.
  - intros p Hb Hp. rewrite (kp_new _ _ _ K4 p) by lia. simpl. rewrite Hp3 by done. by apply Hfresh.
Qed.

(** The future of the close ends. *)
Lemma close_finished q o s e : waiting s = [(q, Finish, o)] → promises e !! q = Some (Ok VUnit) → ∃ s',
  poll_waiting 0 s e = (tt, s', let e' := set_promises (delete q (promises e)) e in
    match o with Some p => promise_set p (Ok VUnit) e' | None => e' end) ∧ waiting s' = [].
Proof.
  intros Hw Hq. assert (Et : try_wait q s e = (Some (Ok VUnit), s, set_promises (delete q (promises e)) e)) by (unfold try_wait; do 2 f_equal; exact Hq).
  unfold poll_waiting. rewrite bind_get, Hw. cbn [lookup list_lookup]. rewrite (bind_eq _ _ _ _ _ _ _ Et).
  cbv beta iota. rewrite bind_modify. eexists. split; [by destruct o|]. simpl. by rewrite Hw.
Qed.

(** C20: the connection closes.  When the application closes a connected connection with nothing under way on channel 0, the connection and
    all its channels stop at once; exactly one frame is sent, the connection.close with the given code and text; when the server
    answers it, the connection and every channel are closed, without consumers and confirms, the caller of every request,
    whatever the channel, and of every pending confirm is told, every channel is to be removed, and the caller of [close]
    gets its result. *)
Theorem connection_closes code text now v cr s e : open_connection s e → ∃ p e0 s1 e1 s2 e2 s3 e3 s4 e4 s5 e5,
  request (Connection.close code text) s e = (Ok p, s, e0) ∧
  run_next now s e0 = (true, s1, e1) ∧ stopping s e0 s1 e1 ∧
  step now v cr s1 e1 = (tt, s2, e2) ∧
  Frames.frames (frames s2) = Frames.frames (frames s) ++ [Frames.mkEntry (Method 0 (ConnectionClose code text 0 0)) (Frames.mkSending (Some (S p)) None)] ∧
  in_channels (Channels.handle_frame (Method 0 ConnectionCloseOk)) s2 e2 = (Ok tt, s3, e3) ∧
  run_next now s3 e3 = (true, s4, e4) ∧ ConnectionStatus.closed (Channels.connection_status (channels s4)) = true ∧
  (∀ ch l er, ch ≠ 0 → Frames.expected_replies (frames s) !! ch = Some l → er ∈ l → done (Frames.reply_waiter er) e4) ∧
  (∀ i c, Channels.channels (channels s) !! i = Some c →
    ∃ c', Channels.channels (channels s4) !! i = Some c' ∧ closed_channel c' ∧ let_go c e4) ∧
  poll_waiting 0 s4 e4 = (tt, s5, e5) ∧ waiting s5 = [] ∧ promises e5 !! p = Some (Ok VUnit).
Proof.
  intros [Hi Hw H0 Hid Hrec Hpo Hx Hwb]. set (p := next_ref e).
  destruct (closing_exchange p code text (Some p) now v cr s (asked code text e)) as (s1 & e1 & s2 & e2 & s3 & e3 & s4 & e4 & E1 & Hs1 & E2 & E3 & E4 & Hd); try done.
  { simpl. by rewrite (id_rpc _ _ Hi). }
  { exact (id_tasks _ _ Hi). }
  { unfold Frames.check_poison. by rewrite Hpo, (id_poison _ _ Hi). }
  { simpl. lia. }
  { intros k Hk. exact (id_fresh _ _ Hi k Hk). }
  pose proof Hd as [D1 D2 D3 D4 D5 D6 D7]. destruct (close_finished _ _ _ _ D5 D6) as (s5 & E5 & W5).
  exists p, (asked code text e), s1, e1, s2, e2, s3, e3, s4, e4, s5. eexists.
  split_and!; [by apply close_requested|exact E1|exact Hs1|exact E2|exact D1|exact E3|exact E4|exact D2|exact D3|exact D4|exact E5|exact W5|].
  apply Generated.set_complete. simpl. rewrite lookup_delete_ne by (unfold p; lia). apply D7; [done|]. simpl. unfold p. lia.
Qed.

(** Dropping the last handle of a connection closes it the same way, with code 200; nobody waits, and
    nothing is left to run. *)
Theorem dropped_connection_closes now v cr s e : open_connection s e → ∃ e0 s1 e1 s2 e2 s3 e3 s4 e4 s5 e5,
  request (ConnectionCloser.drop ConnectionCloser.new) s e = (tt, s, e0) ∧
  run_next now s e0 = (true, s1, e1) ∧ stopping s e0 s1 e1 ∧
  step now v cr s1 e1 = (tt, s2, e2) ∧
  in_channels (Channels.handle_frame (Method 0 ConnectionCloseOk)) s2 e2 = (Ok tt, s3, e3) ∧
  run_next now s3 e3 = (true, s4, e4) ∧ closed_down (next_ref e) REPLY_SUCCESS "OK" None s e s2 s4 e4 ∧
  poll_waiting 0 s4 e4 = (tt, s5, e5) ∧ waiting s5 = [].
Proof.
  intros [Hi Hw H0 Hid Hrec Hpo Hx Hwb]. set (e0 := sent (CCloseConnection REPLY_SUCCESS "OK" 0 0 None) (sent CSetConnectionClosing e)).
  destruct (closing_exchange (next_ref e) REPLY_SUCCESS "OK" None now v cr s e0) as (s1 & e1 & s2 & e2 & s3 & e3 & s4 & e4 & E1 & Hs1 & E2 & E3 & E4 & Hd); try done.
  { simpl. by rewrite (id_rpc _ _ Hi). }
  { exact (id_tasks _ _ Hi). }
  { unfold Frames.check_poison. by rewrite Hpo, (id_poison _ _ Hi). }
  { intros k Hk. exact (id_fresh _ _ Hi k Hk). }
  pose proof Hd as [D1 D2 D3 D4 D5 D6 D7]. destruct (close_finished _ _ _ _ D5 D6) as (s5 & E5 & W5).
  exists e0, s1, e1, s2, e2, s3, e3, s4, e4, s5. eexists.
  split_and!; [|exact E1|exact Hs1|exact E2|exact E3|exact E4|by split|exact E5|exact W5].
  unfold request, in_channels, zoom, ConnectionCloser.drop. cbn [ConnectionCloser.noop_ ConnectionCloser.new]. rewrite bind_get.
  rewrite (connected_auto_close _ (id_connected _ _ Hi)). do 2 f_equal. by destruct s as [[? ? ? []] ? ? ? ? ? ? ?].
Qed.

End Closing.

Section Witnesses.
Import InternalRPC Recovery Handles Opening.
#[local] Existing Instances number_types number_protocol number_handle.
#[local] Existing Instances Handles.z_order Handles.s_order.

(** Channel 1 of the client has a consumer, a request and a confirm under way. *)
Definition demo_working : t :=
  let s := demo_client demo_busy [demo_reply] in
  set_channels (Channels.set_channel0 (with_state ChConnected (Channels.channel0 (channels s))) (channels s)) s.

Lemma demo_open_connection : open_connection demo_working (set_next_ref 9 env_empty).
Proof.
  split; try done. split.
  - intros ch l er Hl Her. change (({[ 1 := [demo_reply] ]} : gmap Z (list ExpectedReply)) !! ch = Some l) in Hl.
    apply lookup_singleton_Some in Hl as [_ <-]. apply list_elem_of_singleton in Her as ->. vm_compute. lia.
  - intros i c Hc. change (({[ 1 := demo_busy ]} : gmap Z Channel.Chan) !! i = Some c) in Hc. apply lookup_singleton_Some in Hc as [_ <-].
    intros tag p q Hp. change (({[ 1 := (3%nat, 4%nat) ]} : gmap Z (nat * nat)) !! tag = Some (p, q)) in Hp.
    apply lookup_singleton_Some in Hp as [_ [= <- <-]]. vm_compute. lia.
Qed.

Lemma connection_closes_witness : ∃ e0 s4 e4 s5 e5,
  request (Connection.close 200 "bye") demo_working (set_next_ref 9 env_empty) =
    (Ok 9%nat, demo_working, e0) ∧
  ConnectionStatus.closed (Channels.connection_status (channels s4)) = true ∧ done 2%nat e4 ∧ done 3%nat e4 ∧
  poll_waiting 0 s4 e4 = (tt, s5, e5) ∧ promises e5 !! 9%nat = Some (Ok VUnit).
Proof.
  destruct (connection_closes (AT := number_types) (AP := number_protocol) (CH := number_handle)
    200 "bye" 0 (0, 9, 1) 0%nat demo_working (set_next_ref 9 env_empty) demo_open_connection)
    as (p & e0 & s1 & e1 & s2 & e2 & s3 & e3 & s4 & e4 & s5 & e5 & H1 & _ & _ & _ & _ & _ & _ & H2 & H3 & H4 & H5 & _ & H6).
  assert (p = 9%nat) as ->.
  { rewrite (close_requested 200 "bye") in H1 by apply demo_open_connection. by injection H1 as <- _. }
  exists e0, s4, e4, s5, e5. split_and!; [exact H1|exact H2| | |exact H5|exact H6].
  - apply (H3 1 [demo_reply] demo_reply); [done|done|by left].
  - destruct (H4 1 demo_busy) as (c' & _ & _ & [Hd _]); [done|]. by apply (Hd 1 3%nat 4%nat).
Defined.

End Witnesses.
End Closing.
