(* ===== verification/Outage.v ===== *)
(** A recovery that is abandoned: the thread of the io loop gives up connecting ([IoLoop::start],
    src/io_loop.rs) while the recovery future of src/channels.rs waits for the handshake. *)
From S2P Require Import Prelude.
From S2P Require Import Types.
From S2P Require Import Env.
From S2P Require Import Frames.
From S2P Require Import ChannelStatus.
From S2P Require Import Connection.
From S2P Require Import Channel.
From S2P Require Import Generated.
From S2P Require Import Channels.
From S2P Require Import Supervisor.
From S2P Require Import InternalRPC.
From S2P Require Import Recovery.
Open Scope Z_scope.

Module Outage.
Import InternalRPC.
Section Outage.
Context `{AT : AmqpTypes} `{AP : !AmqpProtocol} `{CH : !ConnectionHandle}
  `{HZ : !HashOrder Z} `{HS : !HashOrder string}.

(** The handshake of a recovery is under way: its future waits for [p], the server's start is
    expected, and nothing else is queued or running. *)
Record reconnecting (p : Resolver) (c : ConnectionRef) (chs : list ChannelId) (s : t) (e : Env) : Prop := {
  oc_waiting : waiting s = [(p, ThenChannels chs, None)];
  oc_tasks : tasks s = [];
  oc_rpc : rpc e = [];
  oc_promise : promises e !! p = None;
  oc_expected : Frames.expected_replies (Channel.frames (Channels.conn (channels s))) !! 0 =
    Some [mkExpectedReply (RConnectionStep (StepProtocolHeader p c)) p];
  oc_handle : closer_noop c = true;      (* the connection is one of [for_reconnect] *)
  oc_state : ConnectionStatus.state (Channels.connection_status (channels s)) = CoConnecting;
  oc_recover : Channel.auto_recover (Channels.conn (channels s)) = true;
}.

(** The thread gives up, the runtime polls the future of the recovery, the dispatcher runs. *)
Definition abandon (now : Z) (err : Error) : M t bool :=
  in_channels (Supervisor.abandon_connect err);; poll_waiting 0;; run_next now.

(** Giving up rejects the handshake. *)
Lemma abandon_connect_eq p c chs err s e : reconnecting p c chs s e → ∃ cn,
  in_channels (Supervisor.abandon_connect err) s e = (tt, set_channels (Channels.set_conn cn (channels s)) s, promise_set p (Err err) e) ∧
  ConnectionStatus.state (Channel.connection_status cn) = CoConnecting ∧ Channel.auto_recover cn = true.
Proof.
  intros Hr. pose proof (oc_expected _ _ _ _ _ Hr) as Hx. eexists.
  unfold in_channels, zoom, Supervisor.abandon_connect, Channels.update_connection_status. rewrite bind_modify.
  set (c1 := Channels.set_conn _ (channels s)).
  rewrite (Channels.clear_steps_noop err c1 e _ Hx) by (left; repeat constructor; exact (oc_handle _ _ _ _ _ Hr)).
  split; [reflexivity|].
  split; [exact (oc_state _ _ _ _ _ Hr)|exact (oc_recover _ _ _ _ _ Hr)].
Qed.

(** C30: an abandoned recovery tells nobody.  When the thread gives up reconnecting, with
    an error like the loss of the connection itself, the future of the recovery fails and its
    error becomes a connection error; but this error can be recovered from and the connection is
    not connected, so the dispatcher does nothing about it.  Afterwards no command, no future and no
    thread is left to make progress, while every channel is as before, reconnecting with its
    notifier not fired: whoever waits for the recovery waits for ever. *)
Theorem abandoned_recovery_hangs p c chs now err s e :
  reconnecting p c chs s e → can_be_recovered err = true →
  ∃ s' e', abandon now err s e = (true, s', e') ∧
    rpc e' = [] ∧ tasks s' = [] ∧ waiting s' = [] ∧
    Channels.channels (channels s') = Channels.channels (channels s) ∧
    Channels.channel0 (channels s') = Channels.channel0 (channels s) ∧
    notified e' = notified e ∧ (∀ q, q ≠ p → promises e' !! q = promises e !! q) ∧
    ConnectionStatus.state (Channels.connection_status (channels s')) = CoConnecting.
Proof.
  intros Hr He. destruct (abandon_connect_eq p c chs err s e Hr) as (cn & E1 & Hst & Har). unfold abandon.
  rewrite (bind_eq _ _ _ _ _ _ _ E1). set (s1 := set_channels _ s). set (e1 := promise_set p _ e).
  assert (Hp : promises e1 !! p = Some (Err err)) by (apply Generated.set_complete, (oc_promise _ _ _ _ _ Hr)).
  set (e2 := set_wakes (S (wakes (Recovery.taken p e1))) (set_rpc [CSetConnectionError err] (Recovery.taken p e1))).
  assert (Hrpc : rpc e1 = []). { unfold e1. rewrite promise_set_only. exact (oc_rpc _ _ _ _ _ Hr). }
  assert (E2 : poll_waiting 0 s1 e1 = (tt, set_waiting [] s1, e2)).
  { unfold poll_waiting. rewrite bind_get. change (waiting s1) with (waiting s). rewrite (oc_waiting _ _ _ _ _ Hr).
    assert (Ew : try_wait p s1 e1 = (Some (Err err), s1, Recovery.taken p e1)).
    { unfold try_wait, Recovery.taken. do 2 f_equal. exact Hp. }
    cbn [lookup list_lookup]. rewrite (bind_eq _ _ _ _ _ _ _ Ew), bind_modify. change (waiting s1) with (waiting s).
    rewrite (oc_waiting _ _ _ _ _ Hr). cbn [delete list_delete finish drop_after]. unfold_rpc; unfold rpc_send, modify_env, wake, mbind, M_bind, mret, M_ret.
    change (rpc (Recovery.taken p e1)) with (rpc e1). by rewrite Hrpc. }
  rewrite (bind_eq _ _ _ _ _ _ _ E2). unfold run_next. rewrite bind_get_env. cbn [e2 rpc set_rpc set_wakes].
  eexists _, _. split.
  { unfold modify_env. unfold mbind at 1, M_bind at 1. unfold dispatch. rewrite bind_assoc, bind_get, bind_assoc, bind_get_env.
    cbn [s1 channels set_waiting set_channels Channels.conn Channels.set_conn]. unfold can_recover. rewrite Har, He. cbn [andb].
    assert (E3 : ∀ e, in_channels Channels.should_init_connection_recovery (set_waiting [] s1) e = (false, set_waiting [] s1, e)).
    { intros e'. unfold in_channels, zoom, Channels.should_init_connection_recovery. rewrite bind_get.
      unfold ConnectionStatus.connected, Channels.connection_status. cbn [s1 channels set_waiting set_channels Channels.conn Channels.set_conn].
      by rewrite Hst, bool_decide_false. }
    rewrite bind_assoc, (bind_eq _ _ _ _ _ _ _ (E3 _)). reflexivity. }
  pose proof (oc_tasks _ _ _ _ _ Hr) as Ht.
  split_and!; try done.
  - cbn. unfold Recovery.taken, e1. by rewrite promise_set_only.
  - intros q Hq. cbn. unfold Recovery.taken, e1. cbn. by rewrite lookup_delete_ne, promise_set_lookup, decide_False.
Qed.

End Outage.

Section Witnesses.
#[local] Existing Instances number_types number_protocol number_handle.
#[local] Instance z_order : HashOrder Z := canonical_order Z.
#[local] Instance s_order : HashOrder string := canonical_order string.

(** The lost channel of the recovery, while the handshake is under way. *)
Definition demo_reconnecting : t :=
  let s := Recovery.demo true [(7%nat, ThenChannels [1], None)] in
  set_channels (Channels.set_conn (Channel.mkConn (Configuration.mk 10 4096 0) (ConnectionStatus.mk CoConnecting false None)
    (Frames.set_expected {[ 0 := [mkExpectedReply (RConnectionStep (StepProtocolHeader 7%nat 1%nat)) 7%nat] ]} Frames.default) "/" true)
    (channels s)) s.

Lemma abandoned_recovery_hangs_witness : ∃ s' e' c',
  Channels.channels (channels s') !! 1 = Some c' ∧ ChannelStatus.reconnecting (Channel.status c') = true ∧
  notifier_ready 8%nat e' = false ∧ rpc e' = [] ∧ tasks s' = [] ∧ waiting s' = [].
Proof.
  set (e := set_promises ∅ Recovery.demo_env).
  destruct (abandoned_recovery_hangs (AT := number_types) (AP := number_protocol) (CH := number_handle) 7%nat 1%nat [1] 0
    (error_from (IOError (OtherIo 111))) demo_reconnecting e) as (s' & e' & E & H1 & H2 & H3 & H4 & _ & H5 & _); [by split|done|].
  exists s', e', (Recovery.demo_chan true). rewrite H4. split_and!; try done.
  unfold notifier_ready. rewrite H5. by vm_compute.
Defined.

End Witnesses.
End Outage.
