(* ===== verification/Handshake.v ===== *)
(** Opening a connection: [Connection::connector] and [Connection::start] (src/connection.rs),
    the answers of src/channel.rs to the methods of the server, the futures that send them
    and the writing of the frames, composed. *)
From S2P Require Import Prelude.
From S2P Require Import IdSequence.
From S2P Require Import Buffer.
From S2P Require Import Types.
From S2P Require Import Env.
From S2P Require Import Frames.
From S2P Require Import Registry.
From S2P Require Import ChannelStatus.
From S2P Require Import Acknowledgements.
From S2P Require Import Consumers.
From S2P Require Import Connection.
From S2P Require Import Channel.
From S2P Require Import Generated.
From S2P Require Import Channels.
From S2P Require Import Heartbeat.
From S2P Require Import InternalRPC.
From S2P Require Import Recovery.
Open Scope Z_scope.

Module Handshake.
Import InternalRPC.
Section Handshake.
Context `{AT : AmqpTypes} `{AP : !AmqpProtocol} `{CH : !ConnectionHandle}
  `{HZ : !HashOrder Z} `{HS : !HashOrder string}.

(** ** Setting a connection up *)

(** [Connection::connector], without the io loop: the parts of a connection. *)
Definition connector {S} (conf : Configuration.t) (vhost : ShortString) (auto_recover : bool) (now : Z) : M S t :=
  hb ← Heartbeat.new now;
  su ← SecretUpdate.new;
  cs ← Channels.new (Channel.mkConn conf ConnectionStatus.default Frames.default vhost auto_recover);
  mret (mk cs ∅ hb su [] [] [] []).

(** [Connection::start]. *)
Definition start (version : Z * Z * Z) (c : ConnectionRef) : M t (res Resolver) := in_channels (Channels.start version c).

(** ** One exchange of the handshake *)

(** The io loop writes the next frame out. *)
Definition write_next : M t (option AMQPFrame) :=
  fe ← in_channels (Channels.in_frames (Frames.pop true));
  match fe with
  | Some fe => Frames.sending_resolve (Frames.sending fe);; mret (Some (Frames.frame fe))
  | None => mret None
  end.

(** The server sends a method, the dispatcher spawns the future that answers, the runtime polls
    it, the io loop writes the answer. *)
Definition exchange (now : Z) (version : Z * Z * Z) (c : ConnectionRef) (m : AMQPClass) : M t (res (option AMQPFrame)) :=
  let! _ := in_channels (Channels.handle_frame (Method 0 m)) in
  run_next now;;
  poll_task version c;;
  f ← write_next;
  mret (Ok f).

(** ** The state between two exchanges *)

Definition frames (s : t) : Frames.t := Channel.frames (Channels.conn (channels s)).
Definition channel0 (s : t) : Channel.t := Channel.mk (Channels.channel0 (channels s)) (Channels.conn (channels s)).

(** Channel 0 expects [l]; nothing is queued or running; [conf] is the configuration, and
    the caller waits for [r]. *)
Record between (conf : Configuration.t) (vhost : ShortString) (r : Resolver) (l : list ExpectedReply) (s : t) (e : Env) : Prop := {
  bt_id : Channel.id (Channels.channel0 (channels s)) = 0;
  bt_receive : ChannelStatus.can_receive_messages (Channel.status (Channels.channel0 (channels s))) = true;
  bt_state : ConnectionStatus.state (Channels.connection_status (channels s)) = CoConnecting;
  bt_configuration : Channel.configuration (Channels.conn (channels s)) = conf;
  bt_vhost : Channel.vhost (Channels.conn (channels s)) = vhost;
  bt_poison : Frames.check_poison (frames s) 0 = None;
  bt_queues : Frames.retry_frames (frames s) = [] ∧ Frames.publish_frames (frames s) = [] ∧
              Frames.frames (frames s) = [] ∧ Frames.low_prio_frames (frames s) = [];
  bt_expected : Generated.expected (channel0 s) = l;
  bt_others : ∀ ch, ch ≠ 0 → Frames.expected_replies (frames s) !!! ch = [];
  bt_channels : Channels.channels (channels s) = ∅;
  bt_rpc : rpc e = [];
  bt_tasks : tasks s = [];
  bt_fresh : ∀ p, (next_ref e ≤ p)%nat → promises e !! p = None;
  bt_caller : (r < next_ref e)%nat ∧ promises e !! r = None;
}.

(** The pieces of an exchange *)

Lemma receive_channel0 m s e a x e' : Generated.receive_method m (channel0 s) e = (a, x, e') →
  in_channels (Channels.handle_frame (Method 0 m)) s e = (a, Recovery.with_chan 0 x s, e').
Proof. intros E. by apply (Recovery.receive_lift 0 m s e (Channels.channel0 (channels s))). Qed.

Lemma call_channel0 k a s e p x e' : k (channel0 s) e = (Ok p, x, e') →
  call_channel 0 k a s e = (PAwait p a, Recovery.with_chan 0 x s, e').
Proof. intros E. by apply (Recovery.call_lift 0 k a s e (Channels.channel0 (channels s))). Qed.

Lemma channel0_with_chan x s : channel0 (Recovery.with_chan 0 x s) = x.
Proof. by destruct x. Qed.

(** The only frame queued is written. *)
Definition written (fe : Frames.FrameEntry) (e : Env) : Env := env_of (Frames.sending_resolve (Frames.sending fe) tt e).

Lemma write_only fe x s e :
  Frames.retry_frames (Channel.frames (Channel.conn x)) = [] → Frames.publish_frames (Channel.frames (Channel.conn x)) = [] →
  Frames.frames (Channel.frames (Channel.conn x)) = [fe] →
  write_next (Recovery.with_chan 0 x s) e =
  (Some (Frames.frame fe),
   Recovery.with_chan 0 (Generated.map_frames (Frames.set_frames []) x) s, written fe e).
Proof.
  intros H1 H2 H3.
  assert (E : in_channels (Channels.in_frames (Frames.pop true)) (Recovery.with_chan 0 x s) e =
    (Some fe, Recovery.with_chan 0 (Generated.map_frames (Frames.set_frames []) x) s, e)).
  { unfold in_channels, Channels.in_frames, Frames.pop, zoom. cbv beta delta [mbind M_bind get put mret M_ret].
    cbn [Recovery.with_chan channels set_channels Channels.put_ Channels.conn Channels.set_channel0 Channels.set_conn Z.eqb].
    unfold Frames.pop_. by rewrite H1, H2, H3. }
  unfold write_next. rewrite (bind_eq _ _ _ _ _ _ _ E). unfold written, Frames.sending_resolve.
  by destruct (Frames.resolver _).
Qed.

(** The store after a future was spawned and dispatched. *)
Definition dispatched (e : Env) : Env := set_wakes (2 + wakes e) e.

Lemma spawned_next now task s e : rpc e = [] → tasks s = [] →
  run_next now s (env_of (spawn task tt e)) = (true, set_tasks [(FTask task, None)] s, dispatched e).
Proof. intros Hr Ht. destruct e, s. simpl in *. subst. reflexivity. Qed.

(** An exchange that makes the client answer. *)
Lemma exchange_eq now v c m task k a p fe s e x1 x2 e2 :
  rpc e = [] → tasks s = [] →
  Generated.receive_method m (channel0 s) e = (Ok tt, x1, env_of (spawn task tt e)) →
  first_poll_task task (Recovery.with_chan 0 x1 s) (dispatched e) =
    call_channel 0 k a (Recovery.with_chan 0 x1 s) (dispatched e) →
  k x1 (dispatched e) = (Ok p, x2, e2) →
  Frames.retry_frames (Channel.frames (Channel.conn x2)) = [] → Frames.publish_frames (Channel.frames (Channel.conn x2)) = [] →
  Frames.frames (Channel.frames (Channel.conn x2)) = [fe] →
  exchange now v c m s e =
  (Ok (Some (Frames.frame fe)),
   set_waiting (waiting s ++ [(p, a, None)]) (Recovery.with_chan 0 (Generated.map_frames (Frames.set_frames []) x2) s),
   written fe e2).
Proof.
  intros Hr Ht E1 E2 E3 Q1 Q2 Q3. unfold exchange. rewrite (try_bind_ok _ _ _ _ _ _ _ (receive_channel0 _ _ _ _ _ _ E1)).
  rewrite (bind_eq _ _ _ _ _ _ _ (spawned_next now task (Recovery.with_chan 0 x1 s) e Hr Ht)).
  set (s2 := set_waiting (waiting s ++ [(p, a, None)]) (Recovery.with_chan 0 x2 s)).
  assert (E4 : poll_task v c (set_tasks [(FTask task, None)] (Recovery.with_chan 0 x1 s)) (dispatched e) = (tt, s2, e2)).
  { unfold poll_task. rewrite bind_get. cbn [tasks set_tasks]. rewrite bind_modify.
    assert (Hs : set_tasks [] (set_tasks [(FTask task, None)] (Recovery.with_chan 0 x1 s)) = Recovery.with_chan 0 x1 s).
    { destruct s; simpl in *. by subst. }
    rewrite Hs.
    assert (E5 : first_poll v c (FTask task) (Recovery.with_chan 0 x1 s) (dispatched e) =
      (PAwait p a, Recovery.with_chan 0 x2 s, e2)).
    { unfold first_poll. rewrite bind_get_env, E2.
      rewrite (call_channel0 k a _ _ p x2 e2) by by rewrite channel0_with_chan.
      by rewrite Recovery.with_with_chan. }
    by rewrite (bind_eq _ _ _ _ _ _ _ E5). }
  rewrite (bind_eq _ _ _ _ _ _ _ E4).
  assert (E6 : write_next s2 e2 = (Some (Frames.frame fe),
    set_waiting (waiting s ++ [(p, a, None)]) (Recovery.with_chan 0 (Generated.map_frames (Frames.set_frames []) x2) s), written fe e2)).
  { exact (write_only fe x2 (set_waiting (waiting s ++ [(p, a, None)]) s) e2 Q1 Q2 Q3). }
  by rewrite (bind_eq _ _ _ _ _ _ _ E6).
Qed.

(** ** The stages *)

Notation expecting_step st q := [mkExpectedReply (RConnectionStep st) q] (only parsing).

Lemma find_step st q l x e : Generated.expected x = mkExpectedReply (RConnectionStep st) q :: l →
  Channel.in_frames (Frames.find_connection_step (Channel.id (Channel.self x))) x e = (Some st, Recovery.expect l x, e).
Proof.
  intros Hx%Generated.expected_cons. unfold Frames.find_connection_step, Channel.in_frames, zoom.
  assert (E : Frames.find_expected_reply (Channel.id (Channel.self x)) Frames.is_connection_step (Channel.frames (Channel.conn x)) e =
    (Some (RConnectionStep st), Frames.set_expected (<[Channel.id (Channel.self x) := l]>
      (Frames.expected_replies (Channel.frames (Channel.conn x)))) (Channel.frames (Channel.conn x)), e)).
  { unfold Frames.find_expected_reply. by rewrite bind_get, Hx. }
  by rewrite (bind_eq _ _ _ _ _ _ _ E).
Qed.

Lemma on_channel0_eq m k x e : Channel.id (Channel.self x) = 0 → Generated.on_channel0 m k x e = k x e.
Proof.
  intros Hid. unfold Generated.on_channel0, Channel.assert_channel0, Channel.this_id.
  assert (E : (i ← (s ← get; mret (Channel.id (Channel.self s)));
    if i =? 0 then mret (Ok tt) else
    let err := mkAMQPError (Hard COMMANDINVALID) ("connection frame received on channel " +:+ pretty i) in
    Channel.close_connection_for err (get_amqp_class_id m) (get_amqp_method_id m);;
    mret (Err (error_from (ProtocolError err)))) x e = (Ok tt, x, e)).
  { rewrite bind_assoc, bind_get. unfold mbind, M_bind, mret, M_ret. by rewrite Hid. }
  by rewrite (try_bind_ok _ _ _ _ _ _ _ E).
Qed.

(** The methods of the handshake reach their hook with the step expected. *)
Lemma step_received conf vh r st q s e ctx m k : between conf vh r (expecting_step st q) s e →
  Generated.connection_step ctx m k (channel0 s) e = k st (Recovery.expect [] (channel0 s)) e.
Proof.
  intros [Hid Hrc _ _ _ _ _ Hx _ _ _ _ _ _]. unfold Generated.connection_step, Channel.this_id.
  rewrite on_channel0_eq, Generated.can_receive_eq by done.
  rewrite bind_assoc, bind_get. unfold mbind at 1, M_bind at 1, mret at 1, M_ret at 1.
  by rewrite (bind_eq _ _ _ _ _ _ _ (find_step st q [] _ e Hx)).
Qed.

Lemma connecting_eq {B} conf vh r l s e (k : ConnectionState → M Channel.t B) : between conf vh r l s e →
  (Channel.connection_state_ ≫= k) (Recovery.expect [] (channel0 s)) e = k CoConnecting (Recovery.expect [] (channel0 s)) e.
Proof.
  intros Hb. unfold Channel.connection_state_. rewrite bind_assoc, bind_get. unfold mbind, M_bind, mret, M_ret.
  pose proof (bt_state _ _ _ _ _ _ Hb) as Hst. unfold Channels.connection_status in Hst. cbn [Recovery.expect Generated.map_frames channel0
    Channel.conn Channel.set_conn Channel.set_frames_ Channel.connection_status]. by rewrite Hst.
Qed.

(** The client's answer leaves the connection between two exchanges. *)
Lemma between_answered conf conf' vh r l s e msg reply : between conf vh r l s e →
  let x1 := Channel.set_conn (Channel.set_configuration conf') (Recovery.expect [] (channel0 s)) in
  let p := next_ref e in
  let x2 := Generated.map_frames (Generated.requested 0 msg reply p) x1 in
  between conf' vh r [mkExpectedReply reply p]
    (set_waiting (waiting s ++ [(p, Finish, None)]) (Recovery.with_chan 0 (Generated.map_frames (Frames.set_frames []) x2) s))
    (Generated.after_call (dispatched e)).
Proof.
  intros [Hid Hrc Hst Hcf Hvh Hp (Q1 & Q2 & Q3 & Q4) Hx Ho Hcs Hr Ht Hf [Hc1 Hc2]]. cbv zeta.
  split; try done.
  - unfold Generated.expected. simpl. rewrite Hid, !lookup_total_insert_eq. done.
  - intros ch Hch. unfold frames. simpl. rewrite ?Hid, !lookup_total_insert_ne by done. by apply Ho.
  - intros q Hq. apply Hf. cbn in Hq. lia.
  - split; [cbn; lia|done].
Qed.

Lemma set_configuration_id conf vh r l s e : between conf vh r l s e →
  Channel.set_conn (Channel.set_configuration conf) (Recovery.expect [] (channel0 s)) = Recovery.expect [] (channel0 s).
Proof. intros Hb. rewrite <- (bt_configuration _ _ _ _ _ _ Hb). by destruct s as [[? ? ? [] ?]]. Qed.

Definition start_ok (c : ConnectionRef) (starter : LongString) : AMQPClass :=
  ConnectionStartOk (announced_properties (amqp_client_properties c)) (mechanism c) starter (amqp_locale c).

(** An exchange the client answers with a request of its own. *)
Lemma exchange_call now v c m task conf conf' vh r l s e msg reply :
  between conf vh r l s e →
  let x1 := Channel.set_conn (Channel.set_configuration conf') (Recovery.expect [] (channel0 s)) in
  Generated.receive_method m (channel0 s) e = (Ok tt, x1, env_of (spawn task tt e)) →
  (∀ s e, first_poll_task task s e = call_channel 0 (Generated.waiting (Generated.call_step msg (λ _, reply) c)) Finish s e) →
  ∃ s' e' q, exchange now v c m s e = (Ok (Some (Method 0 msg)), s', e') ∧
    between conf' vh r [mkExpectedReply reply q] s' e' ∧ waiting s' = waiting s ++ [(q, Finish, None)].
Proof.
  intros Hb x1 E1 E2.
  assert (Hp : Frames.check_poison (Channel.frames (Channel.conn x1)) (Channel.id (Channel.self x1)) = None).
  { simpl. rewrite (bt_id _ _ _ _ _ _ Hb). exact (bt_poison _ _ _ _ _ _ Hb). }
  destruct (bt_queues _ _ _ _ _ _ Hb) as (Q1 & Q2 & Q3 & Q4). set (p := next_ref e).
  assert (E3 : Generated.waiting (Generated.call_step msg (λ _, reply) c) x1 (dispatched e) =
    (Ok p, Generated.map_frames (Generated.requested 0 msg reply p) x1, Generated.after_call (dispatched e))).
  { unfold Generated.waiting. unfold mbind, M_bind. rewrite (Generated.call_step_eq _ _ _ _ _ Hp), Generated.call_eq by done.
    simpl. rewrite (bt_id _ _ _ _ _ _ Hb). reflexivity. }
  eexists _, _, p. split; [|split; [exact (between_answered conf conf' vh r l s e msg reply Hb)|done]].
  rewrite (exchange_eq now v c m task _ Finish p (Frames.mkEntry (Method 0 msg) (Frames.mkSending (Some p) None))
    s e x1 _ _ (bt_rpc _ _ _ _ _ _ Hb) (bt_tasks _ _ _ _ _ _ Hb) E1 (E2 _ _) E3); [done|exact Q1|exact Q2|].
  cbn. unfold frames in Q3. by rewrite Q3.
Qed.

(** connection.start is answered with the credentials. *)
Lemma exchange_start now v c ms ls starter conf vh r q s e :
  between conf vh r (expecting_step (StepProtocolHeader r c) q) s e → auth_starter c = Ok starter →
  ∃ s' e' q', exchange now v c (ConnectionStart ms ls) s e = (Ok (Some (Method 0 (start_ok c starter))), s', e') ∧
    between conf vh r (expecting_step (StepStartOk r c) q') s' e' ∧ waiting s' = waiting s ++ [(q', Finish, None)].
Proof.
  intros Hb Ha. eapply (exchange_call now v c _ _ conf conf); [exact Hb| |].
  - rewrite (set_configuration_id _ _ _ _ _ _ Hb). cbn [Generated.receive_method]. unfold Generated.receive_connection_start.
    rewrite (step_received conf vh r _ q s e _ _ _ Hb). unfold Channel.on_connection_start_received.
    rewrite (connecting_eq _ _ _ _ _ _ _ Hb), decide_False by (by intros []). rewrite Ha. reflexivity.
  - done.
Qed.

(** Every challenge is answered. *)
Lemma exchange_secure now v c challenge response conf vh r st q s e :
  between conf vh r (expecting_step st q) s e → st = StepStartOk r c ∨ st = StepSecureOk r c →
  continue_auth c challenge = Ok response →
  ∃ s' e' q', exchange now v c (ConnectionSecure challenge) s e = (Ok (Some (Method 0 (ConnectionSecureOk response))), s', e') ∧
    between conf vh r (expecting_step (StepSecureOk r c) q') s' e' ∧ waiting s' = waiting s ++ [(q', Finish, None)].
Proof.
  intros Hb Hst Ha. eapply (exchange_call now v c _ _ conf conf); [exact Hb| |].
  - rewrite (set_configuration_id _ _ _ _ _ _ Hb). cbn [Generated.receive_method]. unfold Generated.receive_connection_secure.
    rewrite (step_received conf vh r _ q s e _ _ _ Hb). unfold Channel.on_connection_secure_received.
    rewrite (connecting_eq _ _ _ _ _ _ _ Hb), decide_False by (by intros []).
    destruct Hst as [-> | ->]; rewrite Ha; reflexivity.
  - done.
Qed.

(** connection.tune is answered with the negotiated configuration. *)
Definition tune_ok (conf : Configuration.t) : AMQPClass :=
  ConnectionTuneOk (Configuration.channel_max conf) (Configuration.frame_max conf) (Configuration.heartbeat conf).

Lemma exchange_tune now v c cmax fmax hb conf vh r st q s e :
  between conf vh r (expecting_step st q) s e → st = StepStartOk r c ∨ st = StepSecureOk r c →
  let conf' := Configuration.tune_connection_configuration cmax fmax hb conf in
  ∃ s' e' p, exchange now v c (ConnectionTune cmax fmax hb) s e = (Ok (Some (Method 0 (tune_ok conf'))), s', e') ∧
    between conf' vh r [] s' e' ∧ promises e' !! p = Some (Ok VUnit) ∧
    waiting s' = waiting s ++ [(p, ThenOpen vh c r, None)].
Proof.
  intros Hb Hst conf'. set (x1 := Channel.set_conn (Channel.set_configuration conf') (Recovery.expect [] (channel0 s))).
  assert (E1 : Generated.receive_method (ConnectionTune cmax fmax hb) (channel0 s) e =
    (Ok tt, x1, env_of (spawn (TConnectionTuneOk vh r c) tt e))).
  { cbn [Generated.receive_method]. unfold Generated.receive_connection_tune.
    rewrite (step_received conf vh r _ q s e _ _ _ Hb). unfold Channel.on_connection_tune_received.
    rewrite (connecting_eq _ _ _ _ _ _ _ Hb), decide_False by (by intros []).
    assert (Hx : (λ c0, Channel.set_configuration (Configuration.tune_connection_configuration cmax fmax hb (Channel.configuration c0)) c0)
      (Channel.conn (Recovery.expect [] (channel0 s))) = Channel.conn x1).
    { simpl. by rewrite (bt_configuration _ _ _ _ _ _ Hb). }
    rewrite <- (bt_vhost _ _ _ _ _ _ Hb).
    destruct Hst as [-> | ->]; rewrite bind_modify, bind_get; unfold Channel.set_conn at 1 2; rewrite Hx; reflexivity. }
  assert (Hp : Frames.check_poison (Channel.frames (Channel.conn x1)) (Channel.id (Channel.self x1)) = None).
  { simpl. rewrite (bt_id _ _ _ _ _ _ Hb). exact (bt_poison _ _ _ _ _ _ Hb). }
  destruct (bt_queues _ _ _ _ _ _ Hb) as (Q1 & Q2 & Q3 & Q4). set (p := next_ref e).
  assert (E3 : Generated.connection_tune_ok (Configuration.channel_max conf') (Configuration.frame_max conf') (Configuration.heartbeat conf')
    x1 (dispatched e) = (Ok p, Generated.map_frames (queue_method 0 (tune_ok conf') p) x1, Generated.after_call (dispatched e))).
  { unfold Generated.connection_tune_ok, Generated.waiting.
    rewrite (bind_eq _ _ _ _ _ _ _ (cast_eq (tune_ok conf') x1 (dispatched e) Hp)). simpl.
    rewrite (bt_id _ _ _ _ _ _ Hb). reflexivity. }
  set (fe := Frames.mkEntry (Method 0 (tune_ok conf')) (Frames.mkSending (Some p) (Some p))).
  pose proof (bt_fresh _ _ _ _ _ _ Hb) as Hf. destruct (bt_caller _ _ _ _ _ _ Hb) as [Hc1 Hc2].
  eexists _, _, p. split; [|split_and!].
  - rewrite (exchange_eq now v c (ConnectionTune cmax fmax hb) (TConnectionTuneOk vh r c) _ (ThenOpen vh c r) p fe
      s e x1 _ _ (bt_rpc _ _ _ _ _ _ Hb) (bt_tasks _ _ _ _ _ _ Hb) E1 eq_refl E3); [reflexivity|exact Q1|exact Q2|].
    cbn. unfold frames in Q3. by rewrite Q3.
  - destruct Hb as [Hid Hrc Hs Hcf Hvh Hpo Hq Hx Ho Hcs Hr Ht _ _]. split; try done.
    + unfold Generated.expected. simpl. by rewrite Hid, lookup_total_insert_eq.
    + intros ch Hch. unfold frames. simpl. rewrite ?Hid, !lookup_total_insert_ne by done. by apply Ho.
    + unfold written. simpl. by rewrite promise_set_only.
    + unfold written. simpl. rewrite promise_set_next_ref. intros q' Hq'. cbn in Hq'.
      rewrite promise_set_lookup, decide_False by lia. apply Hf. cbn. lia.
    + unfold written. simpl. rewrite promise_set_next_ref. split; [cbn; lia|].
      rewrite promise_set_lookup, decide_False by lia. done.
  - unfold written. simpl. apply Generated.set_complete. apply Hf. cbn. lia.
  - done.
Qed.

Lemma try_wait_ok {S} p v (s : S) e : promises e !! p = Some (Ok v) →
  try_wait p s e = (Some (Ok v), s, Recovery.taken p e).
Proof. intros Hp. unfold try_wait, Recovery.taken. do 2 f_equal. exact Hp. Qed.

(** Once tune-ok is written, the virtual host is opened. *)
Lemma exchange_open c conf vh r w p s e :
  between conf vh r [] s e → promises e !! p = Some (Ok VUnit) → waiting s = w ++ [(p, ThenOpen vh c r, None)] →
  ∃ s' e' q, (poll_waiting (length w);; write_next) s e = (Some (Method 0 (ConnectionOpen vh)), s', e') ∧
    between conf vh r [mkExpectedReply (RConnectionOpenOk q c r) q] s' e' ∧ waiting s' = w ++ [(q, Finish, None)].
Proof.
  intros Hb Hp Hw. destruct (bt_queues _ _ _ _ _ _ Hb) as (Q1 & Q2 & Q3 & Q4). set (q := next_ref e).
  set (x1 := channel0 s). set (fe := Frames.mkEntry (Method 0 (ConnectionOpen vh)) (Frames.mkSending (Some q) None)).
  assert (Hpo : Frames.check_poison (Channel.frames (Channel.conn x1)) (Channel.id (Channel.self x1)) = None).
  { simpl. rewrite (bt_id _ _ _ _ _ _ Hb). exact (bt_poison _ _ _ _ _ _ Hb). }
  set (x2 := Generated.map_frames (Generated.requested 0 (ConnectionOpen vh) (RConnectionOpenOk q c r) q) x1).
  assert (E1 : Generated.connection_open vh c r x1 (Recovery.taken p e) = (Ok q, x2, Generated.after_call (Recovery.taken p e))).
  { unfold Generated.connection_open, Generated.waiting, mbind, M_bind.
    rewrite (Generated.call_step_eq _ _ _ _ _ Hpo), Generated.call_eq by done.
    simpl. rewrite (bt_id _ _ _ _ _ _ Hb). reflexivity. }
  assert (E2 : poll_waiting (length w) s e = (tt, set_waiting (w ++ [(q, Finish, None)]) (Recovery.with_chan 0 x2 s),
    Generated.after_call (Recovery.taken p e))).
  { unfold poll_waiting. rewrite bind_get, Hw. rewrite list_lookup_middle by done.
    rewrite (bind_eq _ _ _ _ _ _ _ (try_wait_ok p _ s e Hp)), bind_modify, Hw, delete_middle, app_nil_r.
    rewrite (bind_eq _ _ _ _ _ _ _ (call_channel0 (Generated.connection_open vh c r) Finish (set_waiting w s) _ q x2 _ E1)).
    reflexivity. }
  eexists _, _, q. split; [rewrite (bind_eq _ _ _ _ _ _ _ E2);
    exact (write_only fe x2 (set_waiting (w ++ [(q, Finish, None)]) s) _ Q1 Q2 ltac:(cbn; unfold frames in Q3; by rewrite Q3))|].
  split; [|done].
  destruct Hb as [Hid Hrc Hst Hcf Hvh Hpo' _ Hx Ho Hcs Hr Ht Hf [Hc1 Hc2]]. split; try done.
  - unfold Generated.expected in *. simpl in *. rewrite Hid in *. rewrite !lookup_total_insert_eq.
    change (Frames.expected_replies _ !!! 0) with (Frames.expected_replies (Channel.frames (Channels.conn (channels s))) !!! 0).
    by rewrite Hx.
  - intros ch Hch. unfold frames. simpl. rewrite ?Hid, !lookup_total_insert_ne by done. by apply Ho.
  - intros q' Hq'. apply (Recovery.taken_fresh p e (next_ref e)); [done|]. cbn in Hq'. lia.
  - split; [cbn; lia|]. cbn. unfold Recovery.taken. cbn. apply lookup_delete_None. by right.
Qed.

Lemma promise_set_done p r q v e : promises e !! p = Some v → promises (promise_set q r e) !! p = Some v.
Proof.
  intros Hp. unfold promise_set. destruct (promises e !! q) eqn:Hq; [done|]. simpl.
  rewrite lookup_insert_ne; [done|]. intros ->. by rewrite Hp in Hq.
Qed.

(** connection.open-ok connects, and the caller of [connect] gets its connection. *)
Lemma opened conf vh r c q s e :
  between conf vh r [mkExpectedReply (RConnectionOpenOk q c r) q] s e →
  ∃ s' e', in_channels (Channels.handle_frame (Method 0 ConnectionOpenOk)) s e = (Ok tt, s', e') ∧
    ConnectionStatus.state (Channels.connection_status (channels s')) = CoConnected ∧
    Channel.configuration (Channels.conn (channels s')) = conf ∧
    Generated.expected (channel0 s') = [] ∧ Frames.frames (frames s') = [] ∧
    promises e' !! r = Some (Ok (VConnection c)).
Proof.
  intros Hb. pose proof (Generated.expected_cons _ _ _ (bt_expected _ _ _ _ _ _ Hb)) as Hx.
  set (x := Recovery.expect [] (channel0 s)).
  set (e' := promise_set q (Ok VUnit) (env_of (send_event EvConnected tt (promise_set r (Ok (VConnection c)) e)))).
  assert (E : Generated.receive_method ConnectionOpenOk (channel0 s) e =
    (Ok tt, Channel.set_conn (λ cn, Channel.set_connection_status
      (ConnectionStatus.set_state CoConnected (Channel.connection_status cn)).2 cn) x, e')).
  { cbn [Generated.receive_method]. unfold Generated.receive_connection_open_ok.
    rewrite (on_channel0_eq _ _ (channel0 s) _ (bt_id _ _ _ _ _ _ Hb)), Generated.can_receive_eq by exact (bt_receive _ _ _ _ _ _ Hb).
    erewrite Generated.expecting_first by done. unfold Generated.completing, Channel.on_connection_open_ok_received.
    rewrite bind_assoc. change (Generated.map_frames _ (channel0 s)) with x.
    rewrite (connecting_eq _ _ _ _ _ _ _ Hb), decide_False by (by intros []). reflexivity. }
  eexists _, _. split; [exact (receive_channel0 _ _ _ _ _ _ E)|].
  pose proof (bt_configuration _ _ _ _ _ _ Hb). destruct (bt_queues _ _ _ _ _ _ Hb) as (_ & _ & Hq & _).
  split_and!; try done.
  - unfold Generated.expected. simpl. by rewrite lookup_total_insert_eq.
  - destruct (bt_caller _ _ _ _ _ _ Hb) as [_ Hc]. unfold e'.
    assert (Hr : promises (env_of (send_event EvConnected tt (promise_set r (Ok (VConnection c)) e))) !! r = Some (Ok (VConnection c))).
    { unfold send_event. simpl. case_decide; simpl; by apply Generated.set_complete. }
    by apply promise_set_done.
Qed.

(** ** The whole handshake *)

(** Connecting, up to the protocol header: the parts are made, the dispatcher takes the status of
    channel 0, [start] queues the header, the io loop writes it. *)
Definition begin_handshake (conf : Configuration.t) (vhost : ShortString) (auto_recover : bool) (now : Z) (v : Z * Z * Z)
    (c : ConnectionRef) : M t (res (Resolver * option AMQPFrame)) :=
  s ← connector conf vhost auto_recover now;
  put s;;
  run_next now;;
  let! r := start v c in
  f ← write_next;
  mret (Ok (r, f)).

Fixpoint exchanges (now : Z) (v : Z * Z * Z) (c : ConnectionRef) (ms : list AMQPClass) : M t (res (list (option AMQPFrame))) :=
  match ms with
  | [] => mret (Ok [])
  | m :: ms =>
    let! f := exchange now v c m in
    let! fs := exchanges now v c ms in
    mret (Ok (f :: fs))
  end.

(** tune-ok is written: its future goes on, and the io loop writes connection.open; the server answers. *)
Definition end_handshake : M t (res (option AMQPFrame)) :=
  s ← get;
  poll_waiting (pred (length (waiting s)));;
  f ← write_next;
  let! _ := in_channels (Channels.handle_frame (Method 0 ConnectionOpenOk)) in
  mret (Ok f).

(** The methods of a server that sends [challenges] and asks for [cmax], [fmax] and [hb]. *)
Definition server_methods (ms ls : LongString) (challenges : list LongString) (cmax : ChannelId) (fmax : FrameSize) (hb : Z) : list AMQPClass :=
  ConnectionStart ms ls :: (ConnectionSecure <$> challenges) ++ [ConnectionTune cmax fmax hb].

(** The parts of a connection, made when the next reference is [n]. *)
Definition parts (conf : Configuration.t) (vhost : ShortString) (auto_recover : bool) (now : Z) (n : nat) : t :=
  mk (Channels.mk ∅ (IdSequence.new false)
       (Channel.mkChan 0 (ChannelStatus.mk 0 false true ChConnected [] None (3 + n)%nat) Registry.empty (Acknowledgements.new 0) ∅ None false)
       (Channel.mkConn conf ConnectionStatus.default Frames.default vhost auto_recover) (4 + n)%nat)
     ∅ (Heartbeat.mk n now now None (1 + n)%nat) (SecretUpdate.mk (2 + n)%nat) [] [] [] [].

Lemma connector_eq {S} conf vh ar now (s : S) e : rpc e = [] → ∃ w,
  connector conf vh ar now s e = (parts conf vh ar now (next_ref e), s,
    set_wakes w (set_rpc [CSetChannelStatus 0 (3 + next_ref e)%nat] (set_next_ref (5 + next_ref e) e))).
Proof. intros Hr. eexists. destruct e. simpl in *. subst. reflexivity. Qed.

Lemma dispatch_status now ch k s e : rpc e = [CSetChannelStatus ch k] → ∃ w,
  run_next now s e = (true, set_channels_status (<[ch := k]> (channels_status s)) s, set_wakes w (set_rpc [] e)).
Proof. intros Hr. eexists. unfold run_next. rewrite bind_get_env, Hr. reflexivity. Qed.

(** [start] queues the protocol header and expects the server's start. *)
Definition header_entry (v : Z * Z * Z) (r : Resolver) : Frames.FrameEntry :=
  Frames.mkEntry (ProtocolHeader v) (Frames.mkSending (Some r) None).

Definition started (v : Z * Z * Z) (c : ConnectionRef) (r : Resolver) (s : t) : Channel.t :=
  Channel.set_conn (λ cn, Channel.set_connection_status (ConnectionStatus.set_connecting (Channel.connection_status cn)).2 cn)
    (Generated.map_frames (λ f, Frames.set_expected
      (<[0 := (Frames.expected_replies f !!! 0) ++ [mkExpectedReply (RConnectionStep (StepProtocolHeader r c)) r]]> (Frames.expected_replies f))
      (Frames.set_frames (Frames.frames f ++ [header_entry v r]) f)) (channel0 s)).

Lemma start_eq v c s e : Channel.id (Channels.channel0 (channels s)) = 0 →
  ConnectionStatus.poison_ (Channels.connection_status (channels s)) = None →
  Frames.check_poison (frames s) 0 = None → ∃ w,
  start v c s e = (Ok (next_ref e), Recovery.with_chan 0 (started v c (next_ref e) s) s,
    set_wakes w (set_next_ref (S (next_ref e)) e)).
Proof.
  intros Hid Hpo Hp. eexists. unfold start, Channels.start. destruct s as [[cs seq c0 [cf [st b po] fr vh ar] k] ? ? ? ? ? ? ?].
  simpl in Hid, Hpo, Hp. unfold frames in Hp. simpl in Hp. subst po.
  unfold in_channels, zoom, promise_new, Channels.in_channel0, Channels.with_channel, Channel.send_frame, Channel.this_id, Channel.in_frames,
    Channel.drop_refused, Frames.push, zoom. cbv beta delta [mbind M_bind get put mret M_ret modify fresh].
  destruct fr. unfold Frames.check_poison in *. cbn in Hp |- *. rewrite Hid, Hp. cbn. rewrite Hid, Hp. reflexivity.
Qed.

(** The connection starts between two exchanges, with the header written. *)
Lemma begins conf vh ar now v c s0 e : rpc e = [] → (∀ p, (next_ref e ≤ p)%nat → promises e !! p = None) → ∃ s' e' r,
  begin_handshake conf vh ar now v c s0 e = (Ok (r, Some (ProtocolHeader v)), s', e') ∧
  between conf vh r [mkExpectedReply (RConnectionStep (StepProtocolHeader r c)) r] s' e' ∧ waiting s' = [].
Proof.
  intros Hr Hf. unfold begin_handshake. destruct (connector_eq conf vh ar now s0 e Hr) as [w1 E1].
  rewrite (bind_eq _ _ _ _ _ _ _ E1). unfold put at 1. unfold mbind at 1, M_bind at 1.
  set (s1 := parts _ _ _ _ _). set (e1 := set_wakes w1 _).
  destruct (dispatch_status now 0 (3 + next_ref e)%nat s1 e1 eq_refl) as [w2 E2]. rewrite (bind_eq _ _ _ _ _ _ _ E2).
  set (s2 := set_channels_status _ _). set (e2 := set_wakes w2 _).
  destruct (start_eq v c s2 e2 eq_refl eq_refl eq_refl) as [w3 E3]. rewrite (try_bind_ok _ _ _ _ _ _ _ E3).
  set (r := next_ref e2). set (e3 := set_wakes w3 _).
  rewrite (bind_eq _ _ _ _ _ _ _ (write_only (header_entry v r) (started v c r s2) s2 e3 eq_refl eq_refl eq_refl)).
  eexists _, _, r. split; [reflexivity|]. split; [|done]. split; try done.
  - intros ch Hch. unfold frames. simpl. by rewrite lookup_total_insert_ne.
  - intros q Hq. apply Hf. cbn in Hq. lia.
  - split; [cbn; lia|]. apply Hf. cbn. lia.
Qed.

Lemma exchanges_snoc now v c ms m s e fs s1 e1 f s2 e2 :
  exchanges now v c ms s e = (Ok fs, s1, e1) → exchange now v c m s1 e1 = (Ok f, s2, e2) →
  exchanges now v c (ms ++ [m]) s e = (Ok (fs ++ [f]), s2, e2).
Proof.
  revert s e fs. induction ms as [|m' ms IH]; intros s e fs E1 E2; cbn [exchanges app] in *.
  - injection E1 as <- -> ->. by rewrite (try_bind_ok _ _ _ _ _ _ _ E2).
  - unfold try_bind, mbind, M_bind in E1.
    destruct (exchange now v c m' s e) as [[[f'|err] s'] e'] eqn:E; [|discriminate].
    rewrite (try_bind_ok _ _ _ _ _ _ _ E).
    destruct (exchanges now v c ms s' e') as [[[fs'|err] s''] e''] eqn:E'; [|discriminate].
    injection E1 as <- -> ->. by rewrite (try_bind_ok _ _ _ _ _ _ _ (IH _ _ _ E' E2)).
Qed.

(** connection.start and the challenges that follow. *)
Lemma authenticated now v c ms ls starter challenges responses conf vh r q s e :
  between conf vh r (expecting_step (StepProtocolHeader r c) q) s e → auth_starter c = Ok starter →
  Forall2 (λ ch a, continue_auth c ch = Ok a) challenges responses →
  ∃ s' e' st q', exchanges now v c (ConnectionStart ms ls :: (ConnectionSecure <$> challenges)) s e =
      (Ok (Some ∘ Method 0 <$> start_ok c starter :: (ConnectionSecureOk <$> responses)), s', e') ∧
    between conf vh r (expecting_step st q') s' e' ∧ (st = StepStartOk r c ∨ st = StepSecureOk r c) ∧
    ∃ qs, waiting s' = waiting s ++ ((λ q, (q, Finish, None)) <$> qs).
Proof.
  intros Hb Ha. revert challenges responses. refine (rev_ind _ _ _).
  - intros responses ->%Forall2_nil_inv_l. destruct (exchange_start now v c ms ls starter _ _ _ _ _ _ Hb Ha)
      as (s' & e' & q' & E & Hb' & Hw). exists s', e', (StepStartOk r c), q'. cbn [exchanges]. rewrite (try_bind_ok _ _ _ _ _ _ _ E).
    split_and!; [reflexivity|exact Hb'|by left|by exists [q']].
  - intros ch l IH responses (k1 & k2 & H1 & H2 & ->)%Forall2_app_inv_l.
    apply Forall2_cons_inv_l in H2 as (a & k3 & Hc & ->%Forall2_nil_inv_l & ->).
    destruct (IH _ H1) as (s1 & e1 & st & q1 & E1 & Hb1 & Hst & qs & Hqs).
    destruct (exchange_secure now v c ch a conf vh r st q1 s1 e1 Hb1 Hst Hc) as (s' & e' & q' & E & Hb' & Hw).
    exists s', e', (StepSecureOk r c), q'. split_and!; [|exact Hb'|by right|].
    2: { exists (qs ++ [q']). by rewrite Hw, Hqs, fmap_app, app_assoc. }
    rewrite (fmap_app ConnectionSecure), (fmap_app ConnectionSecureOk), app_comm_cons.
    change (ConnectionSecure <$> [ch]) with [ConnectionSecure ch]. rewrite (exchanges_snoc _ _ _ _ _ _ _ _ _ _ _ _ _ E1 E), app_comm_cons, fmap_app. reflexivity.
Qed.

(** From the written header on. *)
Lemma completes now v c ms ls starter challenges responses cmax fmax hb conf vh r q s1 e1 :
  between conf vh r (expecting_step (StepProtocolHeader r c) q) s1 e1 →
  auth_starter c = Ok starter → Forall2 (λ ch a, continue_auth c ch = Ok a) challenges responses →
  let conf' := Configuration.tune_connection_configuration cmax fmax hb conf in
  ∃ s2 e2 s' e',
    exchanges now v c (server_methods ms ls challenges cmax fmax hb) s1 e1 =
      (Ok (Some ∘ Method 0 <$> start_ok c starter :: (ConnectionSecureOk <$> responses) ++ [tune_ok conf']), s2, e2) ∧
    end_handshake s2 e2 = (Ok (Some (Method 0 (ConnectionOpen vh))), s', e') ∧
    ConnectionStatus.state (Channels.connection_status (channels s')) = CoConnected ∧
    Channel.configuration (Channels.conn (channels s')) = conf' ∧
    Generated.expected (channel0 s') = [] ∧ Frames.frames (frames s') = [] ∧
    promises e' !! r = Some (Ok (VConnection c)).
Proof.
  intros Hb1 Ha Hc conf'.
  destruct (authenticated now v c ms ls starter challenges responses _ _ _ _ _ _ Hb1 Ha Hc) as (s2 & e2 & st & q2 & E2 & Hb2 & Hst & _).
  destruct (exchange_tune now v c cmax fmax hb _ _ _ _ _ _ _ Hb2 Hst) as (s3 & e3 & p & E3 & Hb3 & Hp & Hw).
  destruct (exchange_open c _ _ _ _ p _ _ Hb3 Hp Hw) as (s4 & e4 & q4 & E4 & Hb4 & _).
  destruct (opened _ _ _ _ _ _ _ Hb4) as (s5 & e5 & E5 & H).
  exists s3, e3, s5, e5. split; [|split; [|exact H]].
  - unfold server_methods. rewrite app_comm_cons, (exchanges_snoc _ _ _ _ _ _ _ _ _ _ _ _ _ E2 E3), app_comm_cons, fmap_app.
    reflexivity.
  - unfold end_handshake. rewrite bind_get, Hw, length_app, Nat.add_comm. cbn [length Nat.add pred].
    rewrite <- bind_assoc. rewrite (bind_eq _ _ _ _ _ _ _ E4). by rewrite (try_bind_ok _ _ _ _ _ _ _ E5).
Qed.

(** A client connects.  From the parts [connector] makes, against a server that sends
    connection.start, any number of challenges, connection.tune and connection.open-ok, and with
    an authentication provider that answers them: exactly the protocol header, start-ok with
    the credentials, one secure-ok per challenge, tune-ok and open for the virtual host are
    written, in this order; tune-ok has the configuration negotiated from the server's values, which
    is the connection's from then on; the connection ends up connected, with nothing left to
    write or to expect; and the caller of [connect] gets the connection. *)
Theorem handshake_opens conf vh ar now v c ms ls starter challenges responses cmax fmax hb s0 e :
  rpc e = [] → (∀ p, (next_ref e ≤ p)%nat → promises e !! p = None) →
  auth_starter c = Ok starter → Forall2 (λ ch a, continue_auth c ch = Ok a) challenges responses →
  let conf' := Configuration.tune_connection_configuration cmax fmax hb conf in
  ∃ r s1 e1 s2 e2 s' e',
    begin_handshake conf vh ar now v c s0 e = (Ok (r, Some (ProtocolHeader v)), s1, e1) ∧
    exchanges now v c (server_methods ms ls challenges cmax fmax hb) s1 e1 =
      (Ok (Some ∘ Method 0 <$> start_ok c starter :: (ConnectionSecureOk <$> responses) ++ [tune_ok conf']), s2, e2) ∧
    end_handshake s2 e2 = (Ok (Some (Method 0 (ConnectionOpen vh))), s', e') ∧
    ConnectionStatus.state (Channels.connection_status (channels s')) = CoConnected ∧
    Channel.configuration (Channels.conn (channels s')) = conf' ∧
    Generated.expected (channel0 s') = [] ∧ Frames.frames (frames s') = [] ∧
    promises e' !! r = Some (Ok (VConnection c)).
Proof.
  intros Hr Hf Ha Hc conf'. destruct (begins conf vh ar now v c s0 e Hr Hf) as (s1 & e1 & r & E1 & Hb1 & _).
  destruct (completes now v c ms ls starter challenges responses cmax fmax hb _ _ _ _ _ _ Hb1 Ha Hc) as (s2 & e2 & s' & e' & H).
  by exists r, s1, e1, s2, e2, s', e'.
Qed.

End Handshake.

Section Witnesses.
#[local] Existing Instances number_types number_protocol number_handle.
#[local] Instance z_order : HashOrder Z := canonical_order Z.
#[local] Instance s_order : HashOrder string := canonical_order string.

Definition demo_parts : t := parts (Configuration.mk 0 0 0) "" false 0 0.

Lemma handshake_opens_witness : ∃ s' e',
  Channel.configuration (Channels.conn (channels s')) = Configuration.mk 2047 131072 60 ∧
  promises e' !! 5%nat = Some (Ok (VConnection 0%nat)).
Proof.
  destruct (handshake_opens (AT := number_types) (AP := number_protocol) (CH := number_handle) (Configuration.mk 0 0 0) "/" false 0 (0, 9, 1) 0%nat
    "PLAIN" "en_US" "secret" ["who?"; "really?"] ["more"; "more"] 2047 131072 60 demo_parts env_empty)
    as (r & s1 & e1 & s2 & e2 & s' & e' & E1 & _ & _ & _ & Hc & _ & _ & Hr); [done|done|done|by repeat constructor|].
  exists s', e'. split; [rewrite Hc; by vm_compute|].
  assert (Hr5 : r = 5%nat) by (vm_compute in E1; by injection E1 as <-). by subst r.
Defined.

End Witnesses.
End Handshake.
