(* ===== verification/AuthFailure.v ===== *)
(** A failing authentication provider: what becomes of the connection, and of the caller who
    waits for it, when the provider refuses to answer connection.start or a challenge
    (src/channel.rs), through the drop of the connection (src/connection_closer.rs), the critical error of the
    io loop (src/io_loop.rs) and any turns of the dispatcher and of the runtime. *)
From S2P Require Import Prelude.
From S2P Require Import IdSequence.
From S2P Require Import Buffer.
From S2P Require Import Types.
From S2P Require Import Env.
From S2P Require Import Frames.
From S2P Require Import ChannelStatus.
From S2P Require Import Connection.
From S2P Require Import Channel.
From S2P Require Import Generated.
From S2P Require Import Channels.
From S2P Require Import Heartbeat.
From S2P Require Import InternalRPC.
From S2P Require Import Recovery.
From S2P Require Import Handshake.
Open Scope Z_scope.

Module AuthFailure.
Import InternalRPC.
Import Handshake.
Section AuthFailure.
Context `{AT : AmqpTypes} `{AP : !AmqpProtocol} `{CH : !ConnectionHandle}
  `{HZ : !HashOrder Z} `{HS : !HashOrder string}.

(** What [IoLoop::critical_error] does to the channels about an error that cannot be recovered from. *)
Definition critical (err : Error) : M t unit :=
  in_channels (Channels.reject_connection err);; rpc_set_connection_error err.

(** The loop has stopped; the dispatcher runs the next command, or the runtime polls a new future
    or one that waits, or a frame that was still queued leaves. *)
Inductive Turn :=
| Dispatch (now : Z)
| Poll (version : Z * Z * Z) (c : ConnectionRef)
| Resume (n : nat)
| Write.

Definition turn (x : Turn) : M t unit :=
  match x with
  | Dispatch now => run_next now;; mret tt
  | Poll version c => poll_task version c
  | Resume n => poll_waiting n
  | Write => write_next;; mret tt
  end.

(** ** Nothing that is left knows the caller *)

Section Lost.
Context (r : Resolver).

(** Operations that may complete promises, but not [r], and change nothing else. *)
Definition harmless {S} (m : M S unit) : Prop :=
  ∀ s e, promises e !! r = None → ∃ ps, m s e = (tt, s, set_promises ps e) ∧ ps !! r = None.

Lemma harmless_ret {S} : harmless (mret tt : M S unit).
Proof. intros s e Hr. exists (promises e). split; [by destruct e|done]. Qed.

Lemma harmless_complete {S} p x : p ≠ r → harmless (complete p x : M S unit).
Proof.
  intros Hp s e Hr. exists (promises (promise_set p x e)). split.
  - unfold complete, modify_env. by rewrite <- promise_set_only.
  - by rewrite promise_set_lookup, decide_False.
Qed.

Lemma harmless_for_each {S A} (l : list A) (f : A → M S unit) : Forall (λ x, harmless (f x)) l → harmless (for_each l f).
Proof.
  induction 1 as [|x l Hx _ IH]; [apply harmless_ret|]. intros s e Hr. cbn [for_each].
  destruct (Hx s e Hr) as (ps & E & Hps). rewrite (bind_eq _ _ _ _ _ _ _ E).
  destruct (IH s (set_promises ps e) Hps) as (ps' & E' & Hps'). exists ps'. by rewrite E'.
Qed.

(** A frame of the closing of the connection, and the reply it expects. *)
Definition closing_entry (fe : Frames.FrameEntry) : Prop :=
  (∃ code text x y, Frames.frame fe = Method 0 (ConnectionClose code text x y)) ∧
  Frames.canceler (Frames.sending fe) ≠ Some r ∧ Frames.resolver (Frames.sending fe) ≠ Some r.
Definition closing_reply (er : ExpectedReply) : Prop :=
  ∃ p, er_reply er = RConnectionCloseOk p ∧ er_cancel er ≠ r.

Definition closing_frames (f : Frames.t) : Prop :=
  Frames.retry_frames f = [] ∧ Frames.publish_frames f = [] ∧ Frames.low_prio_frames f = [] ∧
  Forall closing_entry (Frames.frames f) ∧ map_Forall (λ _ l, Forall closing_reply l) (Frames.expected_replies f).

(** No command, future, frame or expected reply is about [r]: what remains closes or fails the
    connection. *)
Record lost (s : t) (e : Env) : Prop := {
  l_promise : promises e !! r = None ∧ (r < next_ref e)%nat;
  l_rpc : Forall (λ c, c = CSetConnectionClosing ∨ (∃ code text x y, c = CCloseConnection code text x y None) ∨
                       ∃ err, c = CSetConnectionError err) (rpc e);
  l_tasks : Forall (λ x, (∃ code text i j, x.1 = FCloseConnection code text i j) ∧ x.2 = None) (tasks s);
  l_waiting : Forall (λ x, x.1.2 = Finish ∧ x.2 = None) (waiting s);
  l_frames : closing_frames (frames s);
  l_channels : Channels.channels (channels s) = ∅;
  l_id : Channel.id (Channels.channel0 (channels s)) = 0;
  l_state : ConnectionStatus.state (Channels.connection_status (channels s)) ≠ CoConnected;
}.

Definition keeps {A} (m : M t A) : Prop := ∀ s e, lost s e → lost (state_of (m s e)) (env_of (m s e)).

Lemma keeps_bind {A B} (m : M t A) (k : A → M t B) : keeps m → (∀ a, keeps (k a)) → keeps (m ≫= k).
Proof.
  intros Hm Hk s e Hl. unfold mbind, M_bind. specialize (Hm s e Hl). destruct (m s e) as [[a s'] e']. by apply Hk.
Qed.

Lemma keeps_ret {A} (a : A) : keeps (mret a).
Proof. by intros s e Hl. Qed.

Lemma lost_eq s e s' e' : lost s e → promises e' = promises e → next_ref e' = next_ref e → rpc e' = rpc e →
  tasks s' = tasks s → waiting s' = waiting s → frames s' = frames s →
  Channels.channels (channels s') = Channels.channels (channels s) →
  Channels.channel0 (channels s') = Channels.channel0 (channels s) →
  ConnectionStatus.state (Channels.connection_status (channels s')) ≠ CoConnected → lost s' e'.
Proof. intros [[H1 H1'] H2 H3 H4 H5 H6 H7 H8] E1 E2 E3 E4 E5 E6 E7 E8 E9. split; [split|..]; congruence. Qed.

Lemma closing_frame_harmless {S} fe err : closing_entry fe → harmless (Frames.drop_pending_frame err fe : M S unit).
Proof.
  intros [(code & text & x & y & E) [Hc Hr]]. unfold Frames.drop_pending_frame. rewrite E.
  unfold Frames.entry_reject, Frames.sending_reject. destruct (Frames.resolver _) as [p|]; [apply harmless_complete; congruence|].
  destruct (Frames.canceler _) as [p|]; [apply harmless_complete; congruence|apply harmless_ret].
Qed.

Lemma closing_reply_harmless {S} er err : closing_reply er → harmless (Frames.cancel_expected_reply er err : M S unit).
Proof. intros (p & E & Hp). unfold Frames.cancel_expected_reply. rewrite E. by apply harmless_complete. Qed.

(** Shutting the queues down. *)
Lemma drop_pending_lost err f e : closing_frames f → promises e !! r = None →
  ∃ ps, Frames.drop_pending err f e = (tt, Frames.mk [] [] [] [] ∅ (Some err) (Frames.channels_poison f), set_promises ps e) ∧ ps !! r = None.
Proof.
  intros (E1 & E2 & E3 & Hf & Hx) Hr. unfold Frames.drop_pending. rewrite bind_get, E1, E2, E3. rewrite !Frames.drop_step_state.
  cbn [Frames.drop_pending_frames for_each]. unfold mret, M_ret, env_of at 3 4. cbn [snd].
  set (f1 := Frames.set_frames [] _).
  destruct (harmless_for_each (S := Frames.t) (Frames.frames f) (Frames.drop_pending_frame err)
    (Forall_impl _ _ _ Hf (λ fe, closing_frame_harmless fe err)) f1 e Hr) as (ps & E & Hps).
  unfold Frames.drop_pending_frames at 1. rewrite E. unfold env_of. cbn [snd]. unfold Frames.clear_all_expected_replies.
  rewrite bind_assoc, bind_get, bind_assoc. set (f2 := Frames.set_low_prio [] f1).
  assert (Hx' : Forall (λ x : ChannelId * list ExpectedReply, harmless (Frames.cancel_expected_replies (S := Frames.t) x.2 err))
                  (hash_order (Frames.expected_replies f2))).
  { apply Forall_forall. intros [ch l] Hin%hash_order_elem. apply harmless_for_each.
    eapply Forall_impl; [exact (Hx ch l Hin)|]. intros er Her. by apply closing_reply_harmless. }
  destruct (harmless_for_each _ _ Hx' f2 (set_promises ps e) Hps) as (ps' & E' & Hps'). exists ps'. split; [|done].
  rewrite (bind_eq _ _ _ _ _ _ _ E'). reflexivity.
Qed.

(** The commands. *)
Lemma keeps_closing now : keeps (dispatch now CSetConnectionClosing).
Proof.
  intros s e Hl. unfold dispatch. rewrite bind_get, bind_get_env.
  unfold in_heartbeat, Heartbeat.cancel, in_secret, SecretUpdate.cancel, in_channels, Channels.set_connection_closing,
    Channels.update_connection_status, Channels.for_channels, zoom, kill, modify, get, mbind, M_bind, mret, M_ret.
  cbn. rewrite (l_channels _ _ Hl), hash_order_empty. cbn. by apply (lost_eq s e).
Qed.

Lemma set_error_lost err s e : lost s e →
  ∃ c' e', Channels.set_connection_error err (channels s) e = (tt, c', e') ∧ lost (set_channels c' s) e'.
Proof.
  intros Hl. unfold Channels.set_connection_error, Channels.update_connection_status. rewrite bind_get, bind_modify.
  set (c1 := Channels.set_conn _ (channels s)). case_decide; [eexists _, _; split; [done|]; by apply (lost_eq s e)|].
  assert (E1 : Channels.reject_connection err c1 e = (tt, c1, e)).
  { unfold Channels.reject_connection, Channels.in_frames, zoom, mbind, M_bind.
    change (Channel.frames (Channels.conn c1)) with (frames s).
    destruct (Frames.connection_resolver_cases 0 (frames s) e) as [[E _]|(l1 & er & st & l2 & El & _ & Er & _)].
    - rewrite E. unfold c1. by destruct s as [[? ? ? []]].
    - destruct (l_frames _ _ Hl) as (_ & _ & _ & _ & Hx). specialize (Hx 0 _ El). apply Forall_app in Hx as [_ Hx].
      apply Forall_cons in Hx as [(p & Hp & _) _]. by rewrite Hp in Er. }
  rewrite (bind_eq _ _ _ _ _ _ _ E1).
  destruct (drop_pending_lost err (frames s) e (l_frames _ _ Hl) (proj1 (l_promise _ _ Hl))) as (ps & E2 & Hps).
  unfold Channels.in_frames, zoom. unfold mbind at 1, M_bind at 1. change (Channel.frames (Channels.conn c1)) with (frames s).
  rewrite E2. unfold send_event, Channels.for_channels, modify_env. unfold mbind at 1, M_bind at 1. rewrite bind_get. cbn.
  rewrite (l_channels _ _ Hl), hash_order_empty. eexists _, _. split; [reflexivity|].
  destruct Hl as [[H1 H1'] H2 H3 H4 H5 H6 H7 H8]. split; try done; repeat case_decide; try done.
Qed.

Lemma keeps_error now err : keeps (dispatch now (CSetConnectionError err)).
Proof.
  intros s e Hl. unfold dispatch. rewrite bind_get, bind_get_env. pose proof (l_state _ _ Hl) as Hst.
  destruct (can_recover _ _).
  - assert (E : in_channels Channels.should_init_connection_recovery s e = (false, s, e)).
    { unfold in_channels, zoom, Channels.should_init_connection_recovery. rewrite bind_get.
      unfold ConnectionStatus.connected. rewrite bool_decide_false by done. by destruct s. }
    by rewrite (bind_eq _ _ _ _ _ _ _ E).
  - destruct (set_error_lost err s e Hl) as (c' & e' & E & Hl'). unfold in_channels, zoom, mbind, M_bind. by rewrite E.
Qed.

Lemma keeps_dispatch now : keeps (run_next now).
Proof.
  intros s e Hl. unfold run_next. rewrite bind_get_env. destruct (rpc e) as [|c l] eqn:Er; [done|].
  unfold modify_env. unfold mbind at 1, M_bind at 1.
  assert (Hl1 : lost s (set_rpc l e)).
  { destruct Hl as [[H1 H1'] H2 H3 H4 H5 H6 H7 H8]. rewrite Er in H2. apply Forall_cons in H2 as [_ H2]. by split. }
  pose proof (l_rpc _ _ Hl) as Hc. rewrite Er in Hc. apply Forall_cons in Hc as [Hc _].
  assert (Hd : keeps (dispatch now c)).
  { destruct Hc as [->|[(code & text & x & y & ->)|[err ->]]]; [apply keeps_closing| |apply keeps_error].
    intros s1 e1 [H1 H2 H3 H4 H5 H6 H7 H8]. split; try done. apply Forall_app. split; [done|]. repeat constructor. by repeat eexists. }
  refine (keeps_bind (dispatch now c) _ Hd _ s (set_rpc l e) Hl1). intros b.
  apply keeps_bind; [|intros; apply keeps_ret]. destruct b; [|apply keeps_ret]. intros s1 e1 Hl2.
  by apply (lost_eq s1 e1); try done; apply (l_state _ _ Hl2).
Qed.

(** The futures. *)
Lemma promise_set_rpc p x e : rpc (promise_set p x e) = rpc e.
Proof. by rewrite promise_set_only. Qed.

Lemma keeps_poll v c : keeps (poll_task v c).
Proof.
  intros s e Hl. unfold poll_task. rewrite bind_get. destruct (tasks s) as [|[f o] l] eqn:Et; [done|].
  pose proof (l_tasks _ _ Hl) as Ht. rewrite Et in Ht. apply Forall_cons in Ht as [[(code & text & i & j & Ef) Eo] Ht]. cbn in Ef, Eo. subst.
  rewrite bind_modify. unfold first_poll. rewrite bind_assoc, bind_get_env. set (s1 := set_tasks l s).
  set (p := next_ref e). destruct Hl as [[H1 H1'] H2 H3 H4 H5 H6 H7 H8]. destruct H5 as (F1 & F2 & F3 & F4 & F5).
  assert (Hfresh : p ≠ r) by (unfold p; lia).
  destruct (Frames.check_poison (frames s) 0) as [err|] eqn:Ep.
  - assert (E : ∃ e', Generated.connection_close code text i j (channel0 s1) e = (Ok p, channel0 s1, e') ∧
      rpc e' = rpc e ∧ next_ref e' = S (next_ref e) ∧ promises e' !! r = None).
    { unfold Generated.connection_close, Generated.waiting, Generated.call, promise_new, fresh, Channel.send_method_frame,
        Channel.send_frame, Channel.this_id, Channel.in_frames, Frames.push, zoom, get, mbind, M_bind, mret, M_ret.
      cbn -[Frames.check_poison]. rewrite H7. unfold frames in Ep. rewrite Ep. eexists. split; [by destruct s as [[? ? ? []]]|].
      cbn. rewrite !promise_set_rpc, !promise_set_next_ref, !promise_set_lookup, !decide_False by done. done. }
    destruct E as (e' & E & Er & En & Ep').
    rewrite (bind_eq _ _ _ _ _ _ _ (call_channel0 _ Finish _ _ _ _ _ E)). cbn. split; try done.
    + cbn. by rewrite En; split; [|lia].
    + by rewrite Er.
    + apply Forall_app. by repeat constructor.
  - pose proof (Generated.call_eq (ConnectionClose code text i j) RConnectionCloseOk (channel0 s1) e) as E.
    cbn [channel0 Channel.self Channel.conn s1 channels set_tasks] in E. rewrite H7 in E. specialize (E Ep).
    assert (E' : Generated.connection_close code text i j (channel0 s1) e =
      (Ok p, Generated.map_frames (Generated.requested 0 (ConnectionClose code text i j) (RConnectionCloseOk p) p) (channel0 s1), Generated.after_call e)).
    { unfold Generated.connection_close, Generated.waiting. unfold mbind, M_bind. cbn [channel0 s1 channels set_tasks].
      by rewrite E. }
    rewrite (bind_eq _ _ _ _ _ _ _ (call_channel0 _ Finish _ _ _ _ _ E')). cbn. split; try done.
    + cbn. split; [done|lia].
    + apply Forall_app. by repeat constructor.
    + split_and!; try done.
      * apply Forall_app. split; [done|]. repeat constructor; [by repeat eexists| |done]. cbn. congruence.
      * cbn. apply map_Forall_insert_2; [|done]. apply Forall_app. split.
        -- rewrite lookup_total_alt. destruct (_ !! 0) as [l'|] eqn:El; [exact (F5 0 l' El)|constructor].
        -- repeat constructor. by exists p.
Qed.

Lemma keeps_resume n : keeps (poll_waiting n).
Proof.
  intros s e Hl. unfold poll_waiting. rewrite bind_get. destruct (waiting s !! n) as [[[p a] o]|] eqn:Ew; [|done].
  pose proof (l_waiting _ _ Hl) as Hw. destruct (Forall_lookup_1 _ _ _ _ Hw Ew) as [Ea Eo]. cbn in Ea, Eo. subst.
  set (e1 := set_promises (delete p (promises e)) e).
  rewrite (bind_eq (try_wait p) _ (promises e !! p) s e s e1 eq_refl).
  assert (Hl1 : lost (set_waiting (delete n (waiting s)) s) e1).
  { destruct Hl as [[H1 H1'] H2 H3 H4 H5 H6 H7 H8]. split; try done; [|by apply Forall_delete].
    split; [|done]. apply lookup_delete_None. by right. }
  destruct (promises e !! p) as [[v|err]|].
  - rewrite bind_modify. exact Hl1.
  - rewrite bind_modify. cbn. destruct Hl1 as [H1 H2 H3 H4 H5 H6 H7 H8]. split; try done. cbn.
    apply Forall_app. split; [done|]. apply Forall_singleton. right. right. by eexists.
  - destruct Hl as [[H1 H1'] H2 H3 H4 H5 H6 H7 H8]. split; try done. split; [|done]. apply lookup_delete_None. by right.
Qed.

Lemma keeps_write : keeps write_next.
Proof.
  intros s e Hl. pose proof (l_frames _ _ Hl) as (F1 & F2 & F3 & F4 & F5). unfold write_next.
  unfold in_channels, Channels.in_frames, Frames.pop, zoom. cbv beta delta [mbind M_bind get put mret M_ret].
  change (Channel.frames (Channels.conn (channels s))) with (frames s). unfold Frames.pop_. rewrite F1, F2, F3.
  destruct (Frames.frames (frames s)) as [|fe l] eqn:Ef; cbn.
  - apply (lost_eq s e); try done. apply (l_state _ _ Hl).
  - apply Forall_cons in F4 as [(_ & _ & Hr) F4]. destruct Hl as [[H1 H1'] H2 H3 H4 H5 H6 H7 H8].
    unfold Frames.sending_resolve, resolve, complete, modify_env. destruct (Frames.resolver _) as [p|]; cbn.
    + split; try done; cbn; rewrite ?promise_set_rpc, ?promise_set_next_ref, ?promise_set_lookup, ?decide_False by congruence; done.
    + by split.
Qed.

Lemma keeps_turns ts : keeps (for_each ts turn).
Proof.
  induction ts as [|x ts IH]; [apply keeps_ret|]. cbn [for_each]. apply keeps_bind; [|done].
  destruct x; [|apply keeps_poll|apply keeps_resume|]; (apply keeps_bind; [|intros; apply keeps_ret]).
  - apply keeps_dispatch.
  - apply keeps_write.
Qed.

End Lost.

(** ** The failure *)

(** The closing of the connection that its drop queues. *)
Definition dropped (c : ConnectionRef) (e : Env) : Env := if closer_noop c then e else ConnectionCloser.closing_queued e.

(** The provider's error is returned, the connection of the step is dropped, and whatever turns follow the
    error of the io loop, [r] is not completed. *)
Definition stuck (r : Resolver) (c : ConnectionRef) (msg : string) (m : AMQPClass) (s : t) (e : Env) : Prop :=
  let err := error_from (AuthProviderError msg) in
  ∃ s' e', in_channels (Channels.handle_frame (Method 0 m)) s e = (Err err, s', e') ∧
    rpc e' = (if closer_noop c then [] else [CSetConnectionClosing; CCloseConnection REPLY_SUCCESS "OK" 0 0 None]) ∧
    ∀ ts, promises (env_of ((critical err;; for_each ts turn) s' e')) !! r = None.

Lemma critical_lost r err s e : lost r s e → lost r (state_of (critical err s e)) (env_of (critical err s e)).
Proof.
  intros Hl. unfold critical.
  assert (E : in_channels (Channels.reject_connection err) s e = (tt, s, e)).
  { unfold in_channels, Channels.reject_connection, Channels.in_frames, zoom, mbind, M_bind.
    change (Channel.frames (Channels.conn (channels s))) with (frames s).
    destruct (Frames.connection_resolver_cases 0 (frames s) e) as [[E _]|(l1 & er & st & l2 & El & _ & Er & _)].
    - rewrite E. by destruct s as [[? ? ? []]].
    - destruct (l_frames _ _ _ Hl) as (_ & _ & _ & _ & Hx). specialize (Hx 0 _ El). apply Forall_app in Hx as [_ Hx].
      apply Forall_cons in Hx as [(p & Hp & _) _]. by rewrite Hp in Er. }
  rewrite (bind_eq _ _ _ _ _ _ _ E). destruct Hl as [H1 H2 H3 H4 H5 H6 H7 H8]. split; try done. cbn.
  apply Forall_app. split; [done|]. apply Forall_singleton. right. right. by eexists.
Qed.

Lemma step_lost conf vh r st q c msg m s e : between conf vh r [mkExpectedReply (RConnectionStep st) q] s e →
  Forall (λ x, x.1.2 = Finish ∧ x.2 = None) (waiting s) →
  Generated.receive_method m (channel0 s) e =
    (Err (error_from (AuthProviderError msg)), Recovery.expect [] (channel0 s), dropped c e) → stuck r c msg m s e.
Proof.
  intros Hb Hw E. exists (Recovery.with_chan 0 (Recovery.expect [] (channel0 s)) s), (dropped c e).
  split; [exact (receive_channel0 _ _ _ _ _ _ E)|].
  destruct Hb as [Hid Hrc Hst Hcf Hvh Hpo (Q1 & Q2 & Q3 & Q4) Hx Ho Hcs Hr Ht Hf [Hc1 Hc2]].
  assert (Hrpc : rpc (dropped c e) =
    if closer_noop c then [] else [CSetConnectionClosing; CCloseConnection REPLY_SUCCESS "OK" 0 0 None]).
  { unfold dropped. destruct (closer_noop c); [done|]. rewrite ConnectionCloser.closing_queued_eq. cbn. by rewrite Hr. }
  split; [done|].
  assert (Hl : lost r (Recovery.with_chan 0 (Recovery.expect [] (channel0 s)) s) (dropped c e)).
  { split; try done.
    - unfold dropped. destruct (closer_noop c); [done|]. by rewrite ConnectionCloser.closing_queued_eq.
    - rewrite Hrpc. destruct (closer_noop c); [done|]. repeat apply Forall_cons_2; [by left|right; left; by repeat eexists|done].
    - cbn. by rewrite Ht.
    - unfold frames in *. split_and!; try done; cbn; [by rewrite Q3|]. intros ch l Hl.
      destruct (decide (ch = 0)) as [->|Hne].
      + rewrite Hid, lookup_insert_eq in Hl. by simplify_eq.
      + rewrite Hid, lookup_insert_ne in Hl by done. specialize (Ho ch Hne). rewrite lookup_total_alt, Hl in Ho. cbn in Ho. by subst.
    - cbn. unfold Channels.connection_status in *. cbn in *. by rewrite Hst. }
  intros ts. apply critical_lost with (err := error_from (AuthProviderError msg)) in Hl. unfold mbind, M_bind.
  destruct (critical _ _ _) as [[[] s1] e1]. by destruct (keeps_turns r ts s1 e1 Hl) as [[? _] _ _ _ _ _ _ _].
Qed.

(** The drop in a hook of the handshake. *)
Lemma drop_step conf vh r l c s e (x : res unit) : between conf vh r l s e →
  (Channel.drop_connection c;; mret x) (Recovery.expect [] (channel0 s)) e = (x, Recovery.expect [] (channel0 s), dropped c e).
Proof.
  intros Hb. unfold Channel.drop_connection, dropped, mbind, M_bind. rewrite drop_connection_eq.
  assert (Ha : ConnectionStatus.auto_close (Channel.connection_status (Channel.conn (Recovery.expect [] (channel0 s)))) = true).
  { unfold ConnectionStatus.auto_close. apply bool_decide_eq_true. pose proof (bt_state _ _ _ _ _ _ Hb) as Hst.
    unfold Channels.connection_status in Hst. cbn. rewrite Hst. set_solver. }
  rewrite Ha, andb_true_r. by destruct (closer_noop c).
Qed.

(** C34: a failing authentication provider leaves the caller of [connect] waiting.  The
    step of the handshake, which holds the only resolver of the caller, is taken from the
    expected replies before the provider is asked.  When the provider fails, on connection.start or on any
    later challenge, its error is returned to the io loop and the connection of the step is dropped, which
    queues the closing of the connection (unless its closer is disabled, as in a
    recovery).  But no promise is completed; and after the critical error of the io loop, whatever
    commands the dispatcher runs, futures the runtime polls and frames are written, in any order, the caller's
    promise stays uncompleted.  (What the io thread itself may do afterwards, to connect again, is not among these
    turns.) *)
Theorem auth_failure_hangs conf vh ar now v c ms ls msg s0 e :
  rpc e = [] → (∀ p, (next_ref e ≤ p)%nat → promises e !! p = None) →
  ∃ r s1 e1,
    begin_handshake conf vh ar now v c s0 e = (Ok (r, Some (ProtocolHeader v)), s1, e1) ∧
    (auth_starter c = Err msg → stuck r c msg (ConnectionStart ms ls) s1 e1) ∧
    (∀ starter challenges responses bad, auth_starter c = Ok starter →
       Forall2 (λ ch a, continue_auth c ch = Ok a) challenges responses → continue_auth c bad = Err msg →
       ∃ s2 e2, exchanges now v c (ConnectionStart ms ls :: (ConnectionSecure <$> challenges)) s1 e1 =
           (Ok (Some ∘ Method 0 <$> start_ok c starter :: (ConnectionSecureOk <$> responses)), s2, e2) ∧
         stuck r c msg (ConnectionSecure bad) s2 e2).
Proof.
  intros Hr Hf. destruct (begins conf vh ar now v c s0 e Hr Hf) as (s1 & e1 & r & E1 & Hb1 & Hw1).
  exists r, s1, e1. split; [exact E1|]. split.
  - intros Ha. eapply step_lost; [exact Hb1|by rewrite Hw1|]. cbn [Generated.receive_method]. unfold Generated.receive_connection_start.
    rewrite (step_received _ _ _ _ _ _ _ _ _ _ Hb1). unfold Channel.on_connection_start_received.
    rewrite (connecting_eq _ _ _ _ _ _ _ Hb1), decide_False by (by intros []). rewrite Ha.
    apply (drop_step _ _ _ _ _ _ _ _ Hb1).
  - intros starter challenges responses bad Ha Hc Hbad.
    destruct (authenticated now v c ms ls starter challenges responses _ _ _ _ _ _ Hb1 Ha Hc)
      as (s2 & e2 & st & q & E2 & Hb2 & Hst & qs & Hqs).
    exists s2, e2. split; [exact E2|]. eapply step_lost; [exact Hb2| |].
    { rewrite Hqs, Hw1. apply Forall_fmap, Forall_true. done. }
    cbn [Generated.receive_method].
    unfold Generated.receive_connection_secure. rewrite (step_received _ _ _ _ _ _ _ _ _ _ Hb2).
    unfold Channel.on_connection_secure_received. rewrite (connecting_eq _ _ _ _ _ _ _ Hb2), decide_False by (by intros []).
    destruct Hst as [-> | ->]; rewrite Hbad; apply (drop_step _ _ _ _ _ _ _ _ Hb2).
Qed.

End AuthFailure.

Section Witnesses.
#[local] Existing Instances number_types number_protocol.
#[local] Instance z_order : HashOrder Z := canonical_order Z.
#[local] Instance s_order : HashOrder string := canonical_order string.

(** A provider that answers the first challenge only. *)
Definition failing_handle : ConnectionHandle :=
  {| mechanism := λ _, "EXTERNAL"; auth_starter := λ _, Ok "secret";
     continue_auth := λ _ ch, if bool_decide (ch = "who?") then Ok "me" else Err "no token";
     amqp_locale := λ _, "en_US"; amqp_client_properties := λ _, FieldTable_default; closer_noop := λ _, false |}.

Lemma auth_failure_hangs_witness : ∃ r s1 e1 s2 e2,
  begin_handshake (CH := failing_handle) (Configuration.mk 0 0 0) "/" false 0 (0, 9, 1) 0%nat
    (parts (Configuration.mk 0 0 0) "" false 0 0) env_empty = (Ok (r, Some (ProtocolHeader (0, 9, 1))), s1, e1) ∧
  exchanges (CH := failing_handle) 0 (0, 9, 1) 0%nat [ConnectionStart "EXTERNAL" "en_US"; ConnectionSecure "who?"] s1 e1 =
    (Ok [Some (Method 0 (start_ok (CH := failing_handle) 0%nat "secret")); Some (Method 0 (ConnectionSecureOk "me"))], s2, e2) ∧
  stuck (CH := failing_handle) r 0%nat "no token" (ConnectionSecure "really?") s2 e2.
Proof.
  destruct (auth_failure_hangs (AT := number_types) (AP := number_protocol) (CH := failing_handle) (Configuration.mk 0 0 0) "/" false 0 (0, 9, 1) 0%nat
    "EXTERNAL" "en_US" "no token" (parts (Configuration.mk 0 0 0) "" false 0 0) env_empty) as (r & s1 & e1 & E1 & _ & H); [done|done|].
  destruct (H "secret" ["who?"] ["me"] "really?") as (s2 & e2 & E2 & Hs); [done|by repeat constructor|done|].
  exists r, s1, e1, s2, e2. split; [exact E1|]. split; [exact E2|exact Hs].
Defined.

End Witnesses.
End AuthFailure.
