(* ===== verification/Auth.v ===== *)
(** Authentication (src/auth.rs): the providers of the library, and the periodic
    refresh of their token (src/secret_update.rs) from the provider to the server.  The mechanisms and the credentials
    are those of the amq-protocol crate (class [Sasl]); what the closures of a token provider depend on is
    a world [W] they may change. *)
From S2P Require Import Prelude.
From S2P Require Import IdSequence.
From S2P Require Import Buffer.
From S2P Require Import Types.
From S2P Require Import Env.
From S2P Require Import Frames.
From S2P Require Import Registry.
From S2P Require Import ChannelStatus.
From S2P Require Import Messages.
From S2P Require Import Acknowledgements.
From S2P Require Import Consumers.
From S2P Require Import Connection.
From S2P Require Import Channel.
From S2P Require Import Generated.
From S2P Require Import Channels.
From S2P Require Import Heartbeat.
From S2P Require Import InternalRPC.
From S2P Require Import Recovery.
From S2P Require Import Handles.
From S2P Require Import Handshake.
Open Scope Z_scope.

Class Sasl := {
  SASLMechanism : Type;
  mechanism_eq_dec :: EqDecision SASLMechanism;
  mechanism_name : SASLMechanism → string;
  mechanism_display : SASLMechanism → string;
  mechanism_default : SASLMechanism;
  External : SASLMechanism;
  RabbitCrDemo : SASLMechanism;
  Credentials : Type;
  credentials_new : LongString → LongString → Credentials;
  sasl_auth_string : Credentials → SASLMechanism → LongString;
  rabbit_cr_demo_challenge : Credentials → LongString;
  rabbit_cr_demo_answer : Credentials → LongString;
}.

Module Auth.

(** ** The traits *)

(** [AuthProvider], on a world [W]. *)
Record AuthProvider (W : Type) := mkProvider {
  p_mechanism : W → ShortString;
  p_auth_starter : W → result string LongString * W;
  p_continue_auth : LongString → W → result string LongString * W;
  p_valid_for : W → option Z * W;
  p_refresh : W → result string LongString * W;
}.
Arguments mkProvider {W}.
Arguments p_mechanism {W}.
Arguments p_auth_starter {W}.
Arguments p_continue_auth {W}.
Arguments p_valid_for {W}.
Arguments p_refresh {W}.

(** [TokenProvider]. *)
Record TokenProvider (W : Type) := mkTokenProvider {
  tp_valid_for : W → option Z * W;
  tp_create_token : W → result string LongString * W;
}.
Arguments mkTokenProvider {W}.
Arguments tp_valid_for {W}.
Arguments tp_create_token {W}.

Section Providers.
Context `{SA : Sasl} {W : Type}.

(** The methods a provider that does not implement them inherits. *)
Definition mechanism_inherited (w : W) : ShortString := mechanism_name External.
Definition auth_starter_inherited (w : W) : result string LongString * W := (Ok "", w).
Definition continue_auth_inherited (name : ShortString) (challenge : LongString) (w : W) : result string LongString * W :=
  (Err ("Received Connection.Secure with challenge '" +:+ challenge +:+ "' but we don't know how to handle it for " +:+ name +:+ "."), w).
Definition valid_for_inherited (w : W) : option Z * W := (None, w).
Definition refresh_inherited (w : W) : result string LongString * W := (Err "Refresh not supported on current auth provider", w).

(** [DefaultAuthProvider]. *)
Definition default_continue_auth (creds : Credentials) (mech : SASLMechanism) (challenge : LongString) (w : W)
    : result string LongString * W :=
  if bool_decide (mech ≠ RabbitCrDemo) then
    (Err ("Received invalid Connection.Secure with challenge '" +:+ challenge +:+ "' for SASL mechanism " +:+
          mechanism_display mech +:+ " with default provider."), w)
  else if bool_decide (challenge ≠ rabbit_cr_demo_challenge creds) then
    (Err (mechanism_display mech +:+ ": received invalid challenge '" +:+ challenge +:+ "'"), w)
  else (Ok (rabbit_cr_demo_answer creds), w).

Definition DefaultAuthProvider (creds : Credentials) (mech : option SASLMechanism) : AuthProvider W :=
  let mech := default mechanism_default mech in
  mkProvider (λ _, mechanism_name mech) (λ w, (Ok (sasl_auth_string creds mech), w))
    (default_continue_auth creds mech) valid_for_inherited refresh_inherited.

(** [TokenAuthProvider]. *)
Definition token_auth_starter (tp : TokenProvider W) (w : W) : result string LongString * W :=
  let '(r, w) := tp_create_token tp w in
  (match r with Ok token => Ok (sasl_auth_string (credentials_new "" token) mechanism_default) | Err err => Err err end, w).

Definition TokenAuthProvider (tp : TokenProvider W) : AuthProvider W :=
  mkProvider (λ _, mechanism_name mechanism_default) (token_auth_starter tp)
    (continue_auth_inherited (mechanism_name mechanism_default)) (tp_valid_for tp) (tp_create_token tp).

(** [DefaultTokenProvider]: the closures, and the cell of the last token. *)
Definition default_valid_for (vf : LongString → W → option Z * W) (s : LongString * W) : option Z * (LongString * W) :=
  let '(d, w) := vf s.1 s.2 in (d, (s.1, w)).

Definition default_create_token (ct : W → result string LongString * W) (s : LongString * W)
    : result string LongString * (LongString * W) :=
  let '(r, w) := ct s.2 in
  match r with Ok token => (Ok token, (token, w)) | Err err => (Err err, (s.1, w)) end.

Definition DefaultTokenProvider (vf : LongString → W → option Z * W) (ct : W → result string LongString * W)
    : TokenProvider (LongString * W) :=
  mkTokenProvider (default_valid_for vf) (default_create_token ct).

End Providers.

(** ** Refreshing the token *)

Section Refresh.
Context `{AT : AmqpTypes} `{AP : !AmqpProtocol} `{CH : !ConnectionHandle}
  `{HZ : !HashOrder Z} `{HS : !HashOrder string}.
Context {W : Type} (P : AuthProvider W).
Import InternalRPC Recovery Handles.

(** One turn of the task of [SecretUpdate::start], started with the kill switch [k]: [None] when the loop
    ends; otherwise the time it sleeps and the promise it awaits, if the refresh gave a token. *)
Definition refresh_turn (k : KillSwitch) (w : W) : M t (option (Z * option Resolver) * W) :=
  s ← get; e ← get_env;
  let connected := ConnectionStatus.connected (Channels.connection_status (channels s)) in
  let '(valid_for, w1) := if killed k e || negb connected then (None, w) else p_valid_for P w in
  d ← in_secret (SecretUpdate.poll_timeout connected valid_for k);
  match d with
  | None => mret (None, w1)
  | Some d =>
    let '(r, w2) := p_refresh P w1 in
    p ← in_secret (SecretUpdate.refresh (match r with Ok token => Some token | Err _ => None end));
    mret (Some (d, p), w2)
  end.

(** The turn, the dispatch of its command, the answer of the server, and the promises on their way
    back to the task. *)
Definition refresh_exchange (now : Z) (v : Z * Z * Z) (cr : ConnectionRef) (k : KillSwitch) (w : W) : M t (option unit * W) :=
  x ← refresh_turn k w;
  match x with
  | (Some (d, Some p), w) =>
    step now v cr;;
    r ← in_channels (Channels.handle_frame (Method 0 ConnectionUpdateSecretOk));
    poll_waiting 0;;
    x ← try_wait p;
    mret (match r, x with Ok _, Some (Ok _) => Some tt | _, _ => None end, w)
  | (_, w) => mret (None, w)
  end.

Fixpoint refresh_exchanges (n : nat) (now : Z) (v : Z * Z * Z) (cr : ConnectionRef) (k : KillSwitch) (w : W) : M t (option unit * W) :=
  match n with
  | O => mret (Some tt, w)
  | S n =>
    x ← refresh_exchange now v cr k w;
    match x with (Some _, w) => refresh_exchanges n now v cr k w | (None, w) => mret (None, w) end
  end.

(** A connected client with nothing under way on its channel 0, whose refresh task is alive. *)
Record quiet (k : KillSwitch) (s : t) (e : Env) : Prop := {
  qt_connected : ConnectionStatus.connected (Channels.connection_status (channels s)) = true;
  qt_alive : killed k e = false;
  qt_rpc : rpc e = [];
  qt_tasks : tasks s = [];
  qt_waiting : waiting s = [];
  qt_fresh : ∀ p, (next_ref e ≤ p)%nat → promises e !! p = None;
  qt_poison : Frames.check_poison (frames s) 0 = None;
  qt_expected : Frames.expected_replies (frames s) !!! 0 = [];
  qt_id : Channel.id (Channels.channel0 (channels s)) = 0;
  qt_open : ChannelStatus.can_receive_messages (Channel.status (Channels.channel0 (channels s))) = true;
}.

Definition reason : ShortString := "Automatic periodical refresh".

Definition secret_sent (token : LongString) (e : Env) : Env :=
  sent (CUpdateSecret token reason (next_ref e)) (set_next_ref (S (next_ref e)) e).

Lemma refresh_turn_eq k w d w1 token w2 s e : quiet k s e → p_valid_for P w = (Some d, w1) → p_refresh P w1 = (Ok token, w2) →
  refresh_turn k w s e = ((Some (d, Some (next_ref e)), w2), s, secret_sent token e).
Proof.
  intros Hq Hv Hr. unfold refresh_turn. rewrite bind_get, bind_get_env, (qt_connected _ _ _ Hq), (qt_alive _ _ _ Hq), Hv.
  cbn [orb negb]. assert (E : in_secret (SecretUpdate.poll_timeout true (Some d) k) s e = (Some d, s, e)).
  { unfold in_secret, zoom, SecretUpdate.poll_timeout. rewrite bind_get_env, (qt_alive _ _ _ Hq). by destruct s. }
  rewrite (bind_eq _ _ _ _ _ _ _ E), Hr. unfold in_secret, zoom, mbind, M_bind. cbn. by destruct s.
Qed.

(** The client while the server has the secret. *)
Definition asking (token : LongString) (e : Env) : Channel.t → Channel.t :=
  Generated.map_frames (Generated.requested 0 (ConnectionUpdateSecret token reason) (RConnectionUpdateSecretOk (S (next_ref e))) (S (next_ref e))).

Definition secret_asked (token : LongString) (e : Env) : Env := Generated.after_call (taken_command (secret_sent token e)).

Lemma secret_step token now v cr k s e : quiet k s e →
  step now v cr s (secret_sent token e) =
  (tt, set_waiting [(S (next_ref e), Finish, Some (next_ref e))] (with_chan 0 (asking token e (chan (Channels.channel0 (channels s)) s)) s),
   secret_asked token e).
Proof.
  intros Hq. set (c0 := Channels.channel0 (channels s)).
  etransitivity; [eapply (step_eq now v cr (CUpdateSecret token reason (next_ref e)) (FUpdateSecret token reason) (Some (next_ref e)) s
    (secret_sent token e) _ s (set_rpc [] (secret_sent token e)) _ _ [])|].
  - simpl. by rewrite (qt_rpc _ _ _ Hq).
  - apply (qt_tasks _ _ _ Hq).
  - unfold dispatch. rewrite bind_get, bind_get_env. unfold register_internal_future_with_resolver. rewrite bind_modify.
    by rewrite (qt_tasks _ _ _ Hq).
  - unfold first_poll. rewrite bind_get_env. apply (call_lift 0 _ _ s _ c0); [done|].
    unfold Generated.connection_update_secret, Generated.waiting.
    erewrite bind_eq by (apply Generated.call_eq; cbn [chan Channel.self Channel.conn]; unfold c0; rewrite (qt_id _ _ _ Hq);
      apply (qt_poison _ _ _ Hq)).
    cbn [chan Channel.self]. unfold c0 at 1 2. rewrite (qt_id _ _ _ Hq). done.
  - cbn [progress]. unfold modify. cbn [waiting with_chan set_channels]. by rewrite (qt_waiting _ _ _ Hq).
Qed.

(** The queues once the server has answered. *)
Definition answered (x : Channel.t) : Channel.t :=
  Channel.set_conn (λ cn, Channel.set_frames_ (without_replies 0 (Channel.frames cn)) cn) x.

Lemma secret_answered token k w s e : quiet k s e →
  let x := asking token e (chan (Channels.channel0 (channels s)) s) in
  in_channels (Channels.handle_frame (Method 0 ConnectionUpdateSecretOk)) (set_waiting w (with_chan 0 x s)) (secret_asked token e) =
  (Ok tt, set_waiting w (with_chan 0 (answered x) s), promise_set (S (next_ref e)) (Ok VUnit) (secret_asked token e)).
Proof.
  intros Hq x. set (c0 := Channels.channel0 (channels s)). set (e2 := promise_set _ _ _).
  rewrite (receive_lift 0 ConnectionUpdateSecretOk (set_waiting w (with_chan 0 x s)) _ c0 (Ok tt) (answered x) e2).
  - by rewrite <- (with_with_chan 0 x (answered x) s).
  - apply (get_with_chan 0 x s).
  - transitivity (Generated.receive_method ConnectionUpdateSecretOk x (secret_asked token e));
      [f_equal; apply (chan_with_chan 0 x s)|].
    cbn [Generated.receive_method]. unfold Generated.receive_connection_update_secret_ok.
    rewrite Handshake.on_channel0_eq, Generated.can_receive_eq by apply Hq.
    assert (Hx : Frames.expected_replies (Channel.frames (Channel.conn x)) !! Channel.id (Channel.self x) =
      Some [mkExpectedReply (RConnectionUpdateSecretOk (S (next_ref e))) (S (next_ref e))]).
    { unfold x, asking. simpl. rewrite (qt_id _ _ _ Hq), lookup_insert_eq. pose proof (qt_expected _ _ _ Hq) as He.
      unfold frames in He. by rewrite He. }
    erewrite (Generated.expecting_first _ _ _ _ _ _ x _ Hx eq_refl).
    change (Channel.id (Channel.self x)) with (Channel.id (Channels.channel0 (channels s))). by rewrite (qt_id _ _ _ Hq).
Qed.

(** What the exchange leaves. *)
Definition refreshed (token : LongString) (e : Env) : Env :=
  taken (next_ref e) (promise_set (next_ref e) (Ok VUnit)
    (taken (S (next_ref e)) (promise_set (S (next_ref e)) (Ok VUnit) (secret_asked token e)))).

Lemma refreshed_eq token k s e : quiet k s e →
  refreshed token e = set_promises (promises e) (secret_asked token e).
Proof.
  intros Hq. unfold refreshed, taken, promise_set. pose proof (qt_fresh _ _ _ Hq) as Hf.
  assert (Hp : promises (secret_asked token e) = promises e) by done.
  generalize dependent (secret_asked token e). intros e1 Hp. rewrite Hp, (Hf (S (next_ref e))) by lia. cbn [promises set_promises].
  rewrite delete_insert_id, (Hf (next_ref e)) by (done || apply Hf; lia). cbn [promises set_promises].
  rewrite delete_insert_id by (apply Hf; lia). done.
Qed.

Lemma refresh_exchange_eq k w d w1 token w2 now v cr s e :
  quiet k s e → p_valid_for P w = (Some d, w1) → p_refresh P w1 = (Ok token, w2) → ∃ s' e',
  refresh_exchange now v cr k w s e = ((Some tt, w2), s', e') ∧ quiet k s' e' ∧
  queued_methods (frames s') = queued_methods (frames s) ++ [Method 0 (ConnectionUpdateSecret token reason)].
Proof.
  intros Hq Hv Hr. set (x := asking token e (chan (Channels.channel0 (channels s)) s)).
  pose proof (qt_fresh _ _ _ Hq) as Hf. set (q := S (next_ref e)). set (e2 := promise_set q (Ok VUnit) (secret_asked token e)).
  exists (set_waiting [] (with_chan 0 (answered x) s)), (refreshed token e). split_and!.
  - unfold refresh_exchange. rewrite (bind_eq _ _ _ _ _ _ _ (refresh_turn_eq k w d w1 token w2 s e Hq Hv Hr)).
    rewrite (bind_eq _ _ _ _ _ _ _ (secret_step token now v cr k s e Hq)).
    rewrite (bind_eq _ _ _ _ _ _ _ (secret_answered token k _ s e Hq)). fold x e2.
    assert (Ht : ∀ z : t, try_wait q z e2 = (Some (Ok VUnit), z, taken q e2)).
    { intros z. unfold try_wait, taken. do 2 f_equal. apply Generated.set_complete. simpl. apply Hf. lia. }
    assert (E : poll_waiting 0 (set_waiting [(q, Finish, Some (next_ref e))] (with_chan 0 (answered x) s)) e2 =
      (tt, set_waiting [] (with_chan 0 (answered x) s), promise_set (next_ref e) (Ok VUnit) (taken q e2))).
    { unfold poll_waiting. rewrite bind_get. cbn [waiting set_waiting lookup list_lookup].
      by rewrite (bind_eq _ _ _ _ _ _ _ (Ht _)), bind_modify. }
    rewrite (bind_eq _ _ _ _ _ _ _ E). set (e3 := promise_set _ _ _).
    assert (Hp : promises e3 !! next_ref e = Some (Ok VUnit)).
    { apply Generated.set_complete. simpl. rewrite lookup_delete_ne by lia. unfold e2. rewrite promise_set_lookup, decide_False by lia.
      apply Hf. lia. }
    assert (Ht2 : ∀ z : t, try_wait (next_ref e) z e3 = (Some (Ok VUnit), z, taken (next_ref e) e3))
      by (intros z; unfold try_wait, taken; do 2 f_equal; exact Hp).
    by rewrite (bind_eq _ _ _ _ _ _ _ (Ht2 _)).
  - rewrite (refreshed_eq token k s e Hq). destruct Hq as [H1 H2 H3 H4 H5 H6 H7 H8 H9 H10]. split; try done.
    + intros p Hp. simpl in *. apply Hf. lia.
    + unfold frames. cbn [channels set_waiting with_chan set_channels]. simpl. apply lookup_total_insert_eq.
  - unfold frames, queued_methods. simpl. by rewrite fmap_app.
Qed.

(** The tokens of [n] turns whose provider gives a duration and a token each time. *)
Fixpoint tokens (n : nat) (w : W) : option (list LongString * W) :=
  match n with
  | O => Some ([], w)
  | S n =>
    match p_valid_for P w with
    | (Some _, w) =>
      match p_refresh P w with
      | (Ok token, w) => '(l, w) ← tokens n w; Some (token :: l, w)
      | (Err _, _) => None
      end
    | (None, _) => None
    end
  end.

Lemma refreshes_eq n now v cr k : ∀ w l w' s e, quiet k s e → tokens n w = Some (l, w') → ∃ s' e',
  refresh_exchanges n now v cr k w s e = ((Some tt, w'), s', e') ∧ quiet k s' e' ∧
  queued_methods (frames s') = queued_methods (frames s) ++ ((λ token, Method 0 (ConnectionUpdateSecret token reason)) <$> l).
Proof.
  induction n as [|n IH]; intros w l w' s e Hq Ht; cbn [tokens] in Ht.
  { injection Ht as <- <-. exists s, e. split_and!; try done. by rewrite app_nil_r. }
  destruct (p_valid_for P w) as [[d|] w1] eqn:Hv; [|done]. destruct (p_refresh P w1) as [[token|err] w2] eqn:Hr; [|done].
  destruct (tokens n w2) as [[l2 w3]|] eqn:Ht2; [|done]. injection Ht as <- <-.
  destruct (refresh_exchange_eq k w d w1 token w2 now v cr s e Hq Hv Hr) as (s1 & e1 & E1 & Hq1 & Hs1).
  destruct (IH w2 l2 w3 s1 e1 Hq1 Ht2) as (s2 & e2 & E2 & Hq2 & Hs2).
  exists s2, e2. cbn [refresh_exchanges]. rewrite (bind_eq _ _ _ _ _ _ _ E1). split_and!; try done.
  by rewrite Hs2, Hs1, <- app_assoc.
Qed.

End Refresh.

Section Tokens.
Context `{AT : AmqpTypes} `{AP : !AmqpProtocol} `{CH : !ConnectionHandle} `{SA : Sasl}
  `{HZ : !HashOrder Z} `{HS : !HashOrder string}.
Context {W : Type} (vf : LongString → W → option Z * W) (ct : W → result string LongString * W).
Import InternalRPC Recovery Handles.

Definition provider : AuthProvider (LongString * W) := TokenAuthProvider (DefaultTokenProvider vf ct).

(** The cell holds the last token. *)
Lemma tokens_last n : ∀ w l w', tokens provider n w = Some (l, w') → w'.1 = default w.1 (last l).
Proof.
  induction n as [|n IH]; intros [t0 w] l w' Ht; cbn [tokens] in Ht.
  { by injection Ht as <- <-. }
  simpl in Ht. unfold default_valid_for in Ht. simpl in Ht. destruct (vf t0 w) as [[d|] w1]; [|done].
  unfold default_create_token in Ht. simpl in Ht. destruct (ct w1) as [[token|err] w2]; [|done].
  destruct (tokens provider n (token, w2)) as [[l2 w3]|] eqn:Ht2; [|done]. injection Ht as <- <-.
  rewrite (IH _ _ _ Ht2). destruct l2 as [|y l2]; [done|]. simpl. by destruct (last (y :: l2)) eqn:E; [|apply last_None in E].
Qed.

(** C27: every refreshed token reaches the server.  While the connection is up, each turn of the
    refresh task of a token provider creates a token and asks the server, once, to use it; the task
    goes on when the server has agreed.  So after [n] turns connection.update-secret was sent for exactly the
    tokens the application's closure created, in that order, nothing is left waiting, and the provider
    asks how long the last of them is valid. *)
Theorem tokens_reach_server n now v cr k t0 w l w' s e :
  quiet k s e → tokens provider n (t0, w) = Some (l, w') → ∃ s' e',
  refresh_exchanges provider n now v cr k (t0, w) s e = ((Some tt, w'), s', e') ∧ quiet k s' e' ∧
  queued_methods (frames s') = queued_methods (frames s) ++ ((λ token, Method 0 (ConnectionUpdateSecret token reason)) <$> l) ∧
  (p_valid_for provider w').1 = (vf (default t0 (last l)) w'.2).1.
Proof.
  intros Hq Ht. destruct (refreshes_eq provider n now v cr k (t0, w) l w' s e Hq Ht) as (s' & e' & E & Hq' & Hs).
  exists s', e'. split_and!; try done. pose proof (tokens_last n _ _ _ Ht) as Hl. destruct w' as [t' w'].
  simpl in *. unfold default_valid_for. simpl. rewrite Hl. by destruct (vf _ w').
Qed.

End Tokens.

Section Witnesses.
Import InternalRPC Recovery Handles.
#[local] Existing Instances number_types number_protocol number_handle.
#[local] Instance z_order : HashOrder Z := canonical_order Z.
#[local] Instance s_order : HashOrder string := canonical_order string.

(** Two mechanisms, and credentials that are their strings. *)
#[local] Instance demo_sasl : Sasl := {|
  SASLMechanism := bool; mechanism_name b := if b then "PLAIN" else "RABBIT-CR-DEMO"; mechanism_display b := if b then "PLAIN" else "RABBIT-CR-DEMO";
  mechanism_default := true; External := true; RabbitCrDemo := false;
  Credentials := string * string; credentials_new u p := (u, p); sasl_auth_string c _ := c.1 +:+ "/" +:+ c.2;
  rabbit_cr_demo_challenge _ := "Please tell me your password"; rabbit_cr_demo_answer c := "My password is " +:+ c.2;
|}.

(** An application that numbers its tokens. *)
Definition demo_valid_for (token : LongString) (w : nat) : option Z * nat := (Some 1000, w).
Definition demo_create_token (w : nat) : result string LongString * nat := (Ok ("token " +:+ pretty w), S w).

Definition demo_open : t :=
  let s := demo_client demo_idle [] in
  set_channels (Channels.set_channel0 (with_state ChConnected (Channels.channel0 (channels s))) (channels s)) s.

Lemma tokens_reach_server_witness : ∃ s' e' w',
  refresh_exchanges (provider demo_valid_for demo_create_token) 2 0 (0, 9, 1) 0%nat 3%nat (EmptyString, 1%nat) demo_open demo_store =
    ((Some tt, w'), s', e') ∧
  queued_methods (frames s') = [Method 0 (ConnectionUpdateSecret "token 1" reason); Method 0 (ConnectionUpdateSecret "token 2" reason)].
Proof.
  destruct (tokens_reach_server (AT := number_types) (AP := number_protocol) (CH := number_handle) demo_valid_for demo_create_token
    2 0 (0, 9, 1) 0%nat 3%nat EmptyString 1%nat ["token 1"; "token 2"] ("token 2", 3%nat) demo_open demo_store)
    as (s' & e' & E & _ & H & _); [|done|].
  - by split.
  - exists s', e', ("token 2", 3%nat). split; [exact E|exact H].
Defined.

(** The provider of user and password answers the challenge of its own demonstration mechanism,
    and none with another. *)
Example default_provider_answers :
  (p_continue_auth (DefaultAuthProvider ("u", "p") (Some false)) "Please tell me your password" tt).1 = Ok "My password is p" ∧
  (p_continue_auth (DefaultAuthProvider ("u", "p") None) "Please tell me your password" tt).1 =
    Err "Received invalid Connection.Secure with challenge 'Please tell me your password' for SASL mechanism PLAIN with default provider.".
Proof. done. Qed.

End Witnesses.
End Auth.
