(* ===== verification/Connecting.v ===== *)
(** The ways to connect: [Connect] and [Connection::connector], [run] (src/connection.rs), [ConnectionBuilder]
    (src/connection_builder.rs), the default runtime (src/runtime.rs) and the handle of the io loop's thread (src/thread.rs);
    composed with the handshake, so that what an application configures is followed to what the server gets. *)
From S2P Require Import Prelude.
From S2P Require Import Buffer.
From S2P Require Import Types.
From S2P Require Import Env.
From S2P Require Import Frames.
From S2P Require Import ChannelStatus.
From S2P Require Import Connection.
From S2P Require Import Setup.
From S2P Require Import Channel.
From S2P Require Import Generated.
From S2P Require Import Channels.
From S2P Require Import Heartbeat.
From S2P Require Import InternalRPC.
From S2P Require Import Recovery.
From S2P Require Import Handles.
From S2P Require Import Handshake.
From S2P Require Import Auth.
Open Scope Z_scope.

(** ** The thread of the io loop *)

Module ThreadHandle.

(** How a thread ends. *)
Inductive Outcome := Returned (r : res unit) | Panicked.

(** [join] waits for the end of the thread. *)
Record JoinHandle := mkJoin { thread_id : nat; join : Outcome }.

Definition t : Type := option JoinHandle.

Definition default_ : t := None.
Definition register (h : JoinHandle) (th : t) : t := Some h.
Definition take (th : t) : option JoinHandle * t := (th, None).

(** [wait] in the thread [me]; a panic goes on in the caller. *)
Definition wait (me : nat) (th : t) : Outcome * t :=
  let '(h, th) := take th in
  (match h with
   | Some h => if Nat.eqb (thread_id h) me then Returned (Ok tt) else join h
   | None => Returned (Ok tt)
   end, th).

End ThreadHandle.

(** ** The crates a connection is made with *)

(** The URI (amq-protocol), the TLS configuration (tcp-stream), the runtimes (async-rs), the
    retries (backon), the tables (amq-protocol). *)
Class Crates `{AmqpTypes} `{Sasl} := {
  Backoff : Type;
  backoff_default : Backoff;
  backoff_max_times : Z → Backoff → Backoff;
  AMQPUri : Type;
  parse_uri : string → option AMQPUri;
  userinfo : AMQPUri → Credentials;
  query_auth_mechanism : AMQPUri → option SASLMechanism;
  query_channel_max : AMQPUri → option ChannelId;
  query_frame_max : AMQPUri → option FrameSize;
  query_heartbeat : AMQPUri → option Heartbeat;
  uri_vhost : AMQPUri → ShortString;
  OwnedTLSConfig : Type;
  tls_default : OwnedTLSConfig;
  Runtime : Type;
  tokio_current : Runtime;
  async_global_executor : Runtime;
  smol : Runtime;
  is_runtime_shutdown_error : Runtime → IoErrorKind → bool;
}.

(** The providers of the applications keep no state of their own here. *)
#[export] Instance setup_types `{CR : Crates} : SetupTypes := {|
  ExponentialBuilder := Backoff; builder_default := backoff_default; with_max_times := backoff_max_times;
  Provider := Auth.AuthProvider unit;
|}.

(** What the handshake reads of a connection is in its configuration, and whether its drop closes anything in its closer. *)
Definition configured `{CR : Crates} (confs : ConnectionRef → ConnectionConfiguration.t)
    (closers : ConnectionRef → ConnectionCloser.t) : ConnectionHandle := {|
  mechanism c := Auth.p_mechanism (ConnectionConfiguration.auth_provider (confs c)) tt;
  auth_starter c := (Auth.p_auth_starter (ConnectionConfiguration.auth_provider (confs c)) tt).1;
  continue_auth c challenge := (Auth.p_continue_auth (ConnectionConfiguration.auth_provider (confs c)) challenge tt).1;
  amqp_locale c := ConnectionConfiguration.amqp_locale (confs c);
  amqp_client_properties c := ConnectionConfiguration.amqp_client_properties (confs c);
  closer_noop c := ConnectionCloser.noop_ (closers c);
|}.

Module Connect.
Section Connect.
Context `{AT : AmqpTypes} `{AP : !AmqpProtocol} `{SA : Sasl} `{CR : !Crates} `{CH : !ConnectionHandle}
  `{HZ : !HashOrder Z} `{HS : !HashOrder string}.
Import InternalRPC.

(** [default_runtime], by the features the crate is built with. *)
Definition default_runtime (tokio age smol_ : bool) : res Runtime :=
  if tokio then Ok tokio_current
  else if age then Ok async_global_executor
  else if smol_ then Ok smol
  else Err (error_from NoDefaultRuntime).

(** [Error::other]; the message is not kept. *)
Definition io_other : IoErrorKind := OtherIo (-1).
Definition error_other : Error := error_from (IOError io_other).

(** [Error::io]. *)
Definition error_io (k : IoErrorKind) (rt : Runtime) : Error :=
  error_from (if is_runtime_shutdown_error rt k then RuntimeShutdownError k else IOError k).

(** [DefaultAuthProvider::new]. *)
Definition default_provider (uri : AMQPUri) : Auth.AuthProvider unit :=
  Auth.DefaultAuthProvider (userinfo uri) (query_auth_mechanism uri).

(** [Configuration::new]. *)
Definition configuration (uri : AMQPUri) (options : ConnectionProperties.t) : ConnectionConfiguration.t :=
  ConnectionConfiguration.new (default_provider uri) (query_channel_max uri) (query_frame_max uri) (query_heartbeat uri) options.

(** A connection as [connector] makes it; [transport] is what the closure of the io loop connects with. *)
Record Conn := mkConn {
  conf : ConnectionConfiguration.t;
  closer : ConnectionCloser.t;
  io_loop : ThreadHandle.t;
  transport : AMQPUri * OwnedTLSConfig * Runtime;
}.

(** [Connection::connector], with the closure that [Connect for AMQPUri] gives it; [spawned] is what the system made of the
    thread.  The caller awaits the promise. *)
Definition connector (now : Z) (c : ConnectionRef) (spawned : result IoErrorKind ThreadHandle.JoinHandle) (uri : AMQPUri)
    (options : ConnectionProperties.t) (config : OwnedTLSConfig) (rt : Runtime) : M t (res (Conn * Resolver)) :=
  let conf := configuration uri options in
  s ← Handshake.connector (ConnectionConfiguration.negotiated_config conf) (uri_vhost uri) (ConnectionConfiguration.auto_recover conf) now;
  put s;;
  match spawned with
  | Err k => mret (Err (error_io k rt))
  | Ok h =>
    let! p := Handshake.start (0, 9, 1) c in
    mret (Ok (mkConn conf ConnectionCloser.new (ThreadHandle.register h ThreadHandle.default_) (uri, config, rt), p))
  end.

(** [Connect] for a string. *)
Definition connect_str (now : Z) (c : ConnectionRef) (spawned : result IoErrorKind ThreadHandle.JoinHandle) (text : string)
    (options : ConnectionProperties.t) (config : OwnedTLSConfig) (rt : Runtime) : M t (res (Conn * Resolver)) :=
  match parse_uri text with
  | Some uri => connector now c spawned uri options config rt
  | None => mret (Err error_other)
  end.

(** [Connect::connect] for a string. *)
Definition connect_default (now : Z) (c : ConnectionRef) (spawned : result IoErrorKind ThreadHandle.JoinHandle) (tokio age smol_ : bool)
    (text : string) (options : ConnectionProperties.t) : M t (res (Conn * Resolver)) :=
  match default_runtime tokio age smol_ with
  | Ok rt => connect_str now c spawned text options tls_default rt
  | Err err => mret (Err err)
  end.

(** [Connection::run] in the thread [me]; [last]: nothing else, no channel for one, holds the closer. *)
Definition run (me : nat) (last : bool) (conn : Conn) : M ConnectionStatus.t ThreadHandle.Outcome :=
  (if last then ConnectionCloser.drop (closer conn) else mret tt);;
  mret (ThreadHandle.wait me (io_loop conn)).1.

(** [for_reconnect]: dropping the connection of a recovery closes nothing. *)
Definition for_reconnect (cf : ConnectionConfiguration.t) (tr : AMQPUri * OwnedTLSConfig * Runtime) : Conn :=
  mkConn cf (ConnectionCloser.noop ConnectionCloser.new) ThreadHandle.default_ tr.

(** [run] ends with the io loop, and asks for the end of the connection when nothing else uses it. *)
Lemma run_eq me last conn h s e : io_loop conn = Some h → ThreadHandle.thread_id h ≠ me → closer conn = ConnectionCloser.new →
  run me last conn s e =
  (ThreadHandle.join h, s,
   if last && ConnectionStatus.auto_close s then env_of (rpc_close_connection REPLY_SUCCESS "OK" 0 0 s e) else e).
Proof.
  intros Hl Hm Hc. unfold run. rewrite Hl, Hc. unfold ThreadHandle.wait, ThreadHandle.take. apply Nat.eqb_neq in Hm. rewrite Hm.
  destruct last; [|done]. unfold ConnectionCloser.drop. cbn [ConnectionCloser.noop_ ConnectionCloser.new andb]. destruct (ConnectionStatus.auto_close s) eqn:E;
    unfold mbind, M_bind, get; by rewrite E.
Qed.

Lemma reconnect_quiet me last cf tr s e : run me last (for_reconnect cf tr) s e = (ThreadHandle.Returned (Ok tt), s, e).
Proof. by destruct last. Qed.

(** ** From the parts to the header *)

(** The dispatcher takes the status of channel 0 and the io loop writes the header. *)
Lemma connector_begins now c h uri options config rt s0 e : rpc e = [] → (∀ p, (next_ref e ≤ p)%nat → promises e !! p = None) →
  let cf := configuration uri options in
  ∃ r s1 e1 s2 e2, connector now c (Ok h) uri options config rt s0 e = (Ok (mkConn cf ConnectionCloser.new (Some h) (uri, config, rt), r), s1, e1) ∧
    (run_next now;; Handshake.write_next) s1 e1 = (Some (ProtocolHeader (0, 9, 1)), s2, e2) ∧
    Handshake.between (ConnectionConfiguration.negotiated_config cf) (uri_vhost uri) r
      [mkExpectedReply (RConnectionStep (StepProtocolHeader r c)) r] s2 e2.
Proof.
  intros Hr Hf cf. unfold connector. fold cf.
  destruct (Handshake.connector_eq (ConnectionConfiguration.negotiated_config cf) (uri_vhost uri) (ConnectionConfiguration.auto_recover cf) now s0 e Hr) as [w1 E1].
  cbv zeta. rewrite (bind_eq _ _ _ _ _ _ _ E1). unfold put at 1. unfold mbind at 1, M_bind at 1.
  set (s1 := Handshake.parts _ _ _ _ _). set (e1 := set_wakes w1 _).
  destruct (Handshake.start_eq (0, 9, 1) c s1 e1 eq_refl eq_refl eq_refl) as [w2 E2]. rewrite (try_bind_ok _ _ _ _ _ _ _ E2).
  set (r := next_ref e1). set (e2 := set_wakes w2 _).
  destruct (Handshake.dispatch_status now 0 (3 + next_ref e)%nat (Recovery.with_chan 0 (Handshake.started (0, 9, 1) c r s1) s1) e2 eq_refl) as [w3 E3].
  set (e3 := set_wakes w3 _) in E3.
  set (s2 := set_channels_status (<[0 := (3 + next_ref e)%nat]> (channels_status s1)) s1).
  pose proof (Handshake.write_only (Handshake.header_entry (0, 9, 1) r) (Handshake.started (0, 9, 1) c r s1) s2 e3 eq_refl eq_refl eq_refl) as E4.
  exists r. do 2 eexists. exists (Recovery.with_chan 0 (Generated.map_frames (Frames.set_frames []) (Handshake.started (0, 9, 1) c r s1)) s2).
  eexists. split; [reflexivity|]. split; [rewrite (bind_eq _ _ _ _ _ _ _ E3); exact E4|].
  split; try done.
  - intros ch Hch. unfold Handshake.frames. simpl. by rewrite lookup_total_insert_ne.
  - intros q Hq. apply Hf. cbn in Hq. lia.
  - split; [cbn; lia|]. apply Hf. cbn. lia.
Qed.

End Connect.
End Connect.

(** ** The builder *)

Module ConnectionBuilder.
Section ConnectionBuilder.
Context `{AT : AmqpTypes} `{AP : !AmqpProtocol} `{SA : Sasl} `{CR : !Crates} `{HZ : !HashOrder Z} `{HS : !HashOrder string}.
Import InternalRPC.

Inductive UriBuilder := Str (text : string) | Uri (uri : AMQPUri) | Unset.

Record t := mk {
  runtime : Runtime;
  uri : UriBuilder;
  properties : option ConnectionProperties.t;
  tls_config : option OwnedTLSConfig;
}.

Definition new_with_runtime (rt : Runtime) : t := mk rt Unset None None.

Definition new (tokio age smol_ : bool) : res t :=
  match Connect.default_runtime tokio age smol_ with Ok rt => Ok (new_with_runtime rt) | Err err => Err err end.

Definition with_uri (u : AMQPUri) (b : t) : t := mk (runtime b) (Uri u) (properties b) (tls_config b).
Definition with_uri_str (text : string) (b : t) : t := mk (runtime b) (Str text) (properties b) (tls_config b).
Definition with_properties (p : ConnectionProperties.t) (b : t) : t := mk (runtime b) (uri b) (Some p) (tls_config b).
Definition with_tls_config (config : OwnedTLSConfig) (b : t) : t := mk (runtime b) (uri b) (properties b) (Some config).

Definition connect `{CH : !ConnectionHandle} (now : Z) (c : ConnectionRef) (spawned : result IoErrorKind ThreadHandle.JoinHandle) (b : t)
    : M InternalRPC.t (res (Connect.Conn * Resolver)) :=
  let options := default ConnectionProperties.default_ (properties b) in
  let config := default tls_default (tls_config b) in
  match uri b with
  | Str text => Connect.connect_str now c spawned text options config (runtime b)
  | Uri u => Connect.connector now c spawned u options config (runtime b)
  | Unset => mret (Err Connect.error_other)
  end.

(** A chain of calls. *)
Inductive Call := CUri (u : AMQPUri) | CUriStr (text : string) | CProperties (p : ConnectionProperties.t) | CTls (config : OwnedTLSConfig).

Definition call (k : Call) : t → t :=
  match k with CUri u => with_uri u | CUriStr text => with_uri_str text | CProperties p => with_properties p | CTls config => with_tls_config config end.

Definition calls (l : list Call) (b : t) : t := foldl (λ b k, call k b) b l.

(** What a chain says: the last call of each kind counts, whatever the order of the kinds. *)
Definition said_uri (k : Call) : option (option AMQPUri) :=
  match k with CUri u => Some (Some u) | CUriStr text => Some (parse_uri text) | _ => None end.
Definition said_properties (k : Call) : option ConnectionProperties.t := match k with CProperties p => Some p | _ => None end.
Definition said_tls (k : Call) : option OwnedTLSConfig := match k with CTls config => Some config | _ => None end.

Definition asked_uri (l : list Call) : option AMQPUri := mjoin (last (omap said_uri l)).
Definition asked_properties (l : list Call) : ConnectionProperties.t := default ConnectionProperties.default_ (last (omap said_properties l)).
Definition asked_tls (l : list Call) : OwnedTLSConfig := default tls_default (last (omap said_tls l)).

Definition uri_of (u : UriBuilder) : option (option AMQPUri) :=
  match u with Str text => Some (parse_uri text) | Uri u => Some (Some u) | Unset => None end.

Lemma omap_snoc {A B} (f : A → option B) l x : omap f (l ++ [x]) = omap f l ++ option_list (f x).
Proof. rewrite omap_app. simpl. by destruct (f x). Qed.

Lemma last_option_list {A} (l : list A) o : last (l ++ option_list o) = match o with Some x => Some x | None => last l end.
Proof. destruct o; simpl; [apply last_snoc|by rewrite app_nil_r]. Qed.

Lemma calls_eq rt l : let b := calls l (new_with_runtime rt) in
  runtime b = rt ∧ uri_of (uri b) = last (omap said_uri l) ∧ properties b = last (omap said_properties l) ∧
  tls_config b = last (omap said_tls l).
Proof.
  cbv zeta. induction l as [|k l (H1 & H2 & H3 & H4)] using rev_ind; [done|].
  unfold calls. rewrite foldl_app, !omap_snoc, !last_option_list. by destruct k.
Qed.

Lemma connect_eq `{CH : !ConnectionHandle} now c spawned rt l :
  connect now c spawned (calls l (new_with_runtime rt)) =
  match asked_uri l with
  | Some u => Connect.connector now c spawned u (asked_properties l) (asked_tls l) rt
  | None => mret (Err Connect.error_other)
  end.
Proof.
  destruct (calls_eq rt l) as (H1 & H2 & H3 & H4). unfold connect, asked_uri, asked_properties, asked_tls.
  rewrite H1, H3, H4, <- H2. unfold Connect.connect_str. destruct (uri _) as [text| |]; simpl; [|done|done].
  by destruct (parse_uri text).
Qed.

(** C17: what is configured is what the server gets.  For every chain of builder calls whose last URI is valid: the parts of the connection are
    made, its io loop is to connect to that URI with the last TLS configuration given, or the default; against a
    server that sends connection.start, any number of challenges, connection.tune and connection.open-ok, and
    with a provider (the one of the last properties or else the one of the URI) that answers them, exactly these frames are written, in this
    order: the header of AMQP 0-9-1, start-ok with the announced client properties, the locale of the last properties and the mechanism
    and the data of the provider, one secure-ok per challenge, tune-ok with the values negotiated between the
    server and the query of the URI, and open for the virtual host of the URI; the connection ends up connected with
    these values, nothing left to write or to expect, and the caller gets it.  The announced client
    properties are those of the last properties, except for the platform and the capabilities, which are the
    client's own, and for the product and the version, which are the client's own unless both are configured;
    every capability announced is true. *)
Theorem configured_client_connects (confs : ConnectionRef → ConnectionConfiguration.t) (closers : ConnectionRef → ConnectionCloser.t) now c h rt l u
    ms ls starter challenges responses cmax fmax hb s0 e :
  asked_uri l = Some u → confs c = Connect.configuration u (asked_properties l) →
  rpc e = [] → (∀ p, (next_ref e ≤ p)%nat → promises e !! p = None) →
  let CH := configured confs closers in
  let table := ConnectionProperties.client_properties (asked_properties l) in
  let P := default (Connect.default_provider u) (ConnectionProperties.auth_provider (asked_properties l)) in
  (Auth.p_auth_starter P tt).1 = Ok starter → Forall2 (λ ch a, (Auth.p_continue_auth P ch tt).1 = Ok a) challenges responses →
  let limits := Configuration.tune_connection_configuration cmax fmax hb
    (Configuration.new (query_channel_max u) (query_frame_max u) (query_heartbeat u)) in
  ∃ conn r s1 e1 s2 e2 s3 e3 s' e' announced,
    connect now c (Ok h) (calls l (new_with_runtime rt)) s0 e = (Ok (conn, r), s1, e1) ∧
    Connect.transport conn = (u, asked_tls l, rt) ∧
    (run_next now;; Handshake.write_next) s1 e1 = (Some (ProtocolHeader (0, 9, 1)), s2, e2) ∧
    Handshake.exchanges now (0, 9, 1) c (Handshake.server_methods ms ls challenges cmax fmax hb) s2 e2 =
      (Ok (Some ∘ Method 0 <$>
         ConnectionStartOk announced (Auth.p_mechanism P tt) starter
           (ConnectionProperties.locale (asked_properties l)) ::
         (ConnectionSecureOk <$> responses) ++
         [ConnectionTuneOk (Configuration.channel_max limits) (Configuration.frame_max limits) (Configuration.heartbeat limits)]), s3, e3) ∧
    Handshake.end_handshake s3 e3 = (Ok (Some (Method 0 (ConnectionOpen (uri_vhost u)))), s', e') ∧
    ConnectionStatus.state (Channels.connection_status (channels s')) = CoConnected ∧
    Channel.configuration (Channels.conn (channels s')) = limits ∧
    Generated.expected (Handshake.channel0 s') = [] ∧ Frames.frames (Handshake.frames s') = [] ∧
    promises e' !! r = Some (Ok (VConnection c)) ∧
    (∀ k, table_lookup k announced =
       if decide (k = "capabilities") then Some (FieldTableValue capabilities) else
       if decide (k = "platform") then Some (LongStringValue "rust") else
       if contains_key "product" table && contains_key "version" table then table_lookup k table else
       if decide (k = "version") then Some (LongStringValue "4.11.0") else
       if decide (k = "product") then Some (LongStringValue "lapin") else table_lookup k table) ∧
    (∀ k, k ∈ capability_names → table_lookup k capabilities = Some (BooleanValue true)).
Proof.
  intros Hu Hcf Hr Hf CH table P Hs Hc limits.
  destruct (Connect.connector_begins now c h u (asked_properties l) (asked_tls l) rt s0 e Hr Hf) as (r & s1 & e1 & s2 & e2 & E1 & E2 & Hb).
  destruct (Handshake.completes now (0, 9, 1) c ms ls starter challenges responses cmax fmax hb _ _ _ _ _ _ Hb) as (s3 & e3 & s' & e' & E3 & H).
  { simpl. by rewrite Hcf. }
  { simpl. by rewrite Hcf. }
  eexists _, r, s1, e1, s2, e2, s3, e3, s', e', (announced_properties table). rewrite connect_eq, Hu.
  split; [exact E1|]. split; [done|]. split; [exact E2|].
  split; [rewrite E3; unfold Handshake.start_ok; simpl; by rewrite Hcf|]. destruct H as (H1 & H2 & H3 & H4 & H5 & H6).
  split_and!; [done..|intros k; apply announced_lookup|].
  intros k Hk. unfold capabilities. by rewrite table_inserts_lookup, decide_True.
Qed.

(** Without a valid URI nothing happens. *)
Lemma connect_refused `{CH : !ConnectionHandle} now c spawned rt l s e : asked_uri l = None →
  connect now c spawned (calls l (new_with_runtime rt)) s e = (Err Connect.error_other, s, e).
Proof. intros H. by rewrite connect_eq, H. Qed.

End ConnectionBuilder.
End ConnectionBuilder.

(** ** A concrete application *)

Module ConnectingWitness.
Import InternalRPC ConnectionBuilder.
#[local] Existing Instances number_types number_protocol Auth.demo_sasl.
#[local] Instance z_order : HashOrder Z := canonical_order Z.
#[local] Instance s_order : HashOrder string := canonical_order string.

(** A URI is its user, its password and its virtual host; it asks for the demonstration mechanism and a frame size. *)
#[local] Instance demo_crates : Crates := {|
  Backoff := Z; backoff_default := 3; backoff_max_times n _ := n;
  AMQPUri := string * string * string;
  parse_uri text := if String.eqb text "amqp://u:p@host/v" then Some ("u", "p", "v") else None;
  userinfo u := u.1; query_auth_mechanism _ := Some false; query_channel_max _ := None; query_frame_max _ := Some 8192;
  query_heartbeat _ := None; uri_vhost u := u.2;
  OwnedTLSConfig := string; tls_default := EmptyString;
  Runtime := nat; tokio_current := 1%nat; async_global_executor := 2%nat; smol := 3%nat; is_runtime_shutdown_error _ _ := false;
|}.

Definition demo_calls : list Call :=
  [CUriStr "nowhere"; CTls "certificate"; CUriStr "amqp://u:p@host/v";
   CProperties (ConnectionProperties.with_connection_name "demo" ConnectionProperties.default_)].

Definition demo_confs (c : ConnectionRef) : ConnectionConfiguration.t := Connect.configuration ("u", "p", "v") (asked_properties demo_calls).

Lemma configured_client_connects_witness : ∃ conn r s1 e1 s' e' announced,
  connect (CH := configured demo_confs (λ _, ConnectionCloser.new)) 0 0%nat (Ok (ThreadHandle.mkJoin 7 (ThreadHandle.Returned (Ok tt)))) (calls demo_calls (new_with_runtime 1%nat)) Handshake.demo_parts env_empty =
    (Ok (conn, r), s1, e1) ∧
  Connect.transport conn = (("u", "p", "v"), "certificate", 1%nat) ∧
  Channel.configuration (Channels.conn (channels s')) = Configuration.mk 2047 8192 60 ∧ promises e' !! r = Some (Ok (VConnection 0%nat)) ∧
  table_lookup "connection_name" announced = Some "demo" ∧ table_lookup "product" announced = Some "lapin".
Proof.
  destruct (configured_client_connects (AT := number_types) (AP := number_protocol) demo_confs (λ _, ConnectionCloser.new) 0 0%nat
    (ThreadHandle.mkJoin 7 (ThreadHandle.Returned (Ok tt))) 1%nat demo_calls ("u", "p", "v") "PLAIN RABBIT-CR-DEMO" "en_US" "u/p"
    ["Please tell me your password"] ["My password is p"] 2047 131072 60 Handshake.demo_parts env_empty)
    as (conn & r & s1 & e1 & s2 & e2 & s3 & e3 & s' & e' & announced & E1 & E2 & _ & _ & _ & _ & Hc & _ & _ & Hr & Hk & _);
    [done|done|done|done|done|by repeat constructor|].
  exists conn, r, s1, e1, s', e', announced. split_and!; [exact E1|exact E2|rewrite Hc; by vm_compute|exact Hr|by rewrite Hk..].
Defined.

(** Without a URI, or with one that does not parse, nothing is set up. *)
Example no_uri : asked_uri [CUri ("u", "p", "v"); CUriStr "nowhere"] = None ∧ asked_uri [CTls "certificate"] = None.
Proof. done. Qed.

End ConnectingWitness.
