(* ===== verification/Invariant.v ===== *)
(** The invariant of the client: what holds of every channel and of the map of channels in every state
    that frames of the server, calls of the application, commands and futures lead to. *)
From S2P Require Import Prelude.
From S2P Require Import IdSequence.
From S2P Require Import Buffer.
From S2P Require Import Types.
From S2P Require Import Env.
From S2P Require Import Frames.
From S2P Require Import Registry.
From S2P Require Import ChannelStatus.
From S2P Require Import Messages.
From S2P Require Import Acknowledgements.
From S2P Require Import Consumers.
From S2P Require Import Connection.
From S2P Require Import Channel.
From S2P Require Import Generated.
From S2P Require Import Channels.
From S2P Require Import Heartbeat.
From S2P Require Import Supervisor.
From S2P Require Import InternalRPC.
From S2P Require Import Recovery.
From S2P Require Import Handshake.
Open Scope Z_scope.

(** ** Preserving an invariant *)

Class Preserves `{AT : AmqpTypes} {S A} (I : S → Prop) (m : M S A) : Prop :=
  preserves : ∀ s e, I s → I (state_of (m s e)).

Create HintDb client discriminated.

Section Preserves.
Context `{AT : AmqpTypes} {S : Type} (I : S → Prop).

#[export] Instance preserves_ret {A} (a : A) : Preserves I (mret a : M S A).
Proof. by intros s e. Qed.
Lemma preserves_bind {A B} (m : M S A) (k : A → M S B) : Preserves I m → (∀ a, Preserves I (k a)) → Preserves I (m ≫= k).
Proof.
  intros Hm Hk s e Hs. unfold mbind, M_bind. specialize (Hm s e Hs). destruct (m s e) as [[a s'] e']. by apply Hk.
Qed.
Lemma preserves_try_bind {A B} (m : M S (res A)) (k : A → M S (res B)) :
  Preserves I m → (∀ a, Preserves I (k a)) → Preserves I (try_bind m k).
Proof. intros Hm Hk. apply preserves_bind; [done|]. intros [a|err]; [done|apply preserves_ret]. Qed.
Lemma preserves_if {A} (b : M S bool) (x y : M S A) : Preserves I b → Preserves I x → Preserves I y → Preserves I (if_ b x y).
Proof. intros Hb Hx Hy. apply preserves_bind; [done|]. by intros []. Qed.
#[export] Instance preserves_get : Preserves I (get : M S S).
Proof. by intros s e. Qed.
#[export] Instance preserves_get_env : Preserves I (get_env : M S Env).
Proof. by intros s e. Qed.
#[export] Instance preserves_env f : Preserves I (modify_env f : M S unit).
Proof. by intros s e. Qed.
Lemma preserves_modify f : (∀ s, I s → I (f s)) → Preserves I (modify f).
Proof. intros Hf s e Hs. by apply Hf. Qed.
(** [let x = ..; *self = f(x)]. *)
Lemma preserves_update {A} (f : S → S) (k : S → unit → M S A) :
  (∀ s, I s → I (f s)) → (∀ s x, Preserves I (k s x)) → Preserves I (s ← get; put (f s) ≫= k s).
Proof. intros Hf Hk s e Hs. unfold get, put, mbind, M_bind. apply Hk. by apply Hf. Qed.
#[export] Instance preserves_fresh : Preserves I (fresh : M S nat).
Proof. by intros s e. Qed.
#[export] Instance preserves_kill k : Preserves I (kill k : M S bool).
Proof. by intros s e. Qed.
#[export] Instance preserves_rpc c : Preserves I (rpc_send c : M S unit).
Proof. by intros s e. Qed.
#[export] Instance preserves_complete p r : Preserves I (complete p r : M S unit).
Proof. by intros s e. Qed.
#[export] Instance preserves_wake : Preserves I (wake : M S unit).
Proof. by intros s e. Qed.
#[export] Instance preserves_event ev : Preserves I (send_event ev : M S unit).
Proof. by intros s e. Qed.
Lemma preserves_for_each {A} (l : list A) (f : A → M S unit) : (∀ x, Preserves I (f x)) → Preserves I (for_each l f).
Proof. intros Hf. induction l as [|x l IH]; [apply preserves_ret|]. by apply preserves_bind. Qed.
(** What leaves the state alone. *)
Lemma preserves_same {A} (m : M S A) : keeps_state m → Preserves I m.
Proof. intros Hm s e Hs. by rewrite Hm. Qed.
Lemma preserves_zoom {T A} (J : T → Prop) (g : S → T) (p : T → S → S) (m : M T A) :
  Preserves J m → (∀ s, I s → J (g s)) → (∀ x s, I s → J x → I (p x s)) → Preserves I (zoom g p m).
Proof.
  intros Hm Hg Hp s e Hs. unfold zoom. specialize (Hm (g s) e (Hg s Hs)). destruct (m (g s) e) as [[a x] e'].
  by apply Hp.
Qed.
End Preserves.

Lemma preserves_any `{AT : AmqpTypes} {S A} (m : M S A) : Preserves (λ _, True) m.
Proof. done. Qed.

Ltac preserve_step :=
  match goal with
  | |- Preserves _ (_ ≫= _) => apply preserves_bind; [|intros]
  | |- Preserves _ (try_bind _ _) => apply preserves_try_bind; [|intros]
  | |- Preserves _ (if_ _ _ _) => apply preserves_if
  | |- Preserves _ (for_each _ _) => apply preserves_for_each; intros
  | |- Preserves _ (if ?x then _ else _) => destruct x
  | |- Preserves _ (match ?x with _ => _ end) => destruct x
  | |- Preserves _ (let _ := _ in _) => cbv zeta
  | |- Preserves _ _ => solve [eauto 2 with client typeclass_instances]
  end.
Ltac preserve := unfold_rpc; repeat preserve_step.

#[export] Instance preserves_drop_connection `{AT : AmqpTypes} `{CH : !ConnectionHandle} {S} (I : S → Prop) st c :
  Preserves I (drop_connection_ (S := S) st c).
Proof. apply preserves_same, keeps_state_drop_connection. Qed.

Module Invariant.
Import Channel.
Section Invariant.
Context `{AT : AmqpTypes} `{AP : !AmqpProtocol} `{CH : !ConnectionHandle}
  `{HZ : !HashOrder Z} `{HS : !HashOrder string}.

(** ** The parts of a channel *)

(** No content of no bytes is waited for, and no more bytes than a word of 64 bits counts. *)
Definition content_ok (x : ReceiverStates.ChannelReceiverState) : Prop :=
  match x with ReceiverStates.ReceivingContent _ len => 0 < len < 2 ^ 64 | _ => True end.

Definition status_ok (i : ChannelId) (s : ChannelStatus.t) : Prop :=
  ChannelStatus.id s = i ∧ Forall content_ok (ChannelStatus.receiver_state s).

(** Delivery tags are non zero words of 64 bits. *)
Record acks_ok (i : ChannelId) (a : Acknowledgements.t) : Prop := {
  ao_id : Acknowledgements.channel_id a = i;
  ao_zero : IdSequence.allow_zero (Acknowledgements.delivery_tag a) = false;
  ao_max : IdSequence.max (Acknowledgements.delivery_tag a) = None;
  ao_range : 0 ≤ IdSequence.id (Acknowledgements.delivery_tag a) < 2 ^ 64;
  ao_pending : ∀ tag, is_Some (Acknowledgements.pending a !! tag) → 1 ≤ tag < 2 ^ 64;
}.

Record chan_ok (i : ChannelId) (c : Chan) : Prop := {
  co_id : id c = i;
  co_status : status_ok i (status c);
  co_acks : acks_ok i (acknowledgements c);
  co_registry : Registry.reachable (local_registry c);
}.

(** The limits of the connection are words of their widths. *)
Record conf_ok (c : Configuration.t) : Prop := {
  cf_channel_max : 0 ≤ Configuration.channel_max c ≤ u16_max;
  cf_frame_max : 0 ≤ Configuration.frame_max c ≤ u32_max;
  cf_heartbeat : 0 ≤ Configuration.heartbeat c ≤ u16_max;
}.

(** What a method of the server carries of them, when it is parsed. *)
Definition typed_method (m : AMQPClass) : Prop :=
  match m with ConnectionTune cmax fmax hb => conf_ok (Configuration.mk cmax fmax hb) | _ => True end.

Lemma conf_tuned cmax fmax hb c : conf_ok (Configuration.mk cmax fmax hb) → conf_ok c →
  conf_ok (Configuration.tune_connection_configuration cmax fmax hb c).
Proof.
  intros [H1 H2 H3] [H4 H5 H6]. simpl in *. destruct (Configuration.tune_stricter cmax fmax hb c) as (_ & Hh & _ & Hc & Hf); [done..|].
  split; [lia|lia|]. rewrite Hh. unfold Configuration.stricter. destruct (hb =? 0), (Configuration.heartbeat c =? 0); lia.
Qed.

Definition ok (i : ChannelId) (x : t) : Prop := chan_ok i (self x) ∧ conf_ok (configuration (conn x)).

(** *** Status *)

Lemma status_modify i f : (∀ s, ChannelStatus.id (f s) = ChannelStatus.id s) →
  (∀ s, ChannelStatus.receiver_state (f s) = ChannelStatus.receiver_state s) → Preserves (status_ok i) (modify f).
Proof. intros H1 H2. apply preserves_modify. intros s [Hi Hc]. split; [by rewrite H1|by rewrite H2]. Qed.

Lemma cancel_replies_ok {S} (I : S → Prop) l err : Preserves I (Frames.cancel_expected_replies l err).
Proof. apply preserves_same. intros s e. by rewrite Frames.cancel_replies_eq. Qed.
Hint Resolve cancel_replies_ok : client.

Lemma status_finalize i : Preserves (status_ok i) ChannelStatus.finalize_connection.
Proof.
  unfold ChannelStatus.finalize_connection, ChannelStatus.update_rpc_status, RecoveryContext.finalize_recovery, notify_all.
  preserve; by apply status_modify.
Qed.
Hint Resolve status_finalize : client.

Lemma status_set_confirm i : Preserves (status_ok i) ChannelStatus.set_confirm.
Proof. unfold ChannelStatus.set_confirm. preserve. by apply status_modify. Qed.
Lemma status_set_state i x : Preserves (status_ok i) (ChannelStatus.set_state x).
Proof. by apply status_modify. Qed.
Lemma status_set_flow i b : Preserves (status_ok i) (ChannelStatus.set_send_flow b).
Proof. by apply status_modify. Qed.
Lemma status_set_context i c : Preserves (status_ok i) (modify (ChannelStatus.set_context c)).
Proof. by apply status_modify. Qed.

Lemma status_reconnecting i err d : Preserves (status_ok i) (ChannelStatus.set_reconnecting err d).
Proof.
  unfold ChannelStatus.set_reconnecting, RecoveryContext.new, killswitch_new. preserve; try by apply status_modify.
  apply preserves_modify. intros s [Hi _]. by split.
Qed.

Lemma status_will_receive i class_id cause : Preserves (status_ok i) (ChannelStatus.set_will_receive class_id cause).
Proof.
  unfold ChannelStatus.set_will_receive. preserve. apply preserves_modify. intros s [Hi Hc]. split; [done|].
  apply Forall_app. by repeat constructor.
Qed.
Hint Resolve status_set_confirm status_set_state status_set_flow status_set_context status_reconnecting status_will_receive : client.

(** *** Confirms *)

Lemma acks_modify i f : (∀ a, Acknowledgements.channel_id (f a) = Acknowledgements.channel_id a) →
  (∀ a, Acknowledgements.delivery_tag (f a) = Acknowledgements.delivery_tag a) →
  (∀ a, Acknowledgements.pending (f a) ⊆ Acknowledgements.pending a) → Preserves (acks_ok i) (modify f).
Proof.
  intros H1 H2 H3. apply preserves_modify. intros a [? ? ? ? Hp]. split; rewrite ?H1, ?H2; try done.
  intros tag [x Hx]. apply Hp. exists x. by eapply lookup_weaken.
Qed.

Lemma acks_returned {A} i (m : M ReturnedMessages.t A) : Preserves (acks_ok i) (Acknowledgements.in_returned m).
Proof. apply (preserves_zoom _ (λ _, True)); try done. by intros x a [] _. Qed.
Hint Resolve acks_returned : client.

Lemma acks_complete i success tag rs : Preserves (acks_ok i) (Acknowledgements.complete_pending success tag rs).
Proof. unfold Acknowledgements.complete_pending, resolve. preserve. Qed.
Hint Resolve acks_complete : client.

Lemma acks_drop_pending i tag success : Preserves (acks_ok i) (Acknowledgements.drop_pending tag success).
Proof.
  intros a e Ha. unfold Acknowledgements.drop_pending. rewrite bind_get. destruct (_ !! tag); [|done].
  rewrite bind_modify. apply (preserves_bind (acks_ok i)); [apply acks_complete|intros; apply preserves_ret|].
  destruct Ha as [? ? ? ? Hp]. split; try done. intros tag' [x Hx]. apply Hp. exists x. simpl in Hx.
  by apply lookup_delete_Some in Hx as [_ ?].
Qed.
Hint Resolve acks_drop_pending : client.

Lemma acks_clear i : Preserves (acks_ok i) (modify (Acknowledgements.set_pending ∅)).
Proof. apply acks_modify; try done. intros a. apply map_empty_subseteq. Qed.
Hint Resolve acks_clear : client.

Lemma acks_complete_loop i tags success : ∀ r, Preserves (acks_ok i) (Acknowledgements.complete_loop tags success r).
Proof. induction tags as [|tag tags IH]; intros r; cbn [Acknowledgements.complete_loop]; preserve. Qed.
Hint Resolve acks_complete_loop : client.

Lemma acks_confirm i tag multiple success : Preserves (acks_ok i) (Acknowledgements.on_confirm tag multiple success).
Proof. unfold Acknowledgements.on_confirm, Acknowledgements.complete_pending_before, Acknowledgements.drop_all. preserve. Qed.

Lemma acks_channel_error i err : Preserves (acks_ok i) (Acknowledgements.on_channel_error err).
Proof. unfold Acknowledgements.on_channel_error, reject. preserve. Qed.
Hint Resolve acks_confirm acks_channel_error : client.

Lemma acks_reset i err : Preserves (acks_ok i) (Acknowledgements.reset err).
Proof. unfold Acknowledgements.reset. preserve. apply preserves_modify. intros a []. by split. Qed.

Lemma acks_last i : Preserves (acks_ok i) Acknowledgements.get_last_pending.
Proof. apply preserves_update; [by intros a []|intros; apply preserves_ret]. Qed.

(** A tag handed out. *)
Lemma next_tag q : IdSequence.allow_zero q = false → IdSequence.max q = None → 0 ≤ IdSequence.id q < 2 ^ 64 →
  let (tag, q') := IdSequence.next 64 q in
  1 ≤ tag < 2 ^ 64 ∧ IdSequence.allow_zero q' = false ∧ IdSequence.max q' = None ∧ 0 ≤ IdSequence.id q' < 2 ^ 64.
Proof.
  intros Ha Hm Hr. unfold IdSequence.next, IdSequence.skip_zero. rewrite Ha. cbn [negb andb].
  assert (Hmod : ∀ x, 0 ≤ IdSequence.add_assign 64 x 1 < 2 ^ 64) by (intros; apply Z.mod_pos_bound; lia).
  destruct (Z.eqb_spec (IdSequence.id q) 0) as [H0|H0]; simpl; rewrite Hm, bool_decide_false by done; simpl; split_and!; try done;
    try apply Hmod; try lia.
  rewrite H0. by vm_compute.
Qed.

Lemma acks_register i : Preserves (acks_ok i) Acknowledgements.register_pending.
Proof.
  intros a e [Hi Hz Hm Hr Hp]. unfold Acknowledgements.register_pending. rewrite bind_get.
  pose proof (next_tag _ Hz Hm Hr) as Hn. destruct (IdSequence.next 64 (Acknowledgements.delivery_tag a)) as [tag q].
  destruct Hn as (Ht & Hq1 & Hq2 & Hq3). split; try done. intros tag' Ht'. simpl in Ht'.
  destruct (decide (tag' = tag)) as [->|Hne]; [done|]. rewrite lookup_insert_ne in Ht' by done. by apply Hp.
Qed.
Hint Resolve acks_reset acks_last acks_register : client.

(** *** Registry *)

Lemma ok_registry i f : (∀ r, Registry.reachable r → Registry.reachable (f r)) → Preserves (ok i) (registry_update f).
Proof. intros Hf. apply preserves_modify. intros x [[] ?]. split; [|done]. split; try done. simpl. by apply Hf. Qed.

(** The registrations of the server's answers are those a recovery replays. *)
Lemma registry_registers r : Registry.reachable r →
  (∀ n k o a, Registry.reachable (Registry.register_exchange n k o a r)) ∧
  (∀ d x k a, Registry.reachable (Registry.register_exchange_binding d x k a r)) ∧
  (∀ n o a, Registry.reachable (Registry.register_queue n o a r)) ∧
  (∀ d x k a, Registry.reachable (Registry.register_queue_binding d x k a r)).
Proof.
  intros Hr. split_and!; intros.
  - exact (Registry.reach_ok r (Registry.QExchangeDeclare n k o a) Hr).
  - exact (Registry.reach_ok r (Registry.QExchangeBind d x k a) Hr).
  - exact (Registry.reach_ok r (Registry.QQueueDeclare n o a) Hr).
  - exact (Registry.reach_ok r (Registry.QQueueBind d x k a) Hr).
Qed.

(** *** The channel *)

Lemma ok_in_status {A} i (m : M ChannelStatus.t A) : Preserves (status_ok i) m → Preserves (ok i) (in_status m).
Proof. intros Hm. eapply preserves_zoom; [exact Hm|by intros s [[] _]|]. by intros x s [[] ?]. Qed.
Lemma ok_in_acks {A} i (m : M Acknowledgements.t A) : Preserves (acks_ok i) m → Preserves (ok i) (in_acks m).
Proof. intros Hm. eapply preserves_zoom; [exact Hm|by intros s [[] _]|]. by intros x s [[] ?]. Qed.
Lemma ok_in_consumers {A} i (m : M Consumers.t A) : Preserves (ok i) (in_consumers m).
Proof. apply (preserves_zoom _ (λ _, True)); try done. by intros x s [[] ?]. Qed.
Lemma ok_in_get {A} i (m : M BasicGetDelivery.t A) : Preserves (ok i) (in_get m).
Proof. apply (preserves_zoom _ (λ _, True)); try done. by intros x s [[] ?]. Qed.
Lemma ok_in_frames {A} i (m : M Frames.t A) : Preserves (ok i) (in_frames m).
Proof. by apply (preserves_zoom _ (λ _, True)). Qed.
Lemma ok_tuned i cmax fmax hb : conf_ok (Configuration.mk cmax fmax hb) → Preserves (ok i)
  (modify (set_conn (λ c, set_configuration (Configuration.tune_connection_configuration cmax fmax hb (configuration c)) c))).
Proof. intros Ht. apply preserves_modify. intros x [? ?]. split; [done|]. by apply conf_tuned. Qed.
Lemma ok_status_update i f : Preserves (ok i) (update_connection_status f).
Proof. by apply preserves_modify. Qed.
Hint Resolve ok_in_consumers ok_in_get ok_in_frames ok_tuned ok_status_update : client.
Hint Extern 2 (Preserves (ok _) (in_status _)) => apply ok_in_status; solve [preserve] : client.
Hint Extern 2 (Preserves (ok _) (in_acks _)) => apply ok_in_acks; solve [preserve] : client.
Hint Extern 2 (Preserves (ok _) (in_returned _)) => apply ok_in_acks; solve [preserve] : client.

(** The receiver of content. *)
Lemma ok_receiver i x q : ok i x → Forall content_ok q → ok i (set_receiver q x).
Proof. intros [[? [? _] ? ?] ?] Hq. split; [|done]. split; [done|by split|done|done]. Qed.

Lemma ok_contents i x : ok i x → Forall content_ok (receiver x).
Proof. by intros [[? [_ ?] ? ?] ?]. Qed.

Lemma ok_pop_front i : Preserves (ok i) (ReceiverStates.pop_front receiver set_receiver).
Proof.
  apply preserves_update; [|intros; apply preserves_ret]. intros x Hx. apply ok_receiver; [done|].
  pose proof (ok_contents i x Hx) as Hc. destruct (receiver x); [done|]. by apply Forall_cons in Hc as [_ ?].
Qed.

Lemma ok_push_front i cause len : 0 < len < 2 ^ 64 → Preserves (ok i)
  (ReceiverStates.push_front receiver set_receiver (ReceiverStates.ReceivingContent cause len)).
Proof. intros Hl. apply preserves_modify. intros x Hx. apply ok_receiver; [done|]. constructor; [done|by eapply ok_contents]. Qed.
Hint Resolve ok_pop_front : client.

Lemma ok_push_positive i cause len : len < 2 ^ 64 → Preserves (ok i)
  (if 0 <? len then ReceiverStates.push_front receiver set_receiver (ReceiverStates.ReceivingContent cause len) else mret tt).
Proof. intros Hl. destruct (Z.ltb_spec 0 len); [by apply ok_push_front|apply preserves_ret]. Qed.

Lemma ok_violation i err class_id method_id : Preserves (ok i) (report_protocol_violation err class_id method_id).
Proof. unfold report_protocol_violation, close_connection_for, rpc_close_connection. preserve. Qed.
Hint Resolve ok_push_positive ok_violation : client.

Lemma ok_header i class_id size props : size < 2 ^ 64 → Preserves (ok i) (handle_content_header_frame class_id size props).
Proof.
  intros Hz. unfold handle_content_header_frame, ReceiverStates.set_content_length, handle_invalid_contents.
  repeat first [by apply ok_push_positive|preserve_step].
Qed.

Lemma ok_body i payload : Preserves (ok i) (handle_body_frame payload).
Proof.
  unfold handle_body_frame, ReceiverStates.receive. apply preserves_bind; [preserve|intros x].
  intros s e Hs. rewrite ReceiverStates.bind_pop_front. pose proof (ok_contents i s Hs) as Hc. pose proof (ok_pop_front i s e Hs) as Hp.
  change (state_of _) with (set_receiver (tail (receiver s)) s) in Hp. revert Hp. generalize (set_receiver (tail (receiver s)) s). intros s1 Hs1.
  assert (Hbad : ∀ msg, Preserves (ok i) (handle_invalid_contents msg 0 0)) by (intros; unfold handle_invalid_contents; preserve).
  destruct (head (receiver s)) as [[|cause len]|] eqn:Eh; [by apply Hbad| |by apply Hbad].
  unfold ReceiverStates.checked_sub. destruct (Z.leb_spec (Z.of_nat (length payload)) len); [|by apply Hbad].
  destruct (receiver s); simplify_eq/=. apply Forall_cons in Hc as [Hc _]. simpl in Hc. revert s1 e Hs1.
  change (Preserves (ok i) ((match cause with
      | Consume tag => in_consumers (Consumers.handle_body_frame tag (len - Z.of_nat (length payload)) payload)
      | Get => in_get (BasicGetDelivery.handle_body_frame (len - Z.of_nat (length payload)) payload)
      | Return => in_returned (ReturnedMessages.handle_body_frame (len - Z.of_nat (length payload)) payload (ChannelStatus.confirm (status (self x))))
      end);; (if 0 <? len - Z.of_nat (length payload) then ReceiverStates.push_front receiver set_receiver
        (ReceiverStates.ReceivingContent cause (len - Z.of_nat (length payload))) else mret tt);; mret (Ok tt : res unit))).
  repeat first [apply ok_push_positive; lia|preserve_step].
Qed.

(** *** Methods *)

Lemma ok_guarded {A} i f ctx (k : M t (res A)) : Preserves (ok i) k → Preserves (ok i) (Generated.guarded f ctx k).
Proof. intros Hk. unfold Generated.guarded, this_status. preserve. Qed.

Lemma ok_send_method i m p r x : Preserves (ok i) (send_method_frame m p r x).
Proof. unfold send_method_frame, send_frame, this_id. preserve. Qed.
Hint Resolve ok_send_method : client.

Lemma ok_call i m r : Preserves (ok i) (Generated.call m r).
Proof. unfold Generated.call, promise_new. preserve. Qed.
Lemma ok_cast i m : Preserves (ok i) (Generated.cast m).
Proof. unfold Generated.cast, promise_new. preserve. Qed.
Hint Resolve ok_call ok_cast : client.
Lemma ok_call_step i m r c : Preserves (ok i) (Generated.call_step m r c).
Proof. unfold Generated.call_step, drop_refused, drop_connection. preserve. Qed.
Hint Resolve ok_call_step : client.

Lemma ok_waiting i m : Preserves (ok i) m → Preserves (ok i) (Generated.waiting m).
Proof. intros Hm. unfold Generated.waiting. preserve. Qed.

Lemma ok_expecting i name m select : (∀ r h, select r = Some h → Preserves (ok i) h) →
  Preserves (ok i) (Generated.expecting name m select).
Proof.
  intros Hs. unfold Generated.expecting, this_id, handle_invalid_contents. do 2 (apply preserves_bind; [preserve|intros]).
  match goal with |- Preserves _ (match ?x with _ => _ end) => destruct x as [h|] eqn:E end; [|preserve].
  apply bind_Some in E as (r & _ & Hr). by eapply Hs.
Qed.

Lemma ok_completing i p k : Preserves (ok i) k → Preserves (ok i) (Generated.completing p k).
Proof. intros Hk. unfold Generated.completing. preserve. Qed.

Lemma ok_on_channel0 i m k : Preserves (ok i) k → Preserves (ok i) (Generated.on_channel0 m k).
Proof. intros Hk. unfold Generated.on_channel0, assert_channel0, this_id, close_connection_for, rpc_close_connection. preserve. Qed.

Lemma ok_unless_wait i b m p : Preserves (ok i) m → Preserves (ok i) (Generated.unless_wait b m p).
Proof. intros Hm. unfold Generated.unless_wait. preserve. Qed.

(** The shapes of the generated methods. *)
Ltac method :=
  repeat match goal with
  | |- Preserves _ (Generated.guarded _ _ _) => apply ok_guarded
  | |- Preserves _ (Generated.can_receive _ _) => apply ok_guarded
  | |- Preserves _ (Generated.connected _ _) => apply ok_guarded
  | |- Preserves _ (Generated.waiting _) => apply ok_waiting
  | |- Preserves _ (Generated.on_channel0 _ _) => apply ok_on_channel0
  | |- Preserves _ (Generated.completing _ _) => apply ok_completing
  | |- Preserves _ (Generated.unless_wait _ _ _) => apply ok_unless_wait
  | |- Preserves _ (Generated.expecting _ _ _) => apply ok_expecting; intros [] ? [= <-]
  | |- Preserves _ (registry_update _) => apply ok_registry; intros ? Hr; first [by constructor|by apply (registry_registers _ Hr)]
  | _ => preserve_step
  end.

Lemma ok_poison i err : Preserves (ok i) (poison err).
Proof. unfold poison, this_id. preserve. Qed.
Lemma ok_error_consumers i err : Preserves (ok i) (error_consumers err).
Proof. unfold error_consumers, can_recover_. preserve. Qed.
Lemma ok_confirms_error i err : Preserves (ok i) (error_publisher_confirms err).
Proof. unfold error_publisher_confirms. preserve. Qed.
Lemma ok_set_state i x : Preserves (ok i) (set_state x).
Proof. unfold set_state. preserve. Qed.
Hint Resolve ok_poison ok_error_consumers ok_confirms_error ok_set_state : client.

Lemma ok_set_closing i err : Preserves (ok i) (set_closing err).
Proof. unfold set_closing. preserve. Qed.
Lemma ok_set_closed i err : Preserves (ok i) (set_closed err).
Proof. unfold set_closed, cancel_consumers, this_id. preserve. Qed.
Lemma ok_connection_error i err : Preserves (ok i) (set_connection_error err).
Proof. unfold set_connection_error, this_id. preserve. Qed.
Lemma ok_init_recovery i err : Preserves (ok i) (init_recovery err).
Proof. unfold init_recovery. preserve. Qed.
Lemma ok_update_recovery i : Preserves (ok i) update_recovery.
Proof. unfold update_recovery. preserve. Qed.
Lemma ok_finalize i : Preserves (ok i) finalize_connection.
Proof. unfold finalize_connection. preserve. Qed.
Lemma ok_process_error i st step r : Preserves (ok i) (connection_process_error st step r).
Proof. unfold connection_process_error, drop_connection, reject. preserve. Qed.
Lemma ok_drop_refused i c : Preserves (ok i) (drop_refused c).
Proof. unfold drop_refused, drop_connection. preserve. Qed.
Hint Resolve ok_set_closing ok_set_closed ok_connection_error ok_init_recovery ok_update_recovery ok_finalize ok_process_error ok_drop_refused : client.

Lemma ok_consumer_new {S} (I : S → Prop) tag queue o args : Preserves I (Consumer.new tag queue o args).
Proof. by intros s e. Qed.
Lemma ok_consumer_reset {S} (I : S → Prop) c : Preserves I (Consumer.reset c).
Proof.
  intros s e Hs. destruct (Recovery.Recovery.reset_eq c (λ _, mret tt) s e) as (e' & E & _).
  unfold mbind, M_bind in E. destruct (Consumer.reset c s e) as [[[] s'] e2]. by injection E as -> _.
Qed.
Lemma ok_message {S} (I : S → Prop) : (∀ i tag exch key redeliv count k, Preserves I (Messages.get_message_new i tag exch key redeliv count k)) ∧
  (∀ exch key code text k, Preserves I (Messages.return_message_new exch key code text k)).
Proof. split; intros; by intros s e. Qed.
Hint Resolve ok_consumer_new ok_consumer_reset : client.

(** Every method of the server. *)
Lemma ok_receive_method i m : typed_method m → Preserves (ok i) (Generated.receive_method m).
Proof.
  intros Hty.
  destruct (ok_message (ok i)) as [Hget Hreturn].
  destruct m; cbn [Generated.receive_method];
    unfold Generated.receive_basic_qos_ok, Generated.receive_basic_consume_ok, Generated.receive_basic_cancel,
      Generated.receive_basic_cancel_ok, Generated.receive_basic_return, Generated.receive_basic_deliver, Generated.receive_basic_get_ok,
      Generated.receive_basic_get_empty, Generated.receive_basic_ack, Generated.receive_basic_recover_ok, Generated.receive_basic_nack,
      Generated.receive_connection_start, Generated.receive_connection_secure, Generated.receive_connection_tune,
      Generated.connection_step, Generated.receive_connection_open_ok, Generated.receive_connection_close,
      Generated.receive_connection_close_ok, Generated.receive_connection_blocked, Generated.receive_connection_unblocked,
      Generated.receive_connection_update_secret_ok, Generated.receive_channel_open_ok, Generated.receive_channel_flow,
      Generated.receive_channel_flow_ok, Generated.receive_channel_close, Generated.receive_channel_close_ok,
      Generated.receive_access_request_ok, Generated.receive_exchange_declare_ok, Generated.receive_exchange_delete_ok,
      Generated.receive_exchange_bind_ok, Generated.receive_exchange_unbind_ok, Generated.receive_queue_declare_ok,
      Generated.receive_queue_bind_ok, Generated.receive_queue_purge_ok, Generated.receive_queue_delete_ok,
      Generated.receive_queue_unbind_ok, Generated.receive_tx_select_ok, Generated.receive_tx_commit_ok, Generated.receive_tx_rollback_ok,
      Generated.receive_confirm_select_ok, Generated.ok_;
    unfold on_basic_consume_ok_received, on_basic_cancel_ok_received, on_basic_cancel_received, on_basic_return_received,
      on_basic_deliver_received, on_basic_get_ok_received, on_basic_get_empty_received, on_basic_ack_received, on_basic_nack_received,
      on_basic_confirm_received, acknowledgement_error, on_basic_recover_ok_received, drop_prefetched_messages, deregister_consumer,
      on_connection_start_received, on_connection_secure_received, on_connection_tune_received, on_connection_open_ok_received,
      on_connection_close_received, on_connection_close_ok_received, on_connection_blocked_received, on_connection_unblocked_received,
      on_channel_open_ok_received, on_channel_flow_received, on_channel_flow_ok_received, on_channel_close_received,
      next_expected_close_ok_reply, on_channel_close_ok_received, on_exchange_declare_ok_received, on_exchange_delete_ok_received,
      on_exchange_bind_ok_received, on_exchange_unbind_ok_received, on_queue_declare_ok_received, on_queue_bind_ok_received,
      on_queue_purge_ok_received, on_queue_delete_ok_received, on_queue_unbind_ok_received, on_confirm_select_ok_received,
      handle_invalid_contents, confirm, connection_resolver, drop_connection, connection_state_, can_recover_, this_id, resolve, spawn, rpc_init_connection_shutdown;
    method.
Qed.

Hint Resolve ok_receive_method ok_header ok_body : client.

(** Every method of the client. *)
Lemma ok_run_call i k : Preserves (ok i) (Generated.run_call k).
Proof.
  pose proof (ok_receive_method i) as Hr.
  destruct k; cbn [Generated.run_call];
    unfold Generated.basic_qos, Generated.do_basic_consume, Generated.do_basic_get, Generated.basic_recover, Generated.channel_flow,
      Generated.access_request, Generated.exchange_declare, Generated.do_exchange_declare, Generated.exchange_delete, Generated.exchange_bind,
      Generated.exchange_unbind, Generated.queue_declare, Generated.queue_bind, Generated.queue_purge, Generated.queue_delete,
      Generated.queue_unbind, Generated.tx_select, Generated.tx_commit, Generated.tx_rollback, promise_new; method;
    match goal with
    | |- Preserves _ (Generated.receive_basic_consume_ok ?t) => exact (Hr (BasicConsumeOk t) I)
    | |- Preserves _ Generated.receive_exchange_declare_ok => exact (Hr ExchangeDeclareOk I)
    | |- Preserves _ Generated.receive_exchange_delete_ok => exact (Hr ExchangeDeleteOk I)
    | |- Preserves _ Generated.receive_exchange_bind_ok => exact (Hr ExchangeBindOk I)
    | |- Preserves _ Generated.receive_exchange_unbind_ok => exact (Hr ExchangeUnbindOk I)
    | |- Preserves _ (Generated.receive_queue_declare_ok ?q ?a ?b) => exact (Hr (QueueDeclareOk q a b) I)
    | |- Preserves _ Generated.receive_queue_bind_ok => exact (Hr QueueBindOk I)
    | |- Preserves _ (Generated.receive_queue_delete_ok ?n) => exact (Hr (QueueDeleteOk n) I)
    end.
Qed.
Hint Resolve ok_run_call : client.

Lemma ok_confirm_select i b : Preserves (ok i) (Generated.confirm_select b).
Proof. unfold Generated.confirm_select. method. Qed.
Lemma ok_channel_open i ch : Preserves (ok i) (Generated.channel_open ch).
Proof. unfold Generated.channel_open. method. Qed.
Hint Resolve ok_confirm_select ok_channel_open : client.

Lemma ok_publish i exch key mandatory immediate payload props :
  Preserves (ok i) (Generated.basic_publish exch key mandatory immediate payload props).
Proof. unfold Generated.basic_publish, before_basic_publish, send_method_frame_with_body, confirm, promise_new. method. Qed.

Lemma ok_cancel i tag nowait : Preserves (ok i) (Generated.basic_cancel tag nowait).
Proof.
  unfold Generated.basic_cancel, before_basic_cancel. method. exact (ok_receive_method i (BasicCancelOk tag) I).
Qed.

Lemma ok_settle i tag o : Preserves (ok i) (InternalRPC.settle_method tag o).
Proof.
  unfold InternalRPC.settle_method, Generated.basic_ack, Generated.basic_nack, Generated.basic_reject, on_basic_ack_sent, on_basic_nack_sent,
    drop_prefetched_messages. method.
Qed.

Lemma ok_close i code text class_id method_id : Preserves (ok i) (Generated.do_channel_close code text class_id method_id).
Proof. unfold Generated.do_channel_close, before_channel_close. method. Qed.
Lemma ok_close_ok i err : Preserves (ok i) (Generated.channel_close_ok err).
Proof. unfold Generated.channel_close_ok, on_channel_close_ok_sent. method. Qed.
Lemma ok_connection_close_ok i err : Preserves (ok i) (Generated.connection_close_ok err).
Proof. unfold Generated.connection_close_ok, on_connection_close_ok_sent, can_recover_. method. Qed.
Lemma ok_cast_waiting i m : Preserves (ok i) (Generated.waiting (Generated.cast m)).
Proof. method. Qed.
Lemma ok_call_waiting i m r : Preserves (ok i) (Generated.waiting (Generated.call m r)).
Proof. method. Qed.
Lemma ok_call_step_waiting i m r c : Preserves (ok i) (Generated.waiting (Generated.call_step m r c)).
Proof. apply ok_waiting. preserve. Qed.
Lemma ok_flow_ok i b : Preserves (ok i) (Generated.channel_flow_ok b).
Proof. unfold Generated.channel_flow_ok. method. Qed.
Lemma ok_cancel_ok i tag : Preserves (ok i) (Generated.basic_cancel_ok tag).
Proof. unfold Generated.basic_cancel_ok. method. Qed.

Lemma ok_send_request i q : Preserves (ok i) (Generated.send_request q).
Proof.
  destruct q as [| |n k o a|d x k a|n o a|d x k a|c]; cbn [Generated.send_request]; unfold this_id.
  - preserve.
  - preserve.
  - exact (ok_run_call i (Generated.KExchangeDeclare n k o a)).
  - exact (ok_run_call i (Generated.KExchangeBind d x k false a)).
  - exact (ok_run_call i (Generated.KQueueDeclare n o a)).
  - exact (ok_run_call i (Generated.KQueueBind d x k false a)).
  - apply preserves_bind; [preserve|intros]. apply preserves_bind; [preserve|intros e].
    destruct (consumers e !! c) as [x|]; [|apply preserves_ret].
    exact (ok_run_call i (Generated.KConsume (c_queue x) (c_tag x) (c_options x) (c_arguments x) (Some c))).
Qed.
Hint Resolve ok_publish ok_cancel ok_settle ok_close ok_close_ok ok_connection_close_ok ok_cast_waiting ok_call_waiting ok_call_step_waiting ok_flow_ok
  ok_cancel_ok ok_send_request : client.

Lemma ok_begin_recovery i : Preserves (ok i) Generated.begin_recovery.
Proof. unfold Generated.begin_recovery, this_status. method. Qed.
Lemma ok_wait_for_confirms i : Preserves (ok i) wait_for_confirms.
Proof. unfold wait_for_confirms. method. Qed.
Hint Resolve ok_begin_recovery ok_wait_for_confirms : client.

(** ** The channels of a connection *)

(** The map holds every channel under its own id, a non zero word of 16 bits; channel 0 is not in it. *)
Record client_ok (s : Channels.t) : Prop := {
  cl_zero : chan_ok 0 (Channels.channel0 s);
  cl_open : ∀ i c, Channels.channels s !! i = Some c → 1 ≤ i < 2 ^ 16 ∧ chan_ok i c;
  cl_nozero : IdSequence.allow_zero (Channels.channel_id s) = false;
  cl_id : 0 ≤ IdSequence.id (Channels.channel_id s) < 2 ^ 16;
  cl_conf : conf_ok (configuration (Channels.conn s));
}.

Lemma client_set_conn cn s : client_ok s → conf_ok (configuration cn) → client_ok (Channels.set_conn cn s).
Proof. by intros []. Qed.

Lemma client_get i s c : client_ok s → Channels.get_ i s = Some c → chan_ok i c.
Proof.
  intros Hs. unfold Channels.get_. destruct (Z.eqb_spec i 0) as [->|Hi]; [intros [= <-]; apply (cl_zero _ Hs)|].
  intros Hc. by apply (cl_open _ Hs i c Hc).
Qed.

Lemma client_put i s c c' : client_ok s → Channels.get_ i s = Some c → chan_ok i c' → client_ok (Channels.put_ i c' s).
Proof.
  unfold Channels.get_, Channels.put_. intros [H1 H2 H3 H4 H5] Hg Hc. destruct (Z.eqb_spec i 0) as [->|Hi]; split; try done.
  intros j d. simpl. destruct (decide (j = i)) as [->|Hj]; [|rewrite lookup_insert_ne by done; apply H2].
  rewrite lookup_insert_eq. intros [= <-]. split; [by apply (H2 i c Hg)|done].
Qed.

Lemma client_with_channel {A} i (none : A) k : Preserves (ok i) k → Preserves client_ok (Channels.with_channel i none k).
Proof.
  intros Hk s e Hs. unfold Channels.with_channel. destruct (Channels.get_ i s) as [c|] eqn:Hc; [|done].
  destruct (Hk (Channel.mk c (Channels.conn s)) e (conj (client_get i s c Hs Hc) (cl_conf _ Hs))) as [Hx Hf].
  destruct (k (Channel.mk c (Channels.conn s)) e) as [[a x] e']. simpl.
  eapply client_put; [by apply client_set_conn|exact Hc|exact Hx].
Qed.

Lemma client_channel0 {A} (k : M t A) : Preserves (ok 0) k → Preserves client_ok (Channels.in_channel0 k).
Proof.
  intros Hk s e Hs. unfold Channels.in_channel0. destruct (Hk (Channel.mk (Channels.channel0 s) (Channels.conn s)) e (conj (cl_zero _ Hs) (cl_conf _ Hs))) as [Hx Hf].
  destruct (k (Channel.mk (Channels.channel0 s) (Channels.conn s)) e) as [[a x] e']. destruct Hs. by split.
Qed.

Lemma client_frames {A} (m : M Frames.t A) : Preserves client_ok (Channels.in_frames m).
Proof. apply (preserves_zoom _ (λ _, True)); try done. by intros x s [] _. Qed.
Lemma client_status f : Preserves client_ok (Channels.update_connection_status f).
Proof. apply preserves_modify. by intros s []. Qed.
Hint Resolve client_frames client_status : client.
Hint Extern 2 (Preserves client_ok (Channels.with_channel _ _ _)) => apply client_with_channel; solve [preserve] : client.
Hint Extern 2 (Preserves client_ok (Channels.in_channel0 _)) => apply client_channel0; solve [preserve] : client.

Lemma client_for_channels k : (∀ i, Preserves (ok i) k) → Preserves client_ok (Channels.for_channels k).
Proof. intros Hk. unfold Channels.for_channels. preserve. Qed.

(** Incoming frames. *)
Lemma client_reject err : Preserves client_ok (Channels.reject_connection err).
Proof. unfold Channels.reject_connection, Channels.drop_connection, reject. preserve. Qed.
Lemma client_clear_steps err : Preserves client_ok (Channels.clear_connection_steps err).
Proof. unfold Channels.clear_connection_steps, Channels.drop_connection. preserve. Qed.
Hint Resolve client_reject client_clear_steps : client.

(** A frame as it is parsed: the lengths and the limits it carries are words. *)
Definition typed_frame (f : AMQPFrame) : Prop :=
  match f with Method _ m => typed_method m | Header _ h => ch_body_size h < 2 ^ 64 | _ => True end.

Lemma client_handle_frame f : typed_frame f → Preserves client_ok (Channels.handle_frame f).
Proof.
  intros Hty.
  unfold Channels.handle_frame, Channels.receive_method, Channels.handle_content_header_frame, Channels.handle_body_frame. preserve.
Qed.

(** Transitions of the connection. *)
Lemma client_closing : Preserves client_ok Channels.set_connection_closing.
Proof. unfold Channels.set_connection_closing. preserve. apply client_for_channels. intros. preserve. Qed.
Lemma client_closed err : Preserves client_ok (Channels.set_connection_closed err).
Proof. unfold Channels.set_connection_closed. preserve. apply client_for_channels. intros. preserve. Qed.
Lemma client_error err : Preserves client_ok (Channels.set_connection_error err).
Proof. unfold Channels.set_connection_error. preserve. apply client_for_channels. intros. preserve. Qed.
Lemma client_init_loop l : ∀ err, Preserves client_ok (Channels.init_recovery_loop l err).
Proof. induction l as [|i l IH]; intros err; cbn [Channels.init_recovery_loop]; preserve. Qed.
Hint Resolve client_init_loop : client.
Lemma client_init_recovery err : Preserves client_ok (Channels.init_connection_recovery err).
Proof. unfold Channels.init_connection_recovery. preserve. Qed.
Lemma client_init_shutdown err r : Preserves client_ok (Channels.init_connection_shutdown err r).
Proof. unfold Channels.init_connection_shutdown, reject. preserve. Qed.
Lemma client_finish_shutdown : Preserves client_ok Channels.finish_connection_shutdown.
Proof. unfold Channels.finish_connection_shutdown. preserve. Qed.
Lemma client_should_recover : Preserves client_ok Channels.should_init_connection_recovery.
Proof. unfold Channels.should_init_connection_recovery. preserve. Qed.
Lemma ok_send_frame i f p r x : Preserves (ok i) (send_frame f p r x).
Proof. unfold send_frame, this_id. preserve. Qed.
Hint Resolve ok_send_frame : client.
Lemma client_start v c : Preserves client_ok (Channels.start v c).
Proof. unfold Channels.start, Channels.drop_connection, promise_new. preserve. Qed.
Hint Resolve client_start : client.
Lemma client_start_recovery v c : Preserves client_ok (Channels.start_recovery v c).
Proof. unfold Channels.start_recovery, killswitch_reset. preserve. Qed.
Lemma client_abandon_connect err : Preserves client_ok (Supervisor.abandon_connect err).
Proof. unfold Supervisor.abandon_connect. preserve. Qed.
Lemma client_remove i err : Preserves client_ok (Channels.remove i err).
Proof.
  unfold Channels.remove. apply preserves_bind; [preserve|intros _]. destruct (i =? 0); [preserve|].
  intros s e [H1 H2 H3 H4 H5]. rewrite bind_get. destruct (Channels.channels s !! i) as [c0|]; [|done]. split; try done.
  intros j c Hj. simpl in Hj. apply lookup_delete_Some in Hj as [_ Hj]. by apply H2.
Qed.

(** Opening a channel: the id is never 0. *)
Lemma next_id_ok s e : client_ok s → ∃ i q, Channels.next_id s e = (i, Channels.set_channel_id q s, e) ∧
  1 ≤ i < 2 ^ 16 ∧ client_ok (Channels.set_channel_id q s).
Proof.
  intros [H1 H2 H3 H4 H5]. unfold Channels.next_id. rewrite bind_get. unfold IdSequence.next, IdSequence.skip_zero. rewrite H3. cbn [negb andb].
  assert (Hmod : ∀ x, 0 ≤ IdSequence.add_assign 16 x 1 < 2 ^ 16) by (intros; apply Z.mod_pos_bound; lia).
  set (q := if IdSequence.id (Channels.channel_id s) =? 0 then _ else _).
  assert (Hq : 1 ≤ IdSequence.id q < 2 ^ 16 ∧ IdSequence.allow_zero q = false).
  { unfold q. destruct (Z.eqb_spec (IdSequence.id (Channels.channel_id s)) 0) as [H0|H0]; simpl; [|split; [lia|done]].
    rewrite H0. split; [by vm_compute|done]. }
  destruct Hq as [Hq1 Hq2]. destruct (bool_decide _); eexists _, _; (split; [reflexivity|]; split; [done|]); split; try done.
  apply Hmod.
Qed.

Lemma new_chan_ok {S} i (s : S) e : ∃ c e', Channel.new i s e = (c, s, e') ∧ chan_ok i (clone_internal c).
Proof.
  unfold Channel.new, ChannelStatus.new, killswitch_new, fresh, mbind, M_bind. eexists _, _. split; [reflexivity|].
  split; [done|by split| |constructor]. split; simpl; try done. intros tag [x Hx]. by rewrite lookup_empty in Hx.
Qed.

Lemma client_create_loop fuel first : ∀ i b s e, 1 ≤ i < 2 ^ 16 → client_ok s →
  client_ok (state_of (Channels.create_loop fuel first i b s e)).
Proof.
  induction fuel as [|fuel IH]; intros i b s e Hi Hs; cbn [Channels.create_loop]; [done|]. destruct (_ && _); [done|].
  rewrite bind_get. destruct (Channels.channels s !! i) eqn:Hc.
  - destruct (next_id_ok s e Hs) as (j & q & E & Hj & Hs'). rewrite (bind_eq _ _ _ _ _ _ _ E). by apply IH.
  - destruct (new_chan_ok i s e) as (c & e' & E & Hok). rewrite (bind_eq _ _ _ _ _ _ _ E), bind_modify. destruct Hs as [H1 H2 H3 H4 H5].
    split; try done. intros j d. simpl. destruct (decide (j = i)) as [->|Hj]; [|rewrite lookup_insert_ne by done; apply H2].
    rewrite lookup_insert_eq. by intros [= <-].
Qed.

Lemma client_create : Preserves client_ok Channels.create.
Proof.
  intros s e [H1 H2 H3 H4 H5]. unfold Channels.create. rewrite bind_modify, bind_get. destruct (_ <=? _); [done|].
  set (s1 := Channels.set_channel_id _ s). assert (Hs1 : client_ok s1) by by split.
  destruct (next_id_ok s1 e Hs1) as (i & q & E & Hi & Hs'). rewrite (bind_eq _ _ _ _ _ _ _ E). by apply client_create_loop.
Qed.
Hint Resolve client_handle_frame client_closing client_closed client_error client_init_recovery client_init_shutdown client_finish_shutdown
  client_should_recover client_start_recovery client_abandon_connect client_remove client_create : client.

(** ** The dispatcher and the futures *)

Definition rpc_ok (s : InternalRPC.t) : Prop := client_ok (InternalRPC.channels s).

Lemma rpc_in_channels {A} (m : M Channels.t A) : Preserves client_ok m → Preserves rpc_ok (InternalRPC.in_channels m).
Proof. intros Hm. by eapply preserves_zoom. Qed.
Lemma rpc_modify f : (∀ s, InternalRPC.channels (f s) = InternalRPC.channels s) → Preserves rpc_ok (modify f).
Proof. intros Hf. apply preserves_modify. intros s Hs. unfold rpc_ok. by rewrite Hf. Qed.
Lemma rpc_in_heartbeat {A} (m : M Heartbeat.t A) : Preserves rpc_ok (InternalRPC.in_heartbeat m).
Proof. by apply (preserves_zoom _ (λ _, True)). Qed.
Lemma rpc_in_secret {A} (m : M SecretUpdate.t A) : Preserves rpc_ok (InternalRPC.in_secret m).
Proof. by apply (preserves_zoom _ (λ _, True)). Qed.
Hint Resolve rpc_in_heartbeat rpc_in_secret : client.
Hint Extern 2 (Preserves rpc_ok (InternalRPC.in_channels _)) => apply rpc_in_channels; solve [preserve] : client.
Hint Extern 2 (Preserves rpc_ok (modify _)) => apply rpc_modify; by intros : client.

Lemma rpc_dispatch now c : Preserves rpc_ok (InternalRPC.dispatch now c).
Proof.
  unfold InternalRPC.dispatch, InternalRPC.register_internal_future, InternalRPC.register_internal_future_with_resolver, reject, promise_new.
  preserve.
Qed.
Hint Resolve rpc_dispatch : client.
Lemma rpc_run_next now : Preserves rpc_ok (InternalRPC.run_next now).
Proof. unfold InternalRPC.run_next. preserve. Qed.

Lemma rpc_call ch k a : (∀ i, Preserves (ok i) k) → Preserves rpc_ok (InternalRPC.call_channel ch k a).
Proof.
  intros Hk. unfold InternalRPC.call_channel. apply preserves_bind; [|intros; preserve].
  apply rpc_in_channels, client_with_channel. preserve.
Qed.
Hint Extern 2 (Preserves rpc_ok (InternalRPC.call_channel _ _ _)) => apply rpc_call; intros; solve [preserve] : client.

Lemma rpc_first_task x : Preserves rpc_ok (InternalRPC.first_poll_task x).
Proof.
  unfold InternalRPC.first_poll_task, Generated.connection_start_ok, Generated.connection_secure_ok, Generated.connection_tune_ok. preserve.
Qed.
Hint Resolve rpc_first_task : client.
Lemma rpc_first_poll v c f : Preserves rpc_ok (InternalRPC.first_poll v c f).
Proof. unfold InternalRPC.first_poll, Generated.connection_close, Generated.connection_update_secret. preserve. Qed.
Lemma rpc_progress r p : Preserves rpc_ok (InternalRPC.progress r p).
Proof. unfold InternalRPC.progress, InternalRPC.finish. preserve. Qed.
Lemma rpc_finish r x : Preserves rpc_ok (InternalRPC.finish r x).
Proof. unfold InternalRPC.finish. preserve. Qed.
Hint Resolve rpc_first_poll rpc_progress rpc_finish : client.
Lemma rpc_poll_task v c : Preserves rpc_ok (InternalRPC.poll_task v c).
Proof. unfold InternalRPC.poll_task. preserve. Qed.

Lemma rpc_recover_channels chs : Preserves rpc_ok (InternalRPC.recover_channels chs).
Proof. unfold InternalRPC.recover_channels. preserve. Qed.
Hint Resolve rpc_recover_channels : client.
Lemma rpc_next_request ch l chs : Preserves rpc_ok (InternalRPC.next_request ch l chs).
Proof. unfold InternalRPC.next_request. preserve. Qed.
Hint Resolve rpc_next_request : client.
Lemma rpc_poll_waiting n : Preserves rpc_ok (InternalRPC.poll_waiting n).
Proof.
  assert (Hw : ∀ p, Preserves rpc_ok (try_wait p : M InternalRPC.t _)) by (intros p s e; done).
  unfold InternalRPC.poll_waiting, InternalRPC.drop_after, Channels.drop_connection, InternalRPC.replay_topology, Generated.connection_open. preserve.
Qed.

(** ** Reachable clients *)

(** What happens to a client: the io loop hands a frame of the server over, takes one to write or
    fails; the dispatcher runs a command and the runtime polls a future; the application, through its
    handles, queues a command or calls a method of the channel [i]. *)
Inductive Action :=
| AFrame (f : AMQPFrame)
| AWrite (flow : bool)
| ARetry (fe : Frames.FrameEntry)
| AReject (err : Error)
| AGiveUp (err : Error)
| AError (err : Error)
| ACommand (c : InternalCommand)
| ADispatch (now : Z)
| APollTask (version : Z * Z * Z) (c : ConnectionRef)
| APollWaiting (n : nat)
| AStart (version : Z * Z * Z) (c : ConnectionRef)
| ACall (i : ChannelId) (k : Generated.Call)
| ACancel (i : ChannelId) (tag : ShortString) (nowait : bool)
| AConfirmSelect (i : ChannelId) (nowait : bool)
| APublish (i : ChannelId) (exch key : ShortString) (mandatory immediate : bool) (payload : list byte) (props : BasicProperties)
| AWaitForConfirms (i : ChannelId).

Definition on_channel {A} (i : ChannelId) (k : M t A) : M InternalRPC.t unit :=
  InternalRPC.in_channels (Channels.with_channel i tt (k;; mret tt)).

Definition act (a : Action) : M InternalRPC.t unit :=
  match a with
  | AFrame f => InternalRPC.in_channels (Channels.handle_frame f);; mret tt
  | AWrite flow => InternalRPC.in_channels (Channels.in_frames (Frames.pop flow));; mret tt
  | ARetry fe => InternalRPC.in_channels (Channels.in_frames (Frames.retry fe))
  | AReject err => InternalRPC.in_channels (Channels.reject_connection err)
  | AGiveUp err => InternalRPC.in_channels (Supervisor.abandon_connect err)
  | AError err => InternalRPC.in_channels (Channels.set_connection_error err)
  | ACommand c => rpc_send c
  | ADispatch now => InternalRPC.run_next now;; mret tt
  | APollTask version c => InternalRPC.poll_task version c
  | APollWaiting n => InternalRPC.poll_waiting n
  | AStart version c => InternalRPC.in_channels (Channels.start version c);; mret tt
  | ACall i k => on_channel i (Generated.run_call k)
  | ACancel i tag nowait => on_channel i (Generated.basic_cancel tag nowait)
  | AConfirmSelect i nowait => on_channel i (Generated.confirm_select nowait)
  | APublish i exch key mandatory immediate payload props =>
    on_channel i (Generated.basic_publish exch key mandatory immediate payload props)
  | AWaitForConfirms i => on_channel i wait_for_confirms
  end.

Hint Resolve rpc_run_next rpc_poll_task rpc_poll_waiting : client.

(** What is parsed is typed. *)
Definition typed_action (a : Action) : Prop := match a with AFrame f => typed_frame f | _ => True end.

Lemma rpc_act a : typed_action a → Preserves rpc_ok (act a).
Proof. intros Hty. destruct a; cbn [act typed_action] in *; unfold on_channel; preserve. Qed.

Lemma parts_ok conf vh ar now n : conf_ok conf → rpc_ok (Handshake.parts conf vh ar now n).
Proof.
  intros Hcf.
  split; cbn; try done.
  split; [done|by split| |constructor]. split; simpl; try done. intros tag [x Hx]. by rewrite lookup_empty in Hx.
Qed.

Lemma acts_ok acts : Forall typed_action acts → Preserves rpc_ok (for_each acts act).
Proof.
  induction 1 as [|a acts Ha _ IH]; [apply preserves_ret|]. apply preserves_bind; [by apply rpc_act|done].
Qed.

Lemma reached_ok conf vh ar now e acts : rpc e = [] → conf_ok conf → Forall typed_action acts →
  let '(s, _, e0) := Handshake.connector conf vh ar now tt e in
  client_ok (InternalRPC.channels (state_of (for_each acts act s e0))).
Proof.
  intros He Hc Ha. destruct (Handshake.connector_eq conf vh ar now tt e He) as [w E]. rewrite E.
  by apply (acts_ok acts Ha), parts_ok.
Qed.

(** The parts of a channel agree, and its registry is one that the answers of a server can lead to. *)
Record consistent (i : ChannelId) (c : Chan) : Prop := {
  cn_id : id c = i;
  cn_status : ChannelStatus.id (status c) = i;
  cn_acks : Acknowledgements.channel_id (acknowledgements c) = i;
  cn_content : ∀ cause, ReceiverStates.ReceivingContent cause 0 ∉ ChannelStatus.receiver_state (status c);
  cn_registry : Registry.reachable (local_registry c);
}.

(** The words of a channel: its delivery tags and the lengths it waits for. *)
Record channel_words (c : Chan) : Prop := {
  cw_next : 0 ≤ IdSequence.id (Acknowledgements.delivery_tag (acknowledgements c)) < 2 ^ 64;
  cw_pending : ∀ tag, is_Some (Acknowledgements.pending (acknowledgements c) !! tag) → 1 ≤ tag < 2 ^ 64;
  cw_content : ∀ cause len, ReceiverStates.ReceivingContent cause len ∈ ChannelStatus.receiver_state (status c) → 0 < len < 2 ^ 64;
}.

Lemma chan_consistent i c : chan_ok i c → consistent i c.
Proof.
  intros [H1 [H2 H3] [H4 _ _ _ _] H5]. split; try done. intros cause Hin. rewrite Forall_forall in H3. specialize (H3 _ Hin). simpl in H3. lia.
Qed.

Lemma chan_words i c : chan_ok i c → channel_words c.
Proof.
  intros [H1 [H2 H3] [H4 H5 H6 H7 H8] H9]. split; [done|done|]. intros cause len Hin. rewrite Forall_forall in H3. exact (H3 _ Hin).
Qed.

(** The invariant of the client.  Whatever the server sends, the application calls, and in whatever
    order commands, futures and the io loop run, the client [connector] makes keeps every channel
    in its map under its own id, which is not 0, and channel 0 apart; of every
    channel the parts agree on its id, no content of no bytes is waited for, and the registry is one that the
    answers of a server can lead to (so that [recovery_restores] applies to it). *)
Theorem client_invariant conf vh ar now e acts : rpc e = [] → conf_ok conf → Forall typed_action acts →
  let '(s, _, e0) := Handshake.connector conf vh ar now tt e in
  let s' := InternalRPC.channels (state_of (for_each acts act s e0)) in
  consistent 0 (Channels.channel0 s') ∧ ∀ i c, Channels.channels s' !! i = Some c → i ≠ 0 ∧ consistent i c.
Proof.
  intros He Hc Ha. pose proof (reached_ok conf vh ar now e acts He Hc Ha) as H.
  destruct (Handshake.connector conf vh ar now tt e) as [[s ?] e0]. cbn zeta. split; [apply chan_consistent, (cl_zero _ H)|].
  intros i c Hi. destruct (cl_open _ H i c Hi). split; [lia|by apply chan_consistent].
Qed.

(** C11: the words of the client keep their widths.  When the limits of the URI are typed, and so are the limits and the lengths in the frames
    of the server (as the parser makes them), then in every state the client reaches the ids of the channels and the
    cursor that hands them out are words of 16 bits, the limits of the connection words of 16, 32 and 16 bits, the delivery tags
    and the lengths of content waited for words of 64 bits: no counter and no subtraction leaves its type. *)
Theorem words_keep_width conf vh ar now e acts : rpc e = [] → conf_ok conf → Forall typed_action acts →
  let '(s, _, e0) := Handshake.connector conf vh ar now tt e in
  let s' := InternalRPC.channels (state_of (for_each acts act s e0)) in
  conf_ok (configuration (Channels.conn s')) ∧ 0 ≤ IdSequence.id (Channels.channel_id s') < 2 ^ 16 ∧
  channel_words (Channels.channel0 s') ∧ ∀ i c, Channels.channels s' !! i = Some c → 1 ≤ i < 2 ^ 16 ∧ channel_words c.
Proof.
  intros He Hc Ha. pose proof (reached_ok conf vh ar now e acts He Hc Ha) as H.
  destruct (Handshake.connector conf vh ar now tt e) as [[s ?] e0]. cbn zeta.
  split; [apply H|]. split; [apply H|]. split; [by eapply chan_words, (cl_zero _ H)|].
  intros i c Hi. destruct (cl_open _ H i c Hi). split; [done|by eapply chan_words].
Qed.

End Invariant.

Section Witnesses.
#[local] Existing Instances number_types number_protocol number_handle.
#[local] Instance z_order : HashOrder Z := canonical_order Z.
#[local] Instance s_order : HashOrder string := canonical_order string.

(** The server tunes the limits; a channel is created and opened, and publishes in confirm mode. *)
Definition demo_actions : list Action :=
  [AFrame (Method 0 (ConnectionTune 20 8192 60)); ADispatch 0; ACommand (CCreateChannel 9%nat); ADispatch 0; ADispatch 0; APollTask (0, 9, 1) 0%nat; AFrame (Method 1 ChannelOpenOk);
   AConfirmSelect 1 false; AFrame (Method 1 ConfirmSelectOk); APublish 1 "" "q" false false [Byte.x01] 0%nat].

Lemma demo_typed : Forall typed_action demo_actions.
Proof. repeat constructor; vm_compute; done. Qed.

Lemma demo_conf_ok : conf_ok (Configuration.mk 10 4096 0).
Proof. by split. Qed.

Lemma client_invariant_witness :
  let '(s, _, e0) := Handshake.connector (Configuration.mk 10 4096 0) "/" true 0 tt env_empty in
  let s' := InternalRPC.channels (state_of (for_each demo_actions act s e0)) in
  (consistent 0 (Channels.channel0 s') ∧ ∀ i c, Channels.channels s' !! i = Some c → i ≠ 0 ∧ consistent i c) ∧
  match Channels.channels s' !! 1 with
  | Some c => is_Some (Acknowledgements.pending (acknowledgements c) !! 1)
  | None => False
  end.
Proof.
  split; [|vm_compute; by eexists].
  exact (client_invariant (AT := number_types) (AP := number_protocol) (CH := number_handle)
    (Configuration.mk 10 4096 0) "/" true 0 env_empty demo_actions eq_refl demo_conf_ok demo_typed).
Defined.

Lemma words_keep_width_witness :
  let '(s, _, e0) := Handshake.connector (Configuration.mk 10 4096 0) "/" true 0 tt env_empty in
  let s' := InternalRPC.channels (state_of (for_each demo_actions act s e0)) in
  ∃ c, Channels.channels s' !! 1 = Some c ∧ channel_words c.
Proof.
  pose proof (words_keep_width (AT := number_types) (AP := number_protocol) (CH := number_handle)
    (Configuration.mk 10 4096 0) "/" true 0 env_empty demo_actions eq_refl demo_conf_ok demo_typed) as (_ & _ & _ & H).
  eexists. split; [vm_compute; reflexivity|]. apply (H 1). vm_compute. reflexivity.
Defined.

End Witnesses.
End Invariant.
