(* ===== verification/LoopSafety.v ===== *)
(** The io loop does not get stuck: its thread panics only where the buffers grow, with a data that wraps, and
    a turn of the loop always comes to an end. *)
From S2P Require Import Prelude.
From S2P Require Import Buffer.
From S2P Require Import Types.
From S2P Require Import Env.
From S2P Require Import Frames.
From S2P Require Import Connection.
From S2P Require Import Channel.
From S2P Require Import Generated.
From S2P Require Import Channels.
From S2P Require Import Heartbeat.
From S2P Require Import SocketState.
From S2P Require Import IoLoop.
From S2P Require Import Supervisor.
From S2P Require Import InternalRPC.
From S2P Require Import Handshake.
From S2P Require Import Invariant.
Open Scope Z_scope.

Module LoopSafety.
Import IoLoop Supervisor Invariant.
Section LoopSafety.
Context `{AT : AmqpTypes} `{AP : !AmqpProtocol} `{CH : !ConnectionHandle}
  `{HZ : !HashOrder Z} `{HS : !HashOrder string} `{TR : !Transport} `{FC : !FrameCodec}.

Notation Io A := (M t (Out A)) (only parsing).

(** ** What the client relies on *)

(** Generating a frame, successfully or not, only appends to the buffer; a frame parsed took
    at least a byte off the input, and its numbers are words of their widths. *)
Record codec_safe : Prop := {
  gen_safe : ∀ f b, Buffer.wf b → ∃ r b' ext, gen_frame f b = Some (r, b') ∧ Buffer.appends b b' ext;
  parse_safe : ∀ c, ∃ r, parse_frame c = Some r ∧
    match r with
    | Ok (i, f) => typed_frame f ∧ ∃ n, (0 < n ≤ Parsing.input_len c)%nat ∧ Parsing.take_from c n = Some i
    | Err _ => True
    end;
}.

(** ** The invariant *)

Record loop_ok (s : t) : Prop := {
  lo_client : client_ok (channels s);
  lo_receive : Buffer.wf (receive_buffer s);
  lo_send : Buffer.wf (send_buffer s);
}.

(** The connection was opened and a buffer cannot grow to the size of the frames agreed on. *)
Definition cannot_grow (s : t) : Prop :=
  status s = Initial ∧ ConnectionStatus.connected (connection_status s) = true ∧
  let cap := Z.to_nat (FRAMES_STORAGE * frame_size s) in
  Buffer.grow (receive_buffer s) cap = None ∨ Buffer.grow (send_buffer s) cap = None.

(** What a computation may end with; a [strict] one ends. *)
Definition allowed {A} (strict : bool) (o : Out A) (s : t) : Prop :=
  match o with
  | Done _ => True
  | Panic => strict = false ∧ cannot_grow s
  | OutOfFuel => strict = false
  end.

Definition Runs {A} (strict : bool) (m : Io A) : Prop :=
  ∀ s e, loop_ok s → loop_ok (state_of (m s e)) ∧ allowed strict (result_of (m s e)) (state_of (m s e)).

(** *** Composition *)

Lemma runs_done {A} b (r : res A) : Runs b (mret (Done r)).
Proof. by intros s e. Qed.
Lemma runs_ret {A} b (a : A) : Runs b (io_ret a).
Proof. by intros s e. Qed.
Lemma runs_fail {A} b err : Runs b (fail err : Io A).
Proof. by intros s e. Qed.
Lemma runs_fuel {A} : Runs false (mret OutOfFuel : Io A).
Proof. by intros s e. Qed.
Lemma runs_get {A} b (k : t → Io A) : (∀ s, Runs b (k s)) → Runs b (get ≫= k).
Proof. intros Hk s e Hs. rewrite bind_get. by apply Hk. Qed.
Lemma runs_step {A B} b (m : M t A) (k : A → Io B) : Preserves loop_ok m → (∀ a, Runs b (k a)) → Runs b (m ≫= k).
Proof. intros Hm Hk s e Hs. unfold mbind, M_bind. specialize (Hm s e Hs). destruct (m s e) as [[a s'] e']. by apply Hk. Qed.
Lemma runs_catch {A B} b (m : Io A) (k : res A → Io B) : Runs b m → (∀ r, Runs b (k r)) → Runs b (io_catch m k).
Proof.
  intros Hm Hk s e Hs. unfold io_catch, mbind, M_bind. destruct (Hm s e Hs) as [Hs' Ho].
  destruct (m s e) as [[[r| |] s'] e']; [by apply Hk|by split..].
Qed.
Lemma runs_bind {A B} b (m : Io A) (k : A → Io B) : Runs b m → (∀ a, Runs b (k a)) → Runs b (io_bind m k).
Proof.
  intros Hm Hk s e Hs. unfold io_bind, mbind, M_bind. destruct (Hm s e Hs) as [Hs' Ho].
  destruct (m s e) as [[[[a|err]| |] s'] e']; [by apply Hk|by split..].
Qed.
(** The strict ones are the others too. *)
Lemma runs_weaken {A} b (m : Io A) : Runs true m → Runs b m.
Proof. intros Hm s e Hs. destruct (Hm s e Hs) as [H1 H2]. split; [done|]. destruct b; [done|]. by destruct (result_of (m s e)); [|destruct H2|]. Qed.

(** What a strict one gives. *)
Lemma runs_ends {A} (m : Io A) s e : Runs true m → loop_ok s → ∃ r s' e', m s e = (Done r, s', e') ∧ loop_ok s'.
Proof.
  intros Hm Hs. destruct (Hm s e Hs) as [H1 H2]. destruct (m s e) as [[[r| |] s'] e'].
  - by exists r, s', e'.
  - by destruct H2.
  - done.
Qed.

(** *** Parts of the state *)

Lemma in_channels_ok {A} (m : M Channels.t A) : Preserves client_ok m → Preserves loop_ok (in_channels m).
Proof. intros Hm. eapply preserves_zoom; [exact Hm|by intros s []|by intros x s []]. Qed.
Lemma in_frames_ok {A} (m : M Frames.t A) : Preserves loop_ok (in_frames m).
Proof. apply in_channels_ok, client_frames. Qed.
Lemma in_socket_ok {A} (m : M SocketState.t A) : Preserves loop_ok (in_socket m).
Proof. apply (preserves_zoom _ (λ _, True)); try done. by intros x s []. Qed.
Lemma in_heartbeat_ok {A} (m : M Heartbeat.t A) : Preserves loop_ok (in_heartbeat m).
Proof. apply (preserves_zoom _ (λ _, True)); try done. by intros x s []. Qed.
Lemma modify_ok f : (∀ s, channels (f s) = channels s) → (∀ s, receive_buffer (f s) = receive_buffer s) →
  (∀ s, send_buffer (f s) = send_buffer s) → Preserves loop_ok (modify f).
Proof. intros H1 H2 H3. apply preserves_modify. intros s []. split; by rewrite ?H1, ?H2, ?H3. Qed.
Lemma reject_ok snd err : Preserves loop_ok (Frames.sending_reject snd err).
Proof. unfold Frames.sending_reject, reject. preserve. Qed.
Lemma resolve_ok snd : Preserves loop_ok (Frames.sending_resolve snd).
Proof. unfold Frames.sending_resolve, resolve. preserve. Qed.

Hint Resolve in_frames_ok in_socket_ok in_heartbeat_ok reject_ok resolve_ok client_reject client_error client_status client_frames : client.
Hint Extern 2 (Preserves loop_ok (in_channels _)) => apply in_channels_ok; solve [preserve] : client.
Hint Extern 2 (Preserves loop_ok (modify _)) => apply modify_ok; done : client.

Ltac runs_step :=
  match goal with
  | |- Runs _ (io_ret _) => apply runs_ret
  | |- Runs _ (fail _) => apply runs_fail
  | |- Runs _ (mret (Done _)) => apply runs_done
  | |- Runs false (mret OutOfFuel) => apply runs_fuel
  | |- Runs _ (get ≫= _) => apply runs_get; intros
  | |- Runs _ (io_bind _ _) => apply runs_bind; [|intros]
  | |- Runs _ (io_catch _ _) => apply runs_catch; [|intros]
  | |- Runs _ (_ ≫= _) => apply runs_step; [solve [preserve]|intros]
  | |- Runs _ (if ?x then _ else _) => destruct x
  | |- Runs _ (match ?x with _ => _ end) => destruct x
  | |- Runs _ (let _ := _ in _) => cbv zeta
  | |- Runs _ _ => solve [eauto 2 with client]
  end.
Ltac runs := unfold_rpc; repeat runs_step.

(** ** Every operation of the loop *)

Hypothesis HC : codec_safe.

Lemma stop_ok : Preserves loop_ok stop.
Proof. by apply modify_ok. Qed.
Hint Resolve stop_ok : client.
Lemma check_state_ok : Preserves loop_ok check_connection_state.
Proof. unfold check_connection_state. preserve. Qed.
Lemma clear_serialized_ok err : Preserves loop_ok (clear_serialized_frames err).
Proof. unfold clear_serialized_frames. preserve. Qed.
Hint Resolve check_state_ok clear_serialized_ok : client.

Lemma critical_error_runs {A} b err : Runs b (critical_error err : Io A).
Proof. unfold critical_error. runs. Qed.
Hint Resolve critical_error_runs : client.
Lemma handle_io_result_runs b r : Runs b (handle_io_result r).
Proof. unfold handle_io_result. runs. Qed.
Lemma flush_runs b : Runs b flush.
Proof. unfold flush. runs. Qed.
Hint Resolve handle_io_result_runs flush_runs : client.
Lemma attempt_flush_runs b : Runs b attempt_flush.
Proof. unfold attempt_flush. runs. Qed.

(** An error of a method that did not fit leaves a buffer that can be rolled back. *)
Lemma rollback_runs b b' ext : Buffer.wf b → Buffer.appends b b' ext →
  ∃ b'', Buffer.rollback b' (Buffer.checkpoint b) = Some b'' ∧ Buffer.wf b'' ∧ Buffer.capacity b'' = Buffer.capacity b ∧
    ((length ext < Buffer.capacity b)%nat → Buffer.avail b'' = Buffer.avail b).
Proof.
  intros Hwf Ha. destruct (decide (length ext < Buffer.capacity b)%nat) as [Hl|Hl].
  - destruct (Buffer.rollback_appended b b' ext) as (b'' & E & ? & _ & ? & _ & ?); [done..|]. by exists b''.
  - exists b'. pose proof (Buffer.appends_avail _ _ _ Hwf Ha) as Hav. destruct Ha as (Hwf' & Hcap & Hpos & _).
    pose proof (Buffer.wf_avail _ Hwf'). split_and!; try done.
    unfold Buffer.rollback. rewrite decide_True; [done|]. simpl.
    rewrite (Buffer.wf_end _ Hwf), (Buffer.wf_end _ Hwf'), Hpos, Hcap, Hav.
    replace (Buffer.avail b) with O by lia. replace (length ext) with (Buffer.capacity b) by lia.
    rewrite !Nat.add_0_l, Nat.add_0_r. rewrite <- (Nat.Div0.add_mod_idemp_r _ (Buffer.capacity b)), Nat.Div0.mod_same. by rewrite Nat.add_0_r.
Qed.

(** ** Writing *)

(** An error that [handle_io_result] does not swallow. *)
Definition fatal (err : Error) : Prop := interrupted err = false ∧ wouldblock err = false.

Lemma critical_error_err {A} err s e : result_of ((critical_error err : Io A) s e) = Done (Err err).
Proof. unfold critical_error, mbind, M_bind. repeat case_match; by simplify_eq/=. Qed.

Lemma critical_error_ends {A} err s e : loop_ok s →
  ∃ s' e', (critical_error err : Io A) s e = (Done (Err err), s', e') ∧ loop_ok s'.
Proof.
  intros Hs. destruct (critical_error_runs (A := A) true err s e Hs) as [H _]. pose proof (critical_error_err (A := A) err s e) as E.
  destruct ((critical_error err : Io A) s e) as [[o s'] e']. unfold result_of in E. simpl in E. subst. by exists s', e'.
Qed.

(** A frame of at most [size] bytes: less than this is written of it when it does not fit. *)
Definition fits (size : nat) (fe : Frames.FrameEntry) : Prop :=
  ∀ b b' ext m, Buffer.wf b → gen_frame (Frames.frame fe) b = Some (Err (Buffer.BufferTooSmall m), b') →
    Buffer.appends b b' ext → (length ext < size)%nat.

Definition send_capacity (s : t) : nat := Buffer.capacity (send_buffer s).

(** The work left: the frames waiting, a full buffer each, and the bytes of the buffer. *)
Definition work (s : t) : nat :=
  (S (S (send_capacity s)) * length (queued (frames s)) + Buffer.avail (send_buffer s))%nat.

Definition all_fit (s : t) : Prop := Forall (fits (send_capacity s)) (queued (frames s)).

(** The frames waiting fit the buffer as before, and there is no more work. *)
Definition no_more_work (s s' : t) : Prop := all_fit s → all_fit s' ∧ (work s' ≤ work s)%nat.

Lemma set_frames_ok s f : loop_ok s → loop_ok (set_frames_of f s).
Proof. intros [[] ? ?]. by split. Qed.
Lemma set_send_ok s b : loop_ok s → Buffer.wf b → loop_ok (set_send_buffer b s).
Proof. intros [] ?. by split. Qed.
Lemma set_receive_ok s b : loop_ok s → Buffer.wf b → loop_ok (set_receive_buffer b s).
Proof. intros [] ?. by split. Qed.

Lemma same_work s s' : queued (frames s') ≡ₚ queued (frames s) → send_capacity s' = send_capacity s →
  (all_fit s → Buffer.avail (send_buffer s') = Buffer.avail (send_buffer s)) → no_more_work s s'.
Proof.
  intros Hq Hc Ha Hfit. unfold all_fit, work in *. rewrite Hc, (Ha Hfit), (Permutation_length Hq). split; [|done].
  by rewrite Hq.
Qed.

Lemma serialize_loop_ends fuel : ∀ s e, loop_ok s → (length (queued (frames s)) < fuel)%nat →
  ∃ r s' e', serialize_loop fuel s e = (Done r, s', e') ∧ loop_ok s' ∧
    match r with Ok _ => no_more_work s s' | Err err => fatal err end.
Proof.
  induction fuel as [|fuel IH]; intros s e Hs Hf; [lia|]. cbn [serialize_loop]. rewrite bind_get.
  set (fl := Channels.flow (channels s)). destruct (Frames.pop_ (frames s) fl) as [[fe|] f'] eqn:Ep.
  - erewrite bind_eq by (rewrite in_frames_eq; unfold Frames.pop; rewrite bind_get, Ep; done). cbv iota beta.
    pose proof (pop_queued _ _ _ _ Ep) as Hperm. pose proof (Permutation_length Hperm) as Hlen. simpl in Hlen.
    destruct (gen_safe HC (Frames.frame fe) (send_buffer s) (lo_send _ Hs)) as (r & b & ext & Eg & Ha). rewrite Eg.
    pose proof (Buffer.wf_avail b (proj1 Ha)) as Hav. pose proof (set_frames_ok s f' Hs) as Hs1.
    destruct r as [sz|ge].
    + rewrite bind_modify, bind_modify. destruct (IH (set_serialized (serialized_frames s ++ [(Z.of_nat sz `mod` 2 ^ 32, Frames.sending fe)])
        (set_send_buffer b (set_frames_of f' s))) e) as (r & s' & e' & E & Hs' & Hr).
      * by destruct (set_send_ok _ b Hs1 (proj1 Ha)).
      * change (length (queued f') < fuel)%nat. lia.
      * exists r, s', e'. split; [exact E|]. split; [done|]. destruct r as [[]|]; [|done].
        intros Hfit. unfold all_fit in Hfit. rewrite Hperm in Hfit. apply Forall_cons in Hfit as [_ Hfit].
        destruct Ha as (_ & Hcap & _). destruct Hr as [H1 H2]; [unfold all_fit, send_capacity; simpl; by rewrite Hcap|].
        split; [done|]. etrans; [exact H2|]. unfold work, send_capacity, frames. simpl. fold (frames s). rewrite Hcap. rewrite Hlen. nia.
    + destruct (rollback_runs _ b ext (lo_send _ Hs) Ha) as (b'' & Er & Hwf & Hcap & Hroll).
      rewrite Er. erewrite io_bind_ok by done. rewrite bind_modify. pose proof (set_send_ok _ b'' Hs1 Hwf) as Hs2. destruct ge as [m|].
      * erewrite bind_eq by (rewrite in_frames_eq; done). eexists _, _, _. split; [reflexivity|]. split; [by apply set_frames_ok|].
        apply same_work; [etrans; [apply (retry_queued fe f' e)|by rewrite Hperm]|exact Hcap|].
        intros Hfit. apply Hroll. unfold all_fit in Hfit. rewrite Hperm in Hfit. apply Forall_cons in Hfit as [Hfe _]. exact (Hfe _ _ _ _ (lo_send _ Hs) Eg Ha).
      * destruct (critical_error_ends (A := unit) (error_from SerialisationError) _ e Hs2) as (s' & e' & E & Hs'). by eexists _, _, _.
  - erewrite bind_eq by (rewrite in_frames_eq; unfold Frames.pop; rewrite bind_get, Ep; done). cbv iota beta.
    eexists _, _, _. split; [reflexivity|]. split; [by apply set_frames_ok|].
    rewrite (Frames.wire_pop_none _ _ _ Ep). by apply same_work.
Qed.

(** The polls of a socket do not fail with the errors they must turn into [Pending] or retry:
    what [AsyncRead] and [AsyncWrite] document. *)
Definition proper_error (k : IoErrorKind) : Prop := k ≠ WouldBlock ∧ k ≠ Interrupted.
Record polite : Prop := {
  flush_polite : ∀ st k st', poll_flush st = (Err k, st') → proper_error k;
  write_polite : ∀ st ss k st', poll_write st ss = (Err k, st') → proper_error k;
  read_polite : ∀ st space k st', poll_read st space = (Err k, st') → proper_error k;
}.

Lemma io_error_fatal k : proper_error k → fatal (io_error k).
Proof. intros [H1 H2]. unfold fatal, io_error. destruct (is_shutdown k); [done|]. by destruct k. Qed.

(** What [flush] leaves alone. *)
Definition aside (s s' : t) : Prop :=
  channels s' = channels s ∧ send_buffer s' = send_buffer s ∧
  (SocketState.writable (socket_state s) = false → SocketState.writable (socket_state s') = false).

Lemma aside_work s s' : aside s s' → work s' = work s ∧ (all_fit s → all_fit s').
Proof. intros (H1 & H2 & _). unfold work, all_fit, send_capacity, frames. by rewrite H1, H2. Qed.

Lemma flush_ends s e : loop_ok s → ∃ r s' e', flush s e = (Done r, s', e') ∧ loop_ok s' ∧
  match r with Ok _ => aside s s' | Err err => polite → fatal err end.
Proof.
  intros Hs. unfold flush. rewrite bind_get. destruct (poll_flush (stream s)) as [r st] eqn:E. rewrite bind_modify.
  assert (Hs1 : loop_ok (set_stream st s)) by by destruct Hs. destruct r as [[[]|]|k].
  - by eexists _, _, _.
  - eexists _, _, _. split; [reflexivity|]. by destruct Hs.
  - eexists _, _, _. split; [reflexivity|]. split; [done|]. intros Hp. by eapply io_error_fatal, flush_polite.
Qed.

Lemma poll_write_ends s e : loop_ok s → ∃ r s' e', poll_write_to s e = (Done r, s', e') ∧ loop_ok s' ∧ aside s s' ∧
  match r with
  | Ok (Ready n) => (0 < n)%nat → (0 < Buffer.avail (send_buffer s'))%nat
  | Ok Pending => True
  | Err err => polite → fatal err
  end.
Proof.
  intros Hs. unfold poll_write_to. rewrite bind_get. destruct (Buffer.write_slices_spec _ (lo_send _ Hs)) as (ss & E & Hc).
  rewrite E. erewrite io_bind_ok by done. destruct ss as [|x ss]; [eexists _, _, _; split; [reflexivity|]; by split_and!; try lia|].
  destruct (poll_write (stream s) (x :: ss)) as [r st] eqn:Ep. rewrite bind_modify.
  assert (Hs1 : loop_ok (set_stream st s)) by by destruct Hs. destruct r as [p|k].
  - eexists _, _, _. split; [reflexivity|]. split_and!; try done. destruct p as [n|]; [|done]. intros _. simpl.
    unfold Buffer.write_slices, Buffer.available_data in E. case_decide; [done|]. lia.
  - eexists _, _, _. split; [reflexivity|]. split_and!; try done. intros Hp. by eapply io_error_fatal, write_polite.
Qed.

Lemma settle_written_state l : ∀ w, keeps_state (settle_written w l).
Proof.
  induction l as [|[n snd] l IH]; intros w s e; cbn [settle_written]; [done|].
  destruct (w <=? 0); [done|]. destruct (w <? n); [done|]. unfold Frames.sending_resolve, resolve.
  destruct (Frames.resolver snd); apply IH.
Qed.

(** One round of writing: the socket takes no more, or there is less to do. *)
Lemma write_to_stream_ends now s e : loop_ok s →
  ∃ r s' e', write_to_stream now s e = (Done r, s', e') ∧ loop_ok s' ∧
    (polite → all_fit s →
     match r with
     | Ok _ => all_fit s' ∧ (SocketState.writable (socket_state s') = false ∨ (work s' < work s)%nat)
     | Err err => fatal err
     end).
Proof.
  intros Hs. unfold write_to_stream. destruct (flush_ends s e Hs) as (r & s1 & e1 & E1 & Hs1 & H1).
  destruct r as [[]|err]; [|erewrite io_bind_err by exact E1; eexists _, _, _; split; [reflexivity|]; split; [done|]; intros; by apply H1].
  erewrite io_bind_ok by exact E1. destruct (aside_work _ _ H1) as [Hw1 Hf1]. unfold serialize at 1.
  destruct (serialize_loop_ends (S (length (queued (frames s1)))) s1 e1 Hs1) as (r & s2 & e2 & E2 & Hs2 & H2); [lia|].
  destruct r as [[]|err]; [|erewrite io_bind_err by (rewrite bind_get; exact E2); by eexists _, _, _].
  erewrite io_bind_ok by (rewrite bind_get; exact E2). 
  destruct (poll_write_ends s2 e2 Hs2) as (r & s3 & e3 & E3 & Hs3 & Ha3 & H3).
  destruct r as [p|err]; [|erewrite io_bind_err by exact E3; eexists _, _, _; split; [reflexivity|]; split; [done|]; intros; by apply H3].
  erewrite io_bind_ok by exact E3. destruct (aside_work _ _ Ha3) as [Hw3 Hf3].
  assert (Hstop : loop_ok (set_socket_state (SocketState.set_writable false (socket_state s3)) s3)) by by destruct Hs3.
  destruct p as [[|n]|]; cbv beta iota.
  1, 3: eexists _, _, _; split; [reflexivity|]; split; [done|]; intros _ Hfit; split; [by apply Hf3, H2, Hf1|by left].
  destruct (Buffer.consume_spec _ (S n) (lo_send _ Hs3)) as (b & Eb & Hwf & Hcap & Hcont).
  assert (Hav : (Buffer.avail b < Buffer.avail (send_buffer s3))%nat).
  { rewrite <- (Buffer.length_contents b Hwf), Hcont, length_drop, Buffer.length_contents by apply Hs3. specialize (H3 ltac:(lia)). lia. }
  erewrite bind_eq by reflexivity. cbv beta iota. erewrite bind_eq by reflexivity. rewrite bind_get. simpl send_buffer. rewrite Eb.
  erewrite io_bind_ok by done. rewrite bind_modify. rewrite bind_keeps_state by apply settle_written_state. rewrite bind_modify.
  match goal with |- context [flush ?x ?y] => set (s4 := x); generalize y; intros e4 end.
  assert (Hs4 : loop_ok s4) by (destruct Hs3; by split). destruct (flush_ends s4 e4 Hs4) as (r & s5 & e5 & -> & Hs5 & H5).
  eexists _, _, _. split; [reflexivity|]. split; [done|]. intros Hp Hfit. destruct r as [[]|]; [|by apply H5].
  destruct (aside_work _ _ H5) as [Hw5 Hf5]. destruct (H2 (Hf1 Hfit)) as [Hf2 Hw2]. rewrite Hw5.
  split; [apply Hf5|right]; [|unfold work, frames, send_capacity in *; simpl in *; rewrite Hcap; lia].
  unfold all_fit, send_capacity, frames. simpl. rewrite Hcap. by apply Hf3.
Qed.

Lemma ends_runs {A} (m : Io A) (P : t → res A → t → Prop) :
  (∀ s e, loop_ok s → ∃ r s' e', m s e = (Done r, s', e') ∧ loop_ok s' ∧ P s r s') → ∀ b, Runs b m.
Proof. intros Hm b. apply runs_weaken. intros s e Hs. by destruct (Hm s e Hs) as (r & s' & e' & -> & ? & _). Qed.

Lemma write_to_stream_runs b now : Runs b (write_to_stream now).
Proof. eapply ends_runs. intros s e Hs. by apply (write_to_stream_ends now). Qed.
Hint Resolve write_to_stream_runs attempt_flush_runs : client.

Lemma write_runs now fuel : Runs false (write fuel now).
Proof. induction fuel as [|fuel IH]; cbn [write]; runs. Qed.

(** The outcome with enough fuel. *)
Definition settles {A} (m : nat → Io A) (s : t) (e : Env) : Prop :=
  ∃ n r s' e', (∀ fuel, (n ≤ fuel)%nat → m fuel s e = (Done r, s', e')) ∧ loop_ok s'.

(** After a round: [handle_io_result] stops the loop on an error, or changes nothing. *)
Lemma handle_io_result_ends r s e : loop_ok s → ∃ s' e',
  (handle_io_result r s e = (Done (Ok tt), s', e') ∧ s' = s ∧ (∀ err, r = Err err → ¬ fatal err)) ∨
  (∃ err, r = Err err ∧ handle_io_result r s e = (Done (Err err), s', e') ∧ loop_ok s').
Proof.
  intros Hs. destruct r as [[]|err]; [exists s, e; left; by split_and!; destruct s|].
  unfold handle_io_result, SocketState.handle_io_result.
  destruct (interrupted err) eqn:Ei; [eexists s, _; left; split; [by destruct s|]; split; [done|]; intros ? [= <-] [? _]; congruence|].
  destruct (wouldblock err) eqn:Ew; [eexists s, _; left; split; [by destruct s|]; split; [done|]; intros ? [= <-] [_ ?]; congruence|].
  match goal with |- context [in_socket ?x] => set (m := x) end.
  assert (Hm : result_of (in_socket m s e) = Err err) by (unfold m; by destruct (is_io_error err)).
  pose proof (in_socket_ok m s e Hs) as Hs1. destruct (in_socket m s e) as [[r s1] e1] eqn:E1. unfold result_of in Hm. simpl in *. subst r.
  destruct (critical_error_ends (A := unit) err s1 e1 Hs1) as (s' & e' & E & Hs').
  exists s', e'. right. exists err. split; [done|]. split; [|done]. by rewrite (bind_eq _ _ _ _ _ _ _ E1).
Qed.

Lemma write_settles now (Hp : polite) : ∀ n s e, (work s < n)%nat → loop_ok s → all_fit s →
  settles (λ fuel, write fuel now) s e.
Proof.
  induction n as [|n IH]; intros s e Hn Hs Hfit; [lia|].
  destruct (can_write s) eqn:Ec; cycle 1.
  { exists 1%nat, (Ok tt), s, e. split; [|done]. intros [|fuel] Hf; [lia|]. cbn [write]. by rewrite bind_get, Ec. }
  destruct (write_to_stream_ends now s e Hs) as (r & s1 & e1 & E1 & Hs1 & H1). specialize (H1 Hp Hfit).
  destruct (handle_io_result_ends r s1 e1 Hs1) as (s2 & e2 & [(E2 & -> & Hr)|(err & -> & E2 & Hs2)]).
  - destruct r as [[]|err]; [|by destruct (Hr err)]. destruct H1 as [Hf1 Hw].
    assert (Hrest : settles (λ fuel, write fuel now) s1 e2).
    { destruct Hw as [Hw|Hw]; [|apply IH; [lia|done..]]. exists 1%nat, (Ok tt), s1, e2. split; [|done].
      intros [|fuel] Hf; [lia|]. cbn [write]. rewrite bind_get. unfold can_write. by rewrite Hw. }
    destruct Hrest as (k & r & s3 & e3 & Hk & Hs3). exists (S k), r, s3, e3. split; [|done].
    intros [|fuel] Hf; [lia|]. cbn [write]. rewrite bind_get, Ec. erewrite io_bind_ok; [by apply Hk; lia|].
    unfold io_catch. by erewrite bind_eq by exact E1.
  - exists 1%nat, (Err err), s2, e2. split; [|done]. intros [|fuel] Hf; [lia|]. cbn [write]. rewrite bind_get, Ec.
    erewrite io_bind_err; [done|]. unfold io_catch. by erewrite bind_eq by exact E1.
Qed.

(** ** Reading *)

Lemma violation_ok err c m : Preserves loop_ok (in_channels (Channels.in_channel0 (Channel.report_protocol_violation err c m))).
Proof. apply in_channels_ok, client_channel0, ok_violation. Qed.
Hint Resolve violation_ok : client.

Definition unread (s : t) : nat := Buffer.avail (receive_buffer s).

(** A turn of [parse] takes a well typed frame off the buffer, or gives none. *)
Lemma parse_ends s e : loop_ok s → ∃ r s' e', parse s e = (Done r, s', e') ∧ loop_ok s' ∧
  match r with Ok (Some f) => typed_frame f ∧ (unread s' < unread s)%nat | _ => True end.
Proof.
  intros Hs. unfold parse. rewrite bind_get. destruct (Buffer.parsing_context_spec _ (lo_receive _ Hs)) as (c & Ec & Hi).
  rewrite Ec. erewrite io_bind_ok by done. destruct (parse_safe HC c) as (r & Er & Hr). rewrite Er. erewrite io_bind_ok by done.
  destruct r as [[i f]|[|]]; [|by eexists _, _, _|]; cycle 1.
  { destruct (critical_error_ends (A := option AMQPFrame) (error_from ParsingError) s e Hs) as (s' & e' & E & Hs'). by eexists _, _, _. }
  destruct Hr as (Hty & n & Hn & Ht). rewrite <- Parsing.length_iter, Hi, Buffer.length_contents in Hn by apply Hs.
  destruct (Buffer.offset_after _ n c i (lo_receive _ Hs)) as [Eo _]; [done..|]. rewrite Eo. erewrite io_bind_ok by done. cbv zeta.
  match goal with |- context [io_bind (if ?b then ?m else ?m') ?k s e] => assert (Hv : Runs true (if b then m else m')) by runs;
    destruct (runs_ends _ s e Hv Hs) as (r & s1 & e1 & E1 & Hs1) end.
  destruct r as [[]|err]; [|erewrite io_bind_err by exact E1; by eexists _, _, _]. erewrite io_bind_ok by exact E1.
  destruct (Buffer.consume_spec _ n (lo_receive _ Hs)) as (b & Eb & Hwf & Hcap & Hcont). rewrite Eb. erewrite io_bind_ok by done.
  rewrite bind_modify. eexists _, _, _. split; [reflexivity|]. split; [by apply set_receive_ok|]. split; [done|].
  unfold unread. simpl. rewrite <- (Buffer.length_contents b Hwf), Hcont, length_drop, Buffer.length_contents by apply Hs. lia.
Qed.

Lemma handle_frames_loop_ends fuel : ∀ b s e, loop_ok s → (unread s < fuel)%nat →
  ∃ r s' e', handle_frames_loop fuel b s e = (Done r, s', e') ∧ loop_ok s'.
Proof.
  induction fuel as [|fuel IH]; intros b s e Hs Hf; [lia|]. cbn [handle_frames_loop]. rewrite bind_get.
  destruct (can_parse s); [|by eexists _, _, _]. destruct (parse_ends s e Hs) as (r & s1 & e1 & E1 & Hs1 & Hr).
  destruct r as [[f|]|err]; [|erewrite io_bind_ok by exact E1; by eexists _, _, _|erewrite io_bind_err by exact E1; by eexists _, _, _].
  erewrite io_bind_ok by exact E1. destruct Hr as [Hty Hlt].
  pose proof (in_channels_ok _ (client_handle_frame f Hty) s1 e1 Hs1) as Hs2.
  assert (Hk : unread (state_of (in_channels (Channels.handle_frame f) s1 e1)) = unread s1).
  { unfold in_channels, zoom. by destruct (Channels.handle_frame f _ _) as [[? ?] ?]. }
  destruct (in_channels (Channels.handle_frame f) s1 e1) as [[r s2] e2] eqn:E2. rewrite (bind_eq _ _ _ _ _ _ _ E2).
  unfold state_of in Hs2, Hk. simpl in Hs2, Hk. destruct r as [[]|err]; [apply IH; [done|lia]|by eexists _, _, _].
Qed.

Lemma handle_frames_runs b : Runs b handle_frames.
Proof.
  apply runs_weaken. intros s e Hs. unfold handle_frames. rewrite bind_get.
  destruct (handle_frames_loop_ends (S (Buffer.available_data (receive_buffer s))) false s e Hs) as (r & s' & e' & -> & Hs'); [|done].
  unfold unread, Buffer.available_data. lia.
Qed.
Hint Resolve handle_frames_runs : client.

Lemma half_closed_runs b : Runs b handle_half_closed_connection.
Proof. unfold handle_half_closed_connection. runs. Qed.
Hint Resolve half_closed_runs : client.

(** *** The room of the buffer *)

(** The server closed its side, and the size of the buffer is [c]. *)
Definition eof (c : nat) (s : t) : Prop := half_closed s = true ∧ Buffer.capacity (receive_buffer s) = c.

Lemma preserves_get_with {A} (I : t → Prop) (k : t → M t A) : (∀ s, I s → Preserves I (k s)) → Preserves I (get ≫= k).
Proof. intros Hk s e Hs. rewrite bind_get. by apply Hk. Qed.
Lemma preserves_io_bind {A B} (I : t → Prop) (m : Io A) (k : A → Io B) : Preserves I m → (∀ a, Preserves I (k a)) → Preserves I (io_bind m k).
Proof. intros Hm Hk. apply preserves_bind; [done|]. intros [[a|err]| |]; [apply Hk|apply preserves_ret..]. Qed.
Lemma preserves_unwrap {A B} (I : t → Prop) (x : option A) (k : A → Io B) :
  (∀ a, x = Some a → Preserves I (k a)) → Preserves I (io_bind (unwrap x) k).
Proof. intros Hk. destruct x as [a|]; [|by intros s e]. intros s e Hs. by apply (Hk a eq_refl). Qed.

Lemma in_channels_eof {A} c (m : M Channels.t A) : Preserves (eof c) (in_channels m).
Proof. by apply (preserves_zoom _ (λ _, True)). Qed.
Lemma in_socket_eof {A} c (m : M SocketState.t A) : Preserves (eof c) (in_socket m).
Proof. by apply (preserves_zoom _ (λ _, True)). Qed.
Lemma modify_eof c f : (∀ s, eof c s → eof c (f s)) → Preserves (eof c) (modify f).
Proof. apply preserves_modify. Qed.
Lemma reject_eof c snd err : Preserves (eof c) (Frames.sending_reject snd err).
Proof. unfold Frames.sending_reject, reject. preserve. Qed.
Hint Resolve in_channels_eof in_socket_eof reject_eof : client.
Hint Extern 2 (Preserves (eof _) (modify _)) => apply modify_eof; done : client.

Lemma critical_error_eof {A} c err : Preserves (eof c) (critical_error err : Io A).
Proof. unfold critical_error, clear_serialized_frames, stop, fail. preserve. Qed.
Hint Resolve critical_error_eof : client.

Lemma parse_eof c : Preserves (eof c) parse.
Proof.
  unfold parse, io_ret. apply preserves_get_with. intros s Hs. do 2 (apply preserves_unwrap; intros).
  destruct a0 as [[i f]|[|]]; [|preserve..]. apply preserves_unwrap. intros n _. apply preserves_io_bind; [preserve|intros _].
  apply preserves_unwrap. intros b Eb. apply preserves_bind; [|intros; preserve]. apply preserves_modify. intros s1 [H1 _]. split; [done|].
  simpl. destruct Hs as [_ <-]. unfold Buffer.consume in Eb. destruct (Buffer.urem _ _); [|done]. destruct (usub _ _); [|done]. by simplify_eq/=.
Qed.
Hint Resolve parse_eof : client.

Lemma handle_frames_eof c : Preserves (eof c) handle_frames.
Proof.
  unfold handle_frames. apply preserves_get_with. intros s _. generalize (S (Buffer.available_data (receive_buffer s))) false.
  intros fuel. induction fuel as [|fuel IH]; intros b; cbn [handle_frames_loop]; [preserve|].
  unfold fail, io_ret. repeat first [apply preserves_io_bind; [|intros]|preserve_step|apply IH].
Qed.
Lemma half_closed_eof c : Preserves (eof c) handle_half_closed_connection.
Proof. unfold handle_half_closed_connection, fail, io_ret. preserve. Qed.

(** The room left, and as much again until the server closes its side. *)
Definition room (s : t) : nat :=
  ((if half_closed s then 0 else S (S (Buffer.capacity (receive_buffer s)))) + (Buffer.capacity (receive_buffer s) - unread s))%nat.

Lemma eof_room s s' : half_closed s = false → eof (Buffer.capacity (receive_buffer s)) s' → (room s' < room s)%nat.
Proof. intros Hf [H1 H2]. unfold room. rewrite Hf, H1, H2. lia. Qed.

(** What a read of the socket gives. *)
Lemma poll_read_ends s e : loop_ok s → ∃ r s' e', poll_read_from s e = (Done r, s', e') ∧ loop_ok s' ∧
  half_closed s' = half_closed s ∧ Buffer.capacity (receive_buffer s') = Buffer.capacity (receive_buffer s) ∧
  match r with
  | Ok (Ready O) => room s' = room s
  | Ok (Ready (S n)) => (room s' < room s)%nat
  | Ok Pending => True
  | Err err => polite → fatal err
  end.
Proof.
  intros Hs. unfold poll_read_from. rewrite bind_get. unfold Buffer.available_space. pose proof (Buffer.wf_avail _ (lo_receive _ Hs)) as Ha.
  rewrite usub_Some by lia. erewrite io_bind_ok by done.
  destruct (Buffer.capacity (receive_buffer s) - Buffer.avail (receive_buffer s))%nat as [|k] eqn:Esp; [by eexists _, _, _|].
  destruct (poll_read (stream s) (S k)) as [r st] eqn:Er. rewrite bind_modify.
  assert (Hs1 : loop_ok (set_stream st s)) by by destruct Hs.
  destruct r as [[data|]|err]; [|by eexists _, _, _|eexists _, _, _; split; [reflexivity|]; split_and!; try done; intros Hp; by eapply io_error_fatal, read_polite].
  destruct (Buffer.read_fill_spec _ data (lo_receive _ Hs)) as (b & Eb & Hwf & Hcap & _ & Hav & _). rewrite Eb. erewrite io_bind_ok by done.
  rewrite bind_modify. eexists _, _, _. split; [reflexivity|]. split; [by apply set_receive_ok|]. split; [done|]. split; [done|].
  rewrite Esp in *. destruct (length data `min` S k)%nat as [|m] eqn:Em; simpl in *;
    unfold room, unread; simpl; rewrite Hcap, Hav; destruct (half_closed s); lia.
Qed.

Lemma half_closed_fatal s e : loop_ok s → ∃ r s' e', handle_half_closed_connection s e = (Done r, s', e') ∧ loop_ok s' ∧
  match r with Ok b => b = true | Err err => fatal err end.
Proof.
  intros Hs. unfold handle_half_closed_connection. rewrite bind_get, bind_get_env. destruct (_ || _); [by eexists _, _, _|].
  eexists _, _, _. split; [reflexivity|]. by destruct Hs.
Qed.

(** How a round of reading ends: it is the last, the socket has no more, or there is less room. *)
Definition round_read (m : Io bool) (s : t) (e : Env) : Prop := ∃ r s' e', m s e = (Done r, s', e') ∧ loop_ok s' ∧
  (polite → match r with
   | Ok true => True
   | Ok false => SocketState.readable (socket_state s') = false ∨ (room s' < room s)%nat
   | Err err => fatal err ∨ (room s' < room s)%nat
   end).

(** The server closed its side. *)
Lemma eof_read s e : loop_ok s → half_closed s = false → round_read (
  modify (set_half_closed true);;
  io_bind handle_frames (λ did_something, e ← get_env;
    if negb did_something && rpc_is_empty e then handle_half_closed_connection else io_ret false)) s e.
Proof.
  intros Hs Hf. unfold round_read. rewrite bind_modify. set (s1 := set_half_closed true s).
  assert (Hs1 : loop_ok s1) by by destruct Hs. assert (He : eof (Buffer.capacity (receive_buffer s)) s1) by done.
  match goal with |- context [?x s1 e] => set (m := x) end.
  assert (Hm : Runs true m) by (unfold m; runs).
  assert (He' : Preserves (eof (Buffer.capacity (receive_buffer s))) m).
  { unfold m, io_ret. pose proof (handle_frames_eof (Buffer.capacity (receive_buffer s))). pose proof (half_closed_eof (Buffer.capacity (receive_buffer s))).
    apply preserves_io_bind; [done|intros; preserve]. }
  destruct (runs_ends m s1 e Hm Hs1) as (r & s2 & e2 & E & Hs2). specialize (He' s1 e He). rewrite E in *.
  eexists _, _, _. split; [reflexivity|]. split; [done|]. intros _. pose proof (eof_room s s2 Hf He'). destruct r as [[]|]; auto.
Qed.

Lemma read_from_stream_ends now s e : loop_ok s → round_read (read_from_stream now) s e.
Proof.
  intros Hs. unfold read_from_stream. unfold round_read at 1. rewrite bind_get.
  match goal with |- context [io_bind poll_read_from ?x] => set (k := x) end.
  assert (Hgo : round_read (io_bind poll_read_from k) s e); cycle 1.
  { destruct (ConnectionStatus.state (connection_status s)); try exact Hgo;
      (eexists _, _, _; split; [reflexivity|]; split; [done|]; intros; first [done|by left]). }
  destruct (poll_read_ends s e Hs) as (r & s1 & e1 & E1 & Hs1 & Hh & Hc & Hr). unfold round_read.
  destruct r as [p|err]; [|erewrite io_bind_err by exact E1; eexists _, _, _; split; [reflexivity|]; split; [done|]; intros; left; by apply Hr].
  erewrite io_bind_ok by exact E1. unfold k. destruct p as [[|n]|]; cycle 1.
  - eexists _, _, _. split; [reflexivity|]. split; [by destruct Hs1|]. intros _. right. exact Hr.
  - eexists _, _, _. split; [reflexivity|]. split; [by destruct Hs1|]. intros _. by left.
  - erewrite bind_eq by reflexivity. cbv beta iota. rewrite bind_get. match goal with |- context [half_closed ?x] => set (s2 := x) end.
    assert (Hs2 : loop_ok s2) by by destruct Hs1. assert (Hr2 : room s2 = room s) by exact Hr. destruct (half_closed s2) eqn:Hf.
    + destruct (half_closed_fatal s2 e1 Hs2) as (r & s3 & e3 & E & Hs3 & H3). exists r, s3, e3. split; [exact E|]. split; [done|].
      intros _. destruct r as [b|err]; [by subst b|by left].
    + destruct (eof_read s2 e1 Hs2 Hf) as (r & s3 & e3 & E & Hs3 & H3). exists r, s3, e3. rewrite Hr2 in H3. by split.
Qed.

Lemma read_from_stream_runs b now : Runs b (read_from_stream now).
Proof. eapply ends_runs. intros s e Hs. by apply (read_from_stream_ends now). Qed.
Hint Resolve read_from_stream_runs : client.

Lemma read_runs now fuel : Runs false (read fuel now).
Proof. induction fuel as [|fuel IH]; cbn [read]; runs. Qed.

Lemma read_round now fuel r s e s1 e1 s2 e2 : can_read s = true → read_from_stream now s e = (Done r, s1, e1) →
  handle_io_result (match r with Ok _ => Ok tt | Err err => Err err end) s1 e1 = (Done (Ok tt), s2, e2) →
  read (S fuel) now s e = match r with Ok true => (Done (Ok tt), s2, e2) | _ => read fuel now s2 e2 end.
Proof.
  intros Ec E1 E2. cbn [read]. rewrite bind_get, Ec. unfold io_catch. erewrite bind_eq by exact E1. cbv beta iota.
  erewrite io_bind_ok by exact E2. by destruct r as [[]|].
Qed.

Lemma read_settles now (Hp : polite) : ∀ n s e, (room s < n)%nat → loop_ok s → settles (λ fuel, read fuel now) s e.
Proof.
  induction n as [|n IH]; intros s e Hn Hs; [lia|].
  assert (Hstop : ∀ s e, loop_ok s → can_read s = false → settles (λ fuel, read fuel now) s e).
  { intros s' e' Hs' Ec. exists 1%nat, (Ok tt), s', e'. split; [|done]. intros [|fuel] Hf; [lia|]. cbn [read]. by rewrite bind_get, Ec. }
  destruct (can_read s) eqn:Ec; [|by apply Hstop].
  destruct (read_from_stream_ends now s e Hs) as (r & s1 & e1 & E1 & Hs1 & H1). specialize (H1 Hp).
  destruct (handle_io_result_ends (match r with Ok _ => Ok tt | Err err => Err err end) s1 e1 Hs1) as (s2 & e2 & [(E2 & -> & Hr)|(err & Er & E2 & Hs2)]).
  - pose proof (λ fuel, read_round now fuel r s e s1 e1 s1 e2 Ec E1 E2) as Hround.
    assert (Hrest : r = Ok true ∨ r ≠ Ok true ∧ settles (λ fuel, read fuel now) s1 e2).
    { destruct r as [[]|err]; [by left|right; split; [done|]..].
      - destruct H1 as [H1|H1]; [apply Hstop; [done|]; unfold can_read; by rewrite H1|apply IH; [lia|done]].
      - destruct H1 as [H1|H1]; [by destruct (Hr err)|apply IH; [lia|done]]. }
    destruct Hrest as [->|[Hne (k & r' & s3 & e3 & Hk & Hs3)]].
    + exists 1%nat, (Ok tt), s1, e2. split; [|done]. intros [|fuel] Hf; [lia|]. by rewrite Hround.
    + exists (S k), r', s3, e3. split; [|done]. intros [|fuel] Hf; [lia|]. rewrite Hround.
      destruct r as [[]|]; [done|apply Hk; lia..].
  - exists 1%nat, (Err err), s2, e2. split; [|done]. intros [|fuel] Hf; [lia|]. cbn [read]. rewrite bind_get, Ec.
    unfold io_catch. erewrite bind_eq by exact E1. cbv beta iota. by erewrite io_bind_err by exact E2.
Qed.

(** ** A turn *)

Lemma grow_wf b n r : Buffer.wf b → Buffer.grow b n = Some r → Buffer.wf r.2.
Proof.
  intros Hwf Hg. destruct (decide (n ≤ Buffer.capacity b)%nat) as [Hle|Hle].
  { unfold Buffer.grow in Hg. rewrite decide_True in Hg by done. by simplify_eq. }
  destruct (decide (Buffer.wrapped b)) as [Hw|Hw]; cycle 1.
  { destruct (Buffer.grow_unwrapped b n) as (b' & E & ? & _); [done|lia|done|]. by rewrite E in Hg; simplify_eq. }
  destruct (decide (Buffer.bend b < n - Buffer.capacity b)%nat) as [Hlt|Hge].
  - rewrite Buffer.grow_wrapped_panics in Hg; [done|done|lia|done|done].
  - destruct (Buffer.grow_wrapped b n) as (b' & E & ? & _); [done|lia|done|lia|]. by rewrite E in Hg; simplify_eq.
Qed.

(** [finish_setup] ends, unless a buffer cannot grow. *)
Lemma finish_setup_runs : ∀ s e, loop_ok s → status s = Initial →
  let x := finish_setup s e in loop_ok (state_of x) ∧
  match result_of x with
  | Done _ => True
  | Panic => cannot_grow (state_of x)
  | OutOfFuel => False
  end.
Proof.
  intros s e Hs Hi. cbv zeta. unfold finish_setup. rewrite bind_get.
  destruct (ConnectionStatus.connected (connection_status s)) eqn:Ec; [|done]. cbv zeta. rewrite bind_modify.
  set (size := Z.max _ _). set (s1 := set_frame_size size s). assert (Hs1 : loop_ok s1) by by destruct Hs.
  destruct (Buffer.grow (receive_buffer s) _) as [r|] eqn:Er; [|split; [done|]; split; [done|]; split; [done|by left]].
  pose proof (grow_wf _ _ _ (lo_receive _ Hs) Er) as Hr. erewrite io_bind_ok by done. rewrite bind_modify.
  pose proof (set_receive_ok s1 r.2 Hs1 Hr) as Hs2.
  destruct (Buffer.grow (send_buffer s) _) as [w|] eqn:Ew; [|split; [done|]; split; [done|]; split; [done|by right]].
  pose proof (grow_wf _ _ _ (lo_send _ Hs) Ew) as Hw. erewrite io_bind_ok by done.
  match goal with |- context [(modify ?f ≫= ?k) ?x ?y] => set (m := k); rewrite (bind_modify f m x y) end.
  assert (Hm : Runs true (m tt)) by (unfold m; runs). pose proof (set_send_ok _ w.2 Hs2 Hw) as Hs3.
  by destruct (runs_ends (m tt) _ e Hm Hs3) as (o & s' & e' & -> & ?).
Qed.

Lemma ensure_setup_runs : Runs false ensure_setup.
Proof.
  unfold ensure_setup. intros s e Hs. rewrite bind_get. destruct (status s) eqn:Es; [|done..].
  destruct (finish_setup_runs s e Hs Es) as [H1 H2]. split; [exact H1|]. by destruct (result_of (finish_setup s e)).
Qed.
Hint Resolve ensure_setup_runs write_runs read_runs : client.

Lemma run_runs fuel now ev : Runs false (run fuel now ev).
Proof. unfold run. runs. Qed.
Hint Resolve run_runs : client.

Lemma turn_runs fuel now ev r : Runs false (turn fuel now ev r).
Proof. unfold turn. runs. Qed.
Hint Resolve turn_runs : client.

(** ** The thread *)

(** The other threads keep the invariant of the channels, as [Invariant] shows of the calls, commands and
    futures. *)
Definition fair_inputs (l : list Input) : Prop := Forall (λ i, Preserves client_ok (i_others i)) l.

Lemma session_runs fuel inputs : fair_inputs inputs → ∀ r, Runs false (session fuel inputs r).
Proof.
  induction 1 as [|i inputs Hi _ IH]; intros r; cbn [session]; runs.
Qed.

Lemma reset_ok : Preserves loop_ok reset.
Proof.
  unfold reset. apply preserves_bind; [|intros; preserve]. apply preserves_modify. intros s [].
  split; [done|by apply Buffer.reset_wf..].
Qed.
Hint Resolve reset_ok : client.

Lemma after_session_ok v r : Preserves loop_ok (after_session v r).
Proof. unfold after_session, retry_handshake, throttle. preserve. Qed.
Hint Resolve after_session_ok : client.

Lemma abandon_ok err : Preserves loop_ok (in_channels (abandon_connect err)).
Proof. apply in_channels_ok, client_abandon_connect. Qed.
Hint Resolve abandon_ok : client.

Lemma start_runs fuel v rounds : Forall (λ ro, fair_inputs (r_inputs ro)) rounds → Runs false (start fuel v rounds).
Proof.
  induction 1 as [|ro rounds Hr _ IH]; cbn [start]; runs.
  - by apply session_runs.
Qed.

(** ** The end of a turn *)

Lemma settles_const {A} (m : Io A) s e : Runs true m → loop_ok s → settles (λ _, m) s e.
Proof. intros Hm Hs. destruct (runs_ends m s e Hm Hs) as (r & s' & e' & E & Hs'). by exists O, r, s', e'. Qed.

Lemma settles_bind {A B} (m : nat → Io A) (k : nat → A → Io B) s e :
  settles m s e → (∀ a s' e', loop_ok s' → settles (λ fuel, k fuel a) s' e') → settles (λ fuel, io_bind (m fuel) (k fuel)) s e.
Proof.
  intros (n & r & s1 & e1 & Hn & Hs1) Hk. destruct r as [a|err].
  - destruct (Hk a s1 e1 Hs1) as (n' & r & s2 & e2 & Hn' & Hs2). exists (n `max` n')%nat, r, s2, e2. split; [|done].
    intros fuel Hf. erewrite io_bind_ok by (apply Hn; lia). apply Hn'. lia.
  - exists n, (Err err), s1, e1. split; [|done]. intros fuel Hf. erewrite io_bind_err by (by apply Hn). done.
Qed.

Lemma settles_after {A B} (m : Io A) (k : nat → A → Io B) a s e s' e' :
  m s e = (Done (Ok a), s', e') → settles (λ fuel, k fuel a) s' e' → settles (λ fuel, io_bind m (k fuel)) s e.
Proof.
  intros E (n & r & s1 & e1 & Hn & Hs1). exists n, r, s1, e1. split; [|done]. intros fuel Hf. erewrite io_bind_ok by exact E. by apply Hn.
Qed.

Lemma settles_step {A B} (J : t → Prop) (m : M t A) (k : nat → A → Io B) s e : Preserves J m → J s →
  (∀ a s' e', J s' → settles (λ fuel, k fuel a) s' e') → settles (λ fuel, m ≫= k fuel) s e.
Proof.
  intros Hm Hs Hk. specialize (Hm s e Hs). destruct (m s e) as [[a s1] e1] eqn:E. destruct (Hk a s1 e1 Hm) as (n & r & s2 & e2 & Hn & Hs2).
  exists n, r, s2, e2. split; [|done]. intros fuel Hf. rewrite (bind_eq _ _ _ _ _ _ _ E). by apply Hn.
Qed.

(** The frames waiting fit the send buffer. *)
Definition ready (s : t) : Prop := loop_ok s ∧ all_fit s.

Lemma ready_socket {A} (m : M SocketState.t A) : Preserves ready (in_socket m).
Proof. apply (preserves_zoom _ (λ _, True)); try done. intros x s [[] ?] _. split; [by split|done]. Qed.
Lemma ready_check : Preserves ready check_connection_state.
Proof. unfold check_connection_state, stop. preserve. apply preserves_modify. intros s [[] ?]. split; [by split|done]. Qed.
Hint Resolve ready_socket ready_check : client.

Lemma attempt_flush_ready s e : ready s → ∃ r s' e', attempt_flush s e = (Done r, s', e') ∧ loop_ok s' ∧
  match r with Ok _ => ready s' | Err _ => True end.
Proof.
  intros [Hs Hf]. unfold attempt_flush, io_catch, flush at 1. rewrite bind_assoc, bind_get.
  destruct (poll_flush (stream s)) as [r st] eqn:E. rewrite bind_assoc, bind_modify.
  assert (Hs1 : ready (set_stream st s)) by (destruct Hs; split; [by split|done]). destruct r as [p|k].
  - rewrite bind_assoc. pose proof (ready_socket (SocketState.handle_write_poll p) _ e Hs1) as Hs2.
    destruct (in_socket _ (set_stream st s) e) as [[a s2] e2] eqn:E2. rewrite (bind_eq _ _ _ _ _ _ _ E2).
    exists (Ok tt), s2, e2. split; [by destruct s2|]. split; [apply Hs2|done].
  - erewrite bind_eq by reflexivity. cbv beta iota.
    destruct (handle_io_result_ends (Err (io_error k)) (set_stream st s) e (proj1 Hs1)) as (s2 & e2 & [(E2 & -> & _)|(err & _ & E2 & Hs2)]).
    + eexists _, _, _. split; [exact E2|]. by split; [apply Hs1|].
    + eexists _, _, _. split; [exact E2|]. done.
Qed.

(** The sizes the buffers take once the connection is open. *)
Definition setup_size (s : t) : nat := Z.to_nat (FRAMES_STORAGE * Z.max (frame_size s) (Configuration.frame_max (configuration s))).

Definition growable (s : t) : Prop :=
  status s = Initial → ConnectionStatus.connected (connection_status s) = true →
  is_Some (Buffer.grow (receive_buffer s) (setup_size s)) ∧ is_Some (Buffer.grow (send_buffer s) (setup_size s)).

Lemma fits_larger n n' fe : (n ≤ n')%nat → fits n fe → fits n' fe.
Proof. intros Hn Hf b b' ext m Hwf Hg Ha. specialize (Hf b b' ext m Hwf Hg Ha). lia. Qed.

Lemma grow_capacity b n r : Buffer.grow b n = Some r → (Buffer.capacity b ≤ Buffer.capacity r.2)%nat.
Proof.
  unfold Buffer.grow. case_decide; [by intros [= <-]|]. repeat case_decide; intros Hg; [..|simplify_eq/=; lia].
  all: repeat (match type of Hg with match ?x with _ => _ end = _ => destruct x; [|done] end); simplify_eq/=; lia.
Qed.

Lemma ensure_setup_ready s e : ready s → growable s → ∃ b s' e', ensure_setup s e = (Done (Ok b), s', e') ∧ ready s'.
Proof.
  intros [Hs Hf] Hg. unfold ensure_setup. rewrite bind_get. destruct (status s) eqn:Es; [|by eexists _, _, _..].
  unfold finish_setup. rewrite bind_get. destruct (ConnectionStatus.connected (connection_status s)) eqn:Ec; [|by eexists _, _, _].
  cbv zeta. rewrite bind_modify. fold (setup_size s). destruct (Hg Es Ec) as [[r Er] [w Ew]]. rewrite Er. erewrite io_bind_ok by done.
  rewrite bind_modify, Ew. erewrite io_bind_ok by done. rewrite bind_modify.
  pose proof (grow_wf _ _ _ (lo_receive _ Hs) Er). pose proof (grow_wf _ _ _ (lo_send _ Hs) Ew).
  assert (Hfin : ∀ s', loop_ok s' → channels s' = channels s → send_buffer s' = w.2 → ready s').
  { intros s' Hs' H1 H2. split; [done|]. unfold all_fit, send_capacity, frames. rewrite H1, H2. eapply Forall_impl; [exact Hf|].
    intros fe. apply fits_larger, (grow_capacity _ _ _ Ew). }
  destruct (_ =? 0); eexists _, _, _; (split; [reflexivity|]); (apply Hfin; [by destruct Hs|done..]).
Qed.

(** From the write on. *)
Lemma write_read_settles now s e : polite → ready s → settles (λ fuel,
  io_bind (write fuel now) (λ _, check_connection_state;;
    s ← get; e ← get_env;
    io_bind (if should_continue s e then read fuel now else io_ret tt) (λ _,
    io_bind handle_frames (λ _, check_connection_state;; io_ret tt)))) s e.
Proof.
  intros Hp [Hs Hf]. apply settles_bind; [apply (write_settles now Hp (S (work s))); [lia|done..]|]. intros _ s1 e1 Hs1.
  apply (settles_step loop_ok); [preserve|done|]. intros _ s2 e2 Hs2.
  apply (settles_step loop_ok); [preserve|done|]. intros s3 s4 e3 Hs4.
  apply (settles_step loop_ok); [preserve|done|]. intros e4 s5 e5 Hs5.
  apply settles_bind.
  - destruct (should_continue s3 e4); [apply (read_settles now Hp (S (room s5))); [lia|done]|by apply settles_const; [runs|]].
  - intros _ s6 e6 Hs6. apply settles_const; [runs|done].
Qed.

Lemma run_settles now ev s e : polite → ready s → growable s → settles (λ fuel, run fuel now ev) s e.
Proof.
  intros Hp Hr Hg. unfold run.
  apply (settles_step (λ s, ready s ∧ growable s)); [|done|].
  { intros s1 e1 [H1 H2]. split; [by apply (ready_socket SocketState.poll_events)|].
    unfold in_socket, zoom. by destruct (SocketState.poll_events _ _) as [[? ?] ?]. }
  intros _ s1 e1 [Hr1 Hg1]. destruct (ensure_setup_ready s1 e1 Hr1 Hg1) as (b & s2 & e2 & E & Hr2).
  apply (settles_after _ _ _ _ _ _ _ E). destruct b; [|by apply settles_const; [runs|apply Hr2]]. cbn [negb].
  apply (settles_step ready); [preserve|done|]. intros _ s3 e3 Hr3.
  apply (settles_step ready); [preserve|done|]. intros s4 s5 e4 Hr5.
  apply (settles_step ready); [preserve|done|]. intros e6 s6 e7 Hr6.
  apply (settles_step ready); [preserve|done|]. intros _ s7 e8 Hr7.
  apply (settles_step ready); [preserve|done|]. intros _ s8 e9 Hr8.
  destruct (attempt_flush_ready s8 e9 Hr8) as ([[]|err] & s9 & e10 & E9 & Hs9 & Hr9).
  - apply (settles_after _ _ _ _ _ _ _ E9). by apply write_read_settles.
  - exists O, (Err err), s9, e10. split; [|done]. intros fuel _. by erewrite io_bind_err by exact E9.
Qed.

(** ** The theorems *)

Lemma grow_fails b n : Buffer.wf b → Buffer.grow b n = None → Buffer.wrapped b ∧ (Buffer.bend b < n - Buffer.capacity b)%nat.
Proof.
  intros Hwf Hg. destruct (decide (n ≤ Buffer.capacity b)%nat) as [Hle|Hle].
  { unfold Buffer.grow in Hg. by rewrite decide_True in Hg. }
  destruct (decide (Buffer.wrapped b)) as [Hw|Hw]; cycle 1.
  { destruct (Buffer.grow_unwrapped b n) as (b' & E & _); [done|lia|done|]. by rewrite E in Hg. }
  split; [done|]. destruct (decide (Buffer.bend b < n - Buffer.capacity b)%nat) as [|Hge]; [done|].
  destruct (Buffer.grow_wrapped b n) as (b' & E & _); [done|lia|done|lia|]. by rewrite E in Hg.
Qed.

(** The data of a buffer wraps, and the part that wrapped is shorter than what the buffer has to grow by. *)
Definition short_wrap (s : t) : Prop := ∃ b, (b = receive_buffer s ∨ b = send_buffer s) ∧ Buffer.wrapped b ∧
  (Buffer.bend b < Z.to_nat (FRAMES_STORAGE * frame_size s) - Buffer.capacity b)%nat.

Lemma cannot_grow_wrap s : loop_ok s → cannot_grow s → short_wrap s.
Proof.
  intros Hs (_ & _ & [Hg|Hg]); [exists (receive_buffer s)|exists (send_buffer s)]; (split; [by auto|]); (apply grow_fails; [apply Hs|exact Hg]).
Qed.

Lemma new_ok c so hb delays st : client_ok c → loop_ok (IoLoop.new c so hb delays st).
Proof. intros Hc. split; [done|..]; apply Buffer.with_capacity_wf; unfold FRAMES_STORAGE; pose proof FRAME_MIN_SIZE_range; lia. Qed.

(** C12: the thread of the io loop panics nowhere but where the buffers grow.  From a new loop, or any whose channels
    are in order and whose buffers are well formed, over any number of connections, sessions and turns, whatever the
    server and the socket do and whatever the other threads do to the channels between the turns, the channels and
    the buffers stay in order: no slice or subtraction of the ring buffer is out of range, no rollback of
    a frame that did not fit, no parse, no consume fails.  When the thread panics, the connection was just opened,
    the data of one of the two buffers wraps around its end, and the part that wrapped is shorter than what the
    buffer has to grow by. *)
Theorem thread_panics_only_growing s e fuel v rounds : loop_ok s → Forall (λ ro, fair_inputs (r_inputs ro)) rounds →
  let x := start fuel v rounds s e in
  loop_ok (state_of x) ∧
  (result_of x = Panic → status (state_of x) = Initial ∧ ConnectionStatus.connected (connection_status (state_of x)) = true ∧
    short_wrap (state_of x)).
Proof.
  intros Hs Hr. cbv zeta. destruct (start_runs fuel v rounds Hr s e Hs) as [H1 H2]. split; [done|]. intros E. rewrite E in H2.
  destruct H2 as [_ H2]. pose proof (cannot_grow_wrap _ H1 H2). by destruct H2 as (? & ? & _).
Qed.

(** C13: a turn of the io loop always comes to an end.  Every round of [write] that goes on takes a frame out of the
    queues or bytes out of the send buffer, every round of [read] that goes on fills the receive buffer or learns that the
    server closed its side, which it does once, and every round of [serialize] and of [handle_frames]
    takes a frame: with fuel enough, [run] has the same outcome whatever the fuel, and it is a result or an error.  It is so whatever
    the socket answers, as long as its polls do not fail with the errors they should retry, when the frames
    queued fit the send buffer and the buffers can grow. *)
Theorem turn_ends now ev s e : polite → loop_ok s → all_fit s → growable s →
  ∃ n r s' e', loop_ok s' ∧ ∀ fuel, (n ≤ fuel)%nat → run fuel now ev s e = (Done r, s', e').
Proof. intros Hp Hs Hf Hg. destruct (run_settles now ev s e Hp (conj Hs Hf) Hg) as (n & r & s' & e' & Hn & Hs'). by exists n, r, s', e'. Qed.

End LoopSafety.

Section Witnesses.
#[local] Existing Instances number_types number_protocol number_handle.
#[local] Existing Instances IoLoop.z_order IoLoop.s_order IoLoop.demo_codec IoLoop.demo_socket.

(** The small codec and socket of [IoLoop] behave. *)
Lemma demo_enc_short f : (length (demo_enc f) ≤ 2)%nat.
Proof. unfold demo_enc. repeat case_match; simpl; lia. Qed.

Lemma demo_gen_appends f b : Buffer.wf b → ∃ r b' ext, demo_gen f b = Some (r, b') ∧ Buffer.appends b b' ext ∧ (length ext ≤ 2)%nat.
Proof.
  intros Hwf. unfold demo_gen. pose proof (demo_enc_short f) as Hl. destruct (demo_enc f) as [|x bs].
  - eexists _, b, []. split; [done|]. split; [|simpl; lia]. split_and!; try done. by rewrite app_nil_r.
  - destruct (demo_write b (x :: bs) Hwf) as (n & b' & -> & _ & Ha). eexists _, b', _. split; [done|]. split; [exact Ha|].
    rewrite length_take. lia.
Qed.

Lemma demo_taken c n f : (0 < n)%nat → (n ≤ length (Parsing.iter c))%nat → typed_frame f →
  ∃ r, (let? i := Parsing.take_from c n in Some (Ok (i, f) : result ParseError (Parsing.Ctx * AMQPFrame))) = Some r ∧
    match r with
    | Ok (i, f) => typed_frame f ∧ ∃ n, (0 < n ≤ Parsing.input_len c)%nat ∧ Parsing.take_from c n = Some i
    | Err _ => True
    end.
Proof.
  intros H0 Hn Hf. rewrite Parsing.length_iter in Hn. destruct (Parsing.take_from_spec c n) as (i & E & _); [lia|].
  rewrite E. eexists. split; [reflexivity|]. split; [done|]. by exists n.
Qed.

Lemma demo_codec_safe : codec_safe.
Proof.
  split.
  - intros f b Hwf. destruct (demo_gen_appends f b Hwf) as (r & b' & ext & E & Ha & _). by exists r, b', ext.
  - intros c. simpl. unfold demo_parse. pose proof (demo_taken c 1 HeartbeatFrame) as H1. pose proof (demo_taken c 2) as H2.
    destruct (Parsing.iter c) as [|x l]; [by eexists|].
    destruct x; try (by eexists); try (apply H1; simpl; [lia..|done]); destruct l as [|y l]; try (by eexists); try (apply H2; simpl; [lia..|done]).
    destruct y; try (by eexists); (apply H2; simpl; [lia..|done]).
Qed.

Lemma demo_polite : polite.
Proof. split; try done. intros st space k st'. simpl. destruct (st.2); [done|]. by case_decide. Qed.

Lemma demo_fits n fe : (2 < n)%nat → fits n fe.
Proof.
  intros Hn b b' ext m Hwf Hg Ha. destruct (demo_gen_appends (Frames.frame fe) b Hwf) as (r & b1 & ext' & E & Ha' & Hl).
  simpl in Hg. rewrite E in Hg. simplify_eq. destruct Ha as (_ & _ & _ & Hc), Ha' as (_ & _ & _ & Hc'). rewrite Hc' in Hc.
  apply app_inv_head in Hc. subst. lia.
Qed.

(** A connection that is open, with frames [f] to send. *)
Definition demo_open (f : Frames.t) : Channels.t :=
  let c := InternalRPC.InternalRPC.channels (Handshake.parts (Configuration.mk 10 4 0) "/" true 0 0) in
  Channels.set_conn (Channel.set_connection_status (ConnectionStatus.set_state CoConnected ConnectionStatus.default).2
    (Channel.set_frames_ f (Channels.conn c))) c.

Lemma demo_open_ok f : client_ok (demo_open f).
Proof. destruct (parts_ok (Configuration.mk 10 4 0) "/" true 0 0%nat) as [? ? ? ? ?]; [by split|]. by split. Qed.

Definition demo_loop (st : Status) (f : Frames.t) (receive : Buffer.t) : t :=
  mk (demo_open f) SocketState.default (Heartbeat.demo 0 0) st 1 receive (Buffer.with_capacity 8) [] false false [1] [1] ([], [[Byte.x08]]).

(** A buffer of eight bytes, four of them in use, the last two at its start. *)
Definition demo_wrapped : Buffer.t := Buffer.mk (replicate 8 Byte.x08) 8 6 2 4.
Lemma demo_wrapped_wf : Buffer.wf demo_wrapped.
Proof. split; simpl; done || lia. Qed.

(** The connection is opened; the buffers have to grow to 128 bytes. *)
Definition demo_round : Round := mkRound [Ok ([], [])] [mkInput (mret tt) 5 SocketState.Wake].

Definition demo_thread : Out unit * t * Env := start 3 (0, 9, 1) [demo_round] (demo_loop Initial Frames.default demo_wrapped) env_empty.

Lemma thread_panics_only_growing_witness : result_of demo_thread = Panic ∧ loop_ok (state_of demo_thread) ∧ short_wrap (state_of demo_thread).
Proof.
  destruct (thread_panics_only_growing (AT := number_types) (AP := number_protocol) (CH := number_handle) (TR := IoLoop.demo_socket) (FC := IoLoop.demo_codec)
    demo_codec_safe (demo_loop Initial Frames.default demo_wrapped) env_empty 3 (0, 9, 1) [demo_round]) as [H1 H2].
  - split; [apply demo_open_ok|apply demo_wrapped_wf|apply Buffer.with_capacity_wf; lia].
  - apply Forall_singleton, Forall_singleton, preserves_ret.
  - assert (E : result_of demo_thread = Panic) by by vm_compute. destruct (H2 E) as (_ & _ & Hw).
    split; [exact E|]. split; [exact H1|exact Hw].
Defined.

(** Two frames are written, in two rounds, and one is received. *)
Definition demo_turn (fuel : nat) : Out unit * t * Env :=
  run fuel 5 SocketState.Wake (demo_loop Connected demo_queue (Buffer.with_capacity 8)) env_empty.

Lemma turn_ends_witness : (∃ n r s' e', loop_ok s' ∧ ∀ fuel, (n ≤ fuel)%nat → demo_turn fuel = (Done r, s', e')) ∧
  result_of (demo_turn 6) = Done (Ok tt) ∧ (stream (state_of (demo_turn 6))).1 = [Byte.x08; Byte.x03; Byte.x07].
Proof.
  split; [|by vm_compute]. apply (turn_ends (AT := number_types) (AP := number_protocol) (CH := number_handle) (TR := IoLoop.demo_socket)
    (FC := IoLoop.demo_codec) demo_codec_safe 5 SocketState.Wake _ env_empty demo_polite).
  - split; [apply demo_open_ok|..]; apply Buffer.with_capacity_wf; lia.
  - apply Forall_forall. intros fe _. apply demo_fits. unfold send_capacity. simpl. lia.
  - done.
Defined.

End Witnesses.
End LoopSafety.
