(* ===== verification/System.v ===== *)
(** The whole client: the thread of the io loop, one step at a time, in any interleaving with the calls of the
    application, the commands of the dispatcher and the futures of the runtime, which share its channels and
    its heartbeat. *)
From S2P Require Import Prelude.
From S2P Require Import IdSequence.
From S2P Require Import Buffer.
From S2P Require Import Types.
From S2P Require Import Env.
From S2P Require Import Frames.
From S2P Require Import Connection.
From S2P Require Import Channel.
From S2P Require Import Generated.
From S2P Require Import Channels.
From S2P Require Import Heartbeat.
From S2P Require Import SocketState.
From S2P Require Import IoLoop.
From S2P Require Import Supervisor.
From S2P Require Import InternalRPC.
From S2P Require Import Handshake.
From S2P Require Import Invariant.
From S2P Require Import LoopSafety.
Open Scope Z_scope.

Module System.
Import Invariant LoopSafety.
Section System.
Context `{AT : AmqpTypes} `{AP : !AmqpProtocol} `{CH : !ConnectionHandle}
  `{HZ : !HashOrder Z} `{HS : !HashOrder string} `{TR : !Transport} `{FC : !FrameCodec}.

(** Where the thread is in [start]: connecting, in the [while] with the [res] it has, after it, or over. *)
Inductive Phase := Dialing | InSession (r : res unit) | AfterSession (r : res unit) | Ended (r : res unit) | Crashed.

(** The channels and the heartbeat are those of [loop]; [rest] holds the other parts of the dispatcher. *)
Record t := mk { loop : IoLoop.t; rest : InternalRPC.t; phase : Phase }.

Definition set_loop l s := mk l (rest s) (phase s).

(** What the dispatcher and the handles of the application see. *)
Definition view (s : t) : InternalRPC.t :=
  InternalRPC.set_heartbeat (IoLoop.heartbeat (loop s)) (InternalRPC.set_channels (IoLoop.channels (loop s)) (rest s)).
Definition put_view (x : InternalRPC.t) (s : t) : t :=
  mk (IoLoop.set_heartbeat (InternalRPC.heartbeat x) (IoLoop.set_channels (InternalRPC.channels x) (loop s))) x (phase s).
Definition outside {A} (m : M InternalRPC.t A) : M t A := zoom view put_view m.

(** The actions of the other threads. *)
Definition is_outside (a : Action) : bool :=
  match a with AFrame _ | AWrite _ | ARetry _ | AReject _ | AGiveUp _ | AError _ => false | _ => true end.

(** ** The steps of the thread *)

Section Steps.
Variable version : Z * Z * Z.

Inductive thread_step : IoLoop.t → Env → Phase → IoLoop.t → Env → Phase → Prop :=
| step_connected st l e :
    thread_step l e Dialing (IoLoop.set_half_closed false (IoLoop.set_stream st l)) e (InSession (Ok tt))
| step_refused err l e l' e' :
    IoLoop.in_channels (Supervisor.abandon_connect err) l e = (tt, l', e') →
    thread_step l e Dialing l' e' (Ended (Err err))
| step_turn fuel now ev r l e r' left l' e' :
    IoLoop.should_continue l e = true →
    Supervisor.turn fuel now ev r l e = (IoLoop.Done (Ok (r', left)), l', e') →
    thread_step l e (InSession r) l' e' (if left : bool then AfterSession r' else InSession r')
| step_panic fuel now ev r l e l' e' :
    IoLoop.should_continue l e = true →
    Supervisor.turn fuel now ev r l e = (IoLoop.Panic, l', e') →
    thread_step l e (InSession r) l' e' Crashed
| step_leave r l e :
    IoLoop.should_continue l e = false →
    thread_step l e (InSession r) l e (AfterSession r)
| step_after r l e n l' e' :
    Supervisor.after_session version r l e = (n, l', e') →
    thread_step l e (AfterSession r) l' e' (match n with Supervisor.Again => Dialing | Supervisor.Exit r' => Ended r' end).

Inductive step : t * Env → t * Env → Prop :=
| step_thread s e l' e' p' : thread_step (loop s) e (phase s) l' e' p' → step (s, e) (mk l' (rest s) p', e')
| step_outside a s e s' e' : is_outside a = true → outside (act a) s e = (tt, s', e') → step (s, e) (s', e').
End Steps.

(** The client [connector] makes. *)
Definition initial (conf : Configuration.t) (vhost : ShortString) (auto_recover : bool) (now : Z) (so : SocketState.t)
    (delays : list Z) (st : Stream) (e : Env) : t * Env :=
  let '(x, _, e0) := Handshake.connector conf vhost auto_recover now tt e in
  (mk (IoLoop.new (InternalRPC.channels x) so (InternalRPC.heartbeat x) delays st) x Dialing, e0).

(** ** The invariant *)

Hypothesis HC : codec_safe.

Record inv (s : t) : Prop := {
  i_loop : loop_ok (loop s);
  i_crashed : phase s = Crashed → short_wrap (loop s);
}.

Lemma thread_step_inv v l e p l' e' p' : thread_step v l e p l' e' p' → loop_ok l →
  loop_ok l' ∧ (p' = Crashed → short_wrap l').
Proof.
  intros Hstep Hl. destruct Hstep as [st l e|err l e l' e' E|fuel now ev r l e r' left l' e' _ E|fuel now ev r l e l' e' _ E|r l e _|r l e n l' e' E].
  - split; [by destruct Hl|done].
  - pose proof (abandon_ok err l e Hl) as H. by rewrite E in H.
  - destruct (turn_runs HC fuel now ev r l e Hl) as [H _]. rewrite E in H. split; [exact H|by destruct left].
  - destruct (turn_runs HC fuel now ev r l e Hl) as [H H2]. rewrite E in H, H2. split; [exact H|]. intros _. by apply cannot_grow_wrap, H2.
  - done.
  - pose proof (after_session_ok v r l e Hl) as H. rewrite E in H. split; [exact H|by destruct n].
Qed.

(** The other threads leave the buffers alone. *)
Lemma outside_inv {A} (m : M InternalRPC.t A) s e s' a e' : Preserves rpc_ok m → inv s → outside m s e = (a, s', e') → inv s'.
Proof.
  intros Hm [Hs Hc]. unfold outside, zoom. assert (Hv : rpc_ok (view s)) by apply (lo_client _ Hs). specialize (Hm (view s) e Hv).
  destruct (m (view s) e) as [[a' x] e1]. intros [= <- <- <-]. split; [destruct Hs; by split|exact Hc].
Qed.

Lemma step_inv v x y : step v x y → inv x.1 → inv y.1.
Proof.
  destruct 1 as [s e l' e' p' Ht|a s e s' e' Ha E]; intros Hi.
  - destruct (thread_step_inv _ _ _ _ _ _ _ Ht (i_loop _ Hi)) as [H1 H2]. by split.
  - eapply outside_inv; [|exact Hi|exact E]. apply rpc_act. by destruct a.
Qed.

Lemma reached_inv v x y : rtc (step v) x y → inv x.1 → inv y.1.
Proof. induction 1 as [|x y z Hs _ IH]; [done|]. intros Hi. by eapply IH, step_inv. Qed.

Lemma initial_inv conf vh ar now so delays st e : rpc e = [] → conf_ok conf → inv (initial conf vh ar now so delays st e).1.
Proof.
  intros He Hc. unfold initial. destruct (Handshake.connector_eq conf vh ar now tt e He) as [w ->]. split; [|done].
  apply new_ok, (parts_ok conf vh ar now (next_ref e) Hc).
Qed.

(** ** The thread goes on *)

(** A turn that the loop ends, the supervisor ends too. *)
Lemma turn_of_run fuel now ev r l e o l1 e1 : IoLoop.run fuel now ev l e = (IoLoop.Done o, l1, e1) → loop_ok l1 →
  ∃ r' left l' e', Supervisor.turn fuel now ev r l e = (IoLoop.Done (Ok (r', left)), l', e').
Proof.
  intros E Hl. unfold Supervisor.turn, IoLoop.io_catch at 1. rewrite (bind_eq _ _ _ _ _ _ _ E). destruct o as [[]|err]; [by eexists _, _, _, _|].
  destruct (critical_error_ends (A := unit) err l1 e1 Hl) as (l2 & e2 & E2 & _). cbv beta iota zeta. unfold IoLoop.io_catch.
  rewrite (bind_eq _ _ _ _ _ _ _ E2). by eexists _, _, _, _.
Qed.

Lemma thread_goes_on v l e p (now : Z) (ev : SocketState.SocketEvent) : polite → loop_ok l → all_fit l → growable l →
  match p with Ended _ | Crashed => False | _ => True end →
  ∃ l' e' p', thread_step v l e p l' e' p' ∧ p' ≠ Crashed.
Proof.
  intros Hp Hl Hf Hg Hph. destruct p as [|r|r|r|]; try done.
  - eexists _, _, _. split; [by apply (step_connected v (IoLoop.stream l))|done].
  - destruct (IoLoop.should_continue l e) eqn:Ec; [|eexists _, _, _; split; [by apply step_leave|done]].
    destruct (run_settles HC now ev l e Hp (conj Hl Hf) Hg) as (n & o & l1 & e1 & Hn & Hl1).
    destruct (turn_of_run n now ev r l e o l1 e1 (Hn n (le_n n)) Hl1) as (r' & left & l' & e' & E).
    eexists _, _, _. split; [by eapply step_turn|by destruct left].
  - destruct (Supervisor.after_session v r l e) as [[n l'] e'] eqn:E. eexists _, _, _. split; [by eapply step_after|by destruct n].
Qed.

(** ** The steps are those of [start] *)

(** Nothing happens around the turns. *)
Definition alone (i : Supervisor.Input) : Prop := Supervisor.i_others i = mret tt.

Lemma thread_steps v l e p l' e' p' x y : thread_step v l e p l' e' p' →
  rtc (step v) (mk l' x p', e') y → rtc (step v) (mk l x p, e) y.
Proof. intros Ht Hr. eapply rtc_l; [|exact Hr]. by apply (step_thread v (mk l x p)). Qed.

Lemma session_steps v fuel x inputs : Forall alone inputs → ∀ r l e r' l' e',
  Supervisor.session fuel inputs r l e = (IoLoop.Done (Ok r'), l', e') →
  rtc (step v) (mk l x (InSession r), e) (mk l' x (AfterSession r'), e').
Proof.
  induction 1 as [|i inputs Hi _ IH]; intros r l e r' l' e'; cbn [Supervisor.session]; rewrite bind_get, bind_get_env;
    (destruct (IoLoop.should_continue l e) eqn:Ec; cbn [negb]; [|intros [= <- <- <-]; by apply rtc_once, (step_thread v (mk l x (InSession r))), step_leave]).
  { done. }
  rewrite Hi. erewrite (bind_eq _ _ tt _ _ l e) by (unfold IoLoop.in_channels, zoom; by destruct l).
  destruct (Supervisor.turn fuel (Supervisor.i_now i) (Supervisor.i_event i) r l e) as [[[[[r1 left]|err]| |] l1] e1] eqn:E.
  - erewrite IoLoop.io_bind_ok by exact E. cbn [fst snd]. intros Hrest. eapply thread_steps; [by eapply step_turn|].
    destruct left; [injection Hrest as <- <- <-; apply rtc_refl|by apply IH].
  - by erewrite IoLoop.io_bind_err by exact E.
  - unfold IoLoop.io_bind. by rewrite (bind_eq _ _ _ _ _ _ _ E).
  - unfold IoLoop.io_bind. by rewrite (bind_eq _ _ _ _ _ _ _ E).
Qed.

Lemma session_ok_result fuel inputs : ∀ r l e err l' e', Supervisor.session fuel inputs r l e ≠ (IoLoop.Done (Err err), l', e').
Proof.
  induction inputs as [|i inputs IH]; intros r l e err l' e'; cbn [Supervisor.session]; rewrite bind_get, bind_get_env;
    destruct (IoLoop.should_continue l e); cbn [negb]; try done.
  unfold mbind at 1, M_bind at 1. destruct (IoLoop.in_channels _ l e) as [[[] l1] e1].
  assert (Hturn : ∀ err l2 e2, Supervisor.turn fuel (Supervisor.i_now i) (Supervisor.i_event i) r l1 e1 ≠ (IoLoop.Done (Err err), l2, e2)).
  { intros err2 l2 e2. unfold Supervisor.turn, IoLoop.io_catch, mbind, M_bind, IoLoop.io_ret, mret, M_ret, get. repeat case_match; by simplify_eq/=. }
  destruct (Supervisor.turn fuel (Supervisor.i_now i) (Supervisor.i_event i) r l1 e1) as [[[[[r1 left]|err2]| |] l2] e2] eqn:E.
  - erewrite IoLoop.io_bind_ok by exact E. destruct left; [done|apply IH].
  - by destruct (Hturn err2 l2 e2).
  - unfold IoLoop.io_bind. by rewrite (bind_eq _ _ _ _ _ _ _ E).
  - unfold IoLoop.io_bind. by rewrite (bind_eq _ _ _ _ _ _ _ E).
Qed.

(** A run of [start] that returns, with nothing happening around it, is a sequence of steps of the thread, with the same
    loop, the same outcome and the same effects. *)
Lemma start_steps v fuel x rounds : Forall (λ ro, Forall alone (Supervisor.r_inputs ro)) rounds → ∀ l e r l' e',
  Supervisor.start fuel v rounds l e = (IoLoop.Done r, l', e') →
  rtc (step v) (mk l x Dialing, e) (mk l' x (Ended r), e').
Proof.
  induction 1 as [|ro rounds Hi _ IH]; intros l e r l' e'; cbn [Supervisor.start]; [done|]. rewrite bind_get.
  destruct (Supervisor.connect_retry _ _) as [[st|err]|]; [..|done]; cycle 1.
  { destruct (IoLoop.in_channels (Supervisor.abandon_connect err) l e) as [[[] l1] e1] eqn:E. rewrite (bind_eq _ _ _ _ _ _ _ E).
    intros [= <- <- <-]. eapply rtc_once, (step_thread v (mk l x Dialing)). by apply step_refused. }
  rewrite bind_modify, bind_modify. intros Hrest. eapply thread_steps; [by apply (step_connected v st)|].
  destruct (Supervisor.session fuel (Supervisor.r_inputs ro) (Ok tt) (IoLoop.set_half_closed false (IoLoop.set_stream st l)) e) as [[[[r1|err]| |] l1] e1] eqn:E.
  - erewrite IoLoop.io_bind_ok in Hrest by exact E. etrans; [by eapply session_steps|].
    destruct (Supervisor.after_session v r1 l1 e1) as [[n l2] e2] eqn:E2. rewrite (bind_eq _ _ _ _ _ _ _ E2) in Hrest.
    eapply thread_steps; [by apply step_after|]. destruct n as [|r2]; [by apply IH|]. injection Hrest as <- <- <-. apply rtc_refl.
  - by destruct (session_ok_result _ _ _ _ _ _ _ _ E).
  - unfold IoLoop.io_bind in Hrest. by rewrite (bind_eq _ _ _ _ _ _ _ E) in Hrest.
  - unfold IoLoop.io_bind in Hrest. by rewrite (bind_eq _ _ _ _ _ _ _ E) in Hrest.
Qed.

(** ** The theorem *)

(** C10: the whole client is safe.  The io thread, with the frames that it parses itself, the
    dispatcher, the futures and the application take their steps in any order, over any number of connections: from
    the client that [connector] makes, every channel stays in the map under its own id, a word of 16 bits that is not 0, its parts
    agree, its registry is one that the answers of a server can lead to and its counters keep to their
    widths; both buffers stay well formed; and the io thread is not lost to a panic, unless a buffer whose data wraps
    had to grow.  It is not stuck either: as long as it did not end it has a next step, without a panic, when the socket is well behaved, the frames
    queued fit the send buffer and the buffers can grow. *)
Theorem system_safe v conf vh ar now so delays st e s' e' : rpc e = [] → conf_ok conf →
  rtc (step v) (initial conf vh ar now so delays st e) (s', e') →
  let cs := IoLoop.channels (loop s') in
  (consistent 0 (Channels.channel0 cs) ∧ channel_words (Channels.channel0 cs)) ∧
  (∀ i c, Channels.channels cs !! i = Some c → 1 ≤ i < 2 ^ 16 ∧ consistent i c ∧ channel_words c) ∧
  Buffer.wf (IoLoop.receive_buffer (loop s')) ∧ Buffer.wf (IoLoop.send_buffer (loop s')) ∧
  match phase s' with
  | Ended _ => True
  | Crashed => short_wrap (loop s')
  | p => polite → all_fit (loop s') → growable (loop s') → ∃ l' e'' p', thread_step v (loop s') e' p l' e'' p' ∧ p' ≠ Crashed
  end.
Proof.
  intros He Hc Hr. destruct (reached_inv _ _ _ Hr (initial_inv conf vh ar now so delays st e He Hc)) as [Hl Hp].
  destruct (Hl) as [Hcl Hb1 Hb2]. pose proof (cl_zero _ Hcl) as H0. split_and!; try done.
  - by apply chan_consistent.
  - by eapply chan_words.
  - intros i c Hi. destruct (cl_open _ Hcl i c Hi) as [? Hok]. split; [done|]. split; [by apply chan_consistent|by eapply chan_words].
  - simpl in *. destruct (phase s') eqn:Ep; try done; [..|by apply Hp]; intros; by apply (thread_goes_on v _ _ _ 0 SocketState.Wake).
Qed.

End System.

Section Witnesses.
#[local] Existing Instances number_types number_protocol number_handle.
#[local] Existing Instances IoLoop.z_order IoLoop.s_order IoLoop.demo_codec IoLoop.demo_socket.

Definition demo_initial : t * Env := initial (Configuration.mk 10 4096 0) "/" true 0 SocketState.default [1] ([], []) env_empty.

(** The application queues a command and the socket connects. *)
Definition demo_command : unit * t * Env := outside (act (ACommand CStartChannelsRecovery)) demo_initial.1 demo_initial.2.
Definition demo_reached : t :=
  mk (IoLoop.set_half_closed false (IoLoop.set_stream ([], [[Byte.x08]]) (loop (state_of demo_command)))) (rest (state_of demo_command)) (InSession (Ok tt)).

Lemma outcome_eq {S A} (x : A * S * Env) a : result_of x = a → x = (a, state_of x, env_of x).
Proof. destruct x as [[b s] e]. by intros <-. Qed.

Lemma demo_steps : rtc (step (0, 9, 1)) demo_initial (demo_reached, env_of demo_command).
Proof.
  eapply rtc_l; [apply (step_outside (0, 9, 1) (ACommand CStartChannelsRecovery) demo_initial.1 demo_initial.2); [done|]; apply (outcome_eq demo_command tt); reflexivity|].
  apply rtc_once, step_thread. apply (step_connected (TR := IoLoop.demo_socket) (0, 9, 1) ([], [[Byte.x08]])).
Qed.

Lemma system_safe_witness : consistent 0 (Channels.channel0 (IoLoop.channels (loop demo_reached))) ∧
  Buffer.wf (IoLoop.receive_buffer (loop demo_reached)) ∧
  ∃ l' e'' p', thread_step (0, 9, 1) (loop demo_reached) (env_of demo_command) (InSession (Ok tt)) l' e'' p' ∧ p' ≠ Crashed.
Proof.
  destruct (system_safe (AT := number_types) (AP := number_protocol) (CH := number_handle) (TR := IoLoop.demo_socket) (FC := IoLoop.demo_codec) demo_codec_safe
    (0, 9, 1) (Configuration.mk 10 4096 0) "/" true 0 SocketState.default [1] ([], []) env_empty demo_reached (env_of demo_command) eq_refl demo_conf_ok demo_steps)
    as ([H1 _] & _ & H2 & _ & H3).
  split; [exact H1|]. split; [exact H2|]. apply H3; [apply demo_polite| |].
  - apply Forall_forall. intros fe _. apply demo_fits. unfold send_capacity. apply (bool_decide_unpack _). by vm_compute.
  - intros _ Hc. by vm_compute in Hc.
Defined.

End Witnesses.
End System.
